(** * Live conversation orchestrator (server/live-ai-module.js)

    A shallow embedding of [LiveAIModule]: the conversation history and its
    two clean-up passes ([sanitizeConversation], [pruneOldImages]), the
    sentence-boundary streamer ([handleTextChunkForTTS]), the tool dispatcher
    ([handleToolCall]) and the event-driven control flow of the main cycle
    ([sendToClaudeAndSpeak]) and of the recurring check
    ([startRecurringCheck]).

    JavaScript runs the module on one thread: a handler runs until its next
    [await], and other handlers run only while it is suspended.  The control
    flow is therefore a transition system whose state is the module's fields
    together with the suspended call chain, and whose labels are the events
    delivered by the event loop. *)

From Stdlib Require Import String Ascii List ZArith Lia Bool Arith DecimalString.
From stdpp Require Import base list.
Import ListNotations.
Local Open Scope string_scope.
Local Open Scope nat_scope.
Local Open Scope list_scope.

(** ** JavaScript strings

    A character of a Rocq string stands for the UTF-16 code unit of the same
    number, so the strings of the model are the JavaScript strings whose code
    units are below 256. *)

Module JsString.

(** White space and line terminators below U+0100: what [\s] matches and
    what [String.prototype.trim] removes. *)
Definition isSpace (c : ascii) : bool :=
  let n := nat_of_ascii c in
  ((n =? 9) || (n =? 10) || (n =? 11) || (n =? 12) || (n =? 13)
   || (n =? 32) || (n =? 160))%nat.

(** The character class [[.!?]]. *)
Definition isTerminator (c : ascii) : bool :=
  let n := nat_of_ascii c in
  ((n =? 46) || (n =? 33) || (n =? 63))%nat.

(** [blank s] is [s.trim() === ''], so [!s.trim()] is [blank s]. *)
Fixpoint blank (s : string) : bool :=
  match s with
  | EmptyString => true
  | String c s' => isSpace c && blank s'
  end.

(** [s.includes(needle)]. *)
Definition includes (needle s : string) : bool :=
  match index 0 needle s with
  | Some _ => true
  | None => false
  end.

(** [/[.!?]\s/.exec(s)]: the index of the first sentence terminator that is
    followed by white space.  The match is always two code units long. *)
Fixpoint sentenceEnd (s : string) : option nat :=
  match s with
  | EmptyString => None
  | String c s' =>
      match s' with
      | String d _ =>
          if isTerminator c && isSpace d then Some 0
          else option_map S (sentenceEnd s')
      | EmptyString => None
      end
  end.

(** [s.substring(n)]. *)
Definition from (n : nat) (s : string) : string :=
  substring n (String.length s - n) s.

End JsString.

(** ** Data model: turns and content blocks *)

Inductive Role := user | assistant.

Definition Role_eqb (a b : Role) : bool :=
  match a, b with
  | user, user | assistant, assistant => true
  | _, _ => false
  end.

(** Arguments of a tool call, as the handlers destructure them; [None] is a
    property that is absent ([undefined]). *)
Record ToolInput := {
  object_label : option string;
  proficiency : option string;
  previous_step : option Z;
  current_step : option Z;
  key_combo : option string;
  description : option string
}.

(** The tutorial produced by the lesson creator, as far as this module reads
    it. *)
Record Step := { stepNumber : Z; title : string; instruction : string }.

Record Tutorial := { objectLabel : string; totalSteps : Z; steps : list Step }.

(** The result objects of the tool handlers, one constructor per object
    shape. *)
Inductive ToolResult :=
| RTutorialReady (message objectLabel : string) (totalSteps : Z) (steps : list Step)
    (* { success: true, message, objectLabel, totalSteps, steps } *)
| RTutorialFailed (error : string)
    (* { success: false, error } *)
| RStep (currentStep : option Z) (stepTitle stepInstruction : string)
    (* { success: true, currentStep, stepTitle, stepInstruction } *)
| RHotkey
    (* { displayed: true } *)
| RError (error : string).
    (* { error } *)

(** Content blocks.  A [tool_result] block stores [JSON.stringify(result)];
    the model keeps [result] itself in its place. *)
Inductive Block :=
| BText (text : string)
| BImage (media_type data : string)
| BToolUse (id name : string) (input : ToolInput)
| BToolResult (tool_use_id : string) (content : ToolResult).

Definition isText (b : Block) : bool :=
  match b with BText _ => true | _ => false end.
Definition isImage (b : Block) : bool :=
  match b with BImage _ _ => true | _ => false end.
Definition isToolUse (b : Block) : bool :=
  match b with BToolUse _ _ _ => true | _ => false end.
Definition isToolResult (b : Block) : bool :=
  match b with BToolResult _ _ => true | _ => false end.

(** [msg.content] is a string or an array of blocks. *)
Inductive Content :=
| CString (s : string)
| CBlocks (blocks : list Block).

Record Msg := { role : Role; content : Content }.

Definition MAX_CONTEXT_IMAGES : nat := 10.

Definition interruptedPlaceholder : string := "[Response interrupted by user]".

(** [Array.isArray(c) ? c : []]. *)
Definition blocksOrEmpty (c : Content) : list Block :=
  match c with
  | CBlocks bs => bs
  | CString _ => []
  end.

(** [b.text?.trim()] as a truth value: only a text block has a [text]. *)
Definition hasSpokenText (b : Block) : bool :=
  match b with
  | BText t => negb (JsString.blank t)
  | _ => false
  end.

(** ** sanitizeConversation *)

(** The test of the lines 452-456: the next message is a user message that
    carries a [tool_result] block. *)
Definition followedByToolResult (next : option Msg) : bool :=
  match next with
  | Some n =>
      Role_eqb (role n) user && existsb isToolResult (blocksOrEmpty (content n))
  | None => false
  end.

(** The replacement content of an orphaned message (lines 459-464). *)
Definition strippedContent (blocks : list Block) : Content :=
  let textBlocks := List.filter isText blocks in
  if (0 <? length textBlocks) && existsb hasSpokenText textBlocks then
    match textBlocks with
    | [BText t] => CString t
    | _ => CBlocks textBlocks
    end
  else CString interruptedPlaceholder.

(** One iteration of the loop body, for the message [msg] at index [i] with
    [next] the message at index [i + 1]. *)
Definition sanitizeMsg (msg : Msg) (next : option Msg) : Msg :=
  if negb (Role_eqb (role msg) assistant) then msg
  else
    let blocks := blocksOrEmpty (content msg) in
    if negb (existsb isToolUse blocks) then msg
    else if followedByToolResult next then msg
    else {| role := role msg; content := strippedContent blocks |}.

(** The loop runs from the last index down to 0 and assigns only
    [msg.content] at index [i]; the message at [i + 1] it reads has already
    been visited.  [sanitizeConversation conv] visits the messages of [conv] in that
    order: the tail first, then the head against the head of the visited
    tail. *)
Fixpoint sanitizeConversation (conv : list Msg) : list Msg :=
  match conv with
  | [] => []
  | msg :: rest =>
      let rest' := sanitizeConversation rest in
      sanitizeMsg msg (head rest') :: rest'
  end.

(** ** pruneOldImages *)

(** [Array.isArray(msg.content) && msg.content.some(b => b.type === 'image')]. *)
Definition hasImage (msg : Msg) : bool :=
  match content msg with
  | CBlocks bs => existsb isImage bs
  | CString _ => false
  end.

(** The first loop: the indices of the image-bearing messages, ascending.
    [i] is the index of the head of [conv]. *)
Fixpoint imageIndicesFrom (i : nat) (conv : list Msg) : list nat :=
  match conv with
  | [] => []
  | msg :: rest =>
      if hasImage msg then i :: imageIndicesFrom (S i) rest
      else imageIndicesFrom (S i) rest
  end.

Definition imageIndices (conv : list Msg) : list nat := imageIndicesFrom 0 conv.

(** The body of the second loop (lines 332-338). *)
Definition stripImages (msg : Msg) : Msg :=
  let textBlocks := List.filter (fun b => negb (isImage b)) (blocksOrEmpty (content msg)) in
  match textBlocks with
  | [BText t] => {| role := role msg; content := CString t |}
  | _ => {| role := role msg; content := CBlocks textBlocks |}
  end.

(** [imageIndices.slice(0, imageIndices.length - MAX_CONTEXT_IMAGES)]. *)
Definition toStrip (conv : list Msg) : list nat :=
  let idx := imageIndices conv in
  take (length idx - MAX_CONTEXT_IMAGES) idx.

Definition pruneOldImages (conv : list Msg) : list Msg :=
  if length (imageIndices conv) <=? MAX_CONTEXT_IMAGES then conv
  else fold_left (fun c idx => alter stripImages idx c) (toStrip conv) conv.

(** ** The sentence-boundary streamer *)

(** The [while] loop of [handleTextChunkForTTS] on the buffer [buf]: the
    sentences handed to [tts.sendTextChunk], in order, and the buffer that is
    left.  Every iteration removes at least two code units, so
    [String.length buf] iterations are enough ([drainSentences_complete]). *)
Fixpoint drainSentences (fuel : nat) (buf : string) : list string * string :=
  match fuel with
  | 0 => ([], buf)
  | S fuel' =>
      match JsString.sentenceEnd buf with
      | None => ([], buf)
      | Some i =>
          let sentence := substring 0 (i + 2) buf in
          let (more, left) := drainSentences fuel' (JsString.from (i + 2) buf) in
          (sentence :: more, left)
      end
  end.

(** ** Module state and effects *)

(** What the module reads of [agents/<toolType>-tutor.json]. *)
Record Config := {
  toolType : string;
  recurringCheck_enabled : bool;
  recurringCheck_idleThresholdMs : option Z
}.

Inductive SocketEvent :=
| session_started
| user_text (text : string)
| agent_text (text : string)
| agent_text_continue (text : string)
| agent_audio (base64 : string)
| interrupt
| tutorial_loading (objectLabel : option string)
| tutorial_ready (t : Tutorial)
| tutorial_error (error : string)
| step_update (previousStep currentStep : option Z) (totalSteps : Z)
| hotkey_display (keyCombo description : option string).

(** The calls the module makes on its collaborators, in program order.  The
    system prompt and the tool list of a generation request do not depend on
    the history and are left out. *)
Inductive Output :=
| SocketEmit (e : SocketEvent)
| ClaudeStream (messages : list Msg)    (* claude.getStreamingResponse *)
| ClaudeRequest (messages : list Msg)   (* claude.getResponse *)
| ClaudeAbort                           (* claude.abortStream *)
| TtsSendTextChunk (chunk : string)
| TtsSendText (text : string)
| TtsFlush
| TtsCloseStream
| TtsInterrupt
| Invoke (name : string) (input : ToolInput) (id : string)   (* handleToolCall *)
| Generate (object_label proficiency : option string).       (* lessonCreator.generate *)

(** The fields of [LiveAIModule] that its control flow reads, and the trace
    [out] of the calls made so far.  [recurringCheckInterval] records whether
    the timer is installed. *)
Record Session := {
  currentConversation : list Msg;
  latestFrame : option string;
  lastUserInputAt : Z;
  isAgentCurrentlySpeaking : bool;
  currentTutorial : option Tutorial;
  currentStepIndex : option Z;
  recurringCheckInterval : bool;
  isRecurringCheckRunning : bool;
  recurringCheckCancelled : bool;
  isProcessing : bool;
  interrupted : bool;
  hasPendingUserMessage : bool;
  sentenceBuffer : string;
  config : option Config;
  out : list Output
}.

Definition set_currentConversation (v : list Msg) (s : Session) : Session :=
  {| currentConversation := v;
     latestFrame := latestFrame s;
     lastUserInputAt := lastUserInputAt s;
     isAgentCurrentlySpeaking := isAgentCurrentlySpeaking s;
     currentTutorial := currentTutorial s;
     currentStepIndex := currentStepIndex s;
     recurringCheckInterval := recurringCheckInterval s;
     isRecurringCheckRunning := isRecurringCheckRunning s;
     recurringCheckCancelled := recurringCheckCancelled s;
     isProcessing := isProcessing s;
     interrupted := interrupted s;
     hasPendingUserMessage := hasPendingUserMessage s;
     sentenceBuffer := sentenceBuffer s;
     config := config s;
     out := out s |}.

Definition set_latestFrame (v : option string) (s : Session) : Session :=
  {| currentConversation := currentConversation s;
     latestFrame := v;
     lastUserInputAt := lastUserInputAt s;
     isAgentCurrentlySpeaking := isAgentCurrentlySpeaking s;
     currentTutorial := currentTutorial s;
     currentStepIndex := currentStepIndex s;
     recurringCheckInterval := recurringCheckInterval s;
     isRecurringCheckRunning := isRecurringCheckRunning s;
     recurringCheckCancelled := recurringCheckCancelled s;
     isProcessing := isProcessing s;
     interrupted := interrupted s;
     hasPendingUserMessage := hasPendingUserMessage s;
     sentenceBuffer := sentenceBuffer s;
     config := config s;
     out := out s |}.

Definition set_lastUserInputAt (v : Z) (s : Session) : Session :=
  {| currentConversation := currentConversation s;
     latestFrame := latestFrame s;
     lastUserInputAt := v;
     isAgentCurrentlySpeaking := isAgentCurrentlySpeaking s;
     currentTutorial := currentTutorial s;
     currentStepIndex := currentStepIndex s;
     recurringCheckInterval := recurringCheckInterval s;
     isRecurringCheckRunning := isRecurringCheckRunning s;
     recurringCheckCancelled := recurringCheckCancelled s;
     isProcessing := isProcessing s;
     interrupted := interrupted s;
     hasPendingUserMessage := hasPendingUserMessage s;
     sentenceBuffer := sentenceBuffer s;
     config := config s;
     out := out s |}.

Definition set_isAgentCurrentlySpeaking (v : bool) (s : Session) : Session :=
  {| currentConversation := currentConversation s;
     latestFrame := latestFrame s;
     lastUserInputAt := lastUserInputAt s;
     isAgentCurrentlySpeaking := v;
     currentTutorial := currentTutorial s;
     currentStepIndex := currentStepIndex s;
     recurringCheckInterval := recurringCheckInterval s;
     isRecurringCheckRunning := isRecurringCheckRunning s;
     recurringCheckCancelled := recurringCheckCancelled s;
     isProcessing := isProcessing s;
     interrupted := interrupted s;
     hasPendingUserMessage := hasPendingUserMessage s;
     sentenceBuffer := sentenceBuffer s;
     config := config s;
     out := out s |}.

Definition set_currentTutorial (v : option Tutorial) (s : Session) : Session :=
  {| currentConversation := currentConversation s;
     latestFrame := latestFrame s;
     lastUserInputAt := lastUserInputAt s;
     isAgentCurrentlySpeaking := isAgentCurrentlySpeaking s;
     currentTutorial := v;
     currentStepIndex := currentStepIndex s;
     recurringCheckInterval := recurringCheckInterval s;
     isRecurringCheckRunning := isRecurringCheckRunning s;
     recurringCheckCancelled := recurringCheckCancelled s;
     isProcessing := isProcessing s;
     interrupted := interrupted s;
     hasPendingUserMessage := hasPendingUserMessage s;
     sentenceBuffer := sentenceBuffer s;
     config := config s;
     out := out s |}.

Definition set_currentStepIndex (v : option Z) (s : Session) : Session :=
  {| currentConversation := currentConversation s;
     latestFrame := latestFrame s;
     lastUserInputAt := lastUserInputAt s;
     isAgentCurrentlySpeaking := isAgentCurrentlySpeaking s;
     currentTutorial := currentTutorial s;
     currentStepIndex := v;
     recurringCheckInterval := recurringCheckInterval s;
     isRecurringCheckRunning := isRecurringCheckRunning s;
     recurringCheckCancelled := recurringCheckCancelled s;
     isProcessing := isProcessing s;
     interrupted := interrupted s;
     hasPendingUserMessage := hasPendingUserMessage s;
     sentenceBuffer := sentenceBuffer s;
     config := config s;
     out := out s |}.

Definition set_recurringCheckInterval (v : bool) (s : Session) : Session :=
  {| currentConversation := currentConversation s;
     latestFrame := latestFrame s;
     lastUserInputAt := lastUserInputAt s;
     isAgentCurrentlySpeaking := isAgentCurrentlySpeaking s;
     currentTutorial := currentTutorial s;
     currentStepIndex := currentStepIndex s;
     recurringCheckInterval := v;
     isRecurringCheckRunning := isRecurringCheckRunning s;
     recurringCheckCancelled := recurringCheckCancelled s;
     isProcessing := isProcessing s;
     interrupted := interrupted s;
     hasPendingUserMessage := hasPendingUserMessage s;
     sentenceBuffer := sentenceBuffer s;
     config := config s;
     out := out s |}.

Definition set_isRecurringCheckRunning (v : bool) (s : Session) : Session :=
  {| currentConversation := currentConversation s;
     latestFrame := latestFrame s;
     lastUserInputAt := lastUserInputAt s;
     isAgentCurrentlySpeaking := isAgentCurrentlySpeaking s;
     currentTutorial := currentTutorial s;
     currentStepIndex := currentStepIndex s;
     recurringCheckInterval := recurringCheckInterval s;
     isRecurringCheckRunning := v;
     recurringCheckCancelled := recurringCheckCancelled s;
     isProcessing := isProcessing s;
     interrupted := interrupted s;
     hasPendingUserMessage := hasPendingUserMessage s;
     sentenceBuffer := sentenceBuffer s;
     config := config s;
     out := out s |}.

Definition set_recurringCheckCancelled (v : bool) (s : Session) : Session :=
  {| currentConversation := currentConversation s;
     latestFrame := latestFrame s;
     lastUserInputAt := lastUserInputAt s;
     isAgentCurrentlySpeaking := isAgentCurrentlySpeaking s;
     currentTutorial := currentTutorial s;
     currentStepIndex := currentStepIndex s;
     recurringCheckInterval := recurringCheckInterval s;
     isRecurringCheckRunning := isRecurringCheckRunning s;
     recurringCheckCancelled := v;
     isProcessing := isProcessing s;
     interrupted := interrupted s;
     hasPendingUserMessage := hasPendingUserMessage s;
     sentenceBuffer := sentenceBuffer s;
     config := config s;
     out := out s |}.

Definition set_isProcessing (v : bool) (s : Session) : Session :=
  {| currentConversation := currentConversation s;
     latestFrame := latestFrame s;
     lastUserInputAt := lastUserInputAt s;
     isAgentCurrentlySpeaking := isAgentCurrentlySpeaking s;
     currentTutorial := currentTutorial s;
     currentStepIndex := currentStepIndex s;
     recurringCheckInterval := recurringCheckInterval s;
     isRecurringCheckRunning := isRecurringCheckRunning s;
     recurringCheckCancelled := recurringCheckCancelled s;
     isProcessing := v;
     interrupted := interrupted s;
     hasPendingUserMessage := hasPendingUserMessage s;
     sentenceBuffer := sentenceBuffer s;
     config := config s;
     out := out s |}.

Definition set_interrupted (v : bool) (s : Session) : Session :=
  {| currentConversation := currentConversation s;
     latestFrame := latestFrame s;
     lastUserInputAt := lastUserInputAt s;
     isAgentCurrentlySpeaking := isAgentCurrentlySpeaking s;
     currentTutorial := currentTutorial s;
     currentStepIndex := currentStepIndex s;
     recurringCheckInterval := recurringCheckInterval s;
     isRecurringCheckRunning := isRecurringCheckRunning s;
     recurringCheckCancelled := recurringCheckCancelled s;
     isProcessing := isProcessing s;
     interrupted := v;
     hasPendingUserMessage := hasPendingUserMessage s;
     sentenceBuffer := sentenceBuffer s;
     config := config s;
     out := out s |}.

Definition set_hasPendingUserMessage (v : bool) (s : Session) : Session :=
  {| currentConversation := currentConversation s;
     latestFrame := latestFrame s;
     lastUserInputAt := lastUserInputAt s;
     isAgentCurrentlySpeaking := isAgentCurrentlySpeaking s;
     currentTutorial := currentTutorial s;
     currentStepIndex := currentStepIndex s;
     recurringCheckInterval := recurringCheckInterval s;
     isRecurringCheckRunning := isRecurringCheckRunning s;
     recurringCheckCancelled := recurringCheckCancelled s;
     isProcessing := isProcessing s;
     interrupted := interrupted s;
     hasPendingUserMessage := v;
     sentenceBuffer := sentenceBuffer s;
     config := config s;
     out := out s |}.

Definition set_sentenceBuffer (v : string) (s : Session) : Session :=
  {| currentConversation := currentConversation s;
     latestFrame := latestFrame s;
     lastUserInputAt := lastUserInputAt s;
     isAgentCurrentlySpeaking := isAgentCurrentlySpeaking s;
     currentTutorial := currentTutorial s;
     currentStepIndex := currentStepIndex s;
     recurringCheckInterval := recurringCheckInterval s;
     isRecurringCheckRunning := isRecurringCheckRunning s;
     recurringCheckCancelled := recurringCheckCancelled s;
     isProcessing := isProcessing s;
     interrupted := interrupted s;
     hasPendingUserMessage := hasPendingUserMessage s;
     sentenceBuffer := v;
     config := config s;
     out := out s |}.

Definition set_config (v : option Config) (s : Session) : Session :=
  {| currentConversation := currentConversation s;
     latestFrame := latestFrame s;
     lastUserInputAt := lastUserInputAt s;
     isAgentCurrentlySpeaking := isAgentCurrentlySpeaking s;
     currentTutorial := currentTutorial s;
     currentStepIndex := currentStepIndex s;
     recurringCheckInterval := recurringCheckInterval s;
     isRecurringCheckRunning := isRecurringCheckRunning s;
     recurringCheckCancelled := recurringCheckCancelled s;
     isProcessing := isProcessing s;
     interrupted := interrupted s;
     hasPendingUserMessage := hasPendingUserMessage s;
     sentenceBuffer := sentenceBuffer s;
     config := v;
     out := out s |}.

Definition set_out (v : list Output) (s : Session) : Session :=
  {| currentConversation := currentConversation s;
     latestFrame := latestFrame s;
     lastUserInputAt := lastUserInputAt s;
     isAgentCurrentlySpeaking := isAgentCurrentlySpeaking s;
     currentTutorial := currentTutorial s;
     currentStepIndex := currentStepIndex s;
     recurringCheckInterval := recurringCheckInterval s;
     isRecurringCheckRunning := isRecurringCheckRunning s;
     recurringCheckCancelled := recurringCheckCancelled s;
     isProcessing := isProcessing s;
     interrupted := interrupted s;
     hasPendingUserMessage := hasPendingUserMessage s;
     sentenceBuffer := sentenceBuffer s;
     config := config s;
     out := v |}.

Definition emit (o : Output) (s : Session) : Session := set_out (out s ++ [o]) s.

Definition emits (os : list Output) (s : Session) : Session := set_out (out s ++ os) s.

Definition push (msg : Msg) (s : Session) : Session :=
  set_currentConversation (currentConversation s ++ [msg]) s.

Definition initial : Session :=
  {| currentConversation := []; latestFrame := None; lastUserInputAt := 0%Z;
     isAgentCurrentlySpeaking := false; currentTutorial := None;
     currentStepIndex := Some 0%Z; recurringCheckInterval := false;
     isRecurringCheckRunning := false; recurringCheckCancelled := false;
     isProcessing := false; interrupted := false; hasPendingUserMessage := false;
     sentenceBuffer := ""; config := None; out := [] |}.

(** ** Handlers that run to completion *)

Definition handleFrame (data : string) (s : Session) : Session :=
  set_latestFrame (Some data) s.

Definition onAudioPlaybackEnded (s : Session) : Session :=
  set_isAgentCurrentlySpeaking false s.

Definition onTTSAudioChunk (base64 : string) (s : Session) : Session :=
  if interrupted s then s
  else set_isAgentCurrentlySpeaking true (emit (SocketEmit (agent_audio base64)) s).

Definition handleInterruption (s : Session) : Session :=
  set_isAgentCurrentlySpeaking false
    (emits [ClaudeAbort; TtsInterrupt; SocketEmit interrupt]
       (set_recurringCheckCancelled true (set_interrupted true s))).

Definition onPartialTranscript (text : string) (s : Session) : Session :=
  if JsString.blank text then s
  else if isAgentCurrentlySpeaking s || isProcessing s || isRecurringCheckRunning s
       then handleInterruption s
       else s.

(** [this.latestFrame] when it is truthy. *)
Definition frame (s : Session) : option string :=
  match latestFrame s with
  | Some "" => None
  | f => f
  end.

Definition buildUserContent (text : string) (s : Session) : Content :=
  match frame s with
  | None => CString text
  | Some data => CBlocks [BImage "image/jpeg" data; BText text]
  end.

Definition handleTextChunkForTTS (chunk : string) (s : Session) : Session :=
  if interrupted s then s
  else
    let buf := String.append (sentenceBuffer s) chunk in
    let (sentences, left) := drainSentences (String.length buf) buf in
    set_sentenceBuffer left (emits (map TtsSendTextChunk sentences) s).

(** The two passes that precede every generation request. *)
Definition prepare (s : Session) : Session :=
  set_currentConversation (pruneOldImages (sanitizeConversation (currentConversation s))) s.

(** ** Tool handlers *)

Record ToolUse := { tu_id : string; tu_name : string; tu_input : ToolInput }.

(** [content.filter(c => c.type === 'tool_use')]. *)
Fixpoint toolUses (blocks : list Block) : list ToolUse :=
  match blocks with
  | [] => []
  | BToolUse id name input :: rest =>
      {| tu_id := id; tu_name := name; tu_input := input |} :: toolUses rest
  | _ :: rest => toolUses rest
  end.

(** [`${z}`] for an integer. *)
Definition decimal (z : Z) : string := NilZero.string_of_int (Z.to_int z).

(** [steps[i]] for a number [i] that may be [NaN] ([None]). *)
Definition stepAt (t : Tutorial) (i : option Z) : option Step :=
  match i with
  | Some z => if (z <? 0)%Z then None else nth_error (steps t) (Z.to_nat z)
  | None => None
  end.

(** [x || fallback] for a string that may be missing. *)
Definition orElse (x : option string) (fallback : string) : string :=
  match x with
  | Some "" | None => fallback
  | Some v => v
  end.

Definition handleProgressedStep (input : ToolInput) (s : Session) : Session * ToolResult :=
  let s1 := set_currentStepIndex (option_map (fun z => (z - 1)%Z) (current_step input)) s in
  let total := match currentTutorial s1 with Some t => totalSteps t | None => 0%Z end in
  let s2 := emit (SocketEmit (step_update (previous_step input) (current_step input) total)) s1 in
  let step := match currentTutorial s2 with
              | Some t => stepAt t (currentStepIndex s2)
              | None => None
              end in
  (s2, RStep (current_step input)
             (orElse (option_map title step) "Unknown")
             (orElse (option_map instruction step) "")).

Definition handleSuggestedHotKey (input : ToolInput) (s : Session) : Session * ToolResult :=
  (emit (SocketEmit (hotkey_display (key_combo input) (description input))) s, RHotkey).

(** [handleCreateTutorial] up to [await this.lessonCreator.generate(...)]. *)
Definition handleCreateTutorial_begin (input : ToolInput) (s : Session) : Session :=
  emit (Generate (object_label input) (proficiency input))
    (emit (SocketEmit (tutorial_loading (object_label input))) s).

Definition tutorialReadyMessage (t : Tutorial) : string :=
  String.append "Tutorial is ready! Announce it to the user enthusiastically. Tell them you'll be building a "
    (String.append (objectLabel t)
       (String.append " in "
          (String.append (decimal (totalSteps t))
             " steps, and ask if they're ready to start."))).

(** [handleCreateTutorial] after the lesson creator has answered: with a
    tutorial, or with the message of the error it threw. *)
Definition handleCreateTutorial_end (answer : Tutorial + string) (s : Session)
  : Session * ToolResult :=
  match answer with
  | inl t =>
      (emit (SocketEmit (tutorial_ready t))
         (set_currentStepIndex (Some 0%Z) (set_currentTutorial (Some t) s)),
       RTutorialReady (tutorialReadyMessage t) (objectLabel t) (totalSteps t) (steps t))
  | inr message =>
      (emit (SocketEmit (tutorial_error message)) s, RTutorialFailed message)
  end.

(** What a call of [handleToolCall] does before control returns to the event
    loop: it returns its result, or it is suspended in the lesson creator. *)
Inductive ToolCall :=
| Returned (s : Session) (result : ToolResult)
| Generating (s : Session).

Definition handleToolCall (name : string) (input : ToolInput) (s : Session) : ToolCall :=
  if String.eqb name "Create_Tutorial" then Generating (handleCreateTutorial_begin input s)
  else if String.eqb name "Progressed_Step" then
    let (s', r) := handleProgressedStep input s in Returned s' r
  else if String.eqb name "Suggested_HotKey" then
    let (s', r) := handleSuggestedHotKey input s in Returned s' r
  else Returned s (RError (String.append "Unknown tool: " name)).

Definition toolResult (tu : ToolUse) (r : ToolResult) : Block :=
  BToolResult (tu_id tu) r.

(** The [for (const toolUse of toolUseBlocks)] loop of both cycles, from the
    tool calls [todo] that are left and the results collected so far.
    [stop] is the flag tested at the head of every iteration. *)
Inductive ToolLoop :=
| LoopDone (s : Session) (toolResults : list Block)      (* every call returned *)
| LoopStopped (s : Session) (toolResults : list Block)   (* the flag was set *)
| LoopSuspended (s : Session) (current : ToolUse) (todo : list ToolUse)
    (toolResults : list Block).

Fixpoint processTools (stop : Session -> bool) (todo : list ToolUse)
    (toolResults : list Block) (s : Session) : ToolLoop :=
  match todo with
  | [] => LoopDone s toolResults
  | tu :: rest =>
      if stop s then LoopStopped s toolResults
      else
        match handleToolCall (tu_name tu) (tu_input tu)
                (emit (Invoke (tu_name tu) (tu_input tu) (tu_id tu)) s) with
        | Returned s' r => processTools stop rest (toolResults ++ [toolResult tu r]) s'
        | Generating s' => LoopSuspended s' tu rest toolResults
        end
  end.

(** The loop resumed when the lesson creator answers the suspended call. *)
Definition resumeTools (stop : Session -> bool) (answer : Tutorial + string)
    (current : ToolUse) (todo : list ToolUse) (toolResults : list Block)
    (s : Session) : ToolLoop :=
  let (s', r) := handleCreateTutorial_end answer s in
  processTools stop todo (toolResults ++ [toolResult current r]) s'.

(** ** The suspended call chain

    [Await] is the [await] at which the running cycle is suspended, with the
    local variables that are live there.  [Frame] is a caller that waits for
    a call of [sendToClaudeAndSpeak] to return. *)

Inductive Await :=
| AwStream (isContinuation : bool) (fullText : string)
    (* line 190: claude.getStreamingResponse *)
| AwFlushChunk (isContinuation : bool) (fullText : string) (response : list Block)
    (* line 210: tts.sendTextChunk of the rest of the buffer *)
| AwMainTool (current : ToolUse) (todo : list ToolUse) (toolResults : list Block)
    (* line 237, in lessonCreator.generate *)
| AwCheckResponse (userContent : Content)
    (* line 505: claude.getResponse *)
| AwCheckSpeak (round : nat) (messagesToCommit : list Msg) (toolUseBlocks : list ToolUse)
    (* line 542: tts.sendText *)
| AwCheckTool (round : nat) (messagesToCommit : list Msg) (isFirstText : bool)
    (current : ToolUse) (todo : list ToolUse) (toolResults : list Block)
    (* line 562, in lessonCreator.generate *)
| AwCheckFollowUp (round : nat) (messagesToCommit : list Msg) (isFirstText : bool).
    (* line 581: claude.getResponse *)

Inductive Frame :=
| KStartSession    (* line 106 *)
| KCommitted       (* line 170 *)
| KRecursion       (* line 254 *)
| KMainFinally     (* line 273 *)
| KCheckFinally.   (* line 612 *)

Record Machine := { sess : Session; task : option (Await * list Frame) }.

Definition suspended (s : Session) (a : Await) (fs : list Frame) : Machine :=
  {| sess := s; task := Some (a, fs) |}.

Definition idle (s : Session) : Machine := {| sess := s; task := None |}.

(** ** sendToClaudeAndSpeak *)

(** Lines 178-200, up to the [await] of the streaming call. *)
Definition beginCycle (s : Session) : Session :=
  let s1 := prepare (set_interrupted false (set_isProcessing true s)) in
  let s2 := set_sentenceBuffer "" s1 in
  emit (ClaudeStream (currentConversation s2)) s2.

(** A call of [sendToClaudeAndSpeak] by the caller [k]; [returned] is how the
    caller goes on when the call returns. *)
Definition sendToClaudeAndSpeak (isContinuation : bool) (k : Frame) (fs : list Frame)
    (returned : Session -> Machine) (s : Session) : Machine :=
  if isProcessing s then returned s
  else suspended (beginCycle s) (AwStream isContinuation "") (k :: fs).

Definition startRecurringCheck (s : Session) : Session :=
  match config s with
  | Some c => if recurringCheck_enabled c then set_recurringCheckInterval true s else s
  | None => s
  end.

(** A [finally] block (lines 266-275 and 603-614): [release] resets the
    flags, then a queued user message starts a cycle of its own. *)
Definition finallyBlock (release : Session -> Session) (k : Frame) (fs : list Frame)
    (returned : Session -> Machine) (s : Session) : Machine :=
  let s1 := release s in
  if hasPendingUserMessage s1
  then sendToClaudeAndSpeak false k fs returned (set_hasPendingUserMessage false s1)
  else returned s1.

(** The callers resume, innermost first, when a call returns. *)
Fixpoint unwind (fs : list Frame) (s : Session) : Machine :=
  match fs with
  | [] => idle s
  | KStartSession :: fs' =>
      unwind fs' (emit (SocketEmit session_started) (startRecurringCheck s))
  | KCommitted :: fs' => unwind fs' s
  | KMainFinally :: fs' => unwind fs' s
  | KCheckFinally :: fs' => unwind fs' s
  | KRecursion :: fs' =>
      (* [return] at line 255, inside [try]: the [finally] block runs *)
      finallyBlock (set_isProcessing false) KMainFinally fs' (unwind fs') s
  end.

Definition finallyMain (fs : list Frame) (s : Session) : Machine :=
  finallyBlock (set_isProcessing false) KMainFinally fs (unwind fs) s.

Definition releaseCheck (s : Session) : Session :=
  set_isProcessing false
    (set_recurringCheckCancelled false (set_isRecurringCheckRunning false s)).

Definition finallyCheck (fs : list Frame) (s : Session) : Machine :=
  finallyBlock releaseCheck KCheckFinally fs (unwind fs) s.

(** How a stretch of the [try] block of [sendToClaudeAndSpeak] ends. *)
Inductive MainFlow :=
| MainSuspended (s : Session) (a : Await)
| MainRecurse (s : Session)   (* the results are pushed: lines 253-254 follow *)
| MainLeft (s : Session).     (* return, fall through or catch *)

Definition userTurn (c : Content) : Msg := {| role := user; content := c |}.
Definition assistantTurn (c : Content) : Msg := {| role := assistant; content := c |}.

(** Lines 245-258, after the tool loop. *)
Definition afterTools (loop : ToolLoop) : MainFlow :=
  match loop with
  | LoopSuspended s tu todo results => MainSuspended s (AwMainTool tu todo results)
  | LoopDone s results | LoopStopped s results =>
      if interrupted s then MainLeft s
      else MainRecurse (push (userTurn (CBlocks results)) s)
  end.

(** Lines 213-259. *)
Definition afterFlush (isContinuation : bool) (fullText : string)
    (response : list Block) (s : Session) : MainFlow :=
  let s1 := emits [TtsFlush; TtsCloseStream] s in
  let s2 := match fullText with
            | "" => s1
            | _ => emit (SocketEmit (if isContinuation then agent_text_continue fullText
                                     else agent_text fullText)) s1
            end in
  let s3 := push (assistantTurn (CBlocks response)) s2 in
  match toolUses response with
  | [] => MainLeft s3
  | calls => afterTools (processTools interrupted calls [] s3)
  end.

(** The [onTextChunk] callback (lines 195-199). *)
Definition onStreamText (chunk : string) (isContinuation : bool) (fullText : string)
    (s : Session) : Session * Await :=
  if interrupted s then (s, AwStream isContinuation fullText)
  else (handleTextChunkForTTS chunk s,
        AwStream isContinuation (String.append fullText chunk)).

(** Lines 202-212, when the streaming call has returned [response]. *)
Definition onStreamDone (isContinuation : bool) (fullText : string)
    (response : list Block) (s : Session) : MainFlow :=
  if interrupted s then MainLeft s
  else if JsString.blank (sentenceBuffer s) then afterFlush isContinuation fullText response s
  else MainSuspended (emit (TtsSendTextChunk (String.append (sentenceBuffer s) " ")) s)
                     (AwFlushChunk isContinuation fullText response).

Definition resolveMain (fs : list Frame) (f : MainFlow) : Machine :=
  match f with
  | MainSuspended s a => suspended s a fs
  | MainRecurse s =>
      sendToClaudeAndSpeak true KRecursion fs (finallyMain fs) (set_isProcessing false s)
  | MainLeft s => finallyMain fs s
  end.

(** ** The recurring check *)

Definition MAX_TOOL_ROUNDS : nat := 3.

Definition noGuidance : string := "[NO_GUIDANCE_NEEDED]".

(** How a stretch of the [try] block of the timer callback ends. *)
Inductive CheckFlow :=
| CheckSuspended (s : Session) (a : Await)
| CheckLeft (s : Session).   (* return, end of the block or catch *)

(** Lines 589-598. *)
Definition commit (messagesToCommit : list Msg) (s : Session) : CheckFlow :=
  if recurringCheckCancelled s then CheckLeft s
  else CheckLeft (set_currentConversation (currentConversation s ++ messagesToCommit) s).

(** Lines 569-586, after the tool loop of round [round]. *)
Definition checkAfterTools (round : nat) (messagesToCommit : list Msg)
    (isFirstText : bool) (loop : ToolLoop) : CheckFlow :=
  match loop with
  | LoopSuspended s tu todo results =>
      CheckSuspended s (AwCheckTool round messagesToCommit isFirstText tu todo results)
  | LoopStopped s _ => CheckLeft s
  | LoopDone s results =>
      let messagesToCommit' := messagesToCommit ++ [userTurn (CBlocks results)] in
      if round =? MAX_TOOL_ROUNDS then commit messagesToCommit' s
      else if recurringCheckCancelled s then CheckLeft s
      else CheckSuspended
             (emit (ClaudeRequest (currentConversation s ++ messagesToCommit')) s)
             (AwCheckFollowUp round messagesToCommit' isFirstText)
  end.

(** Lines 551-568. *)
Definition checkTools (round : nat) (messagesToCommit : list Msg) (isFirstText : bool)
    (toolUseBlocks : list ToolUse) (s : Session) : CheckFlow :=
  match toolUseBlocks with
  | [] => commit messagesToCommit s
  | _ => checkAfterTools round messagesToCommit isFirstText
           (processTools recurringCheckCancelled toolUseBlocks [] s)
  end.

(** [content.find(c => c.type === 'text')?.text || '']. *)
Definition firstText (response : list Block) : string :=
  match List.find isText response with
  | Some (BText t) => t
  | _ => ""
  end.

(** Lines 524-549: the head of round [round] with [currentResponse = response]. *)
Definition checkRound (round : nat) (messagesToCommit : list Msg) (isFirstText : bool)
    (response : list Block) (s : Session) : CheckFlow :=
  if recurringCheckCancelled s then CheckLeft s
  else
    let text := firstText response in
    if JsString.includes noGuidance text then CheckLeft s
    else
      let messagesToCommit' := messagesToCommit ++ [assistantTurn (CBlocks response)] in
      match text with
      | "" => checkTools round messagesToCommit' isFirstText (toolUses response) s
      | _ =>
          CheckSuspended
            (emits [SocketEmit (if isFirstText then agent_text text
                                else agent_text_continue text);
                    TtsSendText text] s)
            (AwCheckSpeak round messagesToCommit' (toolUses response))
      end.

(** Lines 543-552, when [tts.sendText] has returned. *)
Definition checkAfterSpeak (round : nat) (messagesToCommit : list Msg)
    (toolUseBlocks : list ToolUse) (s : Session) : CheckFlow :=
  if recurringCheckCancelled s then CheckLeft s
  else checkTools round messagesToCommit false toolUseBlocks s.

(** Lines 512-523, when the first [getResponse] has returned. *)
Definition onCheckResponse (userContent : Content) (response : list Block)
    (s : Session) : CheckFlow :=
  if recurringCheckCancelled s then CheckLeft s
  else checkRound 0 [userTurn userContent] true response s.

Definition resolveCheck (fs : list Frame) (f : CheckFlow) : Machine :=
  match f with
  | CheckSuspended s a => suspended s a fs
  | CheckLeft s => finallyCheck fs s
  end.

(** [recurringCheck.idleThresholdMs || 10000]. *)
Definition idleThresholdMs (c : Config) : Z :=
  match recurringCheck_idleThresholdMs c with
  | Some 0%Z | None => 10000%Z
  | Some z => z
  end.

Definition newline : string := String (ascii_of_nat 10) "".

(** Lines 489-495. *)
Definition checkPrompt (c : Config) (s : Session) : string :=
  let screenLabel := if String.eqb (toolType c) "figma" then "Figma canvas"
                     else "Blender screen" in
  let base :=
    String.append "[RECURRING_SCREEN_CHECK] Look at the user's current "
      (String.append screenLabel
         ". If they seem stuck or could use a tip, provide brief guidance. If everything looks fine, respond with exactly: [NO_GUIDANCE_NEEDED]") in
  match currentTutorial s with
  | None => base
  | Some t =>
      let number := match currentStepIndex s with
                    | Some z => decimal (z + 1)
                    | None => "NaN"
                    end in
      let stepTitle := match stepAt t (currentStepIndex s) with
                       | Some st => title st
                       | None => "undefined"
                       end in
      String.append base
        (String.append newline
           (String.append "Current step "
              (String.append number (String.append ": " stepTitle))))
  end.

(** The guards of the timer callback (lines 478-482) at time [now]. *)
Definition checkDue (c : Config) (now : Z) (s : Session) : bool :=
  negb (isRecurringCheckRunning s) && negb (isAgentCurrentlySpeaking s)
  && negb (isProcessing s)
  && negb (now - lastUserInputAt s <? idleThresholdMs c)%Z
  && match frame s with Some _ => true | None => false end.

(** Lines 484-510, up to the [await] of the first request. *)
Definition beginCheck (c : Config) (s : Session) : Session * Await :=
  let s1 := set_isProcessing true
              (set_recurringCheckCancelled false (set_isRecurringCheckRunning true s)) in
  let userContent := buildUserContent (checkPrompt c s1) s1 in
  let s2 := prepare s1 in
  (emit (ClaudeRequest (currentConversation s2 ++ [userTurn userContent])) s2,
   AwCheckResponse userContent).

(** ** The transition system

    A cycle is suspended only where it waits for a collaborator that does
    input or output: the streaming call, [tts.sendTextChunk] and
    [tts.sendText] (which may have to connect), [claude.getResponse] and
    [lessonCreator.generate].  An [await] on a call that does no input or
    output ([tts.flush], [tts.closeStream], the handlers of the other two
    tools) resumes before the event loop delivers its next event, so the code
    around it is one step.

    The environment is not constrained: any event may be delivered in any
    state in which its handler is installed, and audio of the synthesizer may
    arrive at any time.  The collaborators themselves ([ClaudeService],
    [ElevenLabsTTS], the speech-to-text client, the lesson creators) are not
    modelled; the calls made on them are recorded in [out]. *)

(** What the event loop delivers: socket and transcript events, the timer,
    audio from the synthesizer, and the outcome of the pending [await]. *)
Inductive Event :=
| EvStartSession (c : Config)                        (* socket 'start_session' *)
| EvFrame (data : string)                            (* socket 'frame' *)
| EvPlaybackEnded                                    (* socket 'audio_playback_ended' *)
| EvPartialTranscript (text : string)
| EvCommittedTranscript (text : string) (now : Z)    (* [now] is Date.now() *)
| EvTtsAudioChunk (base64 : string)
| EvTick (now : Z)                                   (* the setInterval callback *)
| EvStreamText (chunk : string)                      (* a text delta of the stream *)
| EvStreamDone (response : list Block)
| EvStreamFailed
| EvTtsSent                                          (* the awaited tts call returned *)
| EvTtsFailed
| EvGenerated (t : Tutorial)                         (* lessonCreator.generate returned *)
| EvGenerateFailed (message : string)
| EvResponse (response : list Block)                 (* claude.getResponse returned *)
| EvResponseFailed.

Definition sessionStart : Msg := userTurn (CString "[SESSION_START]").

(** [startSession]; the speech-to-text connection is not modelled. *)
Definition startSession (c : Config) (m : Machine) : option Machine :=
  let s := sess m in
  match currentConversation s with
  | _ :: _ => Some {| sess := emit (SocketEmit session_started) s; task := task m |}
  | [] =>
      match task m with
      | Some _ => None
      | None =>
          let s1 := push sessionStart (set_config (Some c) s) in
          Some (sendToClaudeAndSpeak false KStartSession [] (unwind [KStartSession]) s1)
      end
  end.

(** Lines 141-162 of [onCommittedTranscript], for a text that is not blank. *)
Definition recordUserTurn (text : string) (now : Z) (s : Session) : Session :=
  let s1 := set_lastUserInputAt now s in
  let s2 := match last (currentConversation s1) with
            | Some lastMsg =>
                if Role_eqb (role lastMsg) user
                then push (assistantTurn (CString interruptedPlaceholder)) s1
                else s1
            | None => s1
            end in
  let s3 := push (userTurn (buildUserContent text s2)) s2 in
  handleInterruption (emit (SocketEmit (user_text text)) s3).

Definition onCommittedTranscript (text : string) (now : Z) (m : Machine) : option Machine :=
  if JsString.blank text then Some m
  else
    let s := recordUserTurn text now (sess m) in
    if isProcessing s
    then Some {| sess := set_hasPendingUserMessage true s; task := task m |}
    else match task m with
         | Some _ => None
         | None => Some (sendToClaudeAndSpeak false KCommitted [] (unwind [KCommitted]) s)
         end.

Definition onTick (now : Z) (m : Machine) : option Machine :=
  let s := sess m in
  match config s with
  | Some c =>
      if recurringCheckInterval s then
        if checkDue c now s then
          match task m with
          | Some _ => None
          | None => let (s', a) := beginCheck c s in Some (suspended s' a [])
          end
        else Some m
      else None
  | None => None
  end.

(** The pending [await] of the main cycle settles: the [try] block goes on,
    or the rejection is caught (lines 260-265). *)
Definition resumeMain (a : Await) (e : Event) (s : Session) : option MainFlow :=
  match a, e with
  | AwStream c ft, EvStreamText chunk =>
      let (s', a') := onStreamText chunk c ft s in Some (MainSuspended s' a')
  | AwStream c ft, EvStreamDone r => Some (onStreamDone c ft r s)
  | AwStream _ _, EvStreamFailed => Some (MainLeft s)
  | AwFlushChunk c ft r, EvTtsSent => Some (afterFlush c ft r (set_sentenceBuffer "" s))
  | AwFlushChunk _ _ _, EvTtsFailed => Some (MainLeft s)
  | AwMainTool tu todo results, EvGenerated t =>
      Some (afterTools (resumeTools interrupted (inl t) tu todo results s))
  | AwMainTool tu todo results, EvGenerateFailed message =>
      Some (afterTools (resumeTools interrupted (inr message) tu todo results s))
  | _, _ => None
  end.

(** The pending [await] of the recurring check settles (lines 512-602). *)
Definition resumeCheck (a : Await) (e : Event) (s : Session) : option CheckFlow :=
  match a, e with
  | AwCheckResponse uc, EvResponse r => Some (onCheckResponse uc r s)
  | AwCheckResponse _, EvResponseFailed => Some (CheckLeft s)
  | AwCheckSpeak round msgs calls, EvTtsSent => Some (checkAfterSpeak round msgs calls s)
  | AwCheckSpeak _ _ _, EvTtsFailed => Some (CheckLeft s)
  | AwCheckTool round msgs isFirst tu todo results, EvGenerated t =>
      Some (checkAfterTools round msgs isFirst
              (resumeTools recurringCheckCancelled (inl t) tu todo results s))
  | AwCheckTool round msgs isFirst tu todo results, EvGenerateFailed message =>
      Some (checkAfterTools round msgs isFirst
              (resumeTools recurringCheckCancelled (inr message) tu todo results s))
  | AwCheckFollowUp round msgs isFirst, EvResponse r =>
      Some (checkRound (S round) msgs isFirst r s)
  | AwCheckFollowUp _ _ _, EvResponseFailed => Some (CheckLeft s)
  | _, _ => None
  end.

(** The cycle an [await] belongs to. *)
Definition inCheck (a : Await) : bool :=
  match a with
  | AwStream _ _ | AwFlushChunk _ _ _ | AwMainTool _ _ _ => false
  | _ => true
  end.

Definition resume (a : Await) (fs : list Frame) (e : Event) (s : Session) : option Machine :=
  if inCheck a then option_map (resolveCheck fs) (resumeCheck a e s)
  else option_map (resolveMain fs) (resumeMain a e s).

(** One event.  [None]: the event cannot occur in this state (a transcript,
    audio or a tick before the session has started; the outcome of an
    [await] that is not pending). *)
Definition step (m : Machine) (e : Event) : option Machine :=
  let s := sess m in
  let started := match config s with Some _ => true | None => false end in
  match e with
  | EvStartSession c => startSession c m
  | EvFrame data => Some {| sess := handleFrame data s; task := task m |}
  | EvPlaybackEnded => Some {| sess := onAudioPlaybackEnded s; task := task m |}
  | EvPartialTranscript text =>
      if started then Some {| sess := onPartialTranscript text s; task := task m |}
      else None
  | EvCommittedTranscript text now =>
      if started then onCommittedTranscript text now m else None
  | EvTtsAudioChunk base64 =>
      if started then Some {| sess := onTTSAudioChunk base64 s; task := task m |}
      else None
  | EvTick now => onTick now m
  | _ =>
      match task m with
      | Some (a, fs) => resume a fs e s
      | None => None
      end
  end.

Fixpoint run (m : Machine) (events : list Event) : option Machine :=
  match events with
  | [] => Some m
  | e :: rest =>
      match step m e with
      | Some m' => run m' rest
      | None => None
      end
  end.

Definition start : Machine := idle initial.

Definition reachable (m : Machine) : Prop := exists events, run start events = Some m.

(** ** Observations on traces and histories *)

Definition isAudio (o : Output) : bool :=
  match o with SocketEmit (agent_audio _) => true | _ => false end.
Definition isStream (o : Output) : bool :=
  match o with ClaudeStream _ => true | _ => false end.
Definition isInvoke (o : Output) : bool :=
  match o with Invoke _ _ _ => true | _ => false end.

(** The audio forwarded to the client, the streaming requests issued (one per
    start of a main cycle) and the calls of the tool dispatcher. *)
Definition forwardedAudio (os : list Output) : list Output := List.filter isAudio os.
Definition streamRequests (os : list Output) : list Output := List.filter isStream os.
Definition invocations (os : list Output) : list Output := List.filter isInvoke os.

Definition invoke (tu : ToolUse) : Output := Invoke (tu_name tu) (tu_input tu) (tu_id tu).

(** The strings handed to [tts.sendTextChunk], in order. *)
Fixpoint sentChunks (os : list Output) : list string :=
  match os with
  | [] => []
  | TtsSendTextChunk c :: rest => c :: sentChunks rest
  | _ :: rest => sentChunks rest
  end.

Fixpoint toolResultIds (blocks : list Block) : list string :=
  match blocks with
  | [] => []
  | BToolResult id _ :: rest => id :: toolResultIds rest
  | _ :: rest => toolResultIds rest
  end.

Definition toolUseIds (blocks : list Block) : list string := map tu_id (toolUses blocks).

Fixpoint sameIds (a b : list string) : bool :=
  match a, b with
  | [], [] => true
  | x :: a', y :: b' => String.eqb x y && sameIds a' b'
  | _, _ => false
  end.

Definition carriesToolResults (msg : Msg) : bool :=
  existsb isToolResult (blocksOrEmpty (content msg)).

(** The tool-result blocks of [msg] answer the tool-use blocks of [prev], one
    for one and in order. *)
Definition answers (prev msg : Msg) : bool :=
  Role_eqb (role prev) assistant && Role_eqb (role msg) user
  && sameIds (toolResultIds (blocksOrEmpty (content msg)))
             (toolUseIds (blocksOrEmpty (content prev))).

(** Invariant 1 of the history: neighbours have different roles, and a turn
    that carries tool results follows the assistant turn it answers.  [prev]
    is the turn before the head of [conv]. *)
Fixpoint alternatesAfter (prev : option Msg) (conv : list Msg) : bool :=
  match conv with
  | [] => true
  | msg :: rest =>
      match prev with
      | Some p =>
          negb (Role_eqb (role p) (role msg))
          && (if carriesToolResults msg then answers p msg else true)
      | None => negb (carriesToolResults msg)
      end
      && alternatesAfter (Some msg) rest
  end.

Definition alternates (conv : list Msg) : bool := alternatesAfter None conv.

(** The messages of the generation requests issued, in order. *)
Fixpoint requestedHistories (os : list Output) : list (list Msg) :=
  match os with
  | [] => []
  | ClaudeStream msgs :: rest => msgs :: requestedHistories rest
  | ClaudeRequest msgs :: rest => msgs :: requestedHistories rest
  | _ :: rest => requestedHistories rest
  end.

(** A message seen as its blocks: a string content is one text block. *)
Definition blocksView (c : Content) : list Block :=
  match c with
  | CString t => [BText t]
  | CBlocks bs => bs
  end.

(** The number of image-bearing turns from index [i] on. *)
Definition imagesFrom (i : nat) (conv : list Msg) : nat :=
  length (List.filter hasImage (drop i conv)).

(** The number of image-bearing turns. *)
Definition imageCount (conv : list Msg) : nat := length (List.filter hasImage conv).

(** What pruning makes of the turn [msg] at index [i] of [conv]: its images
    go when more than [MAX_CONTEXT_IMAGES] image-bearing turns lie at [i] or
    after it, that is, when it is not among the most recent ones. *)
Definition strippedAt (conv : list Msg) (i : nat) (msg : Msg) : Msg :=
  if hasImage msg && (MAX_CONTEXT_IMAGES <? imagesFrom i conv)
  then stripImages msg else msg.

(** The sanitization pass as the specification words it, and as amended. *)
Module SanitizeSpec.

Definition holdsToolUse (msg : Msg) : bool :=
  Role_eqb (role msg) assistant && existsb isToolUse (blocksOrEmpty (content msg)).

(** "immediately followed by a user turn carrying matching tool-results" *)
Definition matched (msg : Msg) (next : option Msg) : bool :=
  match next with
  | Some n => carriesToolResults n && answers msg n
  | None => false
  end.

(** "the turn's own text content" *)
Definition ownText (blocks : list Block) : Content :=
  match List.filter isText blocks with
  | [BText t] => CString t
  | textBlocks => CBlocks textBlocks
  end.

(** "if non-empty text is present" *)
Definition nonEmptyText (b : Block) : bool :=
  match b with
  | BText t => negb (String.eqb t "")
  | _ => false
  end.

Definition normalized (present : Block -> bool) (msg : Msg) : Msg :=
  let blocks := blocksOrEmpty (content msg) in
  {| role := role msg;
     content := if existsb present blocks then ownText blocks
                else CString interruptedPlaceholder |}.

Definition sanitized (conv : list Msg) : list Msg :=
  imap (fun i msg =>
          if holdsToolUse msg && negb (matched msg (conv !! S i))
          then normalized nonEmptyText msg else msg) conv.

(** Amended: a turn counts as answered when the next turn is a user turn
    with at least one tool-result block, and text is present when a text
    block is not blank. *)
Definition sanitizedAmended (conv : list Msg) : list Msg :=
  imap (fun i msg =>
          if holdsToolUse msg && negb (followedByToolResult (conv !! S i))
          then normalized hasSpokenText msg else msg) conv.

End SanitizeSpec.

(** ** Relations of the proofs *)

(** *** The tool round *)

(** The number of calls among [todo] that wait for the lesson creator. *)
Definition creations (todo : list ToolUse) : nat :=
  length (List.filter (fun tu => String.eqb (tu_name tu) "Create_Tutorial") todo).

(** The event that delivers an answer of the lesson creator. *)
Definition answerEvent (answer : Tutorial + string) : Event :=
  match answer with
  | inl t => EvGenerated t
  | inr message => EvGenerateFailed message
  end.

(** The synthesizer call the end of a stream waits for: none when the
    sentence buffer is blank. *)
Definition flushEvents (s : Session) : list Event :=
  if JsString.blank (sentenceBuffer s) then [] else [EvTtsSent].

(** The tool-result block [b] answers the call [tu]. *)
Definition resultOf (tu : ToolUse) (b : Block) : Prop :=
  exists r, b = BToolResult (tu_id tu) r.

Definition loopSession (l : ToolLoop) : Session :=
  match l with
  | LoopDone s _ | LoopStopped s _ | LoopSuspended s _ _ _ => s
  end.

Definition callSession (c : ToolCall) : Session :=
  match c with
  | Returned s _ | Generating s => s
  end.

(** Events that neither interrupt a cycle nor settle its pending [await]. *)
Definition bystander (e : Event) : bool :=
  match e with
  | EvFrame _ | EvPlaybackEnded | EvTtsAudioChunk _ => true
  | EvPartialTranscript text | EvCommittedTranscript text _ => JsString.blank text
  | _ => false
  end.

(** The events of a tool round without interruption: bystanders, the
    completion of the flush and the answers of the lesson creator. *)
Definition uninterrupting (e : Event) : bool :=
  bystander e
  || match e with
     | EvTtsSent | EvGenerated _ | EvGenerateFailed _ => true
     | _ => false
     end.

(** The states of a tool round of the main cycle that is not interrupted,
    for the response [response] with the tool calls [calls], started with the
    history [conv0] and the dispatcher calls [inv0], under the callers [fs]:
    the rest of the buffer is being flushed; or a call waits for the lesson
    creator, the calls before it answered in order; or every call is
    answered and the continuation waits for its stream. *)
Definition toolRound (fs : list Frame) (inv0 : list Output) (conv0 : list Msg)
    (response : list Block) (calls : list ToolUse) (m : Machine) : Prop :=
  interrupted (sess m) = false
  /\ ((exists c ft,
         task m = Some (AwFlushChunk c ft response, fs)
         /\ invocations (out (sess m)) = inv0
         /\ currentConversation (sess m) = conv0)
      \/ (exists done tu todo rs,
            task m = Some (AwMainTool tu todo rs, fs)
            /\ calls = done ++ tu :: todo
            /\ Forall2 resultOf done rs
            /\ invocations (out (sess m)) = inv0 ++ map invoke (done ++ [tu])
            /\ currentConversation (sess m) = conv0 ++ [assistantTurn (CBlocks response)])
      \/ (exists rs,
            task m = Some (AwStream true "", KRecursion :: fs)
            /\ Forall2 resultOf calls rs
            /\ invocations (out (sess m)) = inv0 ++ map invoke calls
            /\ currentConversation (sess m)
               = pruneOldImages (sanitizeConversation
                   (conv0 ++ [assistantTurn (CBlocks response); userTurn (CBlocks rs)])))).

(** *** Footprints *)

(** The fields that steer the control flow. *)
Definition control (s : Session) :=
  (currentConversation s, isProcessing s, interrupted s, recurringCheckCancelled s,
   hasPendingUserMessage s, isRecurringCheckRunning s, config s,
   recurringCheckInterval s).

(** Outputs other than forwarded audio, generation requests and calls of the
    tool dispatcher; [tame] lets the calls of the dispatcher in. *)
Definition calm (o : Output) : bool :=
  match o with
  | SocketEmit (agent_audio _) | ClaudeStream _ | ClaudeRequest _ | Invoke _ _ _ => false
  | _ => true
  end.

Definition tame (o : Output) : bool := calm o || isInvoke o.

(** [s'] comes from [s] by outputs that satisfy [P], with the control fields
    untouched. *)
Definition steadyWith (P : Output -> bool) (s s' : Session) : Prop :=
  control s' = control s
  /\ exists os, out s' = out s ++ os /\ forallb P os = true.

Abbreviation steady := (steadyWith calm).

(** Outputs other than forwarded audio and streaming requests. *)
Definition mild (o : Output) : bool := negb (isAudio o) && negb (isStream o).

(** The flags of the control flow. *)
Definition flags (s : Session) :=
  (isProcessing s, interrupted s, recurringCheckCancelled s, hasPendingUserMessage s,
   isRecurringCheckRunning s, config s, recurringCheckInterval s).

(** [s'] comes from [s] with the flags untouched, the history extended and
    mild outputs only. *)
Definition grows (s s' : Session) : Prop :=
  flags s' = flags s
  /\ (exists extra, currentConversation s' = currentConversation s ++ extra)
  /\ exists os, out s' = out s ++ os /\ forallb mild os = true.

Definition mainSession (f : MainFlow) : Session :=
  match f with
  | MainSuspended s _ | MainRecurse s | MainLeft s => s
  end.

(** [s'] comes from [s] without audio forwarded, and with the interrupt flag
    still set unless a streaming request was issued. *)
Definition advances (s s' : Session) : Prop :=
  exists os,
    out s' = out s ++ os
    /\ forwardedAudio os = []
    /\ (interrupted s = true -> interrupted s' = true \/ streamRequests os <> []).

(** An event that forwards no audio from the state [m]. *)
Definition silent (m : Machine) (e : Event) : Prop :=
  match e with
  | EvTtsAudioChunk _ => interrupted (sess m) = true
  | _ => True
  end.

(** *** The recurring check *)

(** The provisional turns of the recurring check at an [await]. *)
Definition provisional (a : Await) : list Msg :=
  match a with
  | AwCheckResponse uc => [userTurn uc]
  | AwCheckSpeak _ msgs _ => msgs
  | AwCheckTool _ msgs _ _ _ _ => msgs
  | AwCheckFollowUp _ msgs _ => msgs
  | _ => []
  end.

Definition flowSession (f : CheckFlow) : Session :=
  match f with
  | CheckSuspended s _ | CheckLeft s => s
  end.

(** What a stretch of the recurring check may do, from the session [s] with
    the provisional turns [turns]: go on with the history as it is and the
    provisional turns kept, or end with no turn appended, or (only when the
    check is not cancelled) end with the provisional turns, and those built
    since, appended in one piece.  A cancelled check can only end with no
    turn appended. *)
Definition atomicFrom (s : Session) (turns : list Msg) (f : CheckFlow) : Prop :=
  recurringCheckCancelled (flowSession f) = recurringCheckCancelled s
  /\ match f with
     | CheckSuspended s' a' =>
         recurringCheckCancelled s = false
         /\ currentConversation s' = currentConversation s
         /\ inCheck a' = true
         /\ exists more, provisional a' = turns ++ more
     | CheckLeft s' =>
         currentConversation s' = currentConversation s
         \/ (recurringCheckCancelled s = false
             /\ exists more,
                  currentConversation s' = currentConversation s ++ turns ++ more)
     end
  /\ (recurringCheckCancelled s = true ->
      exists s', f = CheckLeft s' /\ currentConversation s' = currentConversation s).

(** *** The end of a cycle *)

(** What the callers in [fs] do to the session when no message is queued. *)
Fixpoint settle (fs : list Frame) (s : Session) : Session :=
  match fs with
  | [] => s
  | KStartSession :: fs' =>
      settle fs' (emit (SocketEmit session_started) (startRecurringCheck s))
  | KRecursion :: fs' => settle fs' (set_isProcessing false s)
  | _ :: fs' => settle fs' s
  end.

(** The fresh cycle that a queued message starts from a [finally] block
    whose flags are released in [s]. *)
Definition freshCycle (k : Frame) (fs : list Frame) (s : Session) : Machine :=
  suspended (beginCycle (set_hasPendingUserMessage false s)) (AwStream false "") (k :: fs).

(** The flags a [finally] block releases: those of the recurring check, or
    the one of the main cycle. *)
Definition released (check : bool) (s : Session) : Session :=
  if check then releaseCheck s else set_isProcessing false s.

(** The end of a cycle whose [try] block is left in [s]: a queued message
    starts a fresh cycle, otherwise the callers resume and the machine is
    idle. *)
Definition finished (check : bool) (fs : list Frame) (s : Session) : Machine :=
  if hasPendingUserMessage s
  then freshCycle (if check then KCheckFinally else KMainFinally) fs (released check s)
  else idle (settle fs (released check s)).

(** The continuation of a main cycle after a tool round. *)
Definition continued (fs : list Frame) (s : Session) : Machine :=
  suspended (beginCycle (set_isProcessing false s)) (AwStream true "") (KRecursion :: fs).

(** The invariant of the reachable states: a cycle is suspended exactly when
    [isProcessing] is set, and a message is queued only during a cycle that
    has been interrupted. *)
Definition Inv (m : Machine) : Prop :=
  (task m = None -> isProcessing (sess m) = false /\ hasPendingUserMessage (sess m) = false)
  /\ (task m <> None -> isProcessing (sess m) = true)
  /\ (hasPendingUserMessage (sess m) = true ->
      interrupted (sess m) = true /\ recurringCheckCancelled (sess m) = true).

(** After a step from [m] to [m'] the queued message still waits: the flag
    is set, a cycle is suspended, no main cycle has started and the history
    has only been extended. *)
Definition stillQueued (m m' : Machine) : Prop :=
  hasPendingUserMessage (sess m') = true
  /\ task m' <> None
  /\ streamRequests (out (sess m')) = streamRequests (out (sess m))
  /\ exists extra, currentConversation (sess m') = currentConversation (sess m) ++ extra.

(** The step from [m] to [m'] has ended the active cycle and started the
    fresh cycle of the queued message: the flag is cleared, the machine
    waits for the stream of a cycle that is not a continuation, and the one
    streaming request of the step carries the history of [m], with the
    turns added since, after the two clean-up passes. *)
Definition startsFresh (m m' : Machine) : Prop :=
  hasPendingUserMessage (sess m') = false
  /\ (exists fs, task m' = Some (AwStream false "", fs))
  /\ exists extra os,
       currentConversation (sess m')
       = pruneOldImages (sanitizeConversation (currentConversation (sess m) ++ extra))
       /\ out (sess m') = out (sess m) ++ os ++ [ClaudeStream (currentConversation (sess m'))]
       /\ streamRequests os = [].

(** ** Sample data *)

(** A configuration with the recurring check switched on. *)
Definition blenderConfig : Config :=
  {| toolType := "blender"; recurringCheck_enabled := true;
     recurringCheck_idleThresholdMs := Some 10000%Z |}.

Definition noInput : ToolInput :=
  {| object_label := None; proficiency := None; previous_step := None;
     current_step := None; key_combo := None; description := None |}.

Definition unknownCall : ToolUse :=
  {| tu_id := "toolu_1"; tu_name := "Open_Door"; tu_input := noInput |}.

(** A first cycle that streams two deltas and completes. *)
Definition spokenCycle : list Event :=
  [EvStartSession blenderConfig;
   EvStreamText "Hello there. How ";
   EvStreamText "are you? Great.";
   EvStreamDone [BText "Hello there. How are you? Great."];
   EvTtsSent].

(** A history with an orphaned tool call whose only text is a space, and a
    tool call followed by a result that answers another call. *)
Definition orphans : list Msg :=
  [assistantTurn (CBlocks [BText " "; BToolUse "toolu_a" "Suggested_HotKey" noInput]);
   userTurn (CString "go on");
   assistantTurn (CBlocks [BToolUse "toolu_b" "Suggested_HotKey" noInput]);
   userTurn (CBlocks [BToolResult "toolu_c" RHotkey])].

(** A user turn with the frame [data], and a history of [n] such turns, each
    followed by an answer. *)
Definition framedTurn (data : string) : Msg :=
  userTurn (CBlocks [BImage "image/jpeg" data; BText "what now?"]).

Fixpoint framedHistory (n : nat) : list Msg :=
  match n with
  | 0 => []
  | S n' => framedTurn "frame" :: assistantTurn (CString "ok") :: framedHistory n'
  end.

(** A response with three tool calls, the last of which waits for the lesson
    creator, and the answer of the lesson creator. *)
Definition hotkeyCall : ToolUse :=
  {| tu_id := "toolu_1"; tu_name := "Suggested_HotKey"; tu_input := noInput |}.
Definition progressCall : ToolUse :=
  {| tu_id := "toolu_2"; tu_name := "Progressed_Step"; tu_input := noInput |}.
Definition createCall : ToolUse :=
  {| tu_id := "toolu_3"; tu_name := "Create_Tutorial"; tu_input := noInput |}.

Definition threeCalls : list Block :=
  [BText "Let me set this up.";
   BToolUse "toolu_1" "Suggested_HotKey" noInput;
   BToolUse "toolu_2" "Progressed_Step" noInput;
   BToolUse "toolu_3" "Create_Tutorial" noInput].

Definition chair : Tutorial :=
  {| objectLabel := "chair"; totalSteps := 1;
     steps := [{| stepNumber := 1; title := "Seat"; instruction := "Add a cube." |}] |}.

(** The machine after [EvStartSession blenderConfig]: the first cycle waits
    for its stream. *)
Definition firstCycle : Machine :=
  suspended (beginCycle (push sessionStart (set_config (Some blenderConfig) initial)))
            (AwStream false "") [KStartSession].

(** A session start answered without tools, a frame, and the timer firing
    after the idle threshold. *)
Definition quietCheck : list Event :=
  [EvStartSession blenderConfig; EvStreamDone [BText "Welcome."];
   EvFrame "frame"; EvTick 20000].


(** The first cycle is interrupted by a partial transcript that is never
    committed, and fails; then the machine is idle with the flag set. *)
Definition interruptedStart : list Event :=
  [EvStartSession blenderConfig; EvFrame "frame"; EvPartialTranscript "um";
   EvStreamFailed].

Definition interruptedIdle : Machine :=
  Eval vm_compute in
    match run start interruptedStart with
    | Some m => m
    | None => start
    end.

(** The first cycle with a user message committed while it streams. *)
Definition queuedDuringFirst : list Event :=
  [EvStartSession blenderConfig; EvStreamText "Welcome. ";
   EvCommittedTranscript "how do I scale?" 5000].

(** The machine with the recurring check started from [interruptedIdle], and
    after the check has been answered with guidance and an audio chunk of
    its speech has arrived. *)
Definition checkStarted : Machine :=
  Eval vm_compute in
    match step interruptedIdle (EvTick 20000) with
    | Some m => m
    | None => start
    end.

Definition checkSpeech : list Event :=
  [EvResponse [BText "Press G."]; EvTtsAudioChunk "pcm"].

Definition checkSpoken : Machine :=
  Eval vm_compute in
    match run checkStarted checkSpeech with
    | Some m => m
    | None => start
    end.



(** The machine with the message queued, and after the stream of the
    interrupted cycle has failed. *)
Definition queuedFirst : Machine :=
  Eval vm_compute in
    match run start queuedDuringFirst with
    | Some m => m
    | None => start
    end.

Definition freshAfterQueue : Machine :=
  Eval vm_compute in
    match step queuedFirst EvStreamFailed with
    | Some m => m
    | None => start
    end.

(** The first cycle is interrupted before its assistant turn is pushed; the
    recurring check then runs on a history that ends with a user turn and
    commits its turns; the next user message starts a main cycle. *)
Definition checkAfterInterruptedStart : list Event :=
  interruptedStart
  ++ [EvTick 20000; EvResponse [BText "Press G."]; EvTtsSent;
      EvCommittedTranscript "thanks" 30000].

(** *** The sentence-boundary streamer *)

(** A sentence as the streamer hands it to the synthesizer: its last two code
    units are a terminator and a white space, and no sentence ends before. *)
Definition completeSentence (x : string) : Prop :=
  2 <= String.length x /\ JsString.sentenceEnd x = Some (String.length x - 2).

(** ** ClaudeService.buildMessages (server/services/claude-service.js)

    The messages of a generation request: the history, with the images of
    the call put into the last user turn that has text. *)

(** An element of [images]: [{ data, mediaType }]. *)
Record ImageInput := { img_data : string; img_mediaType : option string }.

(** The image block pushed for [img], with [img.mediaType || 'image/jpeg']. *)
Definition imageBlock (img : ImageInput) : Block :=
  BImage (orElse (img_mediaType img) "image/jpeg") (img_data img).

(** The test of the backward loop: a user turn whose content is a string
    that is not blank, or an array with a text block that is not blank. *)
Definition hasUserText (msg : Msg) : bool :=
  Role_eqb (role msg) user
  && match content msg with
     | CString t => negb (JsString.blank t)
     | CBlocks bs => existsb hasSpokenText bs
     end.

(** [targetIdx]: the index of the last turn that passes the test; [None] is
    [-1]. *)
Fixpoint targetIndex (messages : list Msg) : option nat :=
  match messages with
  | [] => None
  | msg :: rest =>
      match targetIndex rest with
      | Some i => Some (S i)
      | None => if hasUserText msg then Some 0 else None
      end
  end.

Definition textOf (b : Block) : string :=
  match b with
  | BText t => t
  | _ => ""
  end.

(** [textContent]: the string, or the texts of the text blocks joined. *)
Definition textContent (c : Content) : string :=
  match c with
  | CString t => t
  | CBlocks bs => String.concat "" (map textOf (List.filter isText bs))
  end.

(** The JSON round trip that clones the history is the identity on the
    values of the model. *)
Definition buildMessages (conversation : list Msg) (images : list ImageInput) : list Msg :=
  match images with
  | [] => conversation
  | _ =>
      match targetIndex conversation with
      | None => conversation
      | Some i =>
          match conversation !! i with
          | Some target =>
              <[i := userTurn (CBlocks (map imageBlock images
                                        ++ [BText (textContent (content target))]))]>
                conversation
          | None => conversation
          end
      end
  end.

(** A request that answers a tool round, with a reference image. *)
Definition toolRoundHistory : list Msg :=
  [userTurn (CBlocks [BText "make a "; BImage "image/jpeg" "old"; BText "chair"]);
   assistantTurn (CBlocks [BText "On it."; BToolUse "toolu_1" "Create_Tutorial" noInput]);
   userTurn (CBlocks [BToolResult "toolu_1" RHotkey])].

Definition referenceImage : ImageInput :=
  {| img_data := "png"; img_mediaType := None |}.

(** *** One cycle at a time *)

(** The suspended cycle is the recurring check. *)
Definition checkSuspended (m : Machine) : bool :=
  match task m with
  | Some (a, _) => inCheck a
  | None => false
  end.

(** [isRecurringCheckRunning] is set exactly while the recurring check is
    suspended. *)
Definition Excl (m : Machine) : Prop :=
  isRecurringCheckRunning (sess m) = checkSuspended m.

(** Before the first [start_session] nothing has happened; from then on the
    history begins with the session-start turn. *)
Definition Started (m : Machine) : Prop :=
  match config (sess m) with
  | None =>
      currentConversation (sess m) = [] /\ task m = None
      /\ recurringCheckInterval (sess m) = false
  | Some _ => head (currentConversation (sess m)) = Some sessionStart
  end.

(** The session was started with the configuration [c]. *)
Definition StartedWith (c : Config) (m : Machine) : Prop :=
  config (sess m) = Some c
  /\ head (currentConversation (sess m)) = Some sessionStart.

(** *** The requests of a recurring check *)

Definition isRequest (o : Output) : bool :=
  match o with
  | ClaudeRequest _ => true
  | _ => false
  end.

(** The number of calls of [claude.getResponse] so far. *)
Definition requestCount (os : list Output) : nat := length (List.filter isRequest os).

(** The follow-up requests a check may still issue from an [await]: the
    [for] loop runs rounds 0 to [MAX_TOOL_ROUNDS] and issues none in the
    last one.  [None]: not an [await] of a check, or a round out of range. *)
Definition followUpsLeft (a : Await) : option nat :=
  match a with
  | AwCheckResponse _ => Some MAX_TOOL_ROUNDS
  | AwCheckSpeak round _ _ | AwCheckTool round _ _ _ _ _ =>
      if round <=? MAX_TOOL_ROUNDS then Some (MAX_TOOL_ROUNDS - round) else None
  | AwCheckFollowUp round _ _ =>
      if round <? MAX_TOOL_ROUNDS then Some (MAX_TOOL_ROUNDS - S round) else None
  | _ => None
  end.

Definition flowWithin (n : nat) (f : CheckFlow) : Prop :=
  match f with
  | CheckSuspended s a =>
      exists left, followUpsLeft a = Some left /\ requestCount (out s) + left <= n
  | CheckLeft s => requestCount (out s) <= n
  end.

Definition withinBudget (n : nat) (m : Machine) : Prop :=
  if checkSuspended m
  then exists a fs left,
         task m = Some (a, fs) /\ followUpsLeft a = Some left
         /\ requestCount (out (sess m)) + left <= n
  else requestCount (out (sess m)) <= n.

(** The events delivered while the recurring check is suspended. *)
Fixpoint runCheck (m : Machine) (events : list Event) : option Machine :=
  match events with
  | [] => Some m
  | e :: rest =>
      if checkSuspended m
      then match step m e with
           | Some m' => runCheck m' rest
           | None => None
           end
      else None
  end.

(** An idle session with a frame, and a check that calls a tool in every
    round. *)
Definition idleWithFrame : Machine :=
  Eval vm_compute in
    match run start [EvStartSession blenderConfig; EvStreamDone [BText "Welcome."];
                     EvFrame "frame"] with
    | Some m => m
    | None => start
    end.

Definition hotkeyRound : Event :=
  EvResponse [BToolUse "toolu_1" "Suggested_HotKey" noInput].

Definition longCheck : Machine :=
  Eval vm_compute in
    match step idleWithFrame (EvTick 20000) with
    | Some m => m
    | None => start
    end.

Definition afterLongCheck : Machine :=
  Eval vm_compute in
    match runCheck longCheck [hotkeyRound; hotkeyRound; hotkeyRound; hotkeyRound] with
    | Some m => m
    | None => start
    end.

(** *** Histories without orphaned tool calls *)

(** An assistant turn that holds a tool-use block. *)
Definition callsTools (msg : Msg) : bool :=
  Role_eqb (role msg) assistant && existsb isToolUse (blocksOrEmpty (content msg)).

(** Every assistant turn that holds a tool-use block is immediately followed
    by a user turn that carries a tool-result block. *)
Fixpoint paired (conv : list Msg) : bool :=
  match conv with
  | [] => true
  | msg :: rest =>
      (negb (callsTools msg) || followedByToolResult (head rest)) && paired rest
  end.

(** ** buildSystemPrompt *)

(** [`${this.currentStepIndex + 1}`]. *)
Definition stepNumberText (i : option Z) : string :=
  match i with
  | Some z => decimal (z + 1)
  | None => "NaN"
  end.

(** The section appended for the tutorial [t] at the step index [i]
    (line 430). *)
Definition tutorialSection (t : Tutorial) (i : option Z) : string :=
  let step := stepAt t i in
  String.append newline (String.append newline
    (String.append "--- CURRENT TUTORIAL ---" (String.append newline
      (String.append "Object: " (String.append (objectLabel t) (String.append newline
        (String.append "Current Step: " (String.append (stepNumberText i)
          (String.append " of " (String.append (decimal (totalSteps t))
            (String.append newline
              (String.append "Step Title: "
                (String.append (orElse (option_map title step) "N/A")
                  (String.append newline
                    (String.append "Step Instructions: "
                      (String.append (orElse (option_map instruction step) "N/A")
                        (String.append newline "--- END TUTORIAL ---"))))))))))))))))).

(** [buildSystemPrompt], with [this.config.systemPrompt] as [systemPrompt]. *)
Definition buildSystemPrompt (systemPrompt : string) (s : Session) : string :=
  match currentTutorial s with
  | None => systemPrompt
  | Some t => String.append systemPrompt (tutorialSection t (currentStepIndex s))
  end.

(** A tutorial of two steps, and the tool input that announces its second
    step. *)
Definition table : Tutorial :=
  {| objectLabel := "table"; totalSteps := 2;
     steps := [{| stepNumber := 1; title := "Top"; instruction := "Add a cube." |};
               {| stepNumber := 2; title := "Legs"; instruction := "Add four cylinders." |}] |}.

Definition toSecondStep : ToolInput :=
  {| object_label := None; proficiency := None; previous_step := Some 1%Z;
     current_step := Some 2%Z; key_combo := None; description := None |}.

(** ** ElevenLabsTTS (server/services/elevenlabs-tts.js)

    The client of the synthesizer: the fields [ws], [connected] and
    [connecting], the listeners it puts on its sockets and the methods the
    orchestrator calls.  A socket is named by the number of sockets created
    before it.  The [ws] library is not modelled: the environment may
    deliver any event of any socket at any time, and a listener runs only on
    a socket that still has its listeners. *)

Module ElevenLabsTTS.

Inductive ReadyState := CONNECTING | OPEN | CLOSING | CLOSED.

(** What a message of the synthesizer parses to: [msg.audio] and
    [msg.isFinal]. *)
Record Message := { audio : option string; isFinal : bool }.

(** The JSON texts handed to [ws.send]: the init message of the [open]
    listener, and [{ text, flush }]. *)
Inductive Payload :=
| Init
| Text (text : string) (flush : bool).

Inductive Effect :=
| NewSocket (k : nat)              (* new WebSocket(url, ...) with the four listeners *)
| WsSend (k : nat) (p : Payload)
| WsClose (k : nat)
| WsTerminate (k : nat)
| RemoveAllListeners (k : nat)
| EmitAudioChunk (base64 : string)
| EmitGenerationComplete
| Thrown.                          (* this.ws.send on null in the open listener *)

Record State := {
  ws : option nat;
  connected : bool;
  connecting : bool;
  listening : list nat;    (* the sockets that have their listeners *)
  created : nat;           (* the number of sockets created *)
  effects : list Effect
}.

Definition initial : State :=
  {| ws := None; connected := false; connecting := false; listening := [];
     created := 0; effects := [] |}.

Definition effect (e : Effect) (t : State) : State :=
  {| ws := ws t; connected := connected t; connecting := connecting t;
     listening := listening t; created := created t; effects := effects t ++ [e] |}.

(** [connect], up to the promise it returns (lines 96-161). *)
Definition connect (t : State) : State :=
  match ws t with
  | Some _ => if connected t then t
              else if connecting t then t
              else {| ws := Some (created t); connected := connected t; connecting := true;
                      listening := created t :: listening t; created := S (created t);
                      effects := effects t ++ [NewSocket (created t)] |}
  | None => if connecting t then t
            else {| ws := Some (created t); connected := connected t; connecting := true;
                    listening := created t :: listening t; created := S (created t);
                    effects := effects t ++ [NewSocket (created t)] |}
  end.

(** [_ensureConnected], up to its [await]. *)
Definition ensureConnected (t : State) : State :=
  if connected t then t else connect t.

(** The guard and the [ws.send] shared by [sendText], [sendTextChunk],
    [flush] and [closeStream]. *)
Definition send (p : Payload) (t : State) : State :=
  match ws t with
  | Some k => if connected t then effect (WsSend k p) t else t
  | None => t
  end.

(** [sendText] and [sendTextChunk] after [await this._ensureConnected()]. *)
Definition sendText (text : string) : State -> State :=
  send (Text (String.append text " ") true).

Definition sendTextChunk (chunk : string) : State -> State :=
  send (Text chunk false).

Definition flush : State -> State := send (Text " " true).

Definition closeStream : State -> State := send (Text "" false).

(** [interrupt]; [readyState] is [this.ws.readyState]. *)
Definition interrupt (readyState : ReadyState) (t : State) : State :=
  match ws t with
  | Some k =>
      {| ws := None; connected := false; connecting := false;
         listening := List.filter (fun j => negb (j =? k)) (listening t);
         created := created t;
         effects := effects t ++ RemoveAllListeners k
                      :: match readyState with
                         | OPEN => [WsClose k]
                         | CONNECTING => [WsTerminate k]
                         | _ => []
                         end |}
  | None => t
  end.

Definition disconnect (t : State) : State :=
  match ws t with
  | Some k =>
      {| ws := None; connected := false; connecting := false;
         listening := listening t; created := created t;
         effects := effects t ++ [WsClose k] |}
  | None => t
  end.

(** The listeners (lines 114-159). *)
Definition onOpen (t : State) : State :=
  let t1 := {| ws := ws t; connected := true; connecting := false;
               listening := listening t; created := created t; effects := effects t |} in
  match ws t1 with
  | Some k => effect (WsSend k Init) t1
  | None => effect Thrown t1
  end.

(** [None] is a message that [JSON.parse] rejects. *)
Definition onMessage (m : option Message) (t : State) : State :=
  match m with
  | None => t
  | Some msg =>
      let t1 := match audio msg with
                | Some "" | None => t
                | Some base64 => effect (EmitAudioChunk base64) t
                end in
      if isFinal msg then effect EmitGenerationComplete t1 else t1
  end.

Definition onClose (t : State) : State :=
  {| ws := None; connected := false; connecting := false;
     listening := listening t; created := created t; effects := effects t |}.

Definition onError (t : State) : State :=
  {| ws := ws t; connected := false; connecting := false;
     listening := listening t; created := created t; effects := effects t |}.

Inductive SocketEvent :=
| WsOpen
| WsMessage (m : option Message)
| WsClosed
| WsError.

Definition listener (e : SocketEvent) : State -> State :=
  match e with
  | WsOpen => onOpen
  | WsMessage m => onMessage m
  | WsClosed => onClose
  | WsError => onError
  end.

(** What happens to the client: a call of a method (the two sending methods
    in two parts, before and after their [await]), or an event of the socket
    [k]. *)
Inductive Action :=
| Connect
| EnsureConnected
| SendText (text : string)
| SendTextChunk (chunk : string)
| Flush
| CloseStream
| Interrupt (readyState : ReadyState)
| Disconnect
| Event (k : nat) (e : SocketEvent).

Definition step (t : State) (a : Action) : State :=
  match a with
  | Connect => connect t
  | EnsureConnected => ensureConnected t
  | SendText text => sendText text t
  | SendTextChunk chunk => sendTextChunk chunk t
  | Flush => flush t
  | CloseStream => closeStream t
  | Interrupt readyState => interrupt readyState t
  | Disconnect => disconnect t
  | Event k e => if existsb (Nat.eqb k) (listening t) then listener e t else t
  end.

Definition run (t : State) (actions : list Action) : State := fold_left step actions t.

Definition reachable (t : State) : Prop := exists actions, t = run initial actions.

(** The effects that concern the socket [k]. *)
Definition concerns (k : nat) (e : Effect) : bool :=
  match e with
  | NewSocket j | WsSend j _ | WsClose j | WsTerminate j | RemoveAllListeners j => j =? k
  | _ => false
  end.

(** Every socket the client knows was created. *)
Definition known (t : State) : Prop :=
  (forall k, ws t = Some k -> k < created t)
  /\ (forall k, In k (listening t) -> k < created t).

(** The socket [k] is torn down: it exists, it has no listeners, and the
    client does not hold it. *)
Definition tornDown (k : nat) (t : State) : Prop :=
  k < created t /\ ~ In k (listening t) /\ ws t <> Some k.

(** A sentence is spoken on the first socket. *)
Definition speaking : list Action :=
  [EnsureConnected; Event 0 WsOpen; SendTextChunk "Hello there. ";
   Event 0 (WsMessage (Some {| audio := Some "pcm"; isFinal := false |}))].

End ElevenLabsTTS.

(** *** An interrupted tool round *)

(** The first cycle has called [Create_Tutorial] and is interrupted by a
    committed transcript while the lesson creator works. *)
Definition interruptedCreation : Machine :=
  Eval vm_compute in
    match run firstCycle [EvStreamDone threeCalls;
                          EvCommittedTranscript "make it a table" 9000] with
    | Some m => m
    | None => start
    end.

Definition afterInterruptedCreation : Machine :=
  Eval vm_compute in
    match step interruptedCreation (EvGenerated chair) with
    | Some m => m
    | None => start
    end.

(** *** Sentences dispatched *)

(** The sentences handed to [tts.sendTextChunk] so far. *)
Definition dispatched (s : Session) : list string := sentChunks (out s).

(** The first cycle is interrupted while it streams, and the stream goes on
    for a while. *)
Definition lateDeltas : list Event :=
  [EvStreamText "Sure. Press G to "; EvStreamText "grab. Then move it."; EvPlaybackEnded;
   EvStreamDone [BText "Sure. Press G to grab. Then move it."]].

Definition interruptedStream : Machine :=
  Eval vm_compute in
    match run firstCycle [EvStreamText "Welcome. "; EvPartialTranscript "wait"] with
    | Some m => m
    | None => start
    end.

Definition afterLateDeltas : Machine :=
  Eval vm_compute in
    match run interruptedStream lateDeltas with
    | Some m => m
    | None => start
    end.

(** *** Cancellation *)

(** A transcript event with a text that is not blank. *)
Definition spoken (e : Event) : bool :=
  match e with
  | EvPartialTranscript text | EvCommittedTranscript text _ => negb (JsString.blank text)
  | _ => false
  end.

(** The three calls of [handleInterruption]. *)
Definition cancellation : list Output := [ClaudeAbort; TtsInterrupt; SocketEmit interrupt].

(** The first cycle after a partial transcript. *)
Definition cancelledFirst : Machine :=
  Eval vm_compute in
    match step firstCycle (EvPartialTranscript "wait") with
    | Some m => m
    | None => start
    end.

(** *** What the session has seen of the user *)








(** *** The tutorial loaded *)

(** The tutorials announced to the client with [tutorial_ready]. *)
Definition announced (os : list Output) : list Tutorial :=
  flat_map (fun o => match o with SocketEmit (tutorial_ready t) => [t] | _ => [] end) os.

(** The tutorial of the session and the tutorials announced so far. *)
Definition loaded (s : Session) : option Tutorial * list Tutorial :=
  (currentTutorial s, announced (out s)).

(** What an answer of the lesson creator leaves of them. *)
Definition answered (answer : Tutorial + string) (l : option Tutorial * list Tutorial)
  : option Tutorial * list Tutorial :=
  match answer with
  | inl t => (Some t, snd l ++ [t])
  | inr _ => l
  end.

(** What one event leaves of them. *)
Definition delivered (e : Event) (l : option Tutorial * list Tutorial)
  : option Tutorial * list Tutorial :=
  match e with
  | EvGenerated t => answered (inl t) l
  | _ => l
  end.

(** The tutorials a trace has the lesson creator return. *)
Definition generated (events : list Event) : list Tutorial :=
  flat_map (fun e => match e with EvGenerated t => [t] | _ => [] end) events.

(** *** Text shown and text spoken *)

(** The texts emitted to the client, with [true] for [agent_text_continue]. *)
Definition shown (os : list Output) : list (bool * string) :=
  flat_map (fun o => match o with
                     | SocketEmit (agent_text text) => [(false, text)]
                     | SocketEmit (agent_text_continue text) => [(true, text)]
                     | _ => []
                     end) os.

(** The sentences dispatched and the texts shown so far. *)
Definition voiced (s : Session) : list string * list (bool * string) :=
  (sentChunks (out s), shown (out s)).

(** The text [text] of a stream as the client is shown it. *)
Definition shownText (isContinuation : bool) (text : string) : list (bool * string) :=
  match text with
  | "" => []
  | _ => [(isContinuation, text)]
  end.

(** The events that end a stream whose buffer is left with [rest]. *)
Definition endOfStream (response : list Block) (rest : string) : list Event :=
  EvStreamDone response :: (if JsString.blank rest then [] else [EvTtsSent]).

(** *** The turns of a check *)

(** A response of [claude.getResponse] holds no tool-result block. *)
Definition plain (e : Event) : bool :=
  match e with
  | EvResponse response => negb (existsb isToolResult response)
  | _ => true
  end.

Definition endsWith (r : Role) (msgs : list Msg) : Prop :=
  option_map role (last msgs) = Some r.

(** An exchange: turns that begin with a user turn and alternate, every
    turn of tool results answering the assistant turn before it. *)
Definition exchange (msgs : list Msg) : Prop :=
  option_map role (head msgs) = Some user /\ alternates msgs = true.

(** The turns end with a response whose tool calls are [calls]. *)
Definition openCalls (msgs : list Msg) (calls : list ToolUse) : Prop :=
  exists response,
    last msgs = Some (assistantTurn (CBlocks response)) /\ toolUses response = calls.

(** The provisional turns of a check at an [await], with the calls and the
    results of the round that is under way. *)
Definition wellFormedCheck (a : Await) : Prop :=
  match a with
  | AwCheckResponse uc => exchange [userTurn uc]
  | AwCheckSpeak _ msgs calls => exchange msgs /\ openCalls msgs calls
  | AwCheckTool _ msgs _ tu todo results =>
      exchange msgs
      /\ exists done, openCalls msgs (done ++ tu :: todo) /\ Forall2 resultOf done results
  | AwCheckFollowUp _ msgs _ => exchange msgs /\ endsWith user msgs
  | _ => True
  end.

(** A stretch of the check from the history of [s]: it goes on with
    well-formed provisional turns, or it ends with the history as it was or
    extended by an exchange. *)
Definition wellFormedFlow (s : Session) (f : CheckFlow) : Prop :=
  match f with
  | CheckSuspended _ a => wellFormedCheck a
  | CheckLeft s' =>
      currentConversation s' = currentConversation s
      \/ exists turns,
           currentConversation s' = currentConversation s ++ turns /\ exchange turns
  end.

Definition WellFormed (m : Machine) : Prop :=
  match task m with
  | Some (a, _) => wellFormedCheck a
  | None => True
  end.

(** A check gives a tip, and the tip has been spoken. *)
Definition tipCheck : list Event :=
  quietCheck ++ [EvResponse [BText "Try the loop cut."]].

Definition tipSpoken : Machine :=
  Eval vm_compute in
    match run start tipCheck with
    | Some m => m
    | None => start
    end.

Definition tipCommitted : Machine :=
  Eval vm_compute in
    match step tipSpoken EvTtsSent with
    | Some m => m
    | None => start
    end.

(** *** A session without the recurring check *)

(** The session was started with [c], the timer of the recurring check is
    not installed, no check is suspended and [claude.getResponse] has not
    been called. *)
Definition Unchecked (c : Config) (m : Machine) : Prop :=
  StartedWith c m
  /\ recurringCheckInterval (sess m) = false
  /\ checkSuspended m = false
  /\ requestCount (out (sess m)) = 0.

Definition isTick (e : Event) : bool :=
  match e with
  | EvTick _ => true
  | _ => false
  end.

(** The configuration of the samples with the recurring check switched off. *)
Definition uncheckedConfig : Config :=
  {| toolType := "blender"; recurringCheck_enabled := false;
     recurringCheck_idleThresholdMs := None |}.

(** A session with a frame, left alone. *)
Definition uncheckedSession : list Event :=
  [EvStreamDone [BText "Welcome."]; EvFrame "frame"; EvPlaybackEnded].

(** *** The histories streamed *)

(** A streaming request carries a history that has gone through the two
    passes: no tool call is orphaned and at most [MAX_CONTEXT_IMAGES] turns
    bear an image. *)
Definition preparedRequest (o : Output) : Prop :=
  match o with
  | ClaudeStream msgs => paired msgs = true /\ imageCount msgs <= MAX_CONTEXT_IMAGES
  | _ => True
  end.

(** Twelve frames, each followed by a committed transcript and the failure
    of the stream it starts. *)
Definition twelveFrames : list Event :=
  EvStartSession blenderConfig :: EvStreamFailed
  :: flat_map (fun n => [EvFrame "frame"; EvCommittedTranscript "next" (Z.of_nat n);
                         EvStreamFailed]) (seq 0 12).

Definition afterTwelveFrames : Machine :=
  Eval vm_compute in
    match run start twelveFrames with
    | Some m => m
    | None => start
    end.

(** ** ElevenLabsSTT (server/services/elevenlabs-stt.js)

    The client of the recognizer: the fields [ws], [connected],
    [shouldReconnect] and [reconnectTimer], the listeners it puts on its
    sockets and its three methods.  A socket is named by the number of
    sockets created before it, a timer by the number of timers set before
    it.  The [ws] library and the timers of the runtime are not modelled: the
    environment may deliver any event of any socket that was created (the
    client never removes a listener) and may fire any pending timer, at any
    time. *)

Module ElevenLabsSTT.

(** What a message of the recognizer parses to: [msg.message_type] and
    [msg.text]. *)
Record Message := { message_type : string; text : option string }.

Inductive Effect :=
| NewSocket (k : nat)                (* new WebSocket(url, ...) with the four listeners *)
| WsSend (k : nat) (base64Audio : string)
| WsClose (k : nat)
| SetTimeout (id : nat)              (* setTimeout(() => this.connect(), 1000) *)
| ClearTimeout (id : nat)
| EmitPartialTranscript (text : string)
| EmitCommittedTranscript (text : string).

Record State := {
  ws : option nat;
  connected : bool;
  shouldReconnect : bool;
  reconnectTimer : option nat;
  timers : list nat;       (* the timers that are pending *)
  created : nat;           (* the number of sockets created *)
  scheduled : nat;         (* the number of timers set *)
  effects : list Effect
}.

Definition initial : State :=
  {| ws := None; connected := false; shouldReconnect := false; reconnectTimer := None;
     timers := []; created := 0; scheduled := 0; effects := [] |}.

Definition effect (e : Effect) (t : State) : State :=
  {| ws := ws t; connected := connected t; shouldReconnect := shouldReconnect t;
     reconnectTimer := reconnectTimer t; timers := timers t; created := created t;
     scheduled := scheduled t; effects := effects t ++ [e] |}.

(** [connect] (lines 17-96). *)
Definition connect (t : State) : State :=
  match ws t with
  | Some _ => t
  | None =>
      {| ws := Some (created t); connected := connected t; shouldReconnect := true;
         reconnectTimer := reconnectTimer t; timers := timers t;
         created := S (created t); scheduled := scheduled t;
         effects := effects t ++ [NewSocket (created t)] |}
  end.

(** [sendAudio] (lines 98-109). *)
Definition sendAudio (base64Audio : string) (t : State) : State :=
  match ws t with
  | Some k => if connected t then effect (WsSend k base64Audio) t else t
  | None => t
  end.

(** [disconnect] (lines 111-123). *)
Definition disconnect (t : State) : State :=
  let t1 :=
    match reconnectTimer t with
    | Some id =>
        {| ws := ws t; connected := connected t; shouldReconnect := false;
           reconnectTimer := None;
           timers := List.filter (fun j => negb (j =? id)) (timers t);
           created := created t; scheduled := scheduled t;
           effects := effects t ++ [ClearTimeout id] |}
    | None =>
        {| ws := ws t; connected := connected t; shouldReconnect := false;
           reconnectTimer := None; timers := timers t;
           created := created t; scheduled := scheduled t; effects := effects t |}
    end in
  match ws t1 with
  | Some k =>
      {| ws := None; connected := false; shouldReconnect := shouldReconnect t1;
         reconnectTimer := reconnectTimer t1; timers := timers t1;
         created := created t1; scheduled := scheduled t1;
         effects := effects t1 ++ [WsClose k] |}
  | None => t1
  end.

(** The listeners (lines 38-95). *)
Definition onOpen (t : State) : State :=
  {| ws := ws t; connected := true; shouldReconnect := shouldReconnect t;
     reconnectTimer := reconnectTimer t; timers := timers t; created := created t;
     scheduled := scheduled t; effects := effects t |}.

(** [None] is a message that [JSON.parse] rejects. *)
Definition onMessage (m : option Message) (t : State) : State :=
  match m with
  | None => t
  | Some msg =>
      if String.eqb (message_type msg) "partial_transcript" then
        match text msg with
        | Some "" | None => t
        | Some x => effect (EmitPartialTranscript x) t
        end
      else if String.eqb (message_type msg) "committed_transcript" then
        match text msg with
        | Some "" | None => t
        | Some x => effect (EmitCommittedTranscript x) t
        end
      else t
  end.

Definition onClose (t : State) : State :=
  if shouldReconnect t
  then {| ws := None; connected := false; shouldReconnect := shouldReconnect t;
          reconnectTimer := Some (scheduled t); timers := timers t ++ [scheduled t];
          created := created t; scheduled := S (scheduled t);
          effects := effects t ++ [SetTimeout (scheduled t)] |}
  else {| ws := None; connected := false; shouldReconnect := shouldReconnect t;
          reconnectTimer := reconnectTimer t; timers := timers t;
          created := created t; scheduled := scheduled t; effects := effects t |}.

Inductive SocketEvent :=
| WsOpen
| WsMessage (m : option Message)
| WsClosed
| WsError.

Definition listener (e : SocketEvent) (t : State) : State :=
  match e with
  | WsOpen => onOpen t
  | WsMessage m => onMessage m t
  | WsClosed => onClose t
  | WsError => t
  end.

(** The callback of a reconnect timer. *)
Definition onTimeout (id : nat) (t : State) : State :=
  connect
    {| ws := ws t; connected := connected t; shouldReconnect := shouldReconnect t;
       reconnectTimer := reconnectTimer t;
       timers := List.filter (fun j => negb (j =? id)) (timers t);
       created := created t; scheduled := scheduled t; effects := effects t |}.

(** What happens to the client: a call of a method, an event of the socket
    [k], or the timer [id] firing. *)
Inductive Action :=
| Connect
| SendAudio (base64Audio : string)
| Disconnect
| Event (k : nat) (e : SocketEvent)
| Timeout (id : nat).

Definition step (t : State) (a : Action) : State :=
  match a with
  | Connect => connect t
  | SendAudio base64Audio => sendAudio base64Audio t
  | Disconnect => disconnect t
  | Event k e => if k <? created t then listener e t else t
  | Timeout id => if existsb (Nat.eqb id) (timers t) then onTimeout id t else t
  end.

Definition run (t : State) (actions : list Action) : State := fold_left step actions t.

Definition isConnect (a : Action) : bool :=
  match a with
  | Connect => true
  | _ => false
  end.

(** The effects of a client that is shut down: it may still close a socket
    and pass on what the sockets it created deliver. *)
Definition passive (e : Effect) : bool :=
  match e with
  | NewSocket _ | WsSend _ _ | SetTimeout _ => false
  | _ => true
  end.

(** The client is shut down: it holds no socket, will not reconnect and no
    timer is pending. *)
Definition shutDown (t : State) : Prop :=
  ws t = None /\ shouldReconnect t = false /\ timers t = [].

(** The socket closes while the client listens, one second has not yet
    passed. *)
Definition reconnecting : State :=
  Eval vm_compute in
    run initial [Connect; Event 0 WsOpen; SendAudio "pcm"; Event 0 WsClosed].

Definition lateArrivals : list Action :=
  [Timeout 0;
   Event 0 (WsMessage (Some {| message_type := "committed_transcript";
                               text := Some "hello" |}));
   Event 0 WsOpen; SendAudio "pcm"; Event 0 WsClosed].

Definition reachable (t : State) : Prop := exists actions, t = run initial actions.

(** A client that is to stay connected and holds no socket has a reconnect
    pending. *)
Definition recovering (t : State) : Prop :=
  shouldReconnect t = true -> ws t = None -> timers t <> [].

End ElevenLabsSTT.

(** * Verification *)

(** ** Strings *)

Lemma length_substring_le (s : string) :
  forall n m, String.length (substring n m s) <= String.length s - n.
Proof.
  induction s as [|c s IH]; intros [|n] [|m]; simpl; try lia.
  - specialize (IH 0 m). lia.
  - apply IH.
  - apply IH.
Qed.

Lemma sentenceEnd_bound (s : string) :
  forall i, JsString.sentenceEnd s = Some i -> i + 2 <= String.length s.
Proof.
  induction s as [|c s IH]; intros i; simpl; [discriminate|].
  destruct s as [|d s']; [discriminate|].
  destruct (JsString.isTerminator c && JsString.isSpace d).
  - intros [= <-]. simpl. lia.
  - destruct (JsString.sentenceEnd (String d s')) as [j|] eqn:E; [|discriminate].
    intros [= <-]. specialize (IH j eq_refl). simpl in *. lia.
Qed.

(** The fuel of the loop is enough: no sentence end is left in the buffer. *)
Lemma drainSentences_enough (fuel : nat) :
  forall buf, String.length buf <= fuel ->
    JsString.sentenceEnd (snd (drainSentences fuel buf)) = None.
Proof.
  induction fuel as [|fuel IH]; intros buf Hlen; simpl.
  - destruct buf; [reflexivity | simpl in Hlen; lia].
  - destruct (JsString.sentenceEnd buf) as [i|] eqn:E; [|exact E].
    pose proof (sentenceEnd_bound _ _ E) as Hi.
    pose proof (length_substring_le buf (i + 2) (String.length buf - (i + 2))) as Hs.
    specialize (IH (JsString.from (i + 2) buf)).
    destruct (drainSentences fuel (JsString.from (i + 2) buf)) as [more left].
    simpl in *. apply IH. unfold JsString.from. lia.
Qed.

Lemma drainSentences_complete (buf : string) :
  JsString.sentenceEnd (snd (drainSentences (String.length buf) buf)) = None.
Proof. apply drainSentences_enough. lia. Qed.

(** ** The tool dispatcher *)

(** C9. A tool name outside the dispatch table makes [handleToolCall] return
    the error-shaped result that names the tool, with the module state
    untouched; the surrounding tool loop records that result and goes on
    with the calls that are left. *)
Theorem unknown_tool_returns_error (tu : ToolUse) (s : Session) :
  tu_name tu <> "Create_Tutorial" ->
  tu_name tu <> "Progressed_Step" ->
  tu_name tu <> "Suggested_HotKey" ->
  handleToolCall (tu_name tu) (tu_input tu) s
    = Returned s (RError (String.append "Unknown tool: " (tu_name tu)))
  /\ forall stop rest results,
       stop s = false ->
       processTools stop (tu :: rest) results s
       = processTools stop rest
           (results ++ [BToolResult (tu_id tu)
                          (RError (String.append "Unknown tool: " (tu_name tu)))])
           (emit (invoke tu) s).
Proof.
  intros H1 H2 H3.
  apply String.eqb_neq in H1, H2, H3.
  assert (Hcall : forall s', handleToolCall (tu_name tu) (tu_input tu) s'
            = Returned s' (RError (String.append "Unknown tool: " (tu_name tu)))).
  { intros s'. unfold handleToolCall. rewrite H1, H2, H3. reflexivity. }
  split; [apply Hcall|].
  intros stop rest results Hstop. simpl. rewrite Hstop, Hcall. reflexivity.
Qed.

Lemma unknown_tool_returns_error_witness :
  handleToolCall "Open_Door" noInput initial
  = Returned initial (RError "Unknown tool: Open_Door").
Proof.
  apply (unknown_tool_returns_error unknownCall initial); discriminate.
Defined.

(** ** The sentence-boundary streamer *)

(** C7, as the code has it. In a cycle that is not interrupted and starts
    with an empty sentence buffer, the deltas "Hello there. How " and
    "are you? Great." followed by the end of the generation hand the
    synthesizer "Hello there. ", "How are you? " and then, by the flush of
    the rest of the buffer with a space appended, "Great. ". *)
Theorem streamed_sentences (m : Machine) (c : bool) (ft : string) (fs : list Frame)
    (response : list Block) :
  task m = Some (AwStream c ft, fs) ->
  interrupted (sess m) = false ->
  sentenceBuffer (sess m) = "" ->
  exists m',
    run m [EvStreamText "Hello there. How "; EvStreamText "are you? Great.";
           EvStreamDone response] = Some m'
    /\ out (sess m')
       = out (sess m) ++ [TtsSendTextChunk "Hello there. ";
                          TtsSendTextChunk "How are you? ";
                          TtsSendTextChunk "Great. "]
    /\ task m' = Some (AwFlushChunk c
                         (String.append (String.append ft "Hello there. How ")
                                        "are you? Great.") response, fs).
Proof.
  destruct m as [s t]. simpl. intros -> Hint Hbuf.
  set (s1 := handleTextChunkForTTS "Hello there. How " s).
  set (s2 := handleTextChunkForTTS "are you? Great." s1).
  assert (H1 : interrupted s1 = false /\ sentenceBuffer s1 = "How "
               /\ out s1 = out s ++ [TtsSendTextChunk "Hello there. "]).
  { subst s1. unfold handleTextChunkForTTS. rewrite Hint, Hbuf. simpl. auto. }
  destruct H1 as (Hint1 & Hbuf1 & Hout1).
  assert (H2 : interrupted s2 = false /\ sentenceBuffer s2 = "Great."
               /\ out s2 = out s1 ++ [TtsSendTextChunk "How are you? "]).
  { subst s2. unfold handleTextChunkForTTS. rewrite Hint1, Hbuf1. simpl. auto. }
  destruct H2 as (Hint2 & Hbuf2 & Hout2).
  unfold resume, resumeMain, onStreamText. simpl. rewrite Hint. fold s1. simpl.
  rewrite Hint1. fold s2. simpl.
  unfold onStreamDone. rewrite Hint2, Hbuf2. simpl.
  eexists. split; [reflexivity|]. simpl. split; [|reflexivity].
  rewrite Hout2, Hout1, <- !app_assoc. reflexivity.
Qed.

Lemma streamed_sentences_witness :
  exists m',
    run (suspended (beginCycle initial) (AwStream false "") [])
        [EvStreamText "Hello there. How "; EvStreamText "are you? Great.";
         EvStreamDone [BText "Hello there. How are you? Great."]] = Some m'
    /\ sentChunks (out (sess m')) = ["Hello there. "; "How are you? "; "Great. "].
Proof.
  destruct (streamed_sentences (suspended (beginCycle initial) (AwStream false "") [])
              false "" [] [BText "Hello there. How are you? Great."]
              eq_refl eq_refl eq_refl) as [m' [Hrun [Hout _]]].
  exists m'. split; [exact Hrun|]. rewrite Hout. reflexivity.
Defined.

(** C7, as the specification states it, fails: the third string the
    synthesizer receives is not "Great.". *)
Lemma streamed_sentences_counterexample :
  exists m,
    run start spokenCycle = Some m
    /\ task m = None
    /\ sentChunks (out (sess m)) <> ["Hello there. "; "How are you? "; "Great."].
Proof.
  eexists. split; [vm_compute; reflexivity|]. split; [reflexivity|].
  vm_compute. discriminate.
Qed.

(** ** sanitizeConversation *)

Lemma sanitizeMsg_role (msg : Msg) (next : option Msg) :
  role (sanitizeMsg msg next) = role msg.
Proof.
  unfold sanitizeMsg.
  destruct (negb (Role_eqb (role msg) assistant)); [reflexivity|].
  destruct (negb (existsb isToolUse (blocksOrEmpty (content msg)))); [reflexivity|].
  destruct (followedByToolResult next); reflexivity.
Qed.

Lemma sanitizeMsg_user (msg : Msg) (next : option Msg) :
  role msg = user -> sanitizeMsg msg next = msg.
Proof. intros H. unfold sanitizeMsg. rewrite H. reflexivity. Qed.

(** The pass never changes what the test on the next message sees. *)
Lemma followedByToolResult_sanitized (conv : list Msg) :
  followedByToolResult (head (sanitizeConversation conv))
  = followedByToolResult (head conv).
Proof.
  destruct conv as [|msg rest]; [reflexivity|]. simpl.
  pose proof (sanitizeMsg_role msg (head (sanitizeConversation rest))) as Hr.
  destruct (role msg) eqn:Hrole.
  - rewrite sanitizeMsg_user by exact Hrole. rewrite Hrole. reflexivity.
  - rewrite Hr. reflexivity.
Qed.

Lemma sanitizeMsg_next (msg : Msg) (a b : option Msg) :
  followedByToolResult a = followedByToolResult b ->
  sanitizeMsg msg a = sanitizeMsg msg b.
Proof. intros H. unfold sanitizeMsg. rewrite H. reflexivity. Qed.

Lemma existsb_spoken_filter (blocks : list Block) :
  existsb hasSpokenText (List.filter isText blocks) = existsb hasSpokenText blocks.
Proof.
  induction blocks as [|b blocks IH]; [reflexivity|].
  destruct b; simpl; rewrite ?IH; reflexivity.
Qed.

Lemma strippedContent_normalized (msg : Msg) :
  {| role := role msg; content := strippedContent (blocksOrEmpty (content msg)) |}
  = SanitizeSpec.normalized hasSpokenText msg.
Proof.
  unfold SanitizeSpec.normalized, strippedContent, SanitizeSpec.ownText. f_equal.
  rewrite <- (existsb_spoken_filter (blocksOrEmpty (content msg))).
  destruct (List.filter isText (blocksOrEmpty (content msg))) as [|[] [|]]; reflexivity.
Qed.

Lemma sanitizeMsg_cases (msg : Msg) (next : option Msg) :
  sanitizeMsg msg next
  = if SanitizeSpec.holdsToolUse msg && negb (followedByToolResult next)
    then SanitizeSpec.normalized hasSpokenText msg else msg.
Proof.
  unfold sanitizeMsg, SanitizeSpec.holdsToolUse.
  rewrite <- strippedContent_normalized.
  destruct (Role_eqb (role msg) assistant); [|reflexivity].
  destruct (existsb isToolUse (blocksOrEmpty (content msg))); [|reflexivity].
  destruct (followedByToolResult next); reflexivity.
Qed.

Lemma sanitizeConversation_imap (conv : list Msg) :
  sanitizeConversation conv = imap (fun i msg => sanitizeMsg msg (conv !! S i)) conv.
Proof.
  induction conv as [|msg rest IH]; [reflexivity|].
  simpl sanitizeConversation. rewrite imap_cons. f_equal.
  - apply sanitizeMsg_next. rewrite followedByToolResult_sanitized.
    destruct rest; reflexivity.
  - rewrite IH. apply imap_ext. intros i x _. reflexivity.
Qed.

Lemma sanitizeConversation_length (conv : list Msg) :
  length (sanitizeConversation conv) = length conv.
Proof. rewrite sanitizeConversation_imap. apply length_imap. Qed.

(** C5, as the code has it. The pass keeps every turn in place and changes
    exactly the assistant turns that hold tool-use blocks and are not
    followed by a user turn with at least one tool-result block: their
    content becomes their own text (the string of the only text block, or
    the list of their text blocks) when a text block is not blank, and the
    placeholder otherwise. *)
Theorem sanitize_normalizes_orphans (conv : list Msg) :
  sanitizeConversation conv = SanitizeSpec.sanitizedAmended conv.
Proof.
  rewrite sanitizeConversation_imap. unfold SanitizeSpec.sanitizedAmended.
  apply imap_ext. intros i msg _. apply sanitizeMsg_cases.
Qed.

(** C5, as the specification states it, fails: a blank text does not count
    as text, and any tool result in the next user turn counts as an answer. *)
Lemma sanitize_counterexample :
  sanitizeConversation orphans <> SanitizeSpec.sanitized orphans
  /\ sanitizeConversation orphans
     = [assistantTurn (CString "[Response interrupted by user]");
        userTurn (CString "go on");
        assistantTurn (CBlocks [BToolUse "toolu_b" "Suggested_HotKey" noInput]);
        userTurn (CBlocks [BToolResult "toolu_c" RHotkey])]
  /\ SanitizeSpec.sanitized orphans
     = [assistantTurn (CString " ");
        userTurn (CString "go on");
        assistantTurn (CString "[Response interrupted by user]");
        userTurn (CBlocks [BToolResult "toolu_c" RHotkey])].
Proof. repeat split; vm_compute; (reflexivity || discriminate). Qed.

(** ** pruneOldImages *)

Lemma imageIndicesFrom_bounds (conv : list Msg) :
  forall k j, j ∈ imageIndicesFrom k conv -> k <= j < k + length conv.
Proof.
  induction conv as [|msg rest IH]; intros k j; simpl.
  - intros H. inversion H.
  - destruct (hasImage msg).
    + rewrite elem_of_cons. intros [->|H]; [lia|]. apply IH in H. lia.
    + intros H. apply IH in H. lia.
Qed.

Lemma imageIndicesFrom_NoDup (conv : list Msg) :
  forall k, NoDup (imageIndicesFrom k conv).
Proof.
  induction conv as [|msg rest IH]; intros k; simpl; [constructor|].
  destruct (hasImage msg); [|apply IH].
  apply NoDup_cons. split; [|apply IH].
  intros H. apply imageIndicesFrom_bounds in H. lia.
Qed.

Lemma imageIndicesFrom_app (pre post : list Msg) :
  forall k, imageIndicesFrom k (pre ++ post)
            = imageIndicesFrom k pre ++ imageIndicesFrom (k + length pre) post.
Proof.
  induction pre as [|msg pre IH]; intros k; simpl.
  - f_equal. lia.
  - rewrite IH. replace (S k + length pre) with (k + S (length pre)) by lia.
    destruct (hasImage msg); reflexivity.
Qed.

Lemma imageIndicesFrom_length (conv : list Msg) :
  forall k, length (imageIndicesFrom k conv) = imageCount conv.
Proof.
  unfold imageCount.
  induction conv as [|msg rest IH]; intros k; simpl; [reflexivity|].
  destruct (hasImage msg); simpl; rewrite IH; reflexivity.
Qed.

(** A list of updates at distinct indices, read at index [i]. *)
Lemma lookup_fold_alter (f : Msg -> Msg) (idxs : list nat) :
  forall (conv : list Msg) (i : nat),
    NoDup idxs ->
    fold_left (fun c idx => alter f idx c) idxs conv !! i
    = if decide (i ∈ idxs) then f <$> conv !! i else conv !! i.
Proof.
  induction idxs as [|j idxs IH]; intros conv i Hnd; simpl.
  - destruct (decide (i ∈ [])) as [H|_]; [inversion H|reflexivity].
  - apply NoDup_cons in Hnd as [Hj Hnd]. rewrite IH by exact Hnd.
    destruct (decide (i = j)) as [->|Hne].
    + rewrite list_lookup_alter_eq.
      destruct (decide (j ∈ idxs)); [contradiction|].
      destruct (decide (j ∈ j :: idxs)) as [_|H]; [reflexivity|].
      exfalso. apply H. apply elem_of_cons. auto.
    + rewrite list_lookup_alter_ne by auto.
      destruct (decide (i ∈ idxs)) as [Hin|Hin];
        destruct (decide (i ∈ j :: idxs)) as [Hin'|Hin']; try reflexivity.
      * exfalso. apply Hin'. apply elem_of_cons. auto.
      * exfalso. apply elem_of_cons in Hin' as [?|?]; auto.
Qed.

(** The index [i] of an image-bearing turn is among those to strip exactly
    when more than [MAX_CONTEXT_IMAGES] image-bearing turns lie at [i] or
    after it. *)
Lemma toStrip_spec (conv : list Msg) (i : nat) (msg : Msg) :
  conv !! i = Some msg ->
  i ∈ toStrip conv <-> hasImage msg = true /\ MAX_CONTEXT_IMAGES < imagesFrom i conv.
Proof.
  intros Hi. unfold toStrip, imageIndices, imagesFrom.
  pose proof (take_drop_middle conv i msg Hi) as Hsplit.
  pose proof (lookup_lt_Some _ _ _ Hi) as Hlt.
  assert (Hlen : length (take i conv) = i) by (rewrite length_take; lia).
  rewrite <- Hsplit at 1 2. rewrite (drop_S conv msg i Hi).
  rewrite imageIndicesFrom_app. simpl imageIndicesFrom at 2 4.
  rewrite Hlen. simpl.
  set (pre := imageIndicesFrom 0 (take i conv)).
  set (post := imageIndicesFrom (S i) (drop (S i) conv)).
  assert (Hpre : i ∉ pre).
  { intros H. apply imageIndicesFrom_bounds in H. lia. }
  assert (Hpost : i ∉ post).
  { intros H. apply imageIndicesFrom_bounds in H. lia. }
  assert (Hnpost : length post = length (List.filter hasImage (drop (S i) conv))).
  { apply imageIndicesFrom_length. }
  destruct (hasImage msg) eqn:Himg; simpl.
  - rewrite length_app. simpl. rewrite <- Hnpost.
    destruct (le_lt_dec (length pre + S (length post) - MAX_CONTEXT_IMAGES) (length pre))
      as [Hle|Hgt].
    + rewrite take_app_le by exact Hle. split.
      * intros H. exfalso. apply Hpre. apply elem_of_take in H as (n & Hn & _).
        apply list_elem_of_lookup. eauto.
      * intros [_ H]. unfold MAX_CONTEXT_IMAGES in *. lia.
    + rewrite take_app. split.
      * intros _. split; [reflexivity|]. unfold MAX_CONTEXT_IMAGES in *. lia.
      * intros _. apply elem_of_app. right.
        destruct (length pre + S (length post) - MAX_CONTEXT_IMAGES - length pre)
          as [|n] eqn:E; [lia|].
        simpl. apply elem_of_cons. auto.
  - split; [|intros [H _]; discriminate].
    intros H. exfalso. apply elem_of_take in H as (n & Hn & _).
    assert (Hin : i ∈ pre ++ post) by (apply list_elem_of_lookup; eauto).
    apply elem_of_app in Hin as [?|?]; auto.
Qed.

Lemma toStrip_NoDup (conv : list Msg) : NoDup (toStrip conv).
Proof.
  unfold toStrip.
  apply (sublist_NoDup _ _ (imageIndicesFrom_NoDup conv 0)), sublist_take.
Qed.

Lemma toStrip_none (conv : list Msg) :
  imageCount conv <= MAX_CONTEXT_IMAGES -> toStrip conv = [].
Proof.
  intros H. unfold toStrip, imageIndices. rewrite imageIndicesFrom_length.
  replace (imageCount conv - MAX_CONTEXT_IMAGES) with 0 by lia. reflexivity.
Qed.

Lemma pruneOldImages_imap (conv : list Msg) :
  pruneOldImages conv = imap (strippedAt conv) conv.
Proof.
  assert (Hfold : fold_left (fun c idx => alter stripImages idx c) (toStrip conv) conv
                  = imap (strippedAt conv) conv).
  { apply list_eq. intros i.
    rewrite lookup_fold_alter by apply toStrip_NoDup.
    rewrite list_lookup_imap. unfold strippedAt.
    destruct (conv !! i) as [msg|] eqn:Hi; simpl.
    - pose proof (toStrip_spec conv i msg Hi) as Hspec.
      destruct (decide (i ∈ toStrip conv)) as [Hin|Hin].
      + apply Hspec in Hin as [-> Hlt]. apply Nat.ltb_lt in Hlt. rewrite Hlt. reflexivity.
      + destruct (hasImage msg) eqn:Himg; [|reflexivity].
        destruct (MAX_CONTEXT_IMAGES <? imagesFrom i conv) eqn:Hlt; [|reflexivity].
        exfalso. apply Hin, Hspec. apply Nat.ltb_lt in Hlt. auto.
    - destruct (decide (i ∈ toStrip conv)); reflexivity. }
  unfold pruneOldImages.
  destruct (length (imageIndices conv) <=? MAX_CONTEXT_IMAGES) eqn:Hle; [|exact Hfold].
  rewrite <- Hfold. apply Nat.leb_le in Hle.
  unfold imageIndices in Hle. rewrite imageIndicesFrom_length in Hle.
  rewrite toStrip_none by exact Hle. reflexivity.
Qed.

Lemma existsb_isImage_filter (blocks : list Block) :
  existsb isImage (List.filter (fun b => negb (isImage b)) blocks) = false.
Proof.
  induction blocks as [|b blocks IH]; [reflexivity|].
  destruct b; simpl; exact IH.
Qed.

(** Stripping keeps the role and every block that is not an image. *)
Lemma stripImages_spec (msg : Msg) :
  role (stripImages msg) = role msg
  /\ hasImage (stripImages msg) = false
  /\ blocksView (content (stripImages msg))
     = List.filter (fun b => negb (isImage b)) (blocksOrEmpty (content msg)).
Proof.
  unfold stripImages.
  pose proof (existsb_isImage_filter (blocksOrEmpty (content msg))) as Hno.
  destruct (List.filter (fun b => negb (isImage b)) (blocksOrEmpty (content msg)))
    as [|[] [|]]; auto.
Qed.

Lemma imageCount_cons (msg : Msg) (rest : list Msg) :
  imageCount (msg :: rest) = (if hasImage msg then 1 else 0) + imageCount rest.
Proof. unfold imageCount. simpl. destruct (hasImage msg); reflexivity. Qed.

Lemma imageCount_pruned (conv : list Msg) :
  imageCount (imap (strippedAt conv) conv) = Nat.min (imageCount conv) MAX_CONTEXT_IMAGES.
Proof.
  induction conv as [|msg rest IH]; [reflexivity|].
  rewrite imap_cons.
  rewrite (imap_ext (strippedAt (msg :: rest) ∘ S) (strippedAt rest) rest)
    by (intros i x _; reflexivity).
  rewrite imageCount_cons, IH, imageCount_cons.
  unfold strippedAt at 1. unfold imagesFrom. simpl drop. fold (imageCount (msg :: rest)).
  rewrite imageCount_cons.
  destruct (hasImage msg) eqn:Himg; simpl andb; cbv beta iota.
  - destruct (MAX_CONTEXT_IMAGES <? S (imageCount rest)) eqn:Hlt.
    + destruct (stripImages_spec msg) as (_ & -> & _).
      apply Nat.ltb_lt in Hlt. lia.
    + rewrite Himg. apply Nat.ltb_ge in Hlt. lia.
  - rewrite Himg. lia.
Qed.

(** C8. Pruning keeps every turn at its index; the turn at index [i] loses
    its image blocks exactly when it is image-bearing and more than
    [MAX_CONTEXT_IMAGES] = 10 image-bearing turns lie at [i] or after it, so
    the turns stripped are the oldest (count - 10) image-bearing ones and 10
    stay image-bearing; a stripped turn keeps its role and all its other
    blocks; with at most 10 image-bearing turns nothing changes. *)
Theorem prune_strips_oldest (conv : list Msg) :
  pruneOldImages conv
  = imap (fun i msg =>
            if hasImage msg && (MAX_CONTEXT_IMAGES <? imagesFrom i conv)
            then stripImages msg else msg) conv
  /\ imageCount (pruneOldImages conv) = Nat.min (imageCount conv) MAX_CONTEXT_IMAGES
  /\ (imageCount conv <= MAX_CONTEXT_IMAGES -> pruneOldImages conv = conv)
  /\ forall msg,
       role (stripImages msg) = role msg
       /\ hasImage (stripImages msg) = false
       /\ blocksView (content (stripImages msg))
          = List.filter (fun b => negb (isImage b)) (blocksOrEmpty (content msg)).
Proof.
  split; [apply pruneOldImages_imap|].
  split; [rewrite pruneOldImages_imap; apply imageCount_pruned|].
  split; [|apply stripImages_spec].
  intros Hle. unfold pruneOldImages, imageIndices.
  rewrite imageIndicesFrom_length.
  apply Nat.leb_le in Hle. rewrite Hle. reflexivity.
Qed.

Lemma prune_strips_oldest_witness :
  imageCount (framedHistory 12) = 12
  /\ imageCount (pruneOldImages (framedHistory 12)) = 10
  /\ pruneOldImages (framedHistory 12)
     = [userTurn (CString "what now?"); assistantTurn (CString "ok");
        userTurn (CString "what now?"); assistantTurn (CString "ok")]
       ++ framedHistory 10
  /\ pruneOldImages (framedHistory 10) = framedHistory 10.
Proof.
  split; [reflexivity|].
  split; [rewrite (proj1 (proj2 (prune_strips_oldest (framedHistory 12)))); reflexivity|].
  split; [rewrite (proj1 (prune_strips_oldest (framedHistory 12))); reflexivity|].
  apply (proj1 (proj2 (proj2 (prune_strips_oldest (framedHistory 10))))).
  vm_compute. lia.
Defined.

(** ** Footprints of the handlers *)

Section SteadyWith.

Variable P : Output -> bool.

Lemma steady_refl (s : Session) : steadyWith P s s.
Proof. split; [reflexivity|]. exists []. rewrite app_nil_r. auto. Qed.

Lemma steady_trans (s1 s2 s3 : Session) :
  steadyWith P s1 s2 -> steadyWith P s2 s3 -> steadyWith P s1 s3.
Proof.
  intros [Hc1 (os1 & Ho1 & Hq1)] [Hc2 (os2 & Ho2 & Hq2)].
  split; [congruence|]. exists (os1 ++ os2).
  rewrite Ho2, Ho1, <- app_assoc, forallb_app, Hq1, Hq2. auto.
Qed.

Lemma steady_emits (os : list Output) (s : Session) :
  forallb P os = true -> steadyWith P s (emits os s).
Proof. intros H. split; [reflexivity|]. exists os. auto. Qed.

Lemma steady_emit (o : Output) (s : Session) : P o = true -> steadyWith P s (emit o s).
Proof. intros H. split; [reflexivity|]. exists [o]. simpl. rewrite H. auto. Qed.

(** A step that leaves [control] and [out] as they are. *)
Lemma steady_silent (s s' : Session) :
  control s' = control s -> out s' = out s -> steadyWith P s s'.
Proof. intros Hc Ho. split; [exact Hc|]. exists []. rewrite app_nil_r. auto. Qed.

(** The fields read off a steady step. *)
Lemma steady_fields (s s' : Session) :
  steadyWith P s s' ->
  currentConversation s' = currentConversation s
  /\ isProcessing s' = isProcessing s
  /\ interrupted s' = interrupted s
  /\ recurringCheckCancelled s' = recurringCheckCancelled s
  /\ hasPendingUserMessage s' = hasPendingUserMessage s
  /\ isRecurringCheckRunning s' = isRecurringCheckRunning s
  /\ config s' = config s
  /\ recurringCheckInterval s' = recurringCheckInterval s.
Proof. intros [Hc _]. unfold control in Hc. injection Hc. auto 10. Qed.

End SteadyWith.

Lemma steady_weaken (P Q : Output -> bool) (s s' : Session) :
  (forall o, P o = true -> Q o = true) -> steadyWith P s s' -> steadyWith Q s s'.
Proof.
  intros HPQ [Hc (os & Ho & Hq)]. split; [exact Hc|]. exists os. split; [exact Ho|].
  apply forallb_forall. intros o Hin. apply HPQ.
  rewrite forallb_forall in Hq. auto.
Qed.

Lemma steady_tame (s s' : Session) : steady s s' -> steadyWith tame s s'.
Proof. apply steady_weaken. intros o H. unfold tame. rewrite H. reflexivity. Qed.

Lemma handleProgressedStep_steady (input : ToolInput) (s : Session) :
  steady s (fst (handleProgressedStep input s)).
Proof.
  unfold handleProgressedStep. cbn [fst].
  eapply steady_trans; [|apply steady_emit; reflexivity].
  apply steady_silent; reflexivity.
Qed.

Lemma handleSuggestedHotKey_steady (input : ToolInput) (s : Session) :
  steady s (fst (handleSuggestedHotKey input s)).
Proof. unfold handleSuggestedHotKey. cbn [fst]. apply steady_emit. reflexivity. Qed.

Lemma handleCreateTutorial_begin_steady (input : ToolInput) (s : Session) :
  steady s (handleCreateTutorial_begin input s).
Proof.
  unfold handleCreateTutorial_begin.
  eapply steady_trans; apply steady_emit; reflexivity.
Qed.

Lemma handleCreateTutorial_end_steady (answer : Tutorial + string) (s : Session) :
  steady s (fst (handleCreateTutorial_end answer s)).
Proof.
  destruct answer as [t|message]; cbn [handleCreateTutorial_end fst].
  - eapply steady_trans; [|apply steady_emit; reflexivity].
    apply steady_silent; reflexivity.
  - apply steady_emit. reflexivity.
Qed.

Lemma handleToolCall_steady (name : string) (input : ToolInput) (s : Session) :
  steady s (callSession (handleToolCall name input s)).
Proof.
  unfold handleToolCall.
  destruct (String.eqb name "Create_Tutorial");
    [apply handleCreateTutorial_begin_steady|].
  destruct (String.eqb name "Progressed_Step").
  { pose proof (handleProgressedStep_steady input s) as H.
    destruct (handleProgressedStep input s). exact H. }
  destruct (String.eqb name "Suggested_HotKey").
  { pose proof (handleSuggestedHotKey_steady input s) as H.
    destruct (handleSuggestedHotKey input s). exact H. }
  apply steady_refl.
Qed.

Lemma processTools_steady (stop : Session -> bool) (todo : list ToolUse) :
  forall results s, steadyWith tame s (loopSession (processTools stop todo results s)).
Proof.
  induction todo as [|tu rest IH]; intros results s; simpl; [apply steady_refl|].
  destruct (stop s); [apply steady_refl|].
  pose proof (handleToolCall_steady (tu_name tu) (tu_input tu) (emit (invoke tu) s)) as H.
  fold (invoke tu). apply steady_tame in H.
  assert (He : steadyWith tame s (emit (invoke tu) s)) by (apply steady_emit; reflexivity).
  destruct (handleToolCall (tu_name tu) (tu_input tu) (emit (invoke tu) s)) as [s' r|s'];
    simpl in H.
  - eapply steady_trans; [|apply IH]. eapply steady_trans; eassumption.
  - simpl. eapply steady_trans; eassumption.
Qed.

Lemma resumeTools_steady (stop : Session -> bool) (answer : Tutorial + string)
    (tu : ToolUse) (todo : list ToolUse) (results : list Block) (s : Session) :
  steadyWith tame s (loopSession (resumeTools stop answer tu todo results s)).
Proof.
  unfold resumeTools.
  pose proof (handleCreateTutorial_end_steady answer s) as H.
  destruct (handleCreateTutorial_end answer s) as [s' r]. simpl in H.
  eapply steady_trans; [apply steady_tame; exact H|apply processTools_steady].
Qed.

Lemma handleTextChunkForTTS_steady (chunk : string) (s : Session) :
  steady s (handleTextChunkForTTS chunk s).
Proof.
  unfold handleTextChunkForTTS.
  destruct (interrupted s); [apply steady_refl|].
  destruct (drainSentences _ _) as [sentences left].
  eapply steady_trans; [apply steady_emits|apply steady_silent; reflexivity].
  induction sentences; simpl; auto.
Qed.


(** ** The tool round of the main cycle *)

Lemma steady_invocations (s s' : Session) :
  steady s s' -> invocations (out s') = invocations (out s).
Proof.
  intros [_ (os & -> & Hq)]. unfold invocations. rewrite List.filter_app.
  assert (H : List.filter isInvoke os = []).
  { induction os as [|o os IH]; [reflexivity|]. simpl in *.
    apply andb_true_iff in Hq as [Ho Hq]. rewrite (IH Hq).
    destruct o as [[]| | | | | | | | | |]; simpl in *; congruence. }
  rewrite H, app_nil_r. reflexivity.
Qed.

Lemma handleToolCall_creates (name : string) (input : ToolInput) (s : Session) :
  match handleToolCall name input s with
  | Generating _ => String.eqb name "Create_Tutorial" = true
  | Returned _ _ => String.eqb name "Create_Tutorial" = false
  end.
Proof.
  unfold handleToolCall.
  destruct (String.eqb name "Create_Tutorial"); [reflexivity|].
  destruct (String.eqb name "Progressed_Step");
    [destruct (handleProgressedStep input s); reflexivity|].
  destruct (String.eqb name "Suggested_HotKey");
    [destruct (handleSuggestedHotKey input s); reflexivity|].
  reflexivity.
Qed.

Lemma step_answer (s : Session) (tu : ToolUse) (todo : list ToolUse)
    (results : list Block) (fs : list Frame) (answer : Tutorial + string) :
  step (suspended s (AwMainTool tu todo results) fs) (answerEvent answer)
  = Some (resolveMain fs (afterTools (resumeTools interrupted answer tu todo results s))).
Proof. destruct answer; reflexivity. Qed.

(** Without an interruption the loop calls the dispatcher once per tool-use
    block, in order, and collects one result per block, in order; the
    answers of the lesson creator are all it waits for. *)
Lemma tool_round_completes (fs : list Frame) (todo : list ToolUse) :
  forall (results : list Block) (s : Session) (answers : list (Tutorial + string)),
    interrupted s = false ->
    length answers = creations todo ->
    exists s' rs,
      run (resolveMain fs (afterTools (processTools interrupted todo results s)))
          (map answerEvent answers)
      = Some (resolveMain fs (afterTools (LoopDone s' (results ++ rs))))
      /\ steadyWith tame s s'
      /\ Forall2 resultOf todo rs
      /\ invocations (out s') = invocations (out s) ++ map invoke todo.
Proof.
  induction todo as [|tu rest IH]; intros results s answers Hint Hlen.
  - destruct answers; [|discriminate]. exists s, []. simpl.
    rewrite !app_nil_r. split; [reflexivity|]. split; [apply steady_refl|].
    split; [constructor|reflexivity].
  - simpl processTools. rewrite Hint.
    pose proof (handleToolCall_steady (tu_name tu) (tu_input tu) (emit (invoke tu) s)) as Hst.
    pose proof (handleToolCall_creates (tu_name tu) (tu_input tu) (emit (invoke tu) s)) as Hcr.
    fold (invoke tu).
    assert (Hinv : forall s1, steady (emit (invoke tu) s) s1 ->
              invocations (out s1) = invocations (out s) ++ [invoke tu]).
    { intros s1 H1. rewrite (steady_invocations _ _ H1). unfold invocations, emit.
      simpl. rewrite List.filter_app. destruct tu; reflexivity. }
    assert (Hemit : steadyWith tame s (emit (invoke tu) s))
      by (apply steady_emit; reflexivity).
    unfold creations in Hlen. simpl in Hlen.
    destruct (handleToolCall (tu_name tu) (tu_input tu) (emit (invoke tu) s))
      as [s1 r|s1]; simpl in Hst; rewrite Hcr in Hlen.
    + destruct (steady_fields _ _ _ Hst) as (_ & _ & Hi & _).
      destruct (IH (results ++ [toolResult tu r]) s1 answers) as (s' & rs & Hrun & Hs & Hrs & Hout).
      { rewrite Hi. exact Hint. }
      { exact Hlen. }
      exists s', (toolResult tu r :: rs). rewrite Hrun, <- app_assoc. simpl.
      split; [reflexivity|]. split; [|split].
      * eapply steady_trans; [exact Hemit|]. eapply steady_trans; [|exact Hs].
        apply steady_tame. exact Hst.
      * constructor; [exists r; reflexivity|exact Hrs].
      * rewrite Hout, (Hinv s1 Hst), <- app_assoc. reflexivity.
    + destruct answers as [|answer answers]; [discriminate|].
      simpl map. simpl afterTools. simpl resolveMain.
      cbn [run]. rewrite step_answer. unfold resumeTools.
      pose proof (handleCreateTutorial_end_steady answer s1) as Hend.
      destruct (handleCreateTutorial_end answer s1) as [s2 r]. simpl in Hend.
      assert (Hst2 : steady (emit (invoke tu) s) s2) by (eapply steady_trans; eassumption).
      destruct (steady_fields _ _ _ Hst2) as (_ & _ & Hi & _).
      destruct (IH (results ++ [toolResult tu r]) s2 answers) as (s' & rs & Hrun & Hs & Hrs & Hout).
      { rewrite Hi. exact Hint. }
      { unfold creations. simpl in Hlen. lia. }
      exists s', (toolResult tu r :: rs). rewrite Hrun, <- app_assoc. simpl.
      split; [reflexivity|]. split; [|split].
      * eapply steady_trans; [exact Hemit|]. eapply steady_trans; [|exact Hs].
        apply steady_tame. exact Hst2.
      * constructor; [exists r; reflexivity|exact Hrs].
      * rewrite Hout, (Hinv s2 Hst2), <- app_assoc. reflexivity.
Qed.

Lemma sanitizeConversation_last (conv : list Msg) (msg : Msg) :
  role msg = user -> last (sanitizeConversation (conv ++ [msg])) = Some msg.
Proof.
  intros Hrole. rewrite sanitizeConversation_imap, last_lookup, length_imap.
  rewrite list_lookup_imap, length_app. simpl.
  replace (Init.Nat.pred (length conv + 1)) with (length conv) by lia.
  rewrite (list_lookup_middle conv [] msg (length conv) eq_refl).
  cbn [fmap option_fmap option_map]. rewrite sanitizeMsg_user by exact Hrole. reflexivity.
Qed.

Lemma pruneOldImages_last (conv : list Msg) (msg : Msg) :
  hasImage msg = false -> last (pruneOldImages (conv ++ [msg])) = Some msg.
Proof.
  intros Himg. rewrite pruneOldImages_imap, last_lookup, length_imap.
  rewrite list_lookup_imap, length_app. simpl.
  replace (Init.Nat.pred (length conv + 1)) with (length conv) by lia.
  rewrite (list_lookup_middle conv [] msg (length conv) eq_refl).
  cbn [fmap option_fmap option_map]. unfold strippedAt. rewrite Himg. reflexivity.
Qed.

Lemma prepared_last (conv : list Msg) (msg : Msg) :
  role msg = user -> hasImage msg = false ->
  last (pruneOldImages (sanitizeConversation (conv ++ [msg]))) = Some msg.
Proof.
  intros Hrole Himg.
  pose proof (sanitizeConversation_last conv msg Hrole) as Hlast.
  apply last_Some in Hlast as [l' Hl']. rewrite Hl'.
  apply pruneOldImages_last. exact Himg.
Qed.

Lemma hasImage_results (rs : list Block) (todo : list ToolUse) :
  Forall2 resultOf todo rs -> existsb isImage rs = false.
Proof.
  induction 1 as [|tu b todo rs [r ->] _ IH]; [reflexivity|]. simpl. exact IH.
Qed.

(** The tool round from the point where the stream has been flushed. *)
Lemma three_tool_calls_after_flush (c : bool) (ft : string) (response : list Block)
    (fs : list Frame) (s : Session) (t1 t2 t3 : ToolUse)
    (answers : list (Tutorial + string)) :
  interrupted s = false ->
  toolUses response = [t1; t2; t3] ->
  length answers = creations [t1; t2; t3] ->
  exists m' r1 r2 r3,
    let followUp := userTurn (CBlocks [BToolResult (tu_id t1) r1;
                                       BToolResult (tu_id t2) r2;
                                       BToolResult (tu_id t3) r3]) in
    run (resolveMain fs (afterFlush c ft response s)) (map answerEvent answers) = Some m'
    /\ invocations (out (sess m'))
       = invocations (out s) ++ [invoke t1; invoke t2; invoke t3]
    /\ currentConversation (sess m')
       = pruneOldImages (sanitizeConversation
           (currentConversation s ++ [assistantTurn (CBlocks response); followUp]))
    /\ last (currentConversation (sess m')) = Some followUp
    /\ task m' = Some (AwStream true "", KRecursion :: fs)
    /\ last (out (sess m')) = Some (ClaudeStream (currentConversation (sess m'))).
Proof.
  intros Hint Htools Hlen. unfold afterFlush. rewrite Htools.
  set (s2 := match ft with
             | "" => emits [TtsFlush; TtsCloseStream] s
             | _ => emit (SocketEmit (if c then agent_text_continue ft else agent_text ft))
                      (emits [TtsFlush; TtsCloseStream] s)
             end).
  set (s3 := push (assistantTurn (CBlocks response)) s2).
  assert (H3 : interrupted s3 = false
               /\ currentConversation s3
                  = currentConversation s ++ [assistantTurn (CBlocks response)]
               /\ invocations (out s3) = invocations (out s)).
  { subst s3 s2. unfold invocations.
    destruct ft; simpl; rewrite ?List.filter_app; simpl; rewrite ?app_nil_r;
      repeat split; auto; destruct c; simpl; rewrite ?app_nil_r; reflexivity. }
  destruct H3 as (Hint3 & Hconv3 & Hinv3).
  destruct (tool_round_completes fs [t1; t2; t3] [] s3 answers Hint3 Hlen)
    as (s' & rs & Hrun & Hst & Hrs & Hout).
  pose proof (hasImage_results _ _ Hrs) as Himg.
  destruct (steady_fields _ _ _ Hst) as (Hconv & _ & Hi & _).
  inversion Hrs as [|? b1 ? rs1 [r1 ->] Hrs1]; subst.
  inversion Hrs1 as [|? b2 ? rs2 [r2 ->] Hrs2]; subst.
  inversion Hrs2 as [|? b3 ? rs3 [r3 ->] Hrs3]; subst.
  inversion Hrs3; subst.
  eexists _, r1, r2, r3. cbn zeta.
  split; [exact Hrun|]. simpl app.
  unfold afterTools. rewrite Hi, Hint3. unfold resolveMain, sendToClaudeAndSpeak.
  cbn [isProcessing set_isProcessing push set_currentConversation].
  unfold suspended. cbn [sess task]. unfold beginCycle.
  cbn [currentConversation out emit set_out set_sentenceBuffer prepare
       set_currentConversation set_interrupted set_isProcessing push].
  rewrite Hconv, Hconv3.
  split; [|split; [|split; [|split; [reflexivity|]]]].
  - unfold invocations in *. rewrite List.filter_app. simpl.
    rewrite app_nil_r, Hout, Hinv3. reflexivity.
  - rewrite <- app_assoc. reflexivity.
  - apply prepared_last; reflexivity.
  - apply last_snoc.
Qed.

(** ** The recurring check commits atomically *)

Lemma commit_atomic (s s0 : Session) (turns more : list Msg) :
  steadyWith tame s s0 -> atomicFrom s turns (commit (turns ++ more) s0).
Proof.
  intros Hst. destruct (steady_fields _ _ _ Hst) as (Hconv & _ & _ & Hc & _).
  unfold commit, atomicFrom.
  destruct (recurringCheckCancelled s0) eqn:Hc0; cbn [flowSession].
  - rewrite <- Hc. split; [exact Hc0|]. split; [left; exact Hconv|].
    intros _. eauto.
  - rewrite <- Hc. cbn [recurringCheckCancelled set_currentConversation currentConversation].
    split; [exact Hc0|]. split; [|discriminate].
    right. split; [reflexivity|]. exists more. rewrite Hconv, app_assoc. reflexivity.
Qed.

Lemma left_atomic (s s0 : Session) (turns : list Msg) :
  steadyWith tame s s0 -> atomicFrom s turns (CheckLeft s0).
Proof.
  intros Hst. destruct (steady_fields _ _ _ Hst) as (Hconv & _ & _ & Hc & _).
  unfold atomicFrom. cbn [flowSession].
  split; [exact Hc|]. split; [left; exact Hconv|]. intros _. eauto.
Qed.

(** A loop entered with the flag set does not get to a tool call. *)
Lemma processTools_stopped (stop : Session -> bool) (todo : list ToolUse)
    (results : list Block) (s : Session) :
  stop s = true ->
  processTools stop todo results s = LoopDone s results
  \/ processTools stop todo results s = LoopStopped s results.
Proof. intros H. destruct todo; simpl; [auto|]. rewrite H. auto. Qed.

Lemma checkAfterTools_atomic (s s0 : Session) (turns more : list Msg) (round : nat)
    (isFirst : bool) (todo : list ToolUse) (results : list Block) :
  steadyWith tame s s0 ->
  atomicFrom s turns
    (checkAfterTools round (turns ++ more) isFirst
       (processTools recurringCheckCancelled todo results s0)).
Proof.
  intros Hst.
  pose proof (processTools_steady recurringCheckCancelled todo results s0) as Hloop.
  pose proof (processTools_stopped recurringCheckCancelled todo results s0) as Hstop.
  destruct (steady_fields _ _ _ Hst) as (_ & _ & _ & Hc0 & _).
  assert (Hst' : steadyWith tame s
                   (loopSession (processTools recurringCheckCancelled todo results s0)))
    by (eapply steady_trans; eassumption).
  destruct (processTools recurringCheckCancelled todo results s0)
    as [s' rs|s' rs|s' tu rest rs]; cbn [loopSession checkAfterTools] in *.
  - destruct (round =? MAX_TOOL_ROUNDS).
    { rewrite <- app_assoc. apply commit_atomic. exact Hst'. }
    destruct (steady_fields _ _ _ Hst') as (Hconv & _ & _ & Hc & _).
    destruct (recurringCheckCancelled s') eqn:Hc'; [apply left_atomic; exact Hst'|].
    unfold atomicFrom. cbn [flowSession]. rewrite <- Hc.
    cbn [recurringCheckCancelled emit set_out currentConversation inCheck provisional].
    split; [exact Hc'|]. split; [|discriminate].
    split; [reflexivity|]. split; [exact Hconv|]. split; [reflexivity|].
    rewrite <- app_assoc. eauto.
  - apply left_atomic. exact Hst'.
  - destruct (steady_fields _ _ _ Hst') as (Hconv & _ & _ & Hc & _).
    unfold atomicFrom. cbn [flowSession inCheck provisional].
    destruct (recurringCheckCancelled s) eqn:Hcs.
    + exfalso. assert (H0 : recurringCheckCancelled s0 = true) by congruence.
      destruct (Hstop H0); discriminate.
    + split; [exact Hc|]. split; [|discriminate]. eauto.
Qed.

Lemma checkTools_atomic (s : Session) (turns more : list Msg) (round : nat)
    (isFirst : bool) (calls : list ToolUse) :
  atomicFrom s turns (checkTools round (turns ++ more) isFirst calls s).
Proof.
  unfold checkTools. destruct calls as [|tu rest].
  - apply commit_atomic, steady_refl.
  - apply checkAfterTools_atomic, steady_refl.
Qed.

Lemma checkRound_atomic (s : Session) (turns more : list Msg) (round : nat)
    (isFirst : bool) (response : list Block) :
  atomicFrom s turns (checkRound round (turns ++ more) isFirst response s).
Proof.
  unfold checkRound.
  destruct (recurringCheckCancelled s) eqn:Hc; [apply left_atomic, steady_refl|].
  destruct (JsString.includes noGuidance (firstText response));
    [apply left_atomic, steady_refl|].
  rewrite <- app_assoc.
  destruct (firstText response) as [|ch text]; [apply checkTools_atomic|].
  unfold atomicFrom. cbn [flowSession recurringCheckCancelled emits set_out
                          currentConversation inCheck provisional].
  split; [reflexivity|]. split; [|rewrite Hc; discriminate].
  split; [exact Hc|]. eauto.
Qed.

(** A settled [await] of the recurring check is such a stretch. *)
Lemma resumeCheck_atomic (a : Await) (e : Event) (s : Session) (f : CheckFlow) :
  resumeCheck a e s = Some f -> atomicFrom s (provisional a) f.
Proof.
  intros Hres.
  destruct a, e; simpl in Hres; try discriminate;
    injection Hres as <-; try (apply left_atomic, steady_refl).
  - unfold onCheckResponse.
    destruct (recurringCheckCancelled s); [apply left_atomic, steady_refl|].
    apply (checkRound_atomic s [userTurn userContent] []).
  - unfold checkAfterSpeak.
    destruct (recurringCheckCancelled s); [apply left_atomic, steady_refl|].
    rewrite <- (app_nil_r messagesToCommit) at 2. apply checkTools_atomic.
  - unfold resumeTools.
    pose proof (handleCreateTutorial_end_steady (inl t) s) as Hend.
    destruct (handleCreateTutorial_end (inl t) s) as [s0 r]. cbn [fst] in Hend.
    rewrite <- (app_nil_r messagesToCommit) at 2.
    apply checkAfterTools_atomic, steady_tame, Hend.
  - unfold resumeTools.
    pose proof (handleCreateTutorial_end_steady (inr message) s) as Hend.
    destruct (handleCreateTutorial_end (inr message) s) as [s0 r]. cbn [fst] in Hend.
    rewrite <- (app_nil_r messagesToCommit) at 2.
    apply checkAfterTools_atomic, steady_tame, Hend.
  - rewrite <- (app_nil_r messagesToCommit) at 2. apply checkRound_atomic.
Qed.




(** ** Growth of the session *)

Lemma grows_refl (s : Session) : grows s s.
Proof.
  split; [reflexivity|]. split; [exists []; rewrite app_nil_r; reflexivity|].
  exists []. rewrite app_nil_r. auto.
Qed.

Lemma grows_trans (s1 s2 s3 : Session) : grows s1 s2 -> grows s2 s3 -> grows s1 s3.
Proof.
  intros (Hf1 & (x1 & Hc1) & (os1 & Ho1 & Hq1)) (Hf2 & (x2 & Hc2) & (os2 & Ho2 & Hq2)).
  split; [congruence|]. split.
  - exists (x1 ++ x2). rewrite Hc2, Hc1, <- app_assoc. reflexivity.
  - exists (os1 ++ os2). rewrite Ho2, Ho1, <- app_assoc, forallb_app, Hq1, Hq2. auto.
Qed.

Lemma grows_steady (s s' : Session) : steadyWith tame s s' -> grows s s'.
Proof.
  intros [Hc (os & Ho & Hq)]. unfold control in Hc. injection Hc as ? ? ? ? ? ? ? ?.
  split; [unfold flags; congruence|]. split.
  - exists []. rewrite app_nil_r. assumption.
  - exists os. split; [exact Ho|]. apply forallb_forall. intros o Hin.
    rewrite forallb_forall in Hq. specialize (Hq o Hin).
    unfold tame in Hq. unfold mild.
    destruct o as [[]| | | | | | | | | |]; simpl in *; (reflexivity || discriminate).
Qed.

Lemma grows_push (msg : Msg) (s : Session) : grows s (push msg s).
Proof.
  split; [reflexivity|]. split; [exists [msg]; reflexivity|].
  exists []. simpl. rewrite app_nil_r. auto.
Qed.

Lemma grows_emits (os : list Output) (s : Session) :
  forallb mild os = true -> grows s (emits os s).
Proof.
  intros H. split; [reflexivity|]. split; [exists []; simpl; rewrite app_nil_r; reflexivity|].
  exists os. auto.
Qed.

Lemma grows_emit (o : Output) (s : Session) : mild o = true -> grows s (emit o s).
Proof. intros H. apply (grows_emits [o]). simpl. rewrite H. reflexivity. Qed.

Lemma grows_silent (s s' : Session) :
  flags s' = flags s -> currentConversation s' = currentConversation s ->
  out s' = out s -> grows s s'.
Proof.
  intros Hf Hc Ho. split; [exact Hf|]. split.
  - exists []. rewrite app_nil_r. exact Hc.
  - exists []. rewrite app_nil_r. auto.
Qed.

Lemma grows_fields (s s' : Session) :
  grows s s' ->
  isProcessing s' = isProcessing s
  /\ interrupted s' = interrupted s
  /\ recurringCheckCancelled s' = recurringCheckCancelled s
  /\ hasPendingUserMessage s' = hasPendingUserMessage s
  /\ isRecurringCheckRunning s' = isRecurringCheckRunning s
  /\ config s' = config s
  /\ recurringCheckInterval s' = recurringCheckInterval s.
Proof. intros [Hf _]. unfold flags in Hf. injection Hf. auto 10. Qed.

(** Growth adds neither forwarded audio nor a streaming request. *)
Lemma mild_outputs (os : list Output) :
  forallb mild os = true -> forwardedAudio os = [] /\ streamRequests os = [].
Proof.
  induction os as [|o os IH]; [auto|]. simpl. intros H.
  apply andb_true_iff in H as [Ho H]. destruct (IH H) as [Ha Hs].
  unfold forwardedAudio, streamRequests in *. simpl. unfold mild in Ho.
  apply andb_true_iff in Ho as [Hoa Hos].
  apply negb_true_iff in Hoa, Hos. rewrite Hoa, Hos. auto.
Qed.

(** ** The flows grow the session *)

Lemma afterTools_grows (s : Session) (loop : ToolLoop) :
  grows s (loopSession loop) -> grows s (mainSession (afterTools loop)).
Proof.
  intros H. destruct loop as [s' rs|s' rs|s' tu rest rs]; cbn [afterTools loopSession] in *.
  - destruct (interrupted s'); [exact H|].
    cbn [mainSession]. eapply grows_trans; [exact H|apply grows_push].
  - destruct (interrupted s'); [exact H|].
    cbn [mainSession]. eapply grows_trans; [exact H|apply grows_push].
  - exact H.
Qed.

Lemma afterFlush_grows (c : bool) (ft : string) (response : list Block) (s : Session) :
  grows s (mainSession (afterFlush c ft response s)).
Proof.
  unfold afterFlush.
  set (s1 := emits [TtsFlush; TtsCloseStream] s).
  set (s2 := match ft with
             | "" => s1
             | _ => emit (SocketEmit (if c then agent_text_continue ft else agent_text ft)) s1
             end).
  assert (H1 : grows s s1) by (apply grows_emits; reflexivity).
  assert (H2 : grows s s2).
  { subst s2. destruct ft; [exact H1|].
    eapply grows_trans; [exact H1|]. apply grows_emit. destruct c; reflexivity. }
  assert (H3 : grows s (push (assistantTurn (CBlocks response)) s2))
    by (eapply grows_trans; [exact H2|apply grows_push]).
  destruct (toolUses response) as [|tu rest]; [exact H3|].
  apply afterTools_grows. eapply grows_trans; [exact H3|].
  apply grows_steady, processTools_steady.
Qed.

Lemma resumeMain_grows (a : Await) (e : Event) (s : Session) (f : MainFlow) :
  resumeMain a e s = Some f -> grows s (mainSession f).
Proof.
  destruct a, e; simpl; try discriminate; intros H;
    try (injection H as <-; try apply grows_refl).
  - unfold onStreamText in H. destruct (interrupted s); injection H as <-;
      [apply grows_refl|].
    apply grows_steady, steady_tame, handleTextChunkForTTS_steady.
  - unfold onStreamDone. destruct (interrupted s); [apply grows_refl|].
    destruct (JsString.blank (sentenceBuffer s)); [apply afterFlush_grows|].
    apply grows_emit. reflexivity.
  - eapply grows_trans; [|apply afterFlush_grows].
    apply grows_silent; reflexivity.
  - apply afterTools_grows, grows_steady, resumeTools_steady.
  - apply afterTools_grows, grows_steady, resumeTools_steady.
Qed.

Lemma afterTools_ready (loop : ToolLoop) (s : Session) :
  afterTools loop = MainRecurse s -> interrupted s = false.
Proof.
  destruct loop as [s' rs|s' rs|s' tu rest rs]; simpl; try discriminate;
    destruct (interrupted s') eqn:E; intros [= <-]; exact E.
Qed.

Lemma afterFlush_ready (c : bool) (ft : string) (response : list Block) (s s' : Session) :
  afterFlush c ft response s = MainRecurse s' -> interrupted s' = false.
Proof.
  unfold afterFlush. destruct (toolUses response); [discriminate|].
  apply afterTools_ready.
Qed.

(** A continuation is requested only by a cycle that is not interrupted. *)
Lemma resumeMain_ready (a : Await) (e : Event) (s s' : Session) :
  resumeMain a e s = Some (MainRecurse s') -> interrupted s' = false.
Proof.
  destruct a, e; simpl; try discriminate; intros H.
  - unfold onStreamText in H. destruct (interrupted s); discriminate.
  - injection H as H. unfold onStreamDone in H.
    destruct (interrupted s); [discriminate|].
    destruct (JsString.blank (sentenceBuffer s)); [|discriminate].
    eapply afterFlush_ready, H.
  - injection H as H. eapply afterFlush_ready, H.
  - injection H as H. eapply afterTools_ready, H.
  - injection H as H. eapply afterTools_ready, H.
Qed.

Lemma commit_grows (msgs : list Msg) (s : Session) :
  grows s (flowSession (commit msgs s)).
Proof.
  unfold commit. destruct (recurringCheckCancelled s); [apply grows_refl|].
  split; [reflexivity|]. split; [exists msgs; reflexivity|].
  exists []. simpl. rewrite app_nil_r. auto.
Qed.

Lemma checkAfterTools_grows (s : Session) (round : nat) (msgs : list Msg)
    (isFirst : bool) (loop : ToolLoop) :
  grows s (loopSession loop) ->
  grows s (flowSession (checkAfterTools round msgs isFirst loop)).
Proof.
  intros H. destruct loop as [s' rs|s' rs|s' tu rest rs];
    cbn [checkAfterTools loopSession] in *; try exact H.
  destruct (round =? MAX_TOOL_ROUNDS).
  { eapply grows_trans; [exact H|apply commit_grows]. }
  destruct (recurringCheckCancelled s'); [exact H|].
  eapply grows_trans; [exact H|]. apply grows_emit. reflexivity.
Qed.

Lemma checkTools_grows (round : nat) (msgs : list Msg) (isFirst : bool)
    (calls : list ToolUse) (s : Session) :
  grows s (flowSession (checkTools round msgs isFirst calls s)).
Proof.
  unfold checkTools. destruct calls; [apply commit_grows|].
  apply checkAfterTools_grows, grows_steady, processTools_steady.
Qed.

Lemma checkRound_grows (round : nat) (msgs : list Msg) (isFirst : bool)
    (response : list Block) (s : Session) :
  grows s (flowSession (checkRound round msgs isFirst response s)).
Proof.
  unfold checkRound. destruct (recurringCheckCancelled s); [apply grows_refl|].
  destruct (JsString.includes noGuidance (firstText response)); [apply grows_refl|].
  destruct (firstText response); [apply checkTools_grows|].
  apply grows_emits. destruct isFirst; reflexivity.
Qed.

Lemma resumeCheck_grows (a : Await) (e : Event) (s : Session) (f : CheckFlow) :
  resumeCheck a e s = Some f -> grows s (flowSession f).
Proof.
  destruct a, e; simpl; try discriminate; intros [= <-]; try apply grows_refl.
  - unfold onCheckResponse. destruct (recurringCheckCancelled s); [apply grows_refl|].
    apply checkRound_grows.
  - unfold checkAfterSpeak. destruct (recurringCheckCancelled s); [apply grows_refl|].
    apply checkTools_grows.
  - apply checkAfterTools_grows, grows_steady, resumeTools_steady.
  - apply checkAfterTools_grows, grows_steady, resumeTools_steady.
  - apply checkRound_grows.
Qed.

(** ** The end of a cycle *)

Lemma startRecurringCheck_pending (s : Session) :
  hasPendingUserMessage (startRecurringCheck s) = hasPendingUserMessage s.
Proof.
  unfold startRecurringCheck. destruct (config s) as [c|]; [|reflexivity].
  destruct (recurringCheck_enabled c); reflexivity.
Qed.

(** With no message queued the callers resume and the machine is idle. *)
Lemma unwind_settles (fs : list Frame) :
  forall s, hasPendingUserMessage s = false -> unwind fs s = idle (settle fs s).
Proof.
  induction fs as [|k fs IH]; intros s Hp; [reflexivity|].
  destruct k; simpl; try (apply IH; exact Hp).
  - apply IH. simpl. rewrite startRecurringCheck_pending. exact Hp.
  - unfold finallyBlock. simpl. rewrite Hp. apply IH. exact Hp.
Qed.

Lemma finallyBlock_finished (check : bool) (fs : list Frame) (s : Session) :
  finallyBlock (released check) (if check then KCheckFinally else KMainFinally)
    fs (unwind fs) s
  = finished check fs s.
Proof.
  unfold finallyBlock, finished, sendToClaudeAndSpeak, freshCycle.
  assert (Hp : hasPendingUserMessage (released check s) = hasPendingUserMessage s)
    by (destruct check; reflexivity).
  assert (Hi : isProcessing (set_hasPendingUserMessage false (released check s)) = false)
    by (destruct check; reflexivity).
  rewrite Hp, Hi. destruct (hasPendingUserMessage s) eqn:E; [reflexivity|].
  apply unwind_settles. exact Hp.
Qed.

Lemma finallyMain_finished (fs : list Frame) (s : Session) :
  finallyMain fs s = finished false fs s.
Proof. exact (finallyBlock_finished false fs s). Qed.

Lemma finallyCheck_finished (fs : list Frame) (s : Session) :
  finallyCheck fs s = finished true fs s.
Proof. exact (finallyBlock_finished true fs s). Qed.

(** What the settling of a pending [await] amounts to: the cycle goes on, a
    main cycle that is not interrupted continues after its tool round, or
    the cycle ends. *)
Lemma resume_cases (a : Await) (fs : list Frame) (e : Event) (s : Session) (m' : Machine) :
  resume a fs e s = Some m' ->
  exists s',
    grows s s'
    /\ ((exists a', m' = suspended s' a' fs /\ inCheck a' = inCheck a)
        \/ (inCheck a = false /\ interrupted s' = false /\ m' = continued fs s')
        \/ m' = finished (inCheck a) fs s').
Proof.
  unfold resume. destruct (inCheck a) eqn:Hcheck.
  - destruct (resumeCheck a e s) as [f|] eqn:Hf; [|discriminate].
    intros [= <-]. pose proof (resumeCheck_grows _ _ _ _ Hf) as Hg.
    pose proof (resumeCheck_atomic _ _ _ _ Hf) as (_ & Hat & _).
    destruct f as [s' a'|s']; cbn [flowSession resolveCheck] in *.
    + exists s'. split; [exact Hg|]. left. exists a'.
      destruct Hat as (_ & _ & Hin & _). auto.
    + exists s'. split; [exact Hg|]. right. right. apply finallyCheck_finished.
  - destruct (resumeMain a e s) as [f|] eqn:Hf; [|discriminate].
    intros [= <-]. pose proof (resumeMain_grows _ _ _ _ Hf) as Hg.
    destruct f as [s' a'|s'|s']; cbn [mainSession resolveMain] in *.
    + exists s'. split; [exact Hg|]. left. exists a'. split; [reflexivity|].
      destruct a, e; simpl in Hf; try discriminate.
      * unfold onStreamText in Hf. destruct (interrupted s); injection Hf as _ <-; reflexivity.
      * injection Hf as Hf. unfold onStreamDone, afterFlush in Hf.
        destruct (interrupted s); [discriminate|].
        destruct (JsString.blank (sentenceBuffer s)); [|injection Hf as _ <-; reflexivity].
        destruct (toolUses response); [discriminate|].
        destruct (processTools _ _ _ _); simpl in Hf;
          try (destruct (interrupted _); discriminate).
        injection Hf as _ <-. reflexivity.
      * injection Hf as Hf. unfold afterFlush in Hf.
        destruct (toolUses response); [discriminate|].
        destruct (processTools _ _ _ _); simpl in Hf;
          try (destruct (interrupted _); discriminate).
        injection Hf as _ <-. reflexivity.
      * injection Hf as Hf.
        destruct (resumeTools _ _ _ _ _ _); simpl in Hf;
          try (destruct (interrupted _); discriminate).
        injection Hf as _ <-. reflexivity.
      * injection Hf as Hf.
        destruct (resumeTools _ _ _ _ _ _); simpl in Hf;
          try (destruct (interrupted _); discriminate).
        injection Hf as _ <-. reflexivity.
    + exists s'. split; [exact Hg|]. right. left.
      split; [reflexivity|]. split; [eapply resumeMain_ready, Hf|]. reflexivity.
    + exists s'. split; [exact Hg|]. right. right. apply finallyMain_finished.
Qed.

(** ** The invariant *)

Lemma beginCycle_fields (s : Session) :
  isProcessing (beginCycle s) = true
  /\ interrupted (beginCycle s) = false
  /\ hasPendingUserMessage (beginCycle s) = hasPendingUserMessage s
  /\ recurringCheckCancelled (beginCycle s) = recurringCheckCancelled s
  /\ currentConversation (beginCycle s)
     = pruneOldImages (sanitizeConversation (currentConversation s))
  /\ out (beginCycle s) = out s ++ [ClaudeStream (currentConversation (beginCycle s))].
Proof. repeat split; reflexivity. Qed.

Lemma settle_fields (fs : list Frame) :
  forall s,
    hasPendingUserMessage (settle fs s) = hasPendingUserMessage s
    /\ (isProcessing s = false -> isProcessing (settle fs s) = false)
    /\ interrupted (settle fs s) = interrupted s
    /\ currentConversation (settle fs s) = currentConversation s
    /\ exists os, out (settle fs s) = out s ++ os /\ forallb mild os = true.
Proof.
  induction fs as [|k fs IH]; intros s.
  - simpl. repeat split; auto. exists []. rewrite app_nil_r. auto.
  - destruct k; simpl; try apply IH.
    + destruct (IH (emit (SocketEmit session_started) (startRecurringCheck s)))
        as (Hp & Hi & Hint & Hc & (os & Ho & Hq)).
      assert (Hs : hasPendingUserMessage (startRecurringCheck s) = hasPendingUserMessage s
                   /\ isProcessing (startRecurringCheck s) = isProcessing s
                   /\ interrupted (startRecurringCheck s) = interrupted s
                   /\ currentConversation (startRecurringCheck s) = currentConversation s
                   /\ out (startRecurringCheck s) = out s).
      { unfold startRecurringCheck. destruct (config s) as [c|]; [|auto].
        destruct (recurringCheck_enabled c); auto. }
      destruct Hs as (Hs1 & Hs2 & Hs3 & Hs4 & Hs5).
      cbn [hasPendingUserMessage isProcessing interrupted currentConversation out
           emit set_out] in Hp, Hi, Hint, Hc, Ho.
      split; [congruence|]. split; [intros H; apply Hi; congruence|].
      split; [congruence|]. split; [congruence|].
      exists (SocketEmit session_started :: os).
      rewrite Ho, Hs5, <- app_assoc. auto.
    + destruct (IH (set_isProcessing false s)) as (Hp & Hi & Hint & Hc & Ho).
      simpl in *. repeat split; auto.
Qed.

Lemma Inv_finished (check : bool) (fs : list Frame) (s : Session) :
  Inv (finished check fs s).
Proof.
  unfold finished. destruct (hasPendingUserMessage s) eqn:Hp.
  - unfold freshCycle, Inv. cbn [sess task suspended].
    split; [discriminate|]. split; [reflexivity|]. discriminate.
  - unfold Inv. cbn [sess task idle].
    destruct (settle_fields fs (released check s)) as (Hp' & Hi & _).
    assert (Hr : hasPendingUserMessage (released check s) = false
                 /\ isProcessing (released check s) = false).
    { destruct check; simpl; auto. }
    destruct Hr as [Hr1 Hr2]. rewrite Hp', Hr1, (Hi Hr2).
    split; [auto|]. split; [congruence|discriminate].
Qed.

Lemma Inv_grows (s s' : Session) (a a' : Await) (fs fs' : list Frame) :
  grows s s' -> Inv (suspended s a fs) -> Inv (suspended s' a' fs').
Proof.
  intros Hg (H1 & H2 & H3). destruct (grows_fields _ _ Hg) as (Hi & Hint & Hc & Hp & _).
  unfold Inv in *. cbn [sess task suspended] in *.
  rewrite Hi, Hint, Hc, Hp. split; [discriminate|]. split; [intros _; apply H2; discriminate|].
  exact H3.
Qed.

Lemma Inv_continued (s s' : Session) (a : Await) (fs : list Frame) :
  grows s s' -> interrupted s' = false -> Inv (suspended s a fs) -> Inv (continued fs s').
Proof.
  intros Hg Hint' (H1 & H2 & H3). destruct (grows_fields _ _ Hg) as (Hi & Hint & Hc & Hp & _).
  unfold Inv, continued in *. cbn [sess task suspended] in *.
  split; [discriminate|]. split; [reflexivity|].
  cbn. rewrite Hp. intros Hq. destruct (H3 Hq) as [Hx _]. congruence.
Qed.

Lemma handleInterruption_fields (s : Session) :
  isProcessing (handleInterruption s) = isProcessing s
  /\ hasPendingUserMessage (handleInterruption s) = hasPendingUserMessage s
  /\ interrupted (handleInterruption s) = true
  /\ recurringCheckCancelled (handleInterruption s) = true
  /\ currentConversation (handleInterruption s) = currentConversation s
  /\ out (handleInterruption s) = out s ++ [ClaudeAbort; TtsInterrupt; SocketEmit interrupt].
Proof. repeat split; reflexivity. Qed.

Lemma recordUserTurn_fields (text : string) (now : Z) (s : Session) :
  isProcessing (recordUserTurn text now s) = isProcessing s
  /\ hasPendingUserMessage (recordUserTurn text now s) = hasPendingUserMessage s
  /\ interrupted (recordUserTurn text now s) = true
  /\ recurringCheckCancelled (recordUserTurn text now s) = true
  /\ (exists gap,
        (gap = [] \/ gap = [assistantTurn (CString interruptedPlaceholder)])
        /\ currentConversation (recordUserTurn text now s)
           = currentConversation s ++ gap ++ [userTurn (buildUserContent text s)])
  /\ out (recordUserTurn text now s)
     = out s ++ [SocketEmit (user_text text); ClaudeAbort; TtsInterrupt; SocketEmit interrupt].
Proof.
  unfold recordUserTurn.
  set (s1 := set_lastUserInputAt now s).
  set (s2 := match last (currentConversation s1) with
             | Some lastMsg =>
                 if Role_eqb (role lastMsg) user
                 then push (assistantTurn (CString interruptedPlaceholder)) s1 else s1
             | None => s1
             end).
  assert (H2 : isProcessing s2 = isProcessing s
               /\ hasPendingUserMessage s2 = hasPendingUserMessage s
               /\ out s2 = out s /\ latestFrame s2 = latestFrame s
               /\ exists gap, (gap = [] \/ gap = [assistantTurn (CString interruptedPlaceholder)])
                              /\ currentConversation s2 = currentConversation s ++ gap).
  { subst s2. destruct (last (currentConversation s1)) as [lastMsg|].
    - destruct (Role_eqb (role lastMsg) user); simpl; repeat split; auto.
      + exists [assistantTurn (CString interruptedPlaceholder)]. auto.
      + exists []. rewrite app_nil_r. auto.
    - simpl. repeat split; auto. exists []. rewrite app_nil_r. auto. }
  destruct H2 as (Hi & Hp & Ho & Hf & (gap & Hgap & Hc)).
  cbn. rewrite Hi, Hp, Ho, Hc.
  assert (Hb : buildUserContent text s2 = buildUserContent text s).
  { unfold buildUserContent, frame. rewrite Hf. reflexivity. }
  rewrite Hb. repeat split; auto.
  - exists gap. rewrite <- app_assoc. auto.
  - rewrite <- app_assoc. reflexivity.
Qed.

Lemma Inv_suspended (s : Session) (a : Await) (fs : list Frame) :
  isProcessing s = true -> hasPendingUserMessage s = false -> Inv (suspended s a fs).
Proof.
  intros Hi Hp. unfold Inv. cbn [sess task suspended]. rewrite Hi, Hp.
  split; [discriminate|]. split; [auto|discriminate].
Qed.

Lemma Inv_flags (s s' : Session) (t : option (Await * list Frame)) :
  isProcessing s' = isProcessing s ->
  hasPendingUserMessage s' = hasPendingUserMessage s ->
  (interrupted s = true -> interrupted s' = true) ->
  (recurringCheckCancelled s = true -> recurringCheckCancelled s' = true) ->
  Inv {| sess := s; task := t |} -> Inv {| sess := s'; task := t |}.
Proof.
  intros Hi Hp Hint Hc (H1 & H2 & H3). unfold Inv in *. cbn [sess task] in *.
  rewrite Hi, Hp. split; [exact H1|]. split; [exact H2|].
  intros H. destruct (H3 H). auto.
Qed.

Lemma beginCheck_fields (c : Config) (s : Session) :
  isProcessing (fst (beginCheck c s)) = true
  /\ hasPendingUserMessage (fst (beginCheck c s)) = hasPendingUserMessage s
  /\ interrupted (fst (beginCheck c s)) = interrupted s
  /\ exists msgs, out (fst (beginCheck c s)) = out s ++ [ClaudeRequest msgs].
Proof.
  unfold beginCheck. cbn [fst]. split; [reflexivity|]. split; [reflexivity|].
  split; [reflexivity|]. eexists. reflexivity.
Qed.

Lemma Inv_begin (s : Session) (a : Await) (fs : list Frame) :
  hasPendingUserMessage s = false -> Inv (suspended (beginCycle s) a fs).
Proof.
  intros Hp. destruct (beginCycle_fields s) as (Hb1 & _ & Hb3 & _).
  apply Inv_suspended; congruence.
Qed.

Lemma Inv_queue (s : Session) (t : option (Await * list Frame)) :
  t <> None -> isProcessing s = true -> interrupted s = true ->
  recurringCheckCancelled s = true ->
  Inv {| sess := set_hasPendingUserMessage true s; task := t |}.
Proof.
  intros Ht Hi Hint Hc. unfold Inv. cbn [sess task].
  split; [intros H; contradiction|]. split; [intros _; exact Hi|].
  intros _. split; [exact Hint|exact Hc].
Qed.

(** Every step keeps the invariant. *)
Lemma step_Inv (m m' : Machine) (e : Event) : Inv m -> step m e = Some m' -> Inv m'.
Proof.
  destruct m as [s t]. intros HI. pose proof HI as (H1 & H2 & H3).
  cbn [sess task] in *. unfold step. cbn [sess task].
  destruct e;
    try solve [ destruct t as [[a fs]|]; [|discriminate]; intros Hr;
                destruct (resume_cases _ _ _ _ _ Hr)
                  as (s' & Hg & [(a' & -> & _)|[(_ & Hn & ->)| ->]]);
                [ eapply Inv_grows; eassumption
                | eapply Inv_continued; eassumption
                | apply Inv_finished ] ];
    try (destruct (config s) as [c0|]; [|discriminate]).
  - (* start_session *)
    unfold startSession. cbn [sess task].
    destruct (currentConversation s).
    + destruct t; [discriminate|]. destruct (H1 eq_refl) as [Hi Hp].
      set (s1 := push sessionStart (set_config (Some c) s)).
      assert (Hs1 : isProcessing s1 = false /\ hasPendingUserMessage s1 = false)
        by (split; [exact Hi|exact Hp]).
      destruct Hs1 as [Hi1 Hp1]. unfold sendToClaudeAndSpeak. rewrite Hi1.
      intros [= <-]. apply Inv_begin. exact Hp1.
    + intros [= <-]. revert HI. apply Inv_flags; auto.
  - intros [= <-]. revert HI. apply Inv_flags; auto.
  - intros [= <-]. revert HI. apply Inv_flags; auto.
  - (* partial transcript *)
    intros [= <-]. unfold onPartialTranscript.
    destruct (JsString.blank text); [exact HI|].
    destruct (isAgentCurrentlySpeaking s || isProcessing s || isRecurringCheckRunning s);
      [|exact HI].
    destruct (handleInterruption_fields s) as (Hi & Hp & Hint & Hc & _).
    revert HI. apply Inv_flags; auto.
  - (* committed transcript *)
    unfold onCommittedTranscript. cbn [sess task].
    destruct (JsString.blank text); [intros [= <-]; exact HI|].
    destruct (recordUserTurn_fields text now s) as (Hi & Hp & Hint & Hc & _).
    rewrite Hi. destruct (isProcessing s) eqn:Hproc.
    + intros [= <-]. apply Inv_queue; try assumption.
      intros ->. destruct (H1 eq_refl). discriminate.
    + destruct t; [discriminate|]. intros [= <-].
      unfold sendToClaudeAndSpeak. rewrite Hi.
      destruct (H1 eq_refl) as [_ Hq].
      apply Inv_begin. congruence.
  - (* audio *)
    intros [= <-]. unfold onTTSAudioChunk. destruct (interrupted s) eqn:E; [exact HI|].
    revert HI. apply Inv_flags; auto.
  - (* tick *)
    unfold onTick. cbn [sess task]. destruct (config s) as [c|]; [|discriminate].
    destruct (recurringCheckInterval s); [|discriminate].
    destruct (checkDue c now s); [|intros [= <-]; exact HI].
    destruct t; [discriminate|].
    destruct (beginCheck_fields c s) as (Hb1 & Hb2 & _).
    destruct (beginCheck c s) as [s' a]. cbn [fst] in *. intros [= <-].
    destruct (H1 eq_refl) as [_ Hq]. apply Inv_suspended; congruence.
Qed.

Lemma run_Inv (events : list Event) :
  forall m m', Inv m -> run m events = Some m' -> Inv m'.
Proof.
  induction events as [|e events IH]; intros m m' HI; simpl.
  - intros [= <-]. exact HI.
  - destruct (step m e) as [m1|] eqn:Hs; [|discriminate].
    apply IH. eapply step_Inv; eassumption.
Qed.

Lemma reachable_Inv (m : Machine) : reachable m -> Inv m.
Proof.
  intros [events Hrun]. eapply run_Inv; [|exact Hrun].
  unfold Inv, start. cbn. split; [auto|]. split; [congruence|discriminate].
Qed.

(** ** Forwarded audio and the interrupt flag *)

Lemma advances_refl (s : Session) : advances s s.
Proof. exists []. rewrite app_nil_r. auto. Qed.

Lemma advances_trans (s1 s2 s3 : Session) :
  advances s1 s2 -> advances s2 s3 -> advances s1 s3.
Proof.
  intros (os1 & Ho1 & Ha1 & Hi1) (os2 & Ho2 & Ha2 & Hi2).
  exists (os1 ++ os2). unfold forwardedAudio, streamRequests in *.
  rewrite Ho2, Ho1, <- app_assoc, !List.filter_app, Ha1, Ha2.
  split; [reflexivity|]. split; [reflexivity|].
  intros H. destruct (Hi1 H) as [H2|Hs].
  - destruct (Hi2 H2) as [H3|Hs]; [auto|]. right.
    intros Hnil. apply app_eq_nil in Hnil as [_ ?]. contradiction.
  - right. intros Hnil. apply app_eq_nil in Hnil as [? _]. contradiction.
Qed.

Lemma advances_grows (s s' : Session) : grows s s' -> advances s s'.
Proof.
  intros Hg. destruct (grows_fields _ _ Hg) as (_ & Hint & _).
  destruct Hg as (_ & _ & (os & Ho & Hq)). exists os.
  destruct (mild_outputs _ Hq) as [Ha _]. rewrite Hint. auto.
Qed.

Lemma advances_quiet (s s' : Session) (os : list Output) :
  out s' = out s ++ os -> forallb mild os = true -> interrupted s' = interrupted s ->
  advances s s'.
Proof.
  intros Ho Hq Hint. exists os. destruct (mild_outputs _ Hq) as [Ha _]. rewrite Hint. auto.
Qed.

Lemma advances_raised (s s' : Session) (os : list Output) :
  out s' = out s ++ os -> forallb mild os = true -> interrupted s' = true ->
  advances s s'.
Proof.
  intros Ho Hq Hint. exists os. destruct (mild_outputs _ Hq) as [Ha _]. auto.
Qed.

Lemma advances_beginCycle (s s' : Session) :
  out s' = out s -> advances s (beginCycle s').
Proof.
  intros Ho. exists [ClaudeStream (currentConversation (beginCycle s'))].
  destruct (beginCycle_fields s') as (_ & _ & _ & _ & _ & Hout).
  rewrite Hout, Ho. split; [reflexivity|]. split; [reflexivity|].
  intros _. right. discriminate.
Qed.

Lemma advances_settle (fs : list Frame) (s s' : Session) :
  out s' = out s -> interrupted s' = interrupted s -> advances s (settle fs s').
Proof.
  intros Ho Hint. destruct (settle_fields fs s') as (_ & _ & Hi & _ & (os & Hos & Hq)).
  apply (advances_quiet _ _ os); congruence.
Qed.

Lemma advances_finished (check : bool) (fs : list Frame) (s : Session) :
  advances s (sess (finished check fs s)).
Proof.
  unfold finished. destruct (hasPendingUserMessage s).
  - unfold freshCycle. cbn [sess suspended]. apply advances_beginCycle.
    destruct check; reflexivity.
  - cbn [sess idle]. apply advances_settle; destruct check; reflexivity.
Qed.

Lemma advances_unwind1 (k : Frame) (s : Session) :
  k = KStartSession \/ k = KCommitted -> advances s (sess (unwind [k] s)).
Proof.
  intros [-> | ->]; simpl; [|apply advances_refl].
  apply (advances_quiet _ _ [SocketEmit session_started]); [|reflexivity|].
  - unfold startRecurringCheck. destruct (config s) as [c|]; [|reflexivity].
    destruct (recurringCheck_enabled c); reflexivity.
  - unfold startRecurringCheck. destruct (config s) as [c|]; [|reflexivity].
    destruct (recurringCheck_enabled c); reflexivity.
Qed.

Lemma advances_same (s s' : Session) :
  out s' = out s -> interrupted s' = interrupted s -> advances s s'.
Proof.
  intros Ho Hint. apply (advances_quiet _ _ []); [rewrite app_nil_r; exact Ho|auto|exact Hint].
Qed.

Lemma advances_queue (s : Session) : advances s (set_hasPendingUserMessage true s).
Proof. apply advances_same; reflexivity. Qed.

(** Every step but the forwarding of an audio chunk advances the session. *)
Lemma step_advances (m m' : Machine) (e : Event) :
  step m e = Some m' -> silent m e -> advances (sess m) (sess m').
Proof.
  destruct m as [s t]. unfold step, silent. cbn [sess task].
  destruct e;
    try solve [ destruct t as [[a fs]|]; [|discriminate]; intros Hr _;
                destruct (resume_cases _ _ _ _ _ Hr)
                  as (s' & Hg & [(a' & -> & _)|[(_ & Hn & ->)| ->]]);
                (eapply advances_trans; [apply advances_grows; exact Hg|]);
                [ apply advances_refl
                | apply advances_beginCycle; reflexivity
                | apply advances_finished ] ];
    try (destruct (config s) as [c0|]; [|discriminate]).
  - unfold startSession. cbn [sess task]. destruct (currentConversation s).
    + destruct t; [discriminate|]. intros [= <-] _. unfold sendToClaudeAndSpeak.
      set (s1 := push sessionStart (set_config (Some c) s)).
      assert (H1 : advances s s1) by (apply advances_same; reflexivity).
      destruct (isProcessing s1).
      * apply (advances_trans _ s1); [exact H1|].
        exact (advances_unwind1 KStartSession _ (or_introl eq_refl)).
      * cbn [sess suspended]. apply advances_beginCycle. reflexivity.
    + intros [= <-] _. apply (advances_quiet _ _ [SocketEmit session_started]); reflexivity.
  - intros [= <-] _. apply advances_same; reflexivity.
  - intros [= <-] _. apply advances_same; reflexivity.
  - intros [= <-] _. cbn [sess]. unfold onPartialTranscript.
    destruct (JsString.blank text); [apply advances_refl|].
    destruct (isAgentCurrentlySpeaking s || isProcessing s || isRecurringCheckRunning s);
      [|apply advances_refl].
    apply (advances_raised _ _ [ClaudeAbort; TtsInterrupt; SocketEmit interrupt]); reflexivity.
  - unfold onCommittedTranscript. cbn [sess task].
    destruct (JsString.blank text); [intros [= <-] _; apply advances_refl|].
    destruct (recordUserTurn_fields text now s) as (_ & _ & Hint & _ & _ & Hout).
    assert (Hrec : advances s (recordUserTurn text now s)).
    { eapply advances_raised; [exact Hout|reflexivity|exact Hint]. }
    destruct (isProcessing (recordUserTurn text now s)) eqn:Hproc.
    + intros [= <-] _. cbn [sess]. eapply advances_trans; [exact Hrec|].
      apply advances_queue.
    + destruct t; [discriminate|]. intros [= <-] _. unfold sendToClaudeAndSpeak.
      rewrite Hproc. cbn [sess suspended].
      eapply advances_trans; [exact Hrec|]. apply advances_beginCycle. reflexivity.
  - intros [= <-] Hint. cbn [sess]. unfold onTTSAudioChunk. cbn [sess] in Hint.
    rewrite Hint. apply advances_refl.
  - unfold onTick. cbn [sess task]. destruct (config s) as [c|]; [|discriminate].
    destruct (recurringCheckInterval s); [|discriminate].
    destruct (checkDue c now s); [|intros [= <-] _; apply advances_refl].
    destruct t; [discriminate|].
    destruct (beginCheck_fields c s) as (_ & _ & Hb3 & (msgs & Hb4)).
    destruct (beginCheck c s) as [s' a]. cbn [fst] in *. intros [= <-] _.
    cbn [sess suspended]. apply (advances_quiet _ _ [ClaudeRequest msgs]); auto.
Qed.

Lemma step_extends (m m' : Machine) (e : Event) :
  step m e = Some m' -> exists os, out (sess m') = out (sess m) ++ os.
Proof.
  intros Hs. destruct (interrupted (sess m)) eqn:Hint.
  - destruct (step_advances m m' e Hs) as (os & Ho & _); [|eauto].
    destruct e; simpl; auto.
  - destruct e; try (destruct (step_advances m m' _ Hs I) as (os & Ho & _); eauto).
    destruct m as [s t]. unfold step in Hs. cbn [sess task] in *.
    destruct (config s); [|discriminate]. injection Hs as <-.
    unfold onTTSAudioChunk. rewrite Hint. cbn. eauto.
Qed.

Lemma run_extends (events : list Event) :
  forall m m', run m events = Some m' -> exists os, out (sess m') = out (sess m) ++ os.
Proof.
  induction events as [|e events IH]; intros m m'; simpl.
  - intros [= <-]. exists []. rewrite app_nil_r. reflexivity.
  - destruct (step m e) as [m1|] eqn:Hs; [|discriminate]. intros Hr.
    destruct (step_extends _ _ _ Hs) as (os1 & H1).
    destruct (IH _ _ Hr) as (os2 & H2).
    exists (os1 ++ os2). rewrite H2, H1, <- app_assoc. reflexivity.
Qed.

(** While no main cycle starts, a set interrupt flag stays set and no audio
    is forwarded. *)
Lemma run_interrupted (events : list Event) :
  forall m m',
    interrupted (sess m) = true ->
    run m events = Some m' ->
    streamRequests (out (sess m')) = streamRequests (out (sess m)) ->
    interrupted (sess m') = true
    /\ forwardedAudio (out (sess m')) = forwardedAudio (out (sess m)).
Proof.
  induction events as [|e events IH]; intros m m' Hint; simpl.
  - intros [= <-] _. auto.
  - destruct (step m e) as [m1|] eqn:Hs; [|discriminate]. intros Hr Hstreams.
    destruct (step_advances m m1 e Hs) as (os1 & H1 & Ha1 & Hi1).
    { destruct e; simpl; auto. }
    destruct (run_extends _ _ _ Hr) as (os2 & H2).
    unfold streamRequests, forwardedAudio in *.
    rewrite H2, H1, <- app_assoc, List.filter_app in Hstreams.
    rewrite <- (app_nil_r (List.filter isStream (out (sess m)))) in Hstreams at 2.
    apply app_inv_head in Hstreams. rewrite List.filter_app in Hstreams.
    apply app_eq_nil in Hstreams as [Hs1 Hs2].
    destruct (Hi1 Hint) as [Hint1|Hne]; [|contradiction].
    destruct (IH m1 m' Hint1 Hr) as [Hint' Ha'].
    { rewrite H2, List.filter_app, Hs2, app_nil_r. reflexivity. }
    split; [exact Hint'|]. rewrite Ha', H1, List.filter_app, Ha1, app_nil_r. reflexivity.
Qed.



Lemma onTick_interrupted (now : Z) (m m1 : Machine) :
  onTick now m = Some m1 -> interrupted (sess m1) = interrupted (sess m).
Proof.
  destruct m as [s t]. unfold onTick. cbn [sess task].
  destruct (config s) as [c|]; [|discriminate].
  destruct (recurringCheckInterval s); [|discriminate].
  destruct (checkDue c now s); [|intros [= <-]; reflexivity].
  destruct t; [discriminate|]. intros [= <-]. reflexivity.
Qed.

(** C10. Only a step that starts a main cycle (it issues a streaming
    request) clears the interrupt flag; the start of a recurring check
    leaves the flag as it is.  So when the flag is set and the timer fires,
    then for as long as no main cycle has started the flag stays set, none
    of the audio of the check is forwarded, and every audio chunk that
    arrives is discarded. *)
Theorem check_keeps_interrupt_flag (m m1 m2 : Machine) (now : Z) (events : list Event) :
  interrupted (sess m) = true ->
  step m (EvTick now) = Some m1 ->
  run m1 events = Some m2 ->
  streamRequests (out (sess m2)) = streamRequests (out (sess m)) ->
  interrupted (sess m1) = true
  /\ interrupted (sess m2) = true
  /\ forwardedAudio (out (sess m2)) = forwardedAudio (out (sess m))
  /\ (forall base64, onTTSAudioChunk base64 (sess m2) = sess m2)
  /\ (forall ma mb e,
        step ma e = Some mb ->
        interrupted (sess ma) = true -> interrupted (sess mb) = false ->
        streamRequests (out (sess mb)) <> streamRequests (out (sess ma))).
Proof.
  intros Hint Hs Hr Hstreams.
  assert (Hint1 : interrupted (sess m1) = true).
  { simpl in Hs. rewrite (onTick_interrupted _ _ _ Hs). exact Hint. }
  destruct (run_interrupted (EvTick now :: events) m m2 Hint) as [Hint2 Ha];
    [simpl run; simpl in Hs; rewrite Hs; exact Hr|exact Hstreams|].
  split; [exact Hint1|]. split; [exact Hint2|]. split; [exact Ha|]. split.
  - intros base64. unfold onTTSAudioChunk. rewrite Hint2. reflexivity.
  - intros ma mb e Hstep Hia Hib.
    destruct (step_advances ma mb e Hstep) as (os & Ho & _ & Hi).
    { destruct e; simpl; auto. }
    destruct (Hi Hia) as [Hx|Hne]; [congruence|].
    unfold streamRequests in *. rewrite Ho, List.filter_app. intros Heq.
    rewrite <- (app_nil_r (List.filter isStream (out (sess ma)))) in Heq at 2.
    apply app_inv_head in Heq. contradiction.
Qed.

Lemma check_keeps_interrupt_flag_witness :
  interrupted (sess interruptedIdle) = true
  /\ task interruptedIdle = None
  /\ step interruptedIdle (EvTick 20000) = Some checkStarted
  /\ run checkStarted checkSpeech = Some checkSpoken
  /\ In (TtsSendText "Press G.") (out (sess checkSpoken))
  /\ interrupted (sess checkSpoken) = true
  /\ forwardedAudio (out (sess checkSpoken)) = [].
Proof.
  assert (H0 : interrupted (sess interruptedIdle) = true) by reflexivity.
  assert (H1 : step interruptedIdle (EvTick 20000) = Some checkStarted)
    by (vm_compute; reflexivity).
  assert (H2 : run checkStarted checkSpeech = Some checkSpoken)
    by (vm_compute; reflexivity).
  assert (H3 : streamRequests (out (sess checkSpoken))
               = streamRequests (out (sess interruptedIdle)))
    by (vm_compute; reflexivity).
  split; [exact H0|]. split; [reflexivity|]. split; [exact H1|]. split; [exact H2|].
  split; [vm_compute; auto 20|].
  destruct (check_keeps_interrupt_flag interruptedIdle checkStarted checkSpoken 20000
              checkSpeech H0 H1 H2 H3) as (_ & Hi & Ha & _).
  split; [exact Hi|exact Ha].
Defined.

(** ** The queued user message *)

Lemma stillQueued_grows (s s' : Session) (t t' : option (Await * list Frame)) :
  grows s s' -> hasPendingUserMessage s = true -> t' <> None ->
  stillQueued {| sess := s; task := t |} {| sess := s'; task := t' |}.
Proof.
  intros Hg Hp Ht. destruct (grows_fields _ _ Hg) as (_ & _ & _ & Hp' & _).
  destruct Hg as (_ & Hc & (os & Ho & Hq)). unfold stillQueued. cbn [sess task].
  split; [congruence|]. split; [exact Ht|]. split; [|exact Hc].
  destruct (mild_outputs _ Hq) as [_ Hs]. unfold streamRequests in *.
  rewrite Ho, List.filter_app, Hs, app_nil_r. reflexivity.
Qed.

Lemma handleInterruption_grows_when_set (s : Session) :
  interrupted s = true -> recurringCheckCancelled s = true ->
  grows s (handleInterruption s).
Proof.
  intros Hi Hc. split; [unfold flags; cbn; rewrite Hi, Hc; reflexivity|].
  split; [exists []; cbn; rewrite app_nil_r; reflexivity|].
  exists [ClaudeAbort; TtsInterrupt; SocketEmit interrupt]. auto.
Qed.

(** With a message queued, the settling of the pending [await] leaves it
    queued or starts its fresh cycle. *)
Lemma resume_queued (a : Await) (fs : list Frame) (e : Event) (s : Session) (m' : Machine) :
  hasPendingUserMessage s = true -> interrupted s = true ->
  resume a fs e s = Some m' ->
  stillQueued (suspended s a fs) m' \/ startsFresh (suspended s a fs) m'.
Proof.
  intros Hp Hint Hr.
  destruct (resume_cases _ _ _ _ _ Hr) as (s' & Hg & [(a' & -> & _)|[(_ & Hn & ->)| ->]]).
  - left. apply stillQueued_grows; [exact Hg|exact Hp|discriminate].
  - destruct (grows_fields _ _ Hg) as (_ & Hx & _). congruence.
  - right. destruct (grows_fields _ _ Hg) as (_ & _ & _ & Hp' & _).
    destruct Hg as (_ & (extra & Hc) & (os & Ho & Hq)).
    destruct (mild_outputs _ Hq) as [_ Hs].
    unfold finished. rewrite Hp', Hp. unfold freshCycle, startsFresh.
    cbn [sess task suspended].
    set (s1 := set_hasPendingUserMessage false (released (inCheck a) s')).
    assert (H1 : currentConversation s1 = currentConversation s' /\ out s1 = out s').
    { subst s1. destruct (inCheck a); split; reflexivity. }
    destruct H1 as [Hc1 Ho1].
    destruct (beginCycle_fields s1) as (_ & _ & Hbp & _ & Hbc & Hbo).
    split; [exact Hbp|]. split; [eauto|]. exists extra, os.
    rewrite Hbo, Hbc, Hc1, Ho1, Hc, Ho, <- app_assoc. auto.
Qed.

Lemma streamRequests_mild (l os : list Output) :
  forallb mild os = true -> streamRequests (l ++ os) = streamRequests l.
Proof.
  intros Hq. destruct (mild_outputs _ Hq) as [_ Hs]. unfold streamRequests in *.
  rewrite List.filter_app, Hs, app_nil_r. reflexivity.
Qed.

(** A message committed during a cycle is recorded and queued. *)
Lemma committed_queues (s : Session) (t : option (Await * list Frame)) (text : string)
    (now : Z) (m' : Machine) :
  JsString.blank text = false -> isProcessing s = true ->
  step {| sess := s; task := t |} (EvCommittedTranscript text now) = Some m' ->
  hasPendingUserMessage (sess m') = true
  /\ task m' = t
  /\ streamRequests (out (sess m')) = streamRequests (out s)
  /\ exists gap,
       (gap = [] \/ gap = [assistantTurn (CString interruptedPlaceholder)])
       /\ currentConversation (sess m')
          = currentConversation s ++ gap ++ [userTurn (buildUserContent text s)].
Proof.
  intros Hblank Hproc. unfold step, onCommittedTranscript. cbn [sess task].
  destruct (config s); [|discriminate]. rewrite Hblank.
  destruct (recordUserTurn_fields text now s) as (Hi & _ & _ & _ & Hconv & Hout).
  rewrite Hi, Hproc.
  generalize dependent (recordUserTurn text now s). intros X _ Hconv Hout [= <-].
  cbn [sess task]. split; [reflexivity|]. split; [reflexivity|]. split; [|exact Hconv].
  change (out (set_hasPendingUserMessage true X)) with (out X).
  rewrite Hout. apply streamRequests_mild. reflexivity.
Qed.

(** C6. From a reachable state: a user message that is committed while a
    cycle is suspended is appended to the history once (after the
    placeholder turn, when the history ended with a user turn), sets the
    queued flag and starts no cycle; while the flag is set, every step either
    leaves the message queued, with a cycle still suspended and no main cycle
    started, or ends the active cycle and, in the same step, clears the flag
    and starts one fresh main cycle whose request carries the history with
    the message; and the machine is never idle with the flag set. *)
Theorem queued_message_released (m m' : Machine) (e : Event) :
  reachable m ->
  step m e = Some m' ->
  (forall text now,
      e = EvCommittedTranscript text now -> JsString.blank text = false ->
      task m <> None ->
      hasPendingUserMessage (sess m') = true
      /\ task m' = task m
      /\ streamRequests (out (sess m')) = streamRequests (out (sess m))
      /\ exists gap,
           (gap = [] \/ gap = [assistantTurn (CString interruptedPlaceholder)])
           /\ currentConversation (sess m')
              = currentConversation (sess m) ++ gap
                ++ [userTurn (buildUserContent text (sess m))])
  /\ (hasPendingUserMessage (sess m) = true -> stillQueued m m' \/ startsFresh m m')
  /\ (task m' = None -> hasPendingUserMessage (sess m') = false).
Proof.
  intros Hreach Hstep. pose proof (reachable_Inv m Hreach) as HI.
  pose proof (step_Inv m m' e HI Hstep) as HI'.
  split; [|split; [|intros H; apply HI'; exact H]].
  - intros text now -> Hblank Htask. destruct m as [s t]. destruct HI as (_ & H2 & _).
    cbn [sess task] in *. exact (committed_queues s t text now m' Hblank (H2 Htask) Hstep).
  - intros Hp. destruct m as [s t]. destruct HI as (H1 & H2 & H3).
    cbn [sess task] in *. destruct (H3 Hp) as [Hint Hcanc].
    assert (Ht : t <> None) by (intros ->; destruct (H1 eq_refl); congruence).
    pose proof (H2 Ht) as Hproc.
    destruct e;
      try solve [ unfold step in Hstep; cbn [sess task] in Hstep;
                  destruct t as [[a fs]|]; [|contradiction];
                  exact (resume_queued _ _ _ _ _ Hp Hint Hstep) ];
      left.
    + unfold step, startSession in Hstep. cbn [sess task] in Hstep.
      destruct (currentConversation s) eqn:Hconv.
      { destruct t; [discriminate|contradiction]. }
      injection Hstep as <-. apply stillQueued_grows; [|exact Hp|exact Ht].
      apply grows_emit. reflexivity.
    + injection Hstep as <-. apply stillQueued_grows; [|exact Hp|exact Ht].
      apply grows_silent; reflexivity.
    + injection Hstep as <-. apply stillQueued_grows; [|exact Hp|exact Ht].
      apply grows_silent; reflexivity.
    + unfold step in Hstep. cbn [sess task] in Hstep.
      destruct (config s); [|discriminate].
      injection Hstep as <-. apply stillQueued_grows; [|exact Hp|exact Ht].
      unfold onPartialTranscript. destruct (JsString.blank text); [apply grows_refl|].
      destruct (isAgentCurrentlySpeaking s || isProcessing s || isRecurringCheckRunning s);
        [|apply grows_refl].
      apply handleInterruption_grows_when_set; assumption.
    + destruct (JsString.blank text) eqn:Hblank.
      * unfold step, onCommittedTranscript in Hstep. cbn [sess task] in Hstep.
        destruct (config s); [|discriminate]. rewrite Hblank in Hstep.
        injection Hstep as <-.
        apply stillQueued_grows; [apply grows_refl|exact Hp|exact Ht].
      * destruct (committed_queues s t text now m' Hblank Hproc Hstep)
          as (Hq & Htask & Hstreams & (gap & _ & Hc)).
        unfold stillQueued. cbn [sess task].
        split; [exact Hq|]. split; [rewrite Htask; exact Ht|]. split; [exact Hstreams|].
        eauto.
    + unfold step in Hstep. cbn [sess task] in Hstep.
      destruct (config s); [|discriminate].
      injection Hstep as <-. apply stillQueued_grows; [|exact Hp|exact Ht].
      unfold onTTSAudioChunk. rewrite Hint. apply grows_refl.
    + unfold step, onTick in Hstep. cbn [sess task] in Hstep.
      destruct (config s) as [c|]; [|discriminate].
      destruct (recurringCheckInterval s); [|discriminate].
      assert (Hdue : checkDue c now s = false).
      { unfold checkDue. rewrite Hproc. cbn [negb].
        rewrite !andb_false_r. reflexivity. }
      rewrite Hdue in Hstep. injection Hstep as <-.
      apply stillQueued_grows; [apply grows_refl|exact Hp|exact Ht].
Qed.

Lemma queued_message_released_witness :
  reachable queuedFirst
  /\ hasPendingUserMessage (sess queuedFirst) = true
  /\ step queuedFirst EvStreamFailed = Some freshAfterQueue
  /\ (stillQueued queuedFirst freshAfterQueue \/ startsFresh queuedFirst freshAfterQueue)
  /\ hasPendingUserMessage (sess freshAfterQueue) = false.
Proof.
  assert (Hreach : reachable queuedFirst)
    by (exists queuedDuringFirst; vm_compute; reflexivity).
  assert (Hstep : step queuedFirst EvStreamFailed = Some freshAfterQueue)
    by (vm_compute; reflexivity).
  split; [exact Hreach|]. split; [reflexivity|]. split; [exact Hstep|].
  destruct (queued_message_released queuedFirst freshAfterQueue EvStreamFailed Hreach Hstep)
    as (_ & Hrel & _).
  split; [apply Hrel; reflexivity|reflexivity].
Defined.

(** ** The alternation of the history *)

(** C1 fails on the code. The recurring check appends its prompt turn
    without looking at the last turn of the history: after a first cycle
    that was interrupted before its assistant turn was pushed, the request of
    the check holds two user turns in a row, the check commits them, and the
    request of the next main cycle carries them as well. *)
Theorem check_breaks_alternation :
  exists m,
    run start checkAfterInterruptedStart = Some m
    /\ map (map role) (requestedHistories (out (sess m)))
       = [[user]; [user; user]; [user; user; assistant; user]]
    /\ map alternates (requestedHistories (out (sess m))) = [true; false; false].
Proof.
  eexists. split; [vm_compute; reflexivity|].
  split; vm_compute; reflexivity.
Qed.

(** ** The tool round under any events that do not interrupt *)

Lemma processTools_progress (todo : list ToolUse) :
  forall results s,
    interrupted s = false ->
    match processTools interrupted todo results s with
    | LoopDone s' results' =>
        exists rs, results' = results ++ rs /\ Forall2 resultOf todo rs
                   /\ invocations (out s') = invocations (out s) ++ map invoke todo
                   /\ steadyWith tame s s'
    | LoopSuspended s' tu rest results' =>
        exists done rs, todo = done ++ tu :: rest /\ results' = results ++ rs
                        /\ Forall2 resultOf done rs
                        /\ invocations (out s')
                           = invocations (out s) ++ map invoke (done ++ [tu])
                        /\ steadyWith tame s s'
    | LoopStopped _ _ => False
    end.
Proof.
  induction todo as [|tu rest IH]; intros results s Hint.
  - simpl. exists []. rewrite !app_nil_r. repeat split; auto using Forall2_nil.
    apply steady_refl.
  - simpl processTools. rewrite Hint. fold (invoke tu).
    pose proof (handleToolCall_steady (tu_name tu) (tu_input tu) (emit (invoke tu) s)) as Hst.
    assert (Hinv : forall s1, steady (emit (invoke tu) s) s1 ->
              invocations (out s1) = invocations (out s) ++ [invoke tu]).
    { intros s1 H1. rewrite (steady_invocations _ _ H1). unfold invocations, emit.
      simpl. rewrite List.filter_app. destruct tu; reflexivity. }
    assert (Hemit : steadyWith tame s (emit (invoke tu) s))
      by (apply steady_emit; reflexivity).
    destruct (handleToolCall (tu_name tu) (tu_input tu) (emit (invoke tu) s))
      as [s1 r|s1]; simpl in Hst.
    + assert (Hs1 : steadyWith tame s s1)
        by (eapply steady_trans; [exact Hemit|apply steady_tame; exact Hst]).
      destruct (steady_fields _ _ _ Hs1) as (_ & _ & Hi & _).
      assert (Hint1 : interrupted s1 = false) by congruence.
      specialize (IH (results ++ [toolResult tu r]) s1 Hint1).
      destruct (processTools interrupted rest (results ++ [toolResult tu r]) s1)
        as [s' rs'|s' rs'|s' tu' rest' rs'].
      * destruct IH as (rs & -> & Hrs & Hout & Hs).
        exists (toolResult tu r :: rs). rewrite <- app_assoc. simpl.
        split; [reflexivity|]. split; [constructor; [exists r; reflexivity|exact Hrs]|].
        split; [rewrite Hout, (Hinv s1 Hst), <- app_assoc; reflexivity|].
        eapply steady_trans; eassumption.
      * exact IH.
      * destruct IH as (done & rs & -> & -> & Hrs & Hout & Hs).
        exists (tu :: done), (toolResult tu r :: rs). rewrite <- app_assoc. simpl.
        split; [reflexivity|]. split; [reflexivity|].
        split; [constructor; [exists r; reflexivity|exact Hrs]|].
        split; [rewrite Hout, (Hinv s1 Hst), <- app_assoc; reflexivity|].
        eapply steady_trans; eassumption.
    + exists [], []. rewrite app_nil_r. simpl.
      split; [reflexivity|]. split; [reflexivity|]. split; [constructor|].
      split; [apply Hinv; exact Hst|].
      eapply steady_trans; [exact Hemit|apply steady_tame; exact Hst].
Qed.

Lemma invocations_beginCycle (s : Session) :
  invocations (out (beginCycle s)) = invocations (out s).
Proof.
  destruct (beginCycle_fields s) as (_ & _ & _ & _ & _ & Hout).
  rewrite Hout. unfold invocations. rewrite List.filter_app. simpl. apply app_nil_r.
Qed.

(** The round from a point where the calls [done0] are answered. *)
Lemma toolRound_afterTools (fs : list Frame) (inv0 : list Output) (conv0 : list Msg)
    (response : list Block) (calls done0 todo : list ToolUse) (rs0 : list Block)
    (s : Session) :
  interrupted s = false ->
  calls = done0 ++ todo ->
  Forall2 resultOf done0 rs0 ->
  invocations (out s) = inv0 ++ map invoke done0 ->
  currentConversation s = conv0 ++ [assistantTurn (CBlocks response)] ->
  toolRound fs inv0 conv0 response calls
    (resolveMain fs (afterTools (processTools interrupted todo rs0 s))).
Proof.
  intros Hint -> Hrs0 Hinv Hconv.
  pose proof (processTools_progress todo rs0 s Hint) as Hp.
  destruct (processTools interrupted todo rs0 s) as [s' rs'|s' rs'|s' tu rest rs'];
    [| contradiction |].
  - destruct Hp as (rs & -> & Hrs & Hout & Hst).
    destruct (steady_fields _ _ _ Hst) as (Hc & _ & Hi & _).
    cbn [afterTools]. rewrite Hi, Hint. cbn [resolveMain].
    unfold sendToClaudeAndSpeak.
    change (isProcessing (set_isProcessing false (push (userTurn (CBlocks (rs0 ++ rs))) s')))
      with false. cbv iota.
    set (s1 := set_isProcessing false (push (userTurn (CBlocks (rs0 ++ rs))) s')).
    assert (H1 : out s1 = out s'
                 /\ currentConversation s1
                    = currentConversation s' ++ [userTurn (CBlocks (rs0 ++ rs))])
      by (split; reflexivity).
    destruct H1 as [Ho1 Hc1]. clearbody s1.
    destruct (beginCycle_fields s1) as (_ & Hbi & _ & _ & Hbc & _).
    unfold toolRound. cbn [sess task suspended]. split; [exact Hbi|].
    right. right. exists (rs0 ++ rs).
    split; [reflexivity|]. split; [apply Forall2_app; assumption|].
    split.
    + rewrite invocations_beginCycle, Ho1, Hout, Hinv, map_app, <- app_assoc. reflexivity.
    + rewrite Hbc, Hc1, Hc, Hconv, <- app_assoc. reflexivity.
  - destruct Hp as (done & rs & -> & -> & Hrs & Hout & Hst).
    destruct (steady_fields _ _ _ Hst) as (Hc & _ & Hi & _).
    cbn [afterTools resolveMain]. unfold toolRound. cbn [sess task suspended].
    split; [congruence|]. right. left. exists (done0 ++ done), tu, rest, (rs0 ++ rs).
    split; [reflexivity|]. split; [rewrite <- app_assoc; reflexivity|].
    split; [apply Forall2_app; assumption|].
    split; [|congruence].
    rewrite Hout, Hinv, !map_app, <- !app_assoc. reflexivity.
Qed.

(** A bystander leaves the cycle, the flag, the history and the calls of the
    dispatcher as they are. *)
Lemma bystander_step (m m' : Machine) (e : Event) :
  bystander e = true -> step m e = Some m' ->
  task m' = task m
  /\ interrupted (sess m') = interrupted (sess m)
  /\ currentConversation (sess m') = currentConversation (sess m)
  /\ invocations (out (sess m')) = invocations (out (sess m)).
Proof.
  destruct m as [s t]. unfold step. cbn [sess task].
  destruct e; simpl; try discriminate; intros Hb;
    try (destruct (config s); [|discriminate]).
  - intros [= <-]. auto.
  - intros [= <-]. auto.
  - intros [= <-]. unfold onPartialTranscript. rewrite Hb. auto.
  - unfold onCommittedTranscript. rewrite Hb. intros [= <-]. auto.
  - intros [= <-]. cbn [sess task]. unfold onTTSAudioChunk.
    destruct (interrupted s) eqn:Hint; [auto|].
    repeat split; auto. cbn. unfold invocations. rewrite List.filter_app. simpl.
    apply app_nil_r.
Qed.

Lemma toolRound_bystander (fs : list Frame) (inv0 : list Output) (conv0 : list Msg)
    (response : list Block) (calls : list ToolUse) (m m' : Machine) (e : Event) :
  toolRound fs inv0 conv0 response calls m ->
  bystander e = true -> step m e = Some m' ->
  toolRound fs inv0 conv0 response calls m'.
Proof.
  intros Hr Hb Hs. destruct (bystander_step _ _ _ Hb Hs) as (Ht & Hi & Hc & Hinv).
  unfold toolRound in *. rewrite Ht, Hi, Hc, Hinv. exact Hr.
Qed.

(** Every event that does not interrupt keeps the round going or ends it. *)
Lemma toolRound_step (fs : list Frame) (inv0 : list Output) (conv0 : list Msg)
    (response : list Block) (calls : list ToolUse) (m m' : Machine) (e : Event) :
  toolUses response = calls -> calls <> [] ->
  toolRound fs inv0 conv0 response calls m ->
  uninterrupting e = true -> step m e = Some m' ->
  toolRound fs inv0 conv0 response calls m'.
Proof.
  intros Htools Hne Hr He Hs. unfold uninterrupting in He.
  destruct (bystander e) eqn:Hb; [eapply toolRound_bystander; eassumption|].
  simpl in He. destruct m as [s t].
  destruct Hr as (Hint & [(c & ft & Ht & Hinv & Hconv)
                         |[(done & tu & todo & rs & Ht & Hcalls & Hrs & Hinv & Hconv)
                          |(rs & Ht & _)]]);
    cbn [sess task] in *; subst t; destruct e; try discriminate;
    unfold step in Hs; cbn [sess task resume inCheck resumeMain option_map] in Hs;
    try discriminate; injection Hs as <-.
  - (* the flush has completed *)
    unfold afterFlush. rewrite Htools. destruct calls as [|tu rest]; [contradiction|].
    set (s2 := match ft with
               | "" => emits [TtsFlush; TtsCloseStream] (set_sentenceBuffer "" s)
               | _ => emit (SocketEmit (if c then agent_text_continue ft else agent_text ft))
                        (emits [TtsFlush; TtsCloseStream] (set_sentenceBuffer "" s))
               end).
    assert (H2 : interrupted s2 = interrupted s
                 /\ currentConversation s2 = currentConversation s
                 /\ invocations (out s2) = invocations (out s)).
    { subst s2. unfold invocations.
      destruct ft; simpl; rewrite ?List.filter_app; simpl; rewrite ?app_nil_r;
        repeat split; auto; destruct c; simpl; rewrite ?app_nil_r; reflexivity. }
    destruct H2 as (Hi2 & Hc2 & Hv2). clearbody s2.
    apply (toolRound_afterTools fs inv0 conv0 response (tu :: rest) [] (tu :: rest) []).
    + cbn. congruence.
    + reflexivity.
    + constructor.
    + simpl map. rewrite app_nil_r. change (invocations (out s2) = inv0). congruence.
    + cbn. congruence.
  - (* the lesson creator has answered with a tutorial *)
    unfold resumeTools.
    pose proof (handleCreateTutorial_end_steady (inl t) s) as Hend.
    destruct (handleCreateTutorial_end (inl t) s) as [s2 r]. cbn [fst] in Hend.
    destruct (steady_fields _ _ _ Hend) as (Hc2 & _ & Hi2 & _).
    apply (toolRound_afterTools fs inv0 conv0 response calls (done ++ [tu]) todo
             (rs ++ [toolResult tu r])).
    + congruence.
    + rewrite Hcalls, <- app_assoc. reflexivity.
    + apply Forall2_app; [exact Hrs|]. constructor; [exists r; reflexivity|constructor].
    + rewrite (steady_invocations _ _ Hend). exact Hinv.
    + congruence.
  - (* the lesson creator has failed *)
    unfold resumeTools.
    pose proof (handleCreateTutorial_end_steady (inr message) s) as Hend.
    destruct (handleCreateTutorial_end (inr message) s) as [s2 r]. cbn [fst] in Hend.
    destruct (steady_fields _ _ _ Hend) as (Hc2 & _ & Hi2 & _).
    apply (toolRound_afterTools fs inv0 conv0 response calls (done ++ [tu]) todo
             (rs ++ [toolResult tu r])).
    + congruence.
    + rewrite Hcalls, <- app_assoc. reflexivity.
    + apply Forall2_app; [exact Hrs|]. constructor; [exists r; reflexivity|constructor].
    + rewrite (steady_invocations _ _ Hend). exact Hinv.
    + congruence.
Qed.

Lemma toolRound_run (fs : list Frame) (inv0 : list Output) (conv0 : list Msg)
    (response : list Block) (calls : list ToolUse) (events : list Event) :
  toolUses response = calls -> calls <> [] ->
  forall m m',
    toolRound fs inv0 conv0 response calls m ->
    forallb uninterrupting events = true -> run m events = Some m' ->
    toolRound fs inv0 conv0 response calls m'.
Proof.
  intros Htools Hne. induction events as [|e events IH]; intros m m' Hr Hall; simpl.
  - intros [= <-]. exact Hr.
  - simpl in Hall. apply andb_true_iff in Hall as [He Hall].
    destruct (step m e) as [m1|] eqn:Hs; [|discriminate].
    apply IH; [|exact Hall]. eapply toolRound_step; eassumption.
Qed.

(** The round starts when the stream ends. *)
Lemma toolRound_start (m m1 : Machine) (c : bool) (ft : string) (fs : list Frame)
    (response : list Block) (calls : list ToolUse) :
  task m = Some (AwStream c ft, fs) -> interrupted (sess m) = false ->
  toolUses response = calls -> calls <> [] ->
  step m (EvStreamDone response) = Some m1 ->
  toolRound fs (invocations (out (sess m))) (currentConversation (sess m))
    response calls m1.
Proof.
  destruct m as [s t]. cbn [sess task]. intros -> Hint Htools Hne.
  unfold step. cbn [sess task resume inCheck resumeMain option_map].
  intros [= <-]. unfold onStreamDone. rewrite Hint.
  destruct (JsString.blank (sentenceBuffer s)).
  - unfold afterFlush. rewrite Htools. destruct calls as [|tu rest]; [contradiction|].
    set (s2 := match ft with
               | "" => emits [TtsFlush; TtsCloseStream] s
               | _ => emit (SocketEmit (if c then agent_text_continue ft else agent_text ft))
                        (emits [TtsFlush; TtsCloseStream] s)
               end).
    assert (H2 : interrupted s2 = interrupted s
                 /\ currentConversation s2 = currentConversation s
                 /\ invocations (out s2) = invocations (out s)).
    { subst s2. unfold invocations.
      destruct ft; simpl; rewrite ?List.filter_app; simpl; rewrite ?app_nil_r;
        repeat split; auto; destruct c; simpl; rewrite ?app_nil_r; reflexivity. }
    destruct H2 as (Hi2 & Hc2 & Hv2). clearbody s2.
    apply (toolRound_afterTools fs _ _ response (tu :: rest) [] (tu :: rest) []).
    + cbn. congruence.
    + reflexivity.
    + constructor.
    + simpl map. rewrite app_nil_r.
      change (invocations (out s2) = invocations (out s)). exact Hv2.
    + cbn. congruence.
  - cbn [resolveMain]. unfold toolRound. cbn [sess task suspended].
    split; [exact Hint|]. left. exists c, ft. split; [reflexivity|].
    split; [|reflexivity]. unfold invocations. cbn. rewrite List.filter_app. simpl.
    apply app_nil_r.
Qed.

(** C2. When the response of a main cycle holds exactly three tool-use blocks
    and no interruption occurs, the dispatcher is called exactly three times,
    once per block and in order, and exactly one user turn is appended after
    the assistant turn: it holds three tool-result blocks whose ids are those
    of the three blocks, in order, and the follow-up request is issued with
    it as the last turn.  First, the completion of the flush and the answers
    of the lesson creator lead there.  Second, whatever events arrive that do
    not interrupt (frames, playback reports, audio, blank transcripts, the
    completions the cycle waits for), the calls made so far are a prefix of
    the three, no result turn is appended before the follow-up request, and
    once that request is pending all three calls are made and the single
    result turn is in place. *)
Theorem three_tool_calls (m : Machine) (c : bool) (ft : string) (fs : list Frame)
    (response : list Block) (t1 t2 t3 : ToolUse) (answers : list (Tutorial + string)) :
  task m = Some (AwStream c ft, fs) ->
  interrupted (sess m) = false ->
  toolUses response = [t1; t2; t3] ->
  length answers = creations [t1; t2; t3] ->
  (exists m' r1 r2 r3,
    let followUp := userTurn (CBlocks [BToolResult (tu_id t1) r1;
                                       BToolResult (tu_id t2) r2;
                                       BToolResult (tu_id t3) r3]) in
    run m (EvStreamDone response :: flushEvents (sess m) ++ map answerEvent answers)
    = Some m'
    /\ invocations (out (sess m'))
       = invocations (out (sess m)) ++ [invoke t1; invoke t2; invoke t3]
    /\ currentConversation (sess m')
       = pruneOldImages (sanitizeConversation
           (currentConversation (sess m)
            ++ [assistantTurn (CBlocks response); followUp]))
    /\ last (currentConversation (sess m')) = Some followUp
    /\ task m' = Some (AwStream true "", KRecursion :: fs)
    /\ last (out (sess m')) = Some (ClaudeStream (currentConversation (sess m'))))
  /\ (forall events m',
        forallb uninterrupting events = true ->
        run m (EvStreamDone response :: events) = Some m' ->
        (exists k, invocations (out (sess m'))
                   = invocations (out (sess m)) ++ map invoke (take k [t1; t2; t3]))
        /\ (task m' <> Some (AwStream true "", KRecursion :: fs) ->
            currentConversation (sess m') = currentConversation (sess m)
            \/ currentConversation (sess m')
               = currentConversation (sess m) ++ [assistantTurn (CBlocks response)])
        /\ (task m' = Some (AwStream true "", KRecursion :: fs) ->
            exists r1 r2 r3,
              let followUp := userTurn (CBlocks [BToolResult (tu_id t1) r1;
                                                 BToolResult (tu_id t2) r2;
                                                 BToolResult (tu_id t3) r3]) in
              invocations (out (sess m'))
              = invocations (out (sess m)) ++ [invoke t1; invoke t2; invoke t3]
              /\ currentConversation (sess m')
                 = pruneOldImages (sanitizeConversation
                     (currentConversation (sess m)
                      ++ [assistantTurn (CBlocks response); followUp]))
              /\ last (currentConversation (sess m')) = Some followUp)).
Proof.
  intros Htask Hint Htools Hlen. split.
  - destruct m as [s t]. cbn [sess task] in *. subst t.
    unfold flushEvents. cbn [run step sess task resume inCheck resumeMain option_map].
    unfold onStreamDone. rewrite Hint.
    destruct (JsString.blank (sentenceBuffer s)) eqn:Hblank.
    + apply (three_tool_calls_after_flush c ft response fs s t1 t2 t3 answers);
        assumption.
    + cbn [app resolveMain run step sess task suspended resume inCheck resumeMain
           option_map].
      set (s1 := set_sentenceBuffer ""
                   (emit (TtsSendTextChunk (String.append (sentenceBuffer s) " ")) s)).
      destruct (three_tool_calls_after_flush c ft response fs s1 t1 t2 t3 answers)
        as (m' & r1 & r2 & r3 & H); [exact Hint|exact Htools|exact Hlen|].
      cbn zeta in H. destruct H as (Hrun & Hinv & Hconv & Hrest).
      exists m', r1, r2, r3. cbn zeta.
      split; [exact Hrun|]. split; [|split; [exact Hconv|exact Hrest]].
      rewrite Hinv. subst s1. unfold invocations. simpl.
      rewrite List.filter_app. simpl. rewrite app_nil_r. reflexivity.
  - intros events m' Hall Hrun. cbn [run] in Hrun.
    destruct (step m (EvStreamDone response)) as [m1|] eqn:Hs; [|discriminate].
    assert (Hne : [t1; t2; t3] <> []) by discriminate.
    pose proof (toolRound_start m m1 c ft fs response _ Htask Hint Htools Hne Hs) as H1.
    pose proof (toolRound_run fs _ _ response _ events Htools Hne m1 m' H1 Hall Hrun)
      as (_ & [(c' & ft' & Ht & Hinv & Hconv)
              |[(done & tu & todo & rs & Ht & Hcalls & Hrs & Hinv & Hconv)
               |(rs & Ht & Hrs & Hinv & Hconv)]]).
    + split; [exists 0; rewrite Hinv; simpl; rewrite app_nil_r; reflexivity|].
      split; [intros _; left; exact Hconv|]. rewrite Ht. discriminate.
    + split.
      { exists (length (done ++ [tu])). rewrite Hinv. f_equal. f_equal.
        rewrite Hcalls, (app_assoc done [tu] todo : done ++ tu :: todo = _).
        rewrite take_app_length. reflexivity. }
      split; [intros _; right; exact Hconv|]. rewrite Ht. discriminate.
    + split; [exists 3; exact Hinv|]. split; [rewrite Ht; intros []; reflexivity|].
      intros _.
      inversion Hrs as [|? b1 ? rs1 [r1 ->] Hrs1]; subst.
      inversion Hrs1 as [|? b2 ? rs2 [r2 ->] Hrs2]; subst.
      inversion Hrs2 as [|? b3 ? rs3 [r3 ->] Hrs3]; subst.
      inversion Hrs3; subst.
      exists r1, r2, r3. cbn zeta. split; [exact Hinv|]. split; [exact Hconv|].
      rewrite Hconv.
      change (?l ++ [?a; ?b]) with (l ++ [a] ++ [b]). rewrite app_assoc.
      apply prepared_last; reflexivity.
Qed.

Lemma three_tool_calls_witness :
  (exists m' r1 r2 r3,
    run firstCycle [EvStreamDone threeCalls; EvGenerated chair] = Some m'
    /\ invocations (out (sess m'))
       = [invoke hotkeyCall; invoke progressCall; invoke createCall]
    /\ last (currentConversation (sess m'))
       = Some (userTurn (CBlocks [BToolResult "toolu_1" r1; BToolResult "toolu_2" r2;
                                  BToolResult "toolu_3" r3])))
  /\ (forall m',
        run firstCycle [EvStreamDone threeCalls; EvFrame "jpeg"; EvGenerated chair;
                        EvPlaybackEnded] = Some m' ->
        task m' = Some (AwStream true "", [KRecursion; KStartSession]) ->
        exists r1 r2 r3,
          invocations (out (sess m'))
          = [invoke hotkeyCall; invoke progressCall; invoke createCall]
          /\ last (currentConversation (sess m'))
             = Some (userTurn (CBlocks [BToolResult "toolu_1" r1;
                                        BToolResult "toolu_2" r2;
                                        BToolResult "toolu_3" r3]))).
Proof.
  destruct (three_tool_calls firstCycle false "" [KStartSession] threeCalls
              hotkeyCall progressCall createCall [inl chair]
              eq_refl eq_refl eq_refl eq_refl)
    as [(m' & r1 & r2 & r3 & Hrun & Hinv & _ & Hlast & _) Hany].
  split.
  - exists m', r1, r2, r3. split; [exact Hrun|]. split; [exact Hinv|exact Hlast].
  - intros m2 Hrun2 Htask2.
    destruct (Hany [EvFrame "jpeg"; EvGenerated chair; EvPlaybackEnded] m2
                eq_refl Hrun2) as (_ & _ & Hdone).
    destruct (Hdone Htask2) as (q1 & q2 & q3 & Hinv2 & _ & Hlast2).
    exists q1, q2, q3. split; [exact Hinv2|exact Hlast2].
Defined.

(** ** More on the sentence-boundary streamer *)

Lemma append_empty_r (s : string) : String.append s "" = s.
Proof. induction s as [|c s IH]; simpl; [reflexivity|]. rewrite IH. reflexivity. Qed.

Lemma append_assoc (a b c : string) :
  String.append (String.append a b) c = String.append a (String.append b c).
Proof. induction a as [|x a IH]; simpl; [reflexivity|]. rewrite IH. reflexivity. Qed.

Lemma length_append (a b : string) :
  String.length (String.append a b) = String.length a + String.length b.
Proof. induction a as [|x a IH]; simpl; [reflexivity|]. rewrite IH. reflexivity. Qed.

Lemma substring_all (s : string) : substring 0 (String.length s) s = s.
Proof. induction s as [|c s IH]; simpl; [reflexivity|]. rewrite IH. reflexivity. Qed.

(** [s.substring(0, n) + s.substring(n) === s]. *)
Lemma substring_from (s : string) :
  forall n, String.append (substring 0 n s) (JsString.from n s) = s.
Proof.
  unfold JsString.from. induction s as [|c s IH]; intros [|n]; simpl; try reflexivity.
  - rewrite substring_all. reflexivity.
  - rewrite IH. reflexivity.
Qed.

Lemma substring_append (a b : string) :
  forall n, n <= String.length a -> substring 0 n (String.append a b) = substring 0 n a.
Proof.
  induction a as [|c a IH]; intros [|n] Hn; simpl in *; try reflexivity; try lia.
  - destruct b; reflexivity.
  - rewrite IH by lia. reflexivity.
Qed.

Lemma from_append (a b : string) :
  forall n, n <= String.length a ->
    JsString.from n (String.append a b) = String.append (JsString.from n a) b.
Proof.
  unfold JsString.from. induction a as [|c a IH]; intros [|n] Hn; simpl in *; try lia.
  - rewrite Nat.sub_0_r. apply substring_all.
  - rewrite !substring_all. reflexivity.
  - apply IH. lia.
Qed.

Lemma length_substring (s : string) :
  forall n m, n + m <= String.length s -> String.length (substring n m s) = m.
Proof.
  induction s as [|c s IH]; intros [|n] [|m] H; simpl in *; try reflexivity; try lia.
  - rewrite IH by lia. reflexivity.
  - apply IH. lia.
  - apply IH. lia.
Qed.

(** A sentence end of [a] is the first sentence end of [a + b]. *)
Lemma sentenceEnd_append (a b : string) :
  forall i, JsString.sentenceEnd a = Some i ->
    JsString.sentenceEnd (String.append a b) = Some i.
Proof.
  induction a as [|c a IH]; intros i; [discriminate|].
  destruct a as [|d a]; [discriminate|].
  change (JsString.sentenceEnd (String c (String d a)))
    with (if JsString.isTerminator c && JsString.isSpace d then Some 0
          else option_map S (JsString.sentenceEnd (String d a))).
  change (JsString.sentenceEnd (String.append (String c (String d a)) b))
    with (if JsString.isTerminator c && JsString.isSpace d then Some 0
          else option_map S (JsString.sentenceEnd (String.append (String d a) b))).
  destruct (JsString.isTerminator c && JsString.isSpace d); [trivial|].
  destruct (JsString.sentenceEnd (String d a)) as [j|]; [|discriminate].
  intros [= <-]. rewrite (IH j eq_refl). reflexivity.
Qed.

(** The sentence cut off at the first sentence end has its only sentence
    end at its last two code units. *)
Lemma sentenceEnd_sentence (buf : string) :
  forall i, JsString.sentenceEnd buf = Some i ->
    JsString.sentenceEnd (substring 0 (i + 2) buf) = Some i.
Proof.
  induction buf as [|c buf IH]; intros i; [discriminate|].
  destruct buf as [|d buf]; [discriminate|].
  change (JsString.sentenceEnd (String c (String d buf)))
    with (if JsString.isTerminator c && JsString.isSpace d then Some 0
          else option_map S (JsString.sentenceEnd (String d buf))).
  destruct (JsString.isTerminator c && JsString.isSpace d) eqn:E.
  - intros [= <-]. simpl. rewrite E. destruct buf; reflexivity.
  - destruct (JsString.sentenceEnd (String d buf)) as [j|] eqn:Ej; [|discriminate].
    intros [= <-]. specialize (IH j eq_refl).
    change (substring 0 (S j + 2) (String c (String d buf)))
      with (String c (substring 0 (j + 2) (String d buf))).
    replace (j + 2) with (S (S j)) in * by lia.
    change (substring 0 (S (S j)) (String d buf))
      with (String d (substring 0 (S j) buf)) in *.
    change (JsString.sentenceEnd (String c (String d (substring 0 (S j) buf))))
      with (if JsString.isTerminator c && JsString.isSpace d then Some 0
            else option_map S (JsString.sentenceEnd (String d (substring 0 (S j) buf)))).
    rewrite E, IH. reflexivity.
Qed.

(** More fuel than the length of the buffer changes nothing. *)
Lemma drainSentences_fuel (f1 : nat) :
  forall f2 buf, String.length buf <= f1 -> String.length buf <= f2 ->
    drainSentences f1 buf = drainSentences f2 buf.
Proof.
  induction f1 as [|f1 IH]; intros f2 buf H1 H2.
  - destruct buf; [|simpl in H1; lia]. destruct f2; reflexivity.
  - destruct f2 as [|f2].
    + destruct buf; [reflexivity|simpl in H2; lia].
    + simpl. destruct (JsString.sentenceEnd buf) as [i|] eqn:E; [|reflexivity].
      pose proof (sentenceEnd_bound _ _ E) as Hi.
      pose proof (length_substring_le buf (i + 2) (String.length buf - (i + 2))) as Hs.
      rewrite (IH f2 (JsString.from (i + 2) buf)); [reflexivity| |];
        unfold JsString.from; lia.
Qed.

(** Nothing is lost and nothing is sent twice: the sentences and the rest
    make up the buffer. *)
Lemma drainSentences_concat (fuel : nat) :
  forall buf,
    String.append (String.concat "" (fst (drainSentences fuel buf)))
                  (snd (drainSentences fuel buf)) = buf.
Proof.
  induction fuel as [|fuel IH]; intros buf; simpl; [reflexivity|].
  destruct (JsString.sentenceEnd buf) as [i|] eqn:E; [|reflexivity].
  specialize (IH (JsString.from (i + 2) buf)).
  destruct (drainSentences fuel (JsString.from (i + 2) buf)) as [more left].
  cbn [fst snd] in *.
  assert (Hc : forall x xs, String.append (String.concat "" (x :: xs)) left
               = String.append x (String.append (String.concat "" xs) left)).
  { intros x [|y xs]; cbn [String.concat].
    - reflexivity.
    - cbn [String.append]. rewrite append_assoc. reflexivity. }
  rewrite Hc, IH. apply substring_from.
Qed.

(** The sentences of [a + b] are those of [a] followed by those of what [a]
    leaves and [b]. *)
Lemma drainSentences_append (fuel : nat) :
  forall a b, String.length a <= fuel ->
    drainSentences (String.length (String.append a b)) (String.append a b)
    = let (s1, l1) := drainSentences fuel a in
      let (s2, l2) := drainSentences (String.length (String.append l1 b))
                        (String.append l1 b) in
      (s1 ++ s2, l2).
Proof.
  induction fuel as [|fuel IH]; intros a b Hlen.
  - destruct a; [|simpl in Hlen; lia]. simpl.
    destruct (drainSentences (String.length b) b). reflexivity.
  - cbn [drainSentences]. destruct (JsString.sentenceEnd a) as [i|] eqn:E.
    + pose proof (sentenceEnd_bound _ _ E) as Hi.
      pose proof (length_substring_le a (i + 2) (String.length a - (i + 2))) as Hs.
      assert (Hrest : String.length (JsString.from (i + 2) a) <= fuel)
        by (unfold JsString.from; lia).
      assert (Hfrom : String.length (JsString.from (i + 2) a)
                      = String.length a - (i + 2))
        by (unfold JsString.from; apply length_substring; lia).
      pose proof (length_append a b) as Hab.
      destruct (String.length (String.append a b)) as [|n] eqn:En; [lia|].
      cbn [drainSentences]. rewrite (sentenceEnd_append a b i E).
      rewrite substring_append, from_append by lia.
      rewrite (drainSentences_fuel n
                 (String.length (String.append (JsString.from (i + 2) a) b))
                 (String.append (JsString.from (i + 2) a) b));
        [|rewrite length_append; lia|lia].
      rewrite (IH (JsString.from (i + 2) a) b Hrest).
      destruct (drainSentences fuel (JsString.from (i + 2) a)) as [more left].
      destruct (drainSentences (String.length (String.append left b))
                  (String.append left b)) as [s2 l2].
      reflexivity.
    + destruct (drainSentences (String.length (String.append a b)) (String.append a b)).
      reflexivity.
Qed.

Lemma handleTextChunkForTTS_drained (chunk : string) (s : Session) :
  interrupted s = false ->
  JsString.sentenceEnd (sentenceBuffer (handleTextChunkForTTS chunk s)) = None.
Proof.
  intros Hint. unfold handleTextChunkForTTS. rewrite Hint.
  pose proof (drainSentences_complete (String.append (sentenceBuffer s) chunk)) as H.
  destruct (drainSentences _ _) as [sentences left]. exact H.
Qed.

(** X1. A text delta that arrives while the cycle is not interrupted is
    appended to the sentence buffer, and the buffer is cut at its sentence
    ends: the sentences handed to [tts.sendTextChunk], in order, followed by
    the buffer that is kept, are the old buffer followed by the delta (no
    code unit is lost or sent twice); each sentence handed over ends with
    its only terminator-and-space pair; the buffer that is kept holds no
    sentence end. *)
Theorem streamer_cuts_at_sentence_ends (chunk : string) (s : Session) :
  interrupted s = false ->
  exists sentences,
    out (handleTextChunkForTTS chunk s) = out s ++ map TtsSendTextChunk sentences
    /\ String.append (String.concat "" sentences)
                     (sentenceBuffer (handleTextChunkForTTS chunk s))
       = String.append (sentenceBuffer s) chunk
    /\ Forall completeSentence sentences
    /\ JsString.sentenceEnd (sentenceBuffer (handleTextChunkForTTS chunk s)) = None.
Proof.
  intros Hint. unfold handleTextChunkForTTS. rewrite Hint.
  set (buf := String.append (sentenceBuffer s) chunk).
  pose proof (drainSentences_concat (String.length buf) buf) as Hcat.
  pose proof (drainSentences_complete buf) as Hnone.
  assert (Hall : forall fuel b, Forall completeSentence (fst (drainSentences fuel b))).
  { induction fuel as [|fuel IH]; intros b; simpl; [constructor|].
    destruct (JsString.sentenceEnd b) as [i|] eqn:E; [|constructor].
    specialize (IH (JsString.from (i + 2) b)).
    destruct (drainSentences fuel (JsString.from (i + 2) b)) as [more left].
    constructor; [|exact IH].
    pose proof (sentenceEnd_bound _ _ E) as Hi.
    unfold completeSentence. rewrite length_substring by lia.
    split; [lia|]. rewrite (sentenceEnd_sentence b i E). f_equal. lia. }
  specialize (Hall (String.length buf) buf).
  destruct (drainSentences (String.length buf) buf) as [sentences left].
  exists sentences. cbn [fst snd] in *. auto.
Qed.

Lemma streamer_cuts_at_sentence_ends_witness :
  exists sentences,
    out (handleTextChunkForTTS "there. How are you? Gre"
           (set_sentenceBuffer "Hello " initial))
    = map TtsSendTextChunk sentences
    /\ String.append (String.concat "" sentences)
         (sentenceBuffer (handleTextChunkForTTS "there. How are you? Gre"
                            (set_sentenceBuffer "Hello " initial)))
       = "Hello there. How are you? Gre".
Proof.
  destruct (streamer_cuts_at_sentence_ends "there. How are you? Gre"
              (set_sentenceBuffer "Hello " initial) eq_refl)
    as (sentences & Hout & Hcat & _).
  exists sentences. split; [exact Hout|exact Hcat].
Defined.

Lemma handleTextChunkForTTS_twice (a b : string) (s : Session) :
  interrupted s = false ->
  handleTextChunkForTTS b (handleTextChunkForTTS a s)
  = handleTextChunkForTTS (String.append a b) s.
Proof.
  intros Hint. unfold handleTextChunkForTTS at 2 3. rewrite Hint.
  rewrite <- append_assoc.
  set (buf := String.append (sentenceBuffer s) a).
  rewrite (drainSentences_append (String.length buf) buf b (le_n _)).
  destruct (drainSentences (String.length buf) buf) as [s1 l1].
  unfold handleTextChunkForTTS.
  change (interrupted (set_sentenceBuffer l1 (emits (map TtsSendTextChunk s1) s)))
    with (interrupted s).
  rewrite Hint.
  change (sentenceBuffer (set_sentenceBuffer l1 (emits (map TtsSendTextChunk s1) s)))
    with l1.
  destruct (drainSentences (String.length (String.append l1 b)) (String.append l1 b))
    as [s2 l2].
  unfold set_sentenceBuffer, emits, set_out. cbn. rewrite map_app, app_assoc.
  reflexivity.
Qed.

Lemma concat_cons (d : string) (ds : list string) :
  String.concat "" (d :: ds) = String.append d (String.concat "" ds).
Proof. destruct ds; cbn [String.concat]; [rewrite append_empty_r|]; reflexivity. Qed.

(** X2. The sentences sent do not depend on how the stream is cut into
    deltas: from a cycle that waits for its stream, is not interrupted and
    has no sentence end in its buffer, the deltas [deltas] lead to the same
    state (same calls of the synthesizer, same buffer, same accumulated
    text) as their concatenation arriving as one delta. *)
Theorem stream_deltas_concat (deltas : list string) :
  forall (m : Machine) (c : bool) (ft : string) (fs : list Frame),
    task m = Some (AwStream c ft, fs) ->
    interrupted (sess m) = false ->
    JsString.sentenceEnd (sentenceBuffer (sess m)) = None ->
    run m (map EvStreamText deltas) = run m [EvStreamText (String.concat "" deltas)].
Proof.
  induction deltas as [|d ds IH]; intros [s t] c ft fs Htask Hint Hbuf;
    cbn [sess task] in *; subst t.
  - cbn [map run step sess task resume inCheck resumeMain option_map String.concat].
    unfold onStreamText. rewrite Hint. cbn [resolveMain suspended].
    rewrite append_empty_r. unfold handleTextChunkForTTS. rewrite Hint, append_empty_r.
    assert (Hd : drainSentences (String.length (sentenceBuffer s)) (sentenceBuffer s)
                 = ([], sentenceBuffer s)).
    { destruct (String.length (sentenceBuffer s)); cbn [drainSentences];
        rewrite ?Hbuf; reflexivity. }
    rewrite Hd. destruct s. unfold set_sentenceBuffer, emits, set_out. cbn.
    rewrite app_nil_r. reflexivity.
  - rewrite concat_cons. cbn [map run].
    cbn [step sess task resume inCheck resumeMain option_map].
    unfold onStreamText. rewrite Hint. cbn [resolveMain suspended option_map].
    assert (H1 : interrupted (handleTextChunkForTTS d s) = false).
    { unfold handleTextChunkForTTS. rewrite Hint.
      destruct (drainSentences _ _). exact Hint. }
    assert (H2 : JsString.sentenceEnd (sentenceBuffer (handleTextChunkForTTS d s)) = None).
    { apply handleTextChunkForTTS_drained. exact Hint. }
    rewrite (IH (suspended (handleTextChunkForTTS d s) (AwStream c (String.append ft d)) fs)
                c (String.append ft d) fs eq_refl H1 H2).
    cbn [run step sess task suspended resume inCheck resumeMain option_map].
    unfold onStreamText. rewrite H1. cbn [resolveMain suspended option_map].
    rewrite handleTextChunkForTTS_twice, append_assoc by exact Hint. reflexivity.
Qed.

Lemma stream_deltas_concat_witness :
  run firstCycle [EvStreamText "Hel"; EvStreamText "lo."; EvStreamText " How are";
                  EvStreamText " you? Fine"]
  = run firstCycle [EvStreamText "Hello. How are you? Fine"].
Proof.
  exact (stream_deltas_concat ["Hel"; "lo."; " How are"; " you? Fine"]
           firstCycle false "" [KStartSession] eq_refl eq_refl eq_refl).
Defined.

(** ** ClaudeService.buildMessages *)

Lemma targetIndex_spec (conv : list Msg) :
  match targetIndex conv with
  | Some i =>
      (exists target, conv !! i = Some target /\ hasUserText target = true)
      /\ forall j msg, i < j -> conv !! j = Some msg -> hasUserText msg = false
  | None => forall j msg, conv !! j = Some msg -> hasUserText msg = false
  end.
Proof.
  induction conv as [|m conv IH]; simpl.
  - intros j msg H. destruct j; discriminate.
  - destruct (targetIndex conv) as [i|].
    + destruct IH as [(target & Ht & Hu) Hlater]. split.
      * exists target. auto.
      * intros [|j] msg Hj H; [lia|]. apply (Hlater j); [lia|exact H].
    + destruct (hasUserText m) eqn:Hm.
      * split; [exists m; auto|].
        intros [|j] msg Hj H; [lia|]. exact (IH j msg H).
      * intros [|j] msg H; [injection H as <-; exact Hm|]. exact (IH j msg H).
Qed.

Lemma hasUserText_role (msg : Msg) : hasUserText msg = true -> role msg = user.
Proof.
  unfold hasUserText. destruct (role msg); [reflexivity|discriminate].
Qed.

(** X3. [buildMessages] keeps the number of turns and every role, and
    changes no turn other than the one at [targetIdx]; with no image, or
    with no user turn that has text that is not blank, it returns the history
    as it is.  The orchestrator always passes no image, so its requests carry
    the history itself. *)
Theorem buildMessages_changes_one_turn (conv : list Msg) (images : list ImageInput) :
  length (buildMessages conv images) = length conv
  /\ map role (buildMessages conv images) = map role conv
  /\ (forall j, targetIndex conv <> Some j -> buildMessages conv images !! j = conv !! j)
  /\ (images = [] -> buildMessages conv images = conv)
  /\ ((forall msg, msg ∈ conv -> hasUserText msg = false) ->
      buildMessages conv images = conv).
Proof.
  pose proof (targetIndex_spec conv) as Hspec.
  unfold buildMessages. destruct images as [|img images].
  { repeat split; auto. }
  destruct (targetIndex conv) as [i|].
  - destruct Hspec as [(target & Ht & Hu) _]. rewrite Ht.
    split; [apply length_insert|]. split; [|split; [|split]].
    + apply list_eq. intros k. rewrite !list_lookup_fmap.
      destruct (decide (k = i)) as [->|Hk].
      * rewrite list_lookup_insert_eq by (eapply lookup_lt_Some; exact Ht).
        rewrite Ht. simpl. rewrite (hasUserText_role _ Hu). reflexivity.
      * rewrite list_lookup_insert_ne by congruence. reflexivity.
    + intros j Hj. apply list_lookup_insert_ne. congruence.
    + discriminate.
    + intros Hnone. rewrite (Hnone target) in Hu; [discriminate|].
      eapply list_elem_of_lookup_2. exact Ht.
  - repeat split; auto.
Qed.

(** X4. When images are given and some user turn has text that is not
    blank, the turn that is rebuilt is the last such turn: no later turn has
    text (a user turn of tool results only is passed over).  Its new content
    is the image blocks of the call, in order, followed by one text block
    with the text of the turn (its string, or its text blocks joined); the
    other blocks of the turn are not kept. *)
Theorem buildMessages_target (conv : list Msg) (images : list ImageInput)
    (k : nat) (msg : Msg) :
  images <> [] ->
  conv !! k = Some msg ->
  hasUserText msg = true ->
  exists i target,
    targetIndex conv = Some i /\ k <= i
    /\ conv !! i = Some target
    /\ hasUserText target = true
    /\ (forall j later, i < j -> conv !! j = Some later -> hasUserText later = false)
    /\ buildMessages conv images !! i
       = Some (userTurn (CBlocks (map imageBlock images
                                  ++ [BText (textContent (content target))]))).
Proof.
  intros Himg Hk Hu. pose proof (targetIndex_spec conv) as Hspec.
  unfold buildMessages. destruct images as [|img images]; [contradiction|].
  destruct (targetIndex conv) as [i|].
  - destruct Hspec as [(target & Ht & Hut) Hlater]. exists i, target.
    split; [reflexivity|]. split.
    { destruct (le_lt_dec k i) as [|Hlt]; [assumption|].
      rewrite (Hlater k msg Hlt Hk) in Hu. discriminate. }
    rewrite Ht. repeat split; auto.
    apply list_lookup_insert_eq. eapply lookup_lt_Some. exact Ht.
  - rewrite (Hspec k msg Hk) in Hu. discriminate.
Qed.

Lemma buildMessages_target_witness :
  buildMessages toolRoundHistory [referenceImage] !! 0
  = Some (userTurn (CBlocks [BImage "image/jpeg" "png"; BText "make a chair"])).
Proof.
  destruct (buildMessages_target toolRoundHistory [referenceImage] 0
              (userTurn (CBlocks [BText "make a "; BImage "image/jpeg" "old";
                                  BText "chair"])))
    as (i & target & Hi & _ & Ht & _ & _ & Hb);
    [discriminate|reflexivity|reflexivity|].
  injection Hi as <-. injection Ht as <-. exact Hb.
Defined.

(** ** One cycle at a time *)

Lemma settle_more (fs : list Frame) :
  forall s,
    isRecurringCheckRunning (settle fs s) = isRecurringCheckRunning s
    /\ config (settle fs s) = config s.
Proof.
  induction fs as [|k fs IH]; intros s; [auto|].
  destruct k; simpl; try apply IH.
  - destruct (IH (emit (SocketEmit session_started) (startRecurringCheck s))) as [H1 H2].
    rewrite H1, H2. unfold startRecurringCheck.
    destruct (config s) as [c|] eqn:E; [destruct (recurringCheck_enabled c)|];
      simpl; rewrite ?E; auto.
  - destruct (IH (set_isProcessing false s)) as [H1 H2]. rewrite H1, H2. auto.
Qed.

Lemma Excl_finished (check : bool) (fs : list Frame) (s : Session) :
  isRecurringCheckRunning s = check -> Excl (finished check fs s).
Proof.
  intros Hrun. unfold finished, Excl, checkSuspended.
  assert (Hrel : isRecurringCheckRunning (released check s) = false).
  { destruct check; [reflexivity|exact Hrun]. }
  destruct (hasPendingUserMessage s).
  - unfold freshCycle. cbn [sess task suspended inCheck]. exact Hrel.
  - cbn [sess task idle]. rewrite (proj1 (settle_more fs _)). exact Hrel.
Qed.

Lemma Excl_same (s s' : Session) (t : option (Await * list Frame)) :
  isRecurringCheckRunning s' = isRecurringCheckRunning s ->
  Excl {| sess := s; task := t |} -> Excl {| sess := s'; task := t |}.
Proof. unfold Excl, checkSuspended. cbn [sess task]. congruence. Qed.

Lemma recordUserTurn_more (text : string) (now : Z) (s : Session) :
  isRecurringCheckRunning (recordUserTurn text now s) = isRecurringCheckRunning s
  /\ config (recordUserTurn text now s) = config s
  /\ recurringCheckInterval (recordUserTurn text now s) = recurringCheckInterval s.
Proof.
  unfold recordUserTurn.
  destruct (last (currentConversation (set_lastUserInputAt now s))) as [lastMsg|];
    [destruct (Role_eqb (role lastMsg) user)|]; auto.
Qed.

Lemma step_Excl (m m' : Machine) (e : Event) :
  Inv m -> Excl m -> step m e = Some m' -> Excl m'.
Proof.
  destruct m as [s t]. intros (H1 & _) HE. cbn [sess task] in *.
  unfold step. cbn [sess task].
  destruct e;
    try solve [ destruct t as [[a fs]|]; [|discriminate]; intros Hr;
                destruct (resume_cases _ _ _ _ _ Hr)
                  as (s' & Hg & [(a' & -> & Ha)|[(Ha & _ & ->)| ->]]);
                destruct (grows_fields _ _ Hg) as (_ & _ & _ & _ & Hrun & _);
                unfold Excl, checkSuspended in HE; cbn [sess task] in HE;
                [ unfold Excl, checkSuspended; cbn [sess task suspended]; congruence
                | unfold Excl, checkSuspended, continued; cbn [sess task suspended inCheck];
                  change (isRecurringCheckRunning s' = false); congruence
                | apply Excl_finished; congruence ] ];
    try (destruct (config s) as [c0|]; [|discriminate]).
  - (* start_session *)
    unfold startSession. cbn [sess task].
    destruct (currentConversation s).
    + destruct t; [discriminate|]. destruct (H1 eq_refl) as [Hi _].
      unfold sendToClaudeAndSpeak.
      change (isProcessing (push sessionStart (set_config (Some c) s)))
        with (isProcessing s). rewrite Hi. intros [= <-]. exact HE.
    + intros [= <-]. revert HE. apply Excl_same. reflexivity.
  - intros [= <-]. revert HE. apply Excl_same. reflexivity.
  - intros [= <-]. revert HE. apply Excl_same. reflexivity.
  - intros [= <-]. revert HE. apply Excl_same. unfold onPartialTranscript.
    destruct (JsString.blank text); [reflexivity|].
    destruct (isAgentCurrentlySpeaking s || isProcessing s || isRecurringCheckRunning s);
      reflexivity.
  - (* committed transcript *)
    unfold onCommittedTranscript. cbn [sess task].
    destruct (JsString.blank text); [intros [= <-]; exact HE|].
    destruct (recordUserTurn_more text now s) as (Hrun & _).
    destruct (recordUserTurn_fields text now s) as (Hi & _).
    generalize dependent (recordUserTurn text now s). intros s1 Hrun Hi.
    destruct (isProcessing s1) eqn:Hp1.
    + intros [= <-]. revert HE. apply Excl_same. exact Hrun.
    + destruct t; [discriminate|]. intros [= <-].
      unfold sendToClaudeAndSpeak. rewrite Hp1.
      unfold Excl, checkSuspended in *. cbn [sess task suspended inCheck] in *.
      change (isRecurringCheckRunning s1 = false). congruence.
  - intros [= <-]. revert HE. apply Excl_same. unfold onTTSAudioChunk.
    destruct (interrupted s); reflexivity.
  - (* tick *)
    unfold onTick. cbn [sess task]. destruct (config s) as [c|]; [|discriminate].
    destruct (recurringCheckInterval s); [|discriminate].
    destruct (checkDue c now s); [|intros [= <-]; exact HE].
    destruct t; [discriminate|]. unfold beginCheck. intros [= <-]. reflexivity.
Qed.

Lemma reachable_Excl (m : Machine) : reachable m -> Excl m.
Proof.
  intros [events Hrun].
  assert (H : forall evs m0 m1, Inv m0 -> Excl m0 -> run m0 evs = Some m1 -> Excl m1).
  { induction evs as [|e evs IH]; intros m0 m1 HI HE; simpl.
    - intros [= <-]. exact HE.
    - destruct (step m0 e) as [m2|] eqn:Hs; [|discriminate].
      apply IH; [eapply step_Inv|eapply step_Excl]; eassumption. }
  eapply H; [| |exact Hrun].
  - apply reachable_Inv. exists []. reflexivity.
  - reflexivity.
Qed.

(** ** The session starts once *)

Lemma head_extended {A} (l extra : list A) (x : A) :
  head l = Some x -> head (l ++ extra) = Some x.
Proof. destruct l; [discriminate|]. trivial. Qed.

Lemma prepared_head (conv : list Msg) :
  head conv = Some sessionStart ->
  head (pruneOldImages (sanitizeConversation conv)) = Some sessionStart.
Proof.
  destruct conv as [|msg rest]; [discriminate|]. intros [= ->].
  rewrite pruneOldImages_imap, sanitizeConversation_imap. reflexivity.
Qed.

Lemma StartedWith_begin (c : Config) (s : Session) (a : Await) (fs : list Frame) :
  config s = Some c -> head (currentConversation s) = Some sessionStart ->
  StartedWith c (suspended (beginCycle s) a fs).
Proof.
  intros Hc Hh. unfold StartedWith. cbn [sess task suspended].
  destruct (beginCycle_fields s) as (_ & _ & _ & _ & Hconv & _).
  rewrite Hconv. split; [exact Hc|]. apply prepared_head. exact Hh.
Qed.

Lemma StartedWith_finished (c : Config) (check : bool) (fs : list Frame) (s : Session) :
  config s = Some c -> head (currentConversation s) = Some sessionStart ->
  StartedWith c (finished check fs s).
Proof.
  intros Hc Hh. unfold finished.
  assert (Hrel : config (released check s) = Some c
                 /\ head (currentConversation (released check s)) = Some sessionStart).
  { destruct check; split; assumption. }
  destruct Hrel as [Hrc Hrh].
  destruct (hasPendingUserMessage s).
  - unfold freshCycle. apply StartedWith_begin; assumption.
  - unfold StartedWith. cbn [sess task idle].
    rewrite (proj2 (settle_more fs _)).
    destruct (settle_fields fs (released check s)) as (_ & _ & _ & Hconv & _).
    rewrite Hconv. auto.
Qed.

Lemma StartedWith_same (c : Config) (s s' : Session) (t t' : option (Await * list Frame)) :
  config s' = config s ->
  (exists extra, currentConversation s' = currentConversation s ++ extra) ->
  StartedWith c {| sess := s; task := t |} -> StartedWith c {| sess := s'; task := t' |}.
Proof.
  intros Hc [extra Hconv] [H1 H2]. unfold StartedWith in *. cbn [sess task] in *.
  rewrite Hc, Hconv. split; [exact H1|]. apply head_extended. exact H2.
Qed.

Lemma same_history (s : Session) : exists extra : list Msg,
  currentConversation s = currentConversation s ++ extra.
Proof. exists []. rewrite app_nil_r. reflexivity. Qed.

Lemma resume_StartedWith (c : Config) (a : Await) (fs : list Frame) (e : Event)
    (s : Session) (m' : Machine) :
  config s = Some c -> head (currentConversation s) = Some sessionStart ->
  resume a fs e s = Some m' -> StartedWith c m'.
Proof.
  intros Hc Hh Hr.
  destruct (resume_cases _ _ _ _ _ Hr) as (s' & Hg & [(a' & -> & Ha)|[(Ha & _ & ->)| ->]]);
    destruct (grows_fields _ _ Hg) as (_ & _ & _ & _ & _ & Hcfg & _);
    destruct Hg as (_ & [extra Hext] & _);
    assert (Hc' : config s' = Some c) by congruence;
    assert (Hh' : head (currentConversation s') = Some sessionStart)
      by (rewrite Hext; apply head_extended; exact Hh).
  - split; assumption.
  - unfold continued.
    exact (StartedWith_begin c (set_isProcessing false s') _ _ Hc' Hh').
  - apply StartedWith_finished; assumption.
Qed.

(** Once started, the configuration stays and the history keeps its first
    turn. *)
Lemma step_StartedWith (c : Config) (m m' : Machine) (e : Event) :
  StartedWith c m -> step m e = Some m' -> StartedWith c m'.
Proof.
  destruct m as [s t]. intros HS. pose proof HS as [Hc Hh]. cbn [sess task] in *.
  unfold step. cbn [sess task].
  destruct e.
  8-16: (destruct t as [[a fs]|];
         [apply (resume_StartedWith c a fs _ s m' Hc Hh)|discriminate]).
  all: try rewrite Hc.
  - (* start_session *)
    unfold startSession. cbn [sess task].
    destruct (currentConversation s) eqn:Hconv; [discriminate|].
    intros [= <-]. exact (StartedWith_same c s _ t t eq_refl (same_history s) HS).
  - intros [= <-]. exact (StartedWith_same c s _ t t eq_refl (same_history s) HS).
  - intros [= <-]. exact (StartedWith_same c s _ t t eq_refl (same_history s) HS).
  - intros [= <-]. unfold onPartialTranscript.
    destruct (JsString.blank text); [exact HS|].
    destruct (isAgentCurrentlySpeaking s || isProcessing s || isRecurringCheckRunning s);
      [|exact HS].
    exact (StartedWith_same c s _ t t eq_refl (same_history s) HS).
  - (* committed transcript *)
    unfold onCommittedTranscript. cbn [sess task].
    destruct (JsString.blank text); [intros [= <-]; exact HS|].
    destruct (recordUserTurn_more text now s) as (_ & Hcfg & _).
    destruct (recordUserTurn_fields text now s) as (_ & _ & _ & _ & (gap & _ & Hconv) & _).
    assert (H1 : StartedWith c {| sess := recordUserTurn text now s; task := None |}).
    { apply (StartedWith_same c s _ t None Hcfg); [|exact HS]. eexists. exact Hconv. }
    generalize dependent (recordUserTurn text now s). intros s1 _ _ [Hc1 Hh1].
    cbn [sess] in Hc1, Hh1.
    destruct (isProcessing s1) eqn:Hp1.
    + intros [= <-]. split; assumption.
    + destruct t; [discriminate|]. intros [= <-].
      unfold sendToClaudeAndSpeak. rewrite Hp1. apply StartedWith_begin; assumption.
  - intros [= <-]. unfold onTTSAudioChunk. destruct (interrupted s); [exact HS|].
    exact (StartedWith_same c s _ t t eq_refl (same_history s) HS).
  - (* tick *)
    unfold onTick. cbn [sess task]. rewrite Hc.
    destruct (recurringCheckInterval s); [|discriminate].
    destruct (checkDue c now s); [|intros [= <-]; exact HS].
    destruct t; [discriminate|]. unfold beginCheck. intros [= <-].
    split; [exact Hc|]. cbn [sess suspended]. apply prepared_head. exact Hh.
Qed.

Lemma run_StartedWith (c : Config) (events : list Event) :
  forall m m', StartedWith c m -> run m events = Some m' -> StartedWith c m'.
Proof.
  induction events as [|e events IH]; intros m m' HS; simpl.
  - intros [= <-]. exact HS.
  - destruct (step m e) as [m1|] eqn:Hs; [|discriminate].
    apply IH. eapply step_StartedWith; eassumption.
Qed.

Lemma step_Started (m m' : Machine) (e : Event) :
  Started m -> step m e = Some m' -> Started m'.
Proof.
  unfold Started at 1. destruct (config (sess m)) as [c|] eqn:Hc.
  - intros Hh Hs.
    destruct (step_StartedWith c m m' e (conj Hc Hh) Hs) as [Hc' Hh'].
    unfold Started. rewrite Hc'. exact Hh'.
  - intros (Hconv & Ht & Hi). destruct m as [s t]. cbn [sess task] in *. subst t.
    unfold step. cbn [sess task]. rewrite Hc.
    destruct e; try discriminate.
    + unfold startSession. cbn [sess task]. rewrite Hconv.
      unfold sendToClaudeAndSpeak. intros Hs.
      set (s1 := push sessionStart (set_config (Some c) s)) in Hs.
      assert (H1 : config s1 = Some c /\ head (currentConversation s1) = Some sessionStart).
      { subst s1. cbn. rewrite Hconv. auto. }
      destruct H1 as [Hc1 Hh1]. clearbody s1.
      assert (H : StartedWith c m').
      { destruct (isProcessing s1); injection Hs as <-.
        - cbn [unwind]. unfold StartedWith. cbn [sess idle]. unfold startRecurringCheck.
          rewrite Hc1. destruct (recurringCheck_enabled c); auto.
        - apply StartedWith_begin; assumption. }
      destruct H as [Hc' Hh']. unfold Started. rewrite Hc'. exact Hh'.
    + intros [= <-]. unfold Started. cbn. rewrite Hc. auto.
    + intros [= <-]. unfold Started. cbn. rewrite Hc. auto.
    + unfold onTick. cbn [sess]. rewrite Hc. discriminate.
Qed.

Lemma reachable_Started (m : Machine) : reachable m -> Started m.
Proof.
  intros [events Hrun].
  assert (H : forall evs m0 m1, Started m0 -> run m0 evs = Some m1 -> Started m1).
  { induction evs as [|e evs IH]; intros m0 m1 HS; simpl.
    - intros [= <-]. exact HS.
    - destruct (step m0 e) as [m2|] eqn:Hs; [|discriminate].
      apply IH. eapply step_Started; eassumption. }
  eapply H; [|exact Hrun]. unfold Started. cbn. auto.
Qed.

(** X5. At most one cycle is suspended at any time.  In every reachable
    state a cycle is suspended exactly when [isProcessing] is set, and the
    suspended cycle is the recurring check exactly when
    [isRecurringCheckRunning] is set.  So the handlers that start a cycle
    only do so from the idle state: [step] answers [None] where a handler
    would start a cycle beside a suspended one, and this never happens for
    the timer callback, for [onCommittedTranscript] or for [startSession]. *)
Theorem one_cycle_at_a_time (m : Machine) :
  reachable m ->
  (task m = None <-> isProcessing (sess m) = false)
  /\ isRecurringCheckRunning (sess m) = checkSuspended m
  /\ (forall now, recurringCheckInterval (sess m) = true -> step m (EvTick now) <> None)
  /\ (forall text now,
        config (sess m) <> None -> step m (EvCommittedTranscript text now) <> None)
  /\ (forall c, step m (EvStartSession c) <> None).
Proof.
  intros Hr. pose proof (reachable_Inv m Hr) as (H1 & H2 & _).
  pose proof (reachable_Excl m Hr) as HE. pose proof (reachable_Started m Hr) as HS.
  assert (Hidle : task m = None <-> isProcessing (sess m) = false).
  { split; [intros H; apply H1; exact H|].
    intros Hp. destruct (task m) eqn:Ht; [|reflexivity].
    rewrite H2 in Hp; discriminate. }
  split; [exact Hidle|]. split; [exact HE|].
  destruct m as [s t]. unfold Started in HS. cbn [sess task] in *.
  split; [|split].
  - intros now Hint. unfold step, onTick. cbn [sess task].
    destruct (config s) as [c|]; [|destruct HS as (_ & _ & HS); congruence].
    rewrite Hint. destruct (checkDue c now s) eqn:Hdue; [|discriminate].
    assert (Hp : isProcessing s = false).
    { unfold checkDue in Hdue. destruct (isProcessing s); [|reflexivity].
        destruct (isRecurringCheckRunning s), (isAgentCurrentlySpeaking s); discriminate. }
    rewrite (proj2 Hidle Hp). destruct (beginCheck c s). discriminate.
  - intros text now Hcfg. unfold step, onCommittedTranscript. cbn [sess task].
    destruct (config s); [|contradiction].
    destruct (JsString.blank text); [discriminate|].
    destruct (recordUserTurn_fields text now s) as (Hi & _). rewrite Hi.
    destruct (isProcessing s) eqn:Hp; [discriminate|].
    rewrite (proj2 Hidle eq_refl). discriminate.
  - intros c. unfold step, startSession. cbn [sess task].
    destruct (currentConversation s) eqn:Hconv; [|discriminate].
    destruct (config s); [discriminate|]. destruct HS as (_ & -> & _). discriminate.
Qed.

Lemma one_cycle_at_a_time_witness :
  reachable queuedFirst
  /\ isRecurringCheckRunning (sess queuedFirst) = false
  /\ step queuedFirst (EvCommittedTranscript "and rotate?" 6000) <> None.
Proof.
  assert (Hreach : reachable queuedFirst)
    by (exists queuedDuringFirst; vm_compute; reflexivity).
  destruct (one_cycle_at_a_time queuedFirst Hreach) as (_ & Hrun & _ & Hcommit & _).
  split; [exact Hreach|]. split; [exact Hrun|]. apply Hcommit. discriminate.
Defined.

(** X6. A session starts once.  In every reachable state in which the
    configuration is loaded, the history begins with the [SESSION_START]
    turn; a further [start_session] is a restart, which only emits
    [session_started] and touches neither the history, the flags nor the
    suspended cycle, whatever tool type it names; and the configuration and
    the first turn stay as they are from then on. *)
Theorem session_starts_once (m : Machine) (c : Config) :
  reachable m ->
  config (sess m) = Some c ->
  head (currentConversation (sess m)) = Some sessionStart
  /\ (forall c',
        step m (EvStartSession c')
        = Some {| sess := emit (SocketEmit session_started) (sess m); task := task m |})
  /\ (forall events m',
        run m events = Some m' ->
        config (sess m') = Some c
        /\ head (currentConversation (sess m')) = Some sessionStart).
Proof.
  intros Hr Hc. pose proof (reachable_Started m Hr) as HS.
  unfold Started in HS. rewrite Hc in HS.
  split; [exact HS|]. split.
  - intros c'. unfold step, startSession.
    destruct (currentConversation (sess m)); [discriminate|reflexivity].
  - intros events m' Hrun. exact (run_StartedWith c events m m' (conj Hc HS) Hrun).
Qed.

Lemma session_starts_once_witness :
  reachable queuedFirst
  /\ step queuedFirst (EvStartSession {| toolType := "figma"; recurringCheck_enabled := false;
                                         recurringCheck_idleThresholdMs := None |})
     = Some {| sess := emit (SocketEmit session_started) (sess queuedFirst);
               task := task queuedFirst |}.
Proof.
  assert (Hreach : reachable queuedFirst)
    by (exists queuedDuringFirst; vm_compute; reflexivity).
  destruct (session_starts_once queuedFirst blenderConfig Hreach eq_refl) as (_ & Hs & _).
  split; [exact Hreach|]. apply Hs.
Defined.

(** ** The requests of a recurring check *)

Lemma requestCount_app (os os' : list Output) :
  requestCount (os ++ os') = requestCount os + requestCount os'.
Proof. unfold requestCount. rewrite List.filter_app, length_app. reflexivity. Qed.

Lemma requestCount_steady (s s' : Session) :
  steadyWith tame s s' -> requestCount (out s') = requestCount (out s).
Proof.
  intros [_ (os & -> & Hq)]. rewrite requestCount_app.
  assert (H : requestCount os = 0).
  { induction os as [|o os IH]; [reflexivity|]. simpl in Hq.
    apply andb_true_iff in Hq as [Ho Hq]. unfold requestCount in *. simpl.
    destruct o as [[]| | | | | | | | | |]; simpl in *; auto; discriminate. }
  lia.
Qed.

Lemma commit_within (n : nat) (msgs : list Msg) (s : Session) :
  requestCount (out s) <= n -> flowWithin n (commit msgs s).
Proof. intros H. unfold commit. destruct (recurringCheckCancelled s); exact H. Qed.

Lemma checkAfterTools_within (n round : nat) (msgs : list Msg) (isFirst : bool)
    (loop : ToolLoop) :
  round <= MAX_TOOL_ROUNDS ->
  requestCount (out (loopSession loop)) + (MAX_TOOL_ROUNDS - round) <= n ->
  flowWithin n (checkAfterTools round msgs isFirst loop).
Proof.
  intros Hr Hn. destruct loop as [s rs|s rs|s tu rest rs];
    cbn [checkAfterTools loopSession flowWithin] in *.
  - destruct (round =? MAX_TOOL_ROUNDS) eqn:E; [apply commit_within; lia|].
    destruct (recurringCheckCancelled s); [simpl; lia|].
    apply Nat.eqb_neq in E. cbn [flowWithin followUpsLeft].
    destruct (round <? MAX_TOOL_ROUNDS) eqn:Hlt; [|apply Nat.ltb_ge in Hlt; lia].
    eexists. split; [reflexivity|].
    change (out (emit ?o s)) with (out s ++ [o]). rewrite requestCount_app.
    change (requestCount [ClaudeRequest ?x]) with 1. lia.
  - lia.
  - cbn [followUpsLeft]. destruct (round <=? MAX_TOOL_ROUNDS) eqn:Hle;
      [|apply Nat.leb_gt in Hle; lia].
    eexists. split; [reflexivity|exact Hn].
Qed.

Lemma checkTools_within (n round : nat) (msgs : list Msg) (isFirst : bool)
    (calls : list ToolUse) (s : Session) :
  round <= MAX_TOOL_ROUNDS ->
  requestCount (out s) + (MAX_TOOL_ROUNDS - round) <= n ->
  flowWithin n (checkTools round msgs isFirst calls s).
Proof.
  intros Hr Hn. unfold checkTools. destruct calls as [|tu rest].
  - apply commit_within. lia.
  - apply checkAfterTools_within; [exact Hr|].
    rewrite (requestCount_steady s _ (processTools_steady _ _ _ _)). exact Hn.
Qed.

Lemma checkRound_within (n round : nat) (msgs : list Msg) (isFirst : bool)
    (response : list Block) (s : Session) :
  round <= MAX_TOOL_ROUNDS ->
  requestCount (out s) + (MAX_TOOL_ROUNDS - round) <= n ->
  flowWithin n (checkRound round msgs isFirst response s).
Proof.
  intros Hr Hn. unfold checkRound.
  destruct (recurringCheckCancelled s); [simpl; lia|].
  destruct (JsString.includes noGuidance (firstText response)); [simpl; lia|].
  destruct (firstText response) as [|c text]; [apply checkTools_within; assumption|].
  cbn [flowWithin followUpsLeft].
  destruct (round <=? MAX_TOOL_ROUNDS) eqn:Hle; [|apply Nat.leb_gt in Hle; lia].
  eexists. split; [reflexivity|].
  change (out (emits ?os s)) with (out s ++ os). rewrite requestCount_app.
  destruct isFirst; unfold requestCount at 2; simpl; lia.
Qed.

Lemma resumeCheck_within (n left : nat) (a : Await) (e : Event) (s : Session)
    (f : CheckFlow) :
  followUpsLeft a = Some left ->
  requestCount (out s) + left <= n ->
  resumeCheck a e s = Some f -> flowWithin n f.
Proof.
  intros Ha Hn Hres.
  destruct a; cbn [followUpsLeft] in Ha; try discriminate.
  - (* the first response *)
    injection Ha as <-.
    destruct e; simpl in Hres; try discriminate; injection Hres as <-; [|simpl; lia].
    unfold onCheckResponse. destruct (recurringCheckCancelled s); [simpl; lia|].
    apply checkRound_within; [unfold MAX_TOOL_ROUNDS; lia|]. rewrite Nat.sub_0_r. exact Hn.
  - (* the speech request *)
    destruct (round <=? MAX_TOOL_ROUNDS) eqn:Hle; [|discriminate].
    injection Ha as <-. apply Nat.leb_le in Hle.
    destruct e; simpl in Hres; try discriminate; injection Hres as <-; [|simpl; lia].
    unfold checkAfterSpeak. destruct (recurringCheckCancelled s); [simpl; lia|].
    apply checkTools_within; assumption.
  - (* a tool call *)
    destruct (round <=? MAX_TOOL_ROUNDS) eqn:Hle; [|discriminate].
    injection Ha as <-. apply Nat.leb_le in Hle.
    destruct e; simpl in Hres; try discriminate; injection Hres as <-;
      (apply checkAfterTools_within; [exact Hle|]);
      rewrite (requestCount_steady s _ (resumeTools_steady _ _ _ _ _ _)); exact Hn.
  - (* a follow-up response *)
    destruct (round <? MAX_TOOL_ROUNDS) eqn:Hlt; [|discriminate].
    injection Ha as <-. apply Nat.ltb_lt in Hlt.
    destruct e; simpl in Hres; try discriminate; injection Hres as <-; [|simpl; lia].
    apply checkRound_within; [lia|exact Hn].
Qed.

Lemma followUpsLeft_inCheck (a : Await) (left : nat) :
  followUpsLeft a = Some left -> inCheck a = true.
Proof. destruct a; simpl; congruence. Qed.

Lemma settle_requests (fs : list Frame) :
  forall s, requestCount (out (settle fs s)) = requestCount (out s).
Proof.
  induction fs as [|k fs IH]; intros s; [reflexivity|].
  destruct k; cbn [settle]; rewrite IH; try reflexivity.
  change (out (emit ?o ?x)) with (out x ++ [o]). rewrite requestCount_app.
  assert (H : out (startRecurringCheck s) = out s).
  { unfold startRecurringCheck. destruct (config s) as [c|]; [|reflexivity].
    destruct (recurringCheck_enabled c); reflexivity. }
  rewrite H. unfold requestCount at 2. simpl. lia.
Qed.

Lemma finished_requests (check : bool) (fs : list Frame) (s : Session) :
  checkSuspended (finished check fs s) = false
  /\ requestCount (out (sess (finished check fs s))) = requestCount (out s).
Proof.
  unfold finished.
  assert (Hrel : out (released check s) = out s) by (destruct check; reflexivity).
  destruct (hasPendingUserMessage s).
  - unfold freshCycle. cbn [sess task suspended checkSuspended inCheck].
    split; [reflexivity|].
    destruct (beginCycle_fields (set_hasPendingUserMessage false (released check s)))
      as (_ & _ & _ & _ & _ & Hout).
    rewrite Hout, requestCount_app.
    change (out (set_hasPendingUserMessage false (released check s)))
      with (out (released check s)).
    rewrite Hrel. change (requestCount [ClaudeStream ?x]) with 0. lia.
  - cbn [sess task idle checkSuspended]. split; [reflexivity|].
    rewrite settle_requests, Hrel. reflexivity.
Qed.

(** While the check is suspended, a step keeps it within its budget. *)
Lemma step_within (n : nat) (m m' : Machine) (e : Event) :
  withinBudget n m -> checkSuspended m = true -> step m e = Some m' ->
  withinBudget n m'.
Proof.
  destruct m as [s t]. unfold withinBudget at 1. intros HW Hs. rewrite Hs in HW.
  destruct HW as (a & fs & left & Ht & Ha & Hn). cbn [sess task] in *. subst t.
  pose proof (followUpsLeft_inCheck _ _ Ha) as Hin.
  assert (Hsame : forall s', requestCount (out s') = requestCount (out s) ->
            withinBudget n {| sess := s'; task := Some (a, fs) |}).
  { intros s' Hc. unfold withinBudget, checkSuspended. cbn [sess task]. rewrite Hin.
    exists a, fs, left. rewrite Hc. auto. }
  unfold step. cbn [sess task].
  destruct e.
  8-16: (unfold resume; rewrite Hin;
         destruct (resumeCheck a _ s) as [f|] eqn:Hf; [|discriminate];
         intros [= <-]; pose proof (resumeCheck_within n left a _ s f Ha Hn Hf) as Hw;
         destruct f as [s' a'|s']; cbn [resolveCheck flowWithin] in *;
         [ destruct Hw as (left' & Ha' & Hn');
           unfold withinBudget, checkSuspended; cbn [sess task suspended];
           rewrite (followUpsLeft_inCheck _ _ Ha'); exists a', fs, left'; auto
         | rewrite finallyCheck_finished;
           destruct (finished_requests true fs s') as [Hc Hr];
           unfold withinBudget; rewrite Hc, Hr; exact Hw ]).
  all: try (destruct (config s) as [c0|] eqn:Hcfg; [|discriminate]).
  - unfold startSession. cbn [sess task].
    destruct (currentConversation s); [discriminate|]. intros [= <-].
    apply Hsame. change (out (emit ?o s)) with (out s ++ [o]).
    rewrite requestCount_app. unfold requestCount at 2. simpl. lia.
  - intros [= <-]. apply Hsame. reflexivity.
  - intros [= <-]. apply Hsame. reflexivity.
  - intros [= <-]. apply Hsame. unfold onPartialTranscript.
    destruct (JsString.blank text); [reflexivity|].
    destruct (isAgentCurrentlySpeaking s || isProcessing s || isRecurringCheckRunning s);
      [|reflexivity].
    destruct (handleInterruption_fields s) as (_ & _ & _ & _ & _ & Hout).
    rewrite Hout, requestCount_app. unfold requestCount at 2. simpl. lia.
  - unfold onCommittedTranscript. cbn [sess task].
    destruct (JsString.blank text); [intros [= <-]; apply Hsame; reflexivity|].
    destruct (recordUserTurn_fields text now s) as (_ & _ & _ & _ & _ & Hout).
    generalize dependent (recordUserTurn text now s). intros s1 Hout.
    destruct (isProcessing s1); [|discriminate]. intros [= <-]. apply Hsame.
    change (out (set_hasPendingUserMessage true s1)) with (out s1).
    rewrite Hout, requestCount_app. unfold requestCount at 2. simpl. lia.
  - intros [= <-]. apply Hsame. unfold onTTSAudioChunk.
    destruct (interrupted s); [reflexivity|].
    change (out (set_isAgentCurrentlySpeaking true (emit ?o s))) with (out s ++ [o]).
    rewrite requestCount_app. unfold requestCount at 2. simpl. lia.
  - unfold onTick. cbn [sess task]. destruct (config s) as [c|]; [|discriminate].
    destruct (recurringCheckInterval s); [|discriminate].
    destruct (checkDue c now s); [discriminate|]. intros [= <-]. apply Hsame. reflexivity.
Qed.

Lemma runCheck_within (n : nat) (events : list Event) :
  forall m m', withinBudget n m -> runCheck m events = Some m' -> withinBudget n m'.
Proof.
  induction events as [|e events IH]; intros m m' HW; simpl.
  - intros [= <-]. exact HW.
  - destruct (checkSuspended m) eqn:Hs; [|discriminate].
    destruct (step m e) as [m1|] eqn:Hstep; [|discriminate].
    apply IH. eapply step_within; eassumption.
Qed.

(** X7. A recurring check issues at most [1 + MAX_TOOL_ROUNDS] = 4
    generation requests.  From the tick that starts the check, whatever
    events are delivered while the check is suspended (answers with or
    without tool calls, transcripts, frames, audio, further ticks), the
    calls of [claude.getResponse] made up to and including the step that
    ends the check are at most four: the first request and one follow-up
    after each of the rounds 0, 1 and 2. *)
Theorem check_requests_bounded (m m1 m' : Machine) (now : Z) (events : list Event) :
  checkSuspended m = false ->
  step m (EvTick now) = Some m1 ->
  checkSuspended m1 = true ->
  runCheck m1 events = Some m' ->
  requestCount (out (sess m')) <= requestCount (out (sess m)) + 1 + MAX_TOOL_ROUNDS.
Proof.
  intros Hidle Htick Hcheck Hrun.
  assert (HW : withinBudget (requestCount (out (sess m)) + 1 + MAX_TOOL_ROUNDS) m1).
  { destruct m as [s t]. unfold step, onTick in Htick. cbn [sess task] in *.
    destruct (config s) as [c|]; [|discriminate].
    destruct (recurringCheckInterval s); [|discriminate].
    destruct (checkDue c now s).
    - destruct t; [discriminate|].
      destruct (beginCheck_fields c s) as (_ & _ & _ & (msgs & Hout)).
      destruct (beginCheck c s) as [s' a] eqn:Hb. cbn [fst] in Hout.
      assert (Ha : exists uc, a = AwCheckResponse uc)
        by (unfold beginCheck in Hb; injection Hb as _ <-; eexists; reflexivity).
      destruct Ha as [uc ->].
      injection Htick as <-. unfold withinBudget. rewrite Hcheck.
      exists (AwCheckResponse uc), [], MAX_TOOL_ROUNDS. cbn [sess task suspended].
      split; [reflexivity|]. split; [reflexivity|].
      rewrite Hout, requestCount_app. unfold requestCount at 2, MAX_TOOL_ROUNDS. simpl. lia.
    - injection Htick as <-. congruence. }
  pose proof (runCheck_within _ events m1 m' HW Hrun) as HW'.
  unfold withinBudget in HW'. destruct (checkSuspended m'); [|exact HW'].
  destruct HW' as (a & fs & left & _ & _ & H). lia.
Qed.

Lemma check_requests_bounded_witness :
  runCheck longCheck [hotkeyRound; hotkeyRound; hotkeyRound; hotkeyRound]
    = Some afterLongCheck
  /\ requestCount (out (sess afterLongCheck))
     = requestCount (out (sess idleWithFrame)) + 1 + MAX_TOOL_ROUNDS
  /\ requestCount (out (sess afterLongCheck))
     <= requestCount (out (sess idleWithFrame)) + 1 + MAX_TOOL_ROUNDS.
Proof.
  assert (Hrun : runCheck longCheck [hotkeyRound; hotkeyRound; hotkeyRound; hotkeyRound]
                 = Some afterLongCheck) by (vm_compute; reflexivity).
  split; [exact Hrun|]. split; [vm_compute; reflexivity|].
  apply (check_requests_bounded idleWithFrame longCheck afterLongCheck 20000
           [hotkeyRound; hotkeyRound; hotkeyRound; hotkeyRound]);
    [reflexivity|vm_compute; reflexivity|reflexivity|exact Hrun].
Defined.

(** ** The two passes together *)

Lemma strippedContent_calls (blocks : list Block) :
  existsb isToolUse (blocksOrEmpty (strippedContent blocks)) = false.
Proof.
  unfold strippedContent.
  destruct ((0 <? length (List.filter isText blocks))
            && existsb hasSpokenText (List.filter isText blocks)); [|reflexivity].
  assert (H : existsb isToolUse (List.filter isText blocks) = false).
  { induction blocks as [|b bs IH]; [reflexivity|]. destruct b; simpl; auto. }
  destruct (List.filter isText blocks) as [|[] [|]]; auto.
Qed.

Lemma callsTools_sanitizeMsg (msg : Msg) (next : option Msg) :
  negb (callsTools (sanitizeMsg msg next)) || followedByToolResult next = true.
Proof.
  unfold sanitizeMsg.
  destruct (Role_eqb (role msg) assistant) eqn:Hr; cbn [negb];
    [|unfold callsTools; rewrite Hr; reflexivity].
  destruct (existsb isToolUse (blocksOrEmpty (content msg))) eqn:Ht; cbn [negb];
    [|unfold callsTools; rewrite Hr, Ht; reflexivity].
  destruct (followedByToolResult next); [apply orb_true_r|].
  unfold callsTools. cbn [role content]. rewrite strippedContent_calls, andb_false_r.
  reflexivity.
Qed.

Lemma sanitizeMsg_paired (msg : Msg) (next : option Msg) :
  negb (callsTools msg) || followedByToolResult next = true ->
  sanitizeMsg msg next = msg.
Proof.
  unfold sanitizeMsg, callsTools.
  destruct (Role_eqb (role msg) assistant); [|reflexivity]. simpl.
  destruct (existsb isToolUse (blocksOrEmpty (content msg))); [|reflexivity]. simpl.
  intros ->. reflexivity.
Qed.

Lemma sanitizeConversation_paired (conv : list Msg) :
  paired (sanitizeConversation conv) = true.
Proof.
  induction conv as [|msg rest IH]; [reflexivity|].
  cbn [sanitizeConversation paired]. rewrite IH, andb_true_r.
  apply callsTools_sanitizeMsg.
Qed.

Lemma sanitizeConversation_fixed (conv : list Msg) :
  paired conv = true -> sanitizeConversation conv = conv.
Proof.
  induction conv as [|msg rest IH]; [reflexivity|].
  cbn [sanitizeConversation paired]. intros H. apply andb_true_iff in H as [Hm Hr].
  rewrite (IH Hr). rewrite sanitizeMsg_paired by exact Hm. reflexivity.
Qed.

(** X8. After the sanitization pass no tool call is left orphaned: every
    assistant turn that still holds a tool-use block is immediately followed
    by a user turn that carries a tool-result block.  A history that is
    already so is returned unchanged, hence the pass is idempotent; and the
    pass never changes the role of a turn. *)
Theorem sanitize_leaves_no_orphan (conv : list Msg) :
  paired (sanitizeConversation conv) = true
  /\ (paired conv = true -> sanitizeConversation conv = conv)
  /\ sanitizeConversation (sanitizeConversation conv) = sanitizeConversation conv
  /\ map role (sanitizeConversation conv) = map role conv.
Proof.
  split; [apply sanitizeConversation_paired|].
  split; [apply sanitizeConversation_fixed|].
  split; [apply sanitizeConversation_fixed, sanitizeConversation_paired|].
  induction conv as [|msg rest IH]; [reflexivity|].
  cbn [sanitizeConversation map]. rewrite IH, sanitizeMsg_role. reflexivity.
Qed.

(** Stripping the images of a turn keeps its role and its tool-use and
    tool-result blocks. *)
Lemma stripImages_existsb (p : Block -> bool) (msg : Msg) :
  (forall b, p b = true -> isImage b = false /\ isText b = false) ->
  existsb p (blocksOrEmpty (content (stripImages msg)))
  = existsb p (blocksOrEmpty (content msg)).
Proof.
  intros Hp. unfold stripImages.
  assert (Hf : existsb p (List.filter (fun b => negb (isImage b))
                            (blocksOrEmpty (content msg)))
               = existsb p (blocksOrEmpty (content msg))).
  { induction (blocksOrEmpty (content msg)) as [|b bs IH]; [reflexivity|].
    simpl. destruct (isImage b) eqn:Hi; simpl; rewrite IH; [|reflexivity].
    destruct (p b) eqn:Hpb; [|reflexivity].
    destruct (Hp b Hpb) as [Hx _]. congruence. }
  rewrite <- Hf.
  destruct (List.filter (fun b => negb (isImage b)) (blocksOrEmpty (content msg)))
    as [|[] [|]]; try reflexivity.
  simpl. destruct (p (BText text)) eqn:Hpt; [|reflexivity].
  destruct (Hp _ Hpt) as [_ Hx]. discriminate.
Qed.

Lemma stripImages_tools (msg : Msg) :
  callsTools (stripImages msg) = callsTools msg
  /\ followedByToolResult (Some (stripImages msg)) = followedByToolResult (Some msg).
Proof.
  destruct (stripImages_spec msg) as (Hrole & _).
  unfold callsTools, followedByToolResult. rewrite Hrole.
  rewrite !stripImages_existsb; [auto| |]; intros [] H; try discriminate; auto.
Qed.

(** A pass that strips the images of some turns keeps the pairing. *)
Lemma paired_stripped (f : nat -> Msg -> Msg) :
  forall conv,
    (forall i msg, f i msg = msg \/ f i msg = stripImages msg) ->
    paired (imap f conv) = paired conv.
Proof.
  intros conv. revert f. induction conv as [|msg rest IH]; intros f Hf; [reflexivity|].
  rewrite imap_cons. cbn [paired].
  rewrite (IH (f ∘ S)) by (intros i x; apply Hf). f_equal.
  assert (Hc : callsTools (f 0 msg) = callsTools msg).
  { destruct (Hf 0 msg) as [-> | ->]; [reflexivity|apply stripImages_tools]. }
  assert (Hn : followedByToolResult (head (imap (f ∘ S) rest))
               = followedByToolResult (head rest)).
  { destruct rest as [|x rest]; [reflexivity|]. rewrite imap_cons. cbn [head].
    unfold compose. destruct (Hf 1 x) as [-> | ->]; [reflexivity|apply stripImages_tools]. }
  rewrite Hc, Hn. reflexivity.
Qed.

Lemma pruneOldImages_paired (conv : list Msg) :
  paired (pruneOldImages conv) = paired conv.
Proof.
  rewrite pruneOldImages_imap. apply paired_stripped.
  intros i msg. unfold strippedAt.
  destruct (hasImage msg && (MAX_CONTEXT_IMAGES <? imagesFrom i conv)); auto.
Qed.

Lemma pruneOldImages_few (conv : list Msg) :
  imageCount conv <= MAX_CONTEXT_IMAGES -> pruneOldImages conv = conv.
Proof.
  intros H. unfold pruneOldImages. unfold imageIndices.
  rewrite imageIndicesFrom_length.
  destruct (imageCount conv <=? MAX_CONTEXT_IMAGES) eqn:E; [reflexivity|].
  apply Nat.leb_gt in E. lia.
Qed.

Lemma pruneOldImages_count (conv : list Msg) :
  imageCount (pruneOldImages conv) <= MAX_CONTEXT_IMAGES.
Proof. rewrite pruneOldImages_imap, imageCount_pruned. lia. Qed.

(** X9. The two passes that precede every request, sanitization followed
    by image pruning, leave a history with no orphaned tool call and at most
    [MAX_CONTEXT_IMAGES] image-bearing turns, and running them again changes
    nothing (pruning never orphans a tool call, since stripping the images of
    a turn keeps its tool-use and tool-result blocks): the request of a
    cycle that starts from a prepared history carries that history as it
    is. *)
Theorem prepare_idempotent (s : Session) :
  paired (currentConversation (prepare s)) = true
  /\ imageCount (currentConversation (prepare s)) <= MAX_CONTEXT_IMAGES
  /\ prepare (prepare s) = prepare s
  /\ currentConversation (beginCycle (prepare s)) = currentConversation (prepare s).
Proof.
  set (conv := pruneOldImages (sanitizeConversation (currentConversation s))).
  assert (Hp : paired conv = true).
  { subst conv. rewrite pruneOldImages_paired. apply sanitizeConversation_paired. }
  assert (Hc : imageCount conv <= MAX_CONTEXT_IMAGES) by apply pruneOldImages_count.
  assert (Hfix : pruneOldImages (sanitizeConversation conv) = conv).
  { rewrite (sanitizeConversation_fixed conv Hp). apply pruneOldImages_few. exact Hc. }
  split; [exact Hp|]. split; [exact Hc|]. clear Hp Hc.
  assert (Hprep : prepare s = set_currentConversation conv s) by reflexivity.
  rewrite Hprep. clearbody conv. split.
  - unfold prepare.
    change (currentConversation (set_currentConversation conv s)) with conv.
    rewrite Hfix. reflexivity.
  - destruct (beginCycle_fields (set_currentConversation conv s)) as (_ & _ & _ & _ & H & _).
    rewrite H. exact Hfix.
Qed.

(** ** A committed transcript keeps the alternation *)

Lemma alternatesAfter_app (l1 l2 : list Msg) :
  forall prev,
    alternatesAfter prev (l1 ++ l2)
    = alternatesAfter prev l1
      && alternatesAfter (match last l1 with Some x => Some x | None => prev end) l2.
Proof.
  induction l1 as [|msg l1 IH]; intros prev; [reflexivity|].
  cbn [app alternatesAfter]. rewrite IH, andb_assoc. f_equal.
  destruct l1 as [|m l1]; [reflexivity|].
  change (last (msg :: m :: l1)) with (last (m :: l1)).
  destruct (last (m :: l1)) eqn:E; [reflexivity|].
  apply last_None in E. discriminate.
Qed.

Lemma recordUserTurn_history (text : string) (now : Z) (s : Session) :
  currentConversation (recordUserTurn text now s)
  = currentConversation s
    ++ match last (currentConversation s) with
       | Some lastMsg =>
           if Role_eqb (role lastMsg) user
           then [assistantTurn (CString interruptedPlaceholder)] else []
       | None => []
       end
    ++ [userTurn (buildUserContent text s)].
Proof.
  unfold recordUserTurn.
  change (currentConversation (set_lastUserInputAt now s)) with (currentConversation s).
  destruct (last (currentConversation s)) as [lastMsg|];
    [destruct (Role_eqb (role lastMsg) user)|]; cbn; rewrite <- ?app_assoc; reflexivity.
Qed.

Lemma buildUserContent_plain (text : string) (s : Session) :
  carriesToolResults (userTurn (buildUserContent text s)) = false.
Proof. unfold buildUserContent. destruct (frame s); reflexivity. Qed.

(** X10. [onCommittedTranscript] keeps the alternation of the history: if
    the history alternates (and its tool-result turns answer the turn before
    them), it still does once the handler has recorded the user turn,
    because the placeholder assistant turn is inserted exactly when the
    history ends with a user turn.  Nothing is removed: the history grows by
    the placeholder, if any, and the new user turn, which comes last. *)
Theorem committed_turn_keeps_alternation (text : string) (now : Z) (s : Session) :
  alternates (currentConversation s) = true ->
  alternates (currentConversation (recordUserTurn text now s)) = true
  /\ last (currentConversation (recordUserTurn text now s))
     = Some (userTurn (buildUserContent text s))
  /\ exists gap,
       currentConversation (recordUserTurn text now s)
       = currentConversation s ++ gap ++ [userTurn (buildUserContent text s)]
       /\ (gap = [] \/ gap = [assistantTurn (CString interruptedPlaceholder)]).
Proof.
  intros Halt. rewrite recordUserTurn_history.
  pose proof (buildUserContent_plain text s) as Hplain.
  set (new := userTurn (buildUserContent text s)) in *.
  split; [|split].
  - unfold alternates in *. rewrite alternatesAfter_app, Halt. cbn [andb].
    destruct (last (currentConversation s)) as [lastMsg|] eqn:Hlast.
    + destruct (role lastMsg) eqn:Hrole; cbn [Role_eqb app alternatesAfter];
        rewrite ?Hrole, ?Hplain; reflexivity.
    + cbn [app alternatesAfter]. rewrite Hplain. reflexivity.
  - rewrite app_assoc. apply last_snoc.
  - eexists. split; [reflexivity|].
    destruct (last (currentConversation s)) as [lastMsg|];
      [destruct (Role_eqb (role lastMsg) user)|]; auto.
Qed.

Lemma committed_turn_keeps_alternation_witness :
  alternates (currentConversation
                (recordUserTurn "how do I scale?" 5000 (push sessionStart initial))) = true.
Proof.
  exact (proj1 (committed_turn_keeps_alternation "how do I scale?" 5000
                  (push sessionStart initial) eq_refl)).
Defined.

(** ** The step pointer and the prompts *)

Lemma orElse_empty (x : string) : orElse (Some x) "" = x.
Proof. destruct x; reflexivity. Qed.

(** X11. The step pointer set by [Progressed_Step] is the one the prompts
    read.  With a tutorial loaded and [current_step] = n a step of it
    (1 <= n <= number of steps), the handler stores the index n - 1, reports
    the step to the client, and returns the title and the instruction of
    step n (['Unknown'] for an empty title); from then on the system prompt
    carries the tutorial section for "Current Step: n" with that step, and
    the prompt of the recurring check ends with "Current step n: <title>". *)
Theorem progressed_step_reaches_prompts (input : ToolInput) (s : Session)
    (t : Tutorial) (n : Z) (st : Step) (sp : string) (c : Config) :
  currentTutorial s = Some t ->
  current_step input = Some n ->
  (1 <= n)%Z ->
  nth_error (steps t) (Z.to_nat (n - 1)) = Some st ->
  let s' := fst (handleProgressedStep input s) in
  snd (handleProgressedStep input s)
  = RStep (Some n) (orElse (Some (title st)) "Unknown") (instruction st)
  /\ out s' = out s ++ [SocketEmit (step_update (previous_step input) (Some n) (totalSteps t))]
  /\ currentStepIndex s' = Some (n - 1)%Z
  /\ buildSystemPrompt sp s'
     = String.append sp (tutorialSection t (Some (n - 1)%Z))
  /\ stepNumberText (currentStepIndex s') = decimal n
  /\ stepAt t (currentStepIndex s') = Some st
  /\ checkPrompt c s'
     = String.append (checkPrompt c (set_currentTutorial None s))
         (String.append newline
            (String.append "Current step "
               (String.append (decimal n) (String.append ": " (title st))))).
Proof.
  intros Ht Hn Hpos Hst s'.
  assert (Hat : stepAt t (Some (n - 1)%Z) = Some st).
  { unfold stepAt. destruct (n - 1 <? 0)%Z eqn:E; [apply Z.ltb_lt in E; lia|exact Hst]. }
  assert (Hnum : stepNumberText (Some (n - 1)%Z) = decimal n).
  { unfold stepNumberText. f_equal. lia. }
  subst s'. unfold handleProgressedStep. cbn [fst snd]. rewrite Hn. cbn [option_map].
  cbn [currentTutorial currentStepIndex set_currentStepIndex emit set_out out].
  rewrite Ht, Hat. cbn [option_map].
  rewrite orElse_empty.
  split; [reflexivity|]. split; [reflexivity|]. split; [reflexivity|].
  split; [unfold buildSystemPrompt; cbn; rewrite Ht; reflexivity|].
  split; [exact Hnum|]. split; [reflexivity|].
  unfold checkPrompt. cbn [currentTutorial currentStepIndex set_currentStepIndex emit
                            set_out set_currentTutorial].
  rewrite Ht, Hat. replace (n - 1 + 1)%Z with n by lia. reflexivity.
Qed.

Lemma progressed_step_reaches_prompts_witness :
  snd (handleProgressedStep toSecondStep (set_currentTutorial (Some table) initial))
  = RStep (Some 2%Z) "Legs" "Add four cylinders."
  /\ stepNumberText
       (currentStepIndex
          (fst (handleProgressedStep toSecondStep
                  (set_currentTutorial (Some table) initial)))) = "2".
Proof.
  destruct (progressed_step_reaches_prompts toSecondStep
              (set_currentTutorial (Some table) initial) table 2
              {| stepNumber := 2; title := "Legs"; instruction := "Add four cylinders." |}
              "" blenderConfig eq_refl eq_refl ltac:(lia) eq_refl)
    as (Hres & _ & _ & _ & Hnum & _).
  split; [exact Hres|exact Hnum].
Defined.



(** ** ElevenLabsTTS *)

Module ElevenLabsTTSFacts.
Import ElevenLabsTTS.

Lemma effect_fields (e : Effect) (t : State) :
  ws (effect e t) = ws t /\ listening (effect e t) = listening t
  /\ created (effect e t) = created t.
Proof. auto. Qed.

Lemma send_fields (p : Payload) (t : State) :
  ws (send p t) = ws t /\ listening (send p t) = listening t
  /\ created (send p t) = created t
  /\ exists more, effects (send p t) = effects t ++ more
                  /\ forall k, ws t <> Some k -> existsb (concerns k) more = false.
Proof.
  unfold send. destruct (ws t) as [j|] eqn:Hws.
  - destruct (connected t).
    + repeat split; auto. exists [WsSend j p]. split; [reflexivity|].
      intros k Hk. simpl. rewrite orb_false_r. apply Nat.eqb_neq. congruence.
    + repeat split; auto. exists []. rewrite app_nil_r. auto.
  - repeat split; auto. exists []. rewrite app_nil_r. auto.
Qed.

Lemma listener_fields (e : SocketEvent) (t : State) :
  listening (listener e t) = listening t
  /\ created (listener e t) = created t
  /\ (ws (listener e t) = ws t \/ ws (listener e t) = None)
  /\ exists more, effects (listener e t) = effects t ++ more
                  /\ forall k, ws t <> Some k -> existsb (concerns k) more = false.
Proof.
  destruct e as [|[msg|]| |]; cbn [listener].
  - unfold onOpen. cbn [ws]. destruct (ws t) as [j|] eqn:Hws.
    + cbn. repeat split; auto. exists [WsSend j Init].
      split; [reflexivity|]. intros k Hk. simpl. rewrite orb_false_r.
      apply Nat.eqb_neq. congruence.
    + cbn. repeat split; auto. exists [Thrown]. auto.
  - unfold onMessage.
    destruct (audio msg) as [[|c a]|], (isFinal msg); cbn;
      repeat split; auto;
      try (exists []; rewrite app_nil_r; auto; fail);
      try (eexists; split; [reflexivity|]; intros; reflexivity);
      try (eexists; split; [rewrite <- app_assoc; reflexivity|]; intros; reflexivity).
  - cbn. repeat split; auto. exists []. rewrite app_nil_r. auto.
  - cbn. repeat split; auto. exists []. rewrite app_nil_r. auto.
  - cbn. repeat split; auto. exists []. rewrite app_nil_r. auto.
Qed.

Lemma step_known (t : State) (a : Action) : known t -> known (step t a).
Proof.
  intros HK. pose proof HK as [Hws Hl].
  assert (Hnew : known {| ws := Some (created t); connected := connected t;
                          connecting := true; listening := created t :: listening t;
                          created := S (created t);
                          effects := effects t ++ [NewSocket (created t)] |}).
  { split; cbn.
    - intros k [= <-]. lia.
    - intros k [<-|Hin]; [lia|]. specialize (Hl k Hin). lia. }
  assert (Hconnect : known (connect t)).
  { unfold connect. destruct (ws t), (connected t), (connecting t);
      try exact Hnew; exact HK. }
  assert (Hsend : forall p, known (send p t)).
  { intros p. destruct (send_fields p t) as (H1 & H2 & H3 & _).
    unfold known. rewrite H1, H2, H3. exact HK. }
  destruct a; cbn [step]; auto.
  - unfold ensureConnected. destruct (connected t); [exact HK|exact Hconnect].
  - apply Hsend.
  - apply Hsend.
  - apply Hsend.
  - apply Hsend.
  - unfold interrupt. destruct (ws t) as [j|]; [|exact HK].
    split; cbn; [discriminate|]. intros k Hin. apply filter_In in Hin as [Hin _]. auto.
  - unfold disconnect. destruct (ws t) as [j|]; [|exact HK].
    split; cbn; [discriminate|exact Hl].
  - destruct (existsb (Nat.eqb k) (listening t)); [|exact HK].
    destruct (listener_fields e t) as (H1 & H2 & H3 & _).
    unfold known. rewrite H1, H2. split; [|exact Hl].
    intros j Hj. destruct H3 as [H3|H3]; rewrite H3 in Hj; [auto|discriminate].
Qed.

Lemma reachable_known (t : State) : reachable t -> known t.
Proof.
  intros [actions ->]. unfold run.
  assert (H : forall t0, known t0 -> known (fold_left step actions t0)).
  { induction actions as [|a actions IH]; intros t0 H0; [exact H0|].
    apply IH, step_known, H0. }
  apply H. split; cbn; [discriminate|contradiction].
Qed.

(** A socket that is torn down stays so, and no step concerns it. *)
Lemma step_tornDown (k : nat) (t : State) (a : Action) :
  tornDown k t ->
  tornDown k (step t a)
  /\ exists more, effects (step t a) = effects t ++ more
                  /\ existsb (concerns k) more = false.
Proof.
  intros (Hk & Hl & Hws).
  assert (Hsame : tornDown k t
                  /\ exists more, effects t = effects t ++ more
                                  /\ existsb (concerns k) more = false).
  { split; [repeat split; assumption|]. exists []. rewrite app_nil_r. auto. }
  assert (Hneq : (created t =? k) = false) by (apply Nat.eqb_neq; lia).
  assert (Hconnect : tornDown k (connect t)
                     /\ exists more, effects (connect t) = effects t ++ more
                                     /\ existsb (concerns k) more = false).
  { assert (Hnew : tornDown k {| ws := Some (created t); connected := connected t;
                                 connecting := true;
                                 listening := created t :: listening t;
                                 created := S (created t);
                                 effects := effects t ++ [NewSocket (created t)] |}).
    { split; cbn; [lia|]. split; [|intros [= H]; lia].
      intros [H|H]; [lia|contradiction]. }
    unfold connect. destruct (ws t), (connected t), (connecting t); try exact Hsame;
      (split; [exact Hnew|]); exists [NewSocket (created t)];
      (split; [reflexivity|]); cbn; rewrite Hneq; reflexivity. }
  assert (Hsend : forall p, tornDown k (send p t)
                            /\ exists more, effects (send p t) = effects t ++ more
                                            /\ existsb (concerns k) more = false).
  { intros p. destruct (send_fields p t) as (H1 & H2 & H3 & (more & Hm & Hc)).
    split; [unfold tornDown; rewrite H1, H2, H3; auto|].
    exists more. auto. }
  destruct a; cbn [step]; auto.
  - unfold ensureConnected. destruct (connected t); assumption.
  - apply Hsend.
  - apply Hsend.
  - apply Hsend.
  - apply Hsend.
  - unfold interrupt. destruct (ws t) as [j|] eqn:Hj; [|exact Hsame].
    assert (Hjk : (j =? k) = false) by (apply Nat.eqb_neq; congruence).
    split.
    + split; cbn; [exact Hk|]. split; [|discriminate].
      intros Hin. apply filter_In in Hin as [Hin _]. contradiction.
    + eexists. split; [reflexivity|].
      destruct readyState; cbn; rewrite ?Hjk; reflexivity.
  - unfold disconnect. destruct (ws t) as [j|] eqn:Hj; [|exact Hsame].
    assert (Hjk : (j =? k) = false) by (apply Nat.eqb_neq; congruence).
    split; [split; cbn; [exact Hk|split; [exact Hl|discriminate]]|].
    eexists. split; [reflexivity|]. cbn. rewrite Hjk. reflexivity.
  - destruct (existsb (Nat.eqb k0) (listening t)); [|exact Hsame].
    destruct (listener_fields e t) as (H1 & H2 & H3 & (more & Hm & Hc)).
    split; [|exists more; auto].
    unfold tornDown. rewrite H1, H2. split; [exact Hk|]. split; [exact Hl|].
    destruct H3 as [H3|H3]; rewrite H3; [exact Hws|discriminate].
Qed.

Lemma run_tornDown (k : nat) (actions : list Action) :
  forall t,
    tornDown k t ->
    tornDown k (run t actions)
    /\ exists more, effects (run t actions) = effects t ++ more
                    /\ existsb (concerns k) more = false.
Proof.
  unfold run. induction actions as [|a actions IH]; intros t Ht.
  - split; [exact Ht|]. exists []. rewrite app_nil_r. auto.
  - cbn [fold_left]. destruct (step_tornDown k t a Ht) as (Ht1 & more1 & Hm1 & Hc1).
    destruct (IH _ Ht1) as (Ht2 & more2 & Hm2 & Hc2).
    split; [exact Ht2|]. exists (more1 ++ more2).
    rewrite Hm2, Hm1, <- app_assoc, existsb_app, Hc1, Hc2. auto.
Qed.

(** X13. [interrupt] tears the current socket down for good.  From every
    reachable state of the client that holds a socket, [interrupt] leaves
    the client with no socket and both flags cleared, so that the next send
    opens a new socket; and whatever is called and whatever the sockets
    deliver afterwards, the listeners of the torn-down socket never run
    again (a message of it emits no [audio_chunk] and changes nothing) and
    nothing is ever sent on it. *)
Theorem interrupt_silences_socket (t : State) (k : nat) (readyState : ReadyState)
    (actions : list Action) :
  reachable t ->
  ws t = Some k ->
  let t1 := interrupt readyState t in
  let t2 := run t1 actions in
  ws t1 = None /\ connected t1 = false /\ connecting t1 = false
  /\ ws (ensureConnected t1) = Some (created t) /\ created t <> k
  /\ (forall e, step t2 (Event k e) = t2)
  /\ exists more, effects t2 = effects t1 ++ more
                  /\ existsb (concerns k) more = false.
Proof.
  intros Hr Hws t1 t2. destruct (reachable_known t Hr) as [Hk _].
  specialize (Hk k Hws).
  assert (H1 : t1 = {| ws := None; connected := false; connecting := false;
                       listening := List.filter (fun j => negb (j =? k)) (listening t);
                       created := created t;
                       effects := effects t ++ RemoveAllListeners k
                                    :: match readyState with
                                       | OPEN => [WsClose k]
                                       | CONNECTING => [WsTerminate k]
                                       | _ => []
                                       end |}).
  { subst t1. unfold interrupt. rewrite Hws. reflexivity. }
  assert (Ht1 : tornDown k t1).
  { rewrite H1. split; cbn; [exact Hk|]. split; [|discriminate].
    intros Hin. apply filter_In in Hin as [_ Hin]. rewrite Nat.eqb_refl in Hin.
    discriminate. }
  destruct (run_tornDown k actions t1 Ht1) as ((_ & Hl2 & _) & Hmore).
  fold t2 in Hl2, Hmore.
  split; [rewrite H1; reflexivity|]. split; [rewrite H1; reflexivity|].
  split; [rewrite H1; reflexivity|]. split; [rewrite H1; reflexivity|].
  split; [lia|]. split; [|exact Hmore].
  intros e. cbn [step].
  destruct (existsb (Nat.eqb k) (listening t2)) eqn:E; [|reflexivity].
  apply existsb_exists in E as (j & Hin & Hj). apply Nat.eqb_eq in Hj. subst j.
  contradiction.
Qed.

Lemma interrupt_silences_socket_witness :
  reachable (run initial speaking)
  /\ effects (step (run initial speaking)
                 (Event 0 (WsMessage (Some {| audio := Some "pcm"; isFinal := false |}))))
     <> effects (run initial speaking)
  /\ step (run (interrupt OPEN (run initial speaking)) [SendTextChunk "How are you? "])
          (Event 0 (WsMessage (Some {| audio := Some "pcm"; isFinal := false |})))
     = run (interrupt OPEN (run initial speaking)) [SendTextChunk "How are you? "].
Proof.
  assert (Hr : reachable (run initial speaking)) by (exists speaking; reflexivity).
  split; [exact Hr|]. split; [vm_compute; discriminate|].
  destruct (interrupt_silences_socket (run initial speaking) 0 OPEN
              [SendTextChunk "How are you? "] Hr eq_refl)
    as (_ & _ & _ & _ & _ & Hsilent & _).
  apply Hsilent.
Defined.

End ElevenLabsTTSFacts.

(** ** An interrupted tool round *)

Lemma settle_invocations (fs : list Frame) :
  forall s, invocations (out (settle fs s)) = invocations (out s).
Proof.
  induction fs as [|k fs IH]; intros s; [reflexivity|].
  destruct k; cbn [settle]; rewrite IH; try reflexivity.
  change (out (emit ?o ?x)) with (out x ++ [o]).
  assert (H : out (startRecurringCheck s) = out s).
  { unfold startRecurringCheck. destruct (config s) as [c|]; [|reflexivity].
    destruct (recurringCheck_enabled c); reflexivity. }
  rewrite H. unfold invocations. rewrite List.filter_app. simpl. apply app_nil_r.
Qed.

(** X14. A tool round that is interrupted is abandoned.  When the
    interrupt flag is set while the main cycle waits for the lesson creator,
    the answer of the lesson creator ends the cycle: no further tool is
    called and no turn of tool results is appended, so the assistant turn
    with its tool-use blocks stays in the history.  With no message queued
    the machine is idle with the history as it was; with a message queued
    the fresh cycle starts at once, and the history its request carries has
    gone through the two passes, so it holds no orphaned tool call. *)
Theorem interrupted_tools_abandoned (m m' : Machine) (tu : ToolUse)
    (todo : list ToolUse) (results : list Block) (fs : list Frame)
    (answer : Tutorial + string) :
  task m = Some (AwMainTool tu todo results, fs) ->
  interrupted (sess m) = true ->
  step m (answerEvent answer) = Some m' ->
  invocations (out (sess m')) = invocations (out (sess m))
  /\ (hasPendingUserMessage (sess m) = false ->
      task m' = None /\ currentConversation (sess m') = currentConversation (sess m))
  /\ (hasPendingUserMessage (sess m) = true ->
      task m' = Some (AwStream false "", KMainFinally :: fs)
      /\ currentConversation (sess m')
         = pruneOldImages (sanitizeConversation (currentConversation (sess m)))
      /\ paired (currentConversation (sess m')) = true
      /\ last (out (sess m')) = Some (ClaudeStream (currentConversation (sess m')))).
Proof.
  destruct m as [s t]. cbn [sess task]. intros -> Hint.
  change (suspended s (AwMainTool tu todo results) fs)
    with {| sess := s; task := Some (AwMainTool tu todo results, fs) |}.
  fold (suspended s (AwMainTool tu todo results) fs).
  rewrite step_answer. intros [= <-].
  unfold resumeTools.
  pose proof (handleCreateTutorial_end_steady answer s) as Hend.
  destruct (handleCreateTutorial_end answer s) as [s1 r]. cbn [fst] in Hend.
  destruct (steady_fields _ _ _ Hend) as (Hc1 & _ & Hi1 & _ & Hp1 & _).
  assert (Hstop : interrupted s1 = true) by congruence.
  assert (Hleft : resolveMain fs
                    (afterTools (processTools interrupted todo
                                   (results ++ [toolResult tu r]) s1))
                  = finished false fs s1).
  { destruct (processTools_stopped interrupted todo (results ++ [toolResult tu r]) s1 Hstop)
      as [-> | ->]; cbn [afterTools]; rewrite Hstop; cbn [resolveMain];
      apply finallyMain_finished. }
  rewrite Hleft. unfold finished. rewrite Hp1.
  assert (Hinv1 : invocations (out s1) = invocations (out s))
    by (apply steady_invocations; exact Hend).
  destruct (hasPendingUserMessage s) eqn:Hp.
  - unfold freshCycle. cbn [sess task suspended released].
    destruct (beginCycle_fields (set_hasPendingUserMessage false (set_isProcessing false s1)))
      as (_ & _ & _ & _ & Hconv & Hout).
    change (currentConversation (set_hasPendingUserMessage false (set_isProcessing false s1)))
      with (currentConversation s1) in Hconv.
    split; [rewrite invocations_beginCycle; exact Hinv1|].
    split; [discriminate|]. intros _. split; [reflexivity|].
    split; [rewrite Hconv, Hc1; reflexivity|].
    split; [rewrite Hconv, pruneOldImages_paired; apply sanitizeConversation_paired|].
    rewrite Hout. apply last_snoc.
  - cbn [sess task idle released].
    destruct (settle_fields fs (set_isProcessing false s1)) as (_ & _ & _ & Hconv & _).
    split.
    + rewrite settle_invocations. exact Hinv1.
    + split; [|discriminate]. intros _. split; [reflexivity|].
      rewrite Hconv. exact Hc1.
Qed.

Lemma interrupted_tools_abandoned_witness :
  step interruptedCreation (EvGenerated chair) = Some afterInterruptedCreation
  /\ invocations (out (sess afterInterruptedCreation))
     = invocations (out (sess interruptedCreation))
  /\ paired (currentConversation (sess interruptedCreation)) = false
  /\ paired (currentConversation (sess afterInterruptedCreation)) = true.
Proof.
  assert (Hstep : step interruptedCreation (EvGenerated chair)
                  = Some afterInterruptedCreation) by (vm_compute; reflexivity).
  destruct (interrupted_tools_abandoned interruptedCreation afterInterruptedCreation
              createCall [] _ [KStartSession] (inl chair) eq_refl eq_refl Hstep)
    as (Hinv & _ & Hq).
  split; [exact Hstep|]. split; [exact Hinv|]. split; [vm_compute; reflexivity|].
  destruct (Hq eq_refl) as (_ & _ & Hp & _). exact Hp.
Defined.

(** ** No sentence is dispatched while the interrupt flag is set *)

Lemma sentChunks_app (os os' : list Output) :
  sentChunks (os ++ os') = sentChunks os ++ sentChunks os'.
Proof.
  induction os as [|o os IH]; [reflexivity|].
  destruct o; simpl; rewrite IH; reflexivity.
Qed.

Lemma dispatched_emits (os : list Output) (s : Session) :
  sentChunks os = [] -> dispatched (emits os s) = dispatched s.
Proof.
  intros H. unfold dispatched. change (out (emits os s)) with (out s ++ os).
  rewrite sentChunks_app, H. apply app_nil_r.
Qed.

Lemma dispatched_emit (o : Output) (s : Session) :
  sentChunks [o] = [] -> dispatched (emit o s) = dispatched s.
Proof. apply (dispatched_emits [o]). Qed.

Lemma dispatched_handleToolCall (name : string) (input : ToolInput) (s : Session) :
  dispatched (callSession (handleToolCall name input s)) = dispatched s.
Proof.
  unfold handleToolCall.
  destruct (String.eqb name "Create_Tutorial").
  { cbn [callSession]. unfold handleCreateTutorial_begin.
    rewrite !dispatched_emit; reflexivity. }
  destruct (String.eqb name "Progressed_Step").
  { unfold handleProgressedStep. cbn [callSession].
    rewrite dispatched_emit by reflexivity. reflexivity. }
  destruct (String.eqb name "Suggested_HotKey").
  { unfold handleSuggestedHotKey. cbn [callSession]. apply dispatched_emit. reflexivity. }
  reflexivity.
Qed.

Lemma dispatched_processTools (stop : Session -> bool) (todo : list ToolUse) :
  forall results s,
    dispatched (loopSession (processTools stop todo results s)) = dispatched s.
Proof.
  induction todo as [|tu rest IH]; intros results s; [reflexivity|].
  cbn [processTools]. destruct (stop s); [reflexivity|].
  pose proof (dispatched_handleToolCall (tu_name tu) (tu_input tu)
                (emit (Invoke (tu_name tu) (tu_input tu) (tu_id tu)) s)) as H.
  rewrite dispatched_emit in H by reflexivity.
  destruct (handleToolCall _ _ _) as [s' r|s']; cbn [callSession loopSession] in *.
  - rewrite IH. exact H.
  - exact H.
Qed.

Lemma dispatched_resumeTools (stop : Session -> bool) (answer : Tutorial + string)
    (tu : ToolUse) (todo : list ToolUse) (results : list Block) (s : Session) :
  dispatched (loopSession (resumeTools stop answer tu todo results s)) = dispatched s.
Proof.
  unfold resumeTools.
  assert (H : dispatched (fst (handleCreateTutorial_end answer s)) = dispatched s).
  { destruct answer; cbn [handleCreateTutorial_end fst];
      rewrite dispatched_emit by reflexivity; reflexivity. }
  destruct (handleCreateTutorial_end answer s) as [s' r]. cbn [fst] in H.
  rewrite dispatched_processTools. exact H.
Qed.

Lemma dispatched_commit (msgs : list Msg) (s : Session) :
  dispatched (flowSession (commit msgs s)) = dispatched s.
Proof. unfold commit. destruct (recurringCheckCancelled s); reflexivity. Qed.

Lemma dispatched_checkAfterTools (round : nat) (msgs : list Msg) (isFirst : bool)
    (loop : ToolLoop) :
  dispatched (flowSession (checkAfterTools round msgs isFirst loop))
  = dispatched (loopSession loop).
Proof.
  destruct loop as [s rs|s rs|s tu rest rs]; cbn [checkAfterTools loopSession flowSession];
    try reflexivity.
  destruct (round =? MAX_TOOL_ROUNDS); [apply dispatched_commit|].
  destruct (recurringCheckCancelled s); [reflexivity|].
  cbn [flowSession]. apply dispatched_emit. reflexivity.
Qed.

Lemma dispatched_checkTools (round : nat) (msgs : list Msg) (isFirst : bool)
    (calls : list ToolUse) (s : Session) :
  dispatched (flowSession (checkTools round msgs isFirst calls s)) = dispatched s.
Proof.
  unfold checkTools. destruct calls; [apply dispatched_commit|].
  rewrite dispatched_checkAfterTools. apply dispatched_processTools.
Qed.

Lemma dispatched_checkRound (round : nat) (msgs : list Msg) (isFirst : bool)
    (response : list Block) (s : Session) :
  dispatched (flowSession (checkRound round msgs isFirst response s)) = dispatched s.
Proof.
  unfold checkRound. destruct (recurringCheckCancelled s); [reflexivity|].
  destruct (JsString.includes noGuidance (firstText response)); [reflexivity|].
  destruct (firstText response); [apply dispatched_checkTools|].
  cbn [flowSession]. apply dispatched_emits. destruct isFirst; reflexivity.
Qed.

Lemma dispatched_resumeCheck (a : Await) (e : Event) (s : Session) (f : CheckFlow) :
  resumeCheck a e s = Some f -> dispatched (flowSession f) = dispatched s.
Proof.
  destruct a, e; simpl; try discriminate; intros [= <-]; try reflexivity.
  - unfold onCheckResponse. destruct (recurringCheckCancelled s); [reflexivity|].
    apply dispatched_checkRound.
  - unfold checkAfterSpeak. destruct (recurringCheckCancelled s); [reflexivity|].
    apply dispatched_checkTools.
  - rewrite dispatched_checkAfterTools. apply dispatched_resumeTools.
  - rewrite dispatched_checkAfterTools. apply dispatched_resumeTools.
  - apply dispatched_checkRound.
Qed.

Lemma dispatched_afterTools (loop : ToolLoop) :
  dispatched (mainSession (afterTools loop)) = dispatched (loopSession loop).
Proof.
  destruct loop as [s rs|s rs|s tu rest rs]; cbn [afterTools loopSession];
    try destruct (interrupted s); reflexivity.
Qed.

Lemma dispatched_afterFlush (c : bool) (ft : string) (response : list Block) (s : Session) :
  dispatched (mainSession (afterFlush c ft response s)) = dispatched s.
Proof.
  unfold afterFlush.
  set (s2 := match ft with
             | "" => emits [TtsFlush; TtsCloseStream] s
             | _ => emit (SocketEmit (if c then agent_text_continue ft else agent_text ft))
                      (emits [TtsFlush; TtsCloseStream] s)
             end).
  assert (H2 : dispatched s2 = dispatched s).
  { subst s2. destruct ft; [apply dispatched_emits; reflexivity|].
    rewrite dispatched_emit by (destruct c; reflexivity).
    apply dispatched_emits. reflexivity. }
  clearbody s2.
  destruct (toolUses response); [exact H2|].
  rewrite dispatched_afterTools, dispatched_processTools. exact H2.
Qed.

(** With the flag set, the settling of an [await] of the main cycle
    dispatches nothing. *)
Lemma dispatched_resumeMain (a : Await) (e : Event) (s : Session) (f : MainFlow) :
  interrupted s = true ->
  resumeMain a e s = Some f -> dispatched (mainSession f) = dispatched s.
Proof.
  intros Hint. destruct a, e; simpl; try discriminate.
  - unfold onStreamText. rewrite Hint. intros [= <-]. reflexivity.
  - unfold onStreamDone. rewrite Hint. intros [= <-]. reflexivity.
  - intros [= <-]. reflexivity.
  - intros [= <-]. rewrite dispatched_afterFlush. reflexivity.
  - intros [= <-]. reflexivity.
  - intros [= <-]. rewrite dispatched_afterTools. apply dispatched_resumeTools.
  - intros [= <-]. rewrite dispatched_afterTools. apply dispatched_resumeTools.
Qed.

Lemma dispatched_beginCycle (s : Session) : dispatched (beginCycle s) = dispatched s.
Proof.
  destruct (beginCycle_fields s) as (_ & _ & _ & _ & _ & Hout).
  unfold dispatched. rewrite Hout, sentChunks_app. apply app_nil_r.
Qed.

Lemma dispatched_settle (fs : list Frame) :
  forall s, dispatched (settle fs s) = dispatched s.
Proof.
  induction fs as [|k fs IH]; intros s; [reflexivity|].
  destruct k; cbn [settle]; rewrite IH; try reflexivity.
  rewrite dispatched_emit by reflexivity.
  unfold startRecurringCheck. destruct (config s) as [c|]; [|reflexivity].
  destruct (recurringCheck_enabled c); reflexivity.
Qed.

Lemma dispatched_finished (check : bool) (fs : list Frame) (s : Session) :
  dispatched (sess (finished check fs s)) = dispatched s.
Proof.
  unfold finished.
  assert (Hrel : dispatched (released check s) = dispatched s) by (destruct check; reflexivity).
  destruct (hasPendingUserMessage s).
  - unfold freshCycle. cbn [sess suspended]. rewrite dispatched_beginCycle. exact Hrel.
  - cbn [sess idle]. rewrite dispatched_settle. exact Hrel.
Qed.

Lemma dispatched_resume (a : Await) (fs : list Frame) (e : Event) (s : Session)
    (m' : Machine) :
  interrupted s = true ->
  resume a fs e s = Some m' -> dispatched (sess m') = dispatched s.
Proof.
  intros Hint. unfold resume. destruct (inCheck a).
  - destruct (resumeCheck a e s) as [f|] eqn:Hf; [|discriminate]. intros [= <-].
    rewrite <- (dispatched_resumeCheck _ _ _ _ Hf).
    destruct f as [s' a'|s']; cbn [resolveCheck flowSession]; [reflexivity|].
    rewrite finallyCheck_finished. apply dispatched_finished.
  - destruct (resumeMain a e s) as [f|] eqn:Hf; [|discriminate]. intros [= <-].
    rewrite <- (dispatched_resumeMain _ _ _ _ Hint Hf).
    destruct f as [s' a'|s'|s']; cbn [resolveMain mainSession]; [reflexivity| |].
    + unfold sendToClaudeAndSpeak.
      change (isProcessing (set_isProcessing false s')) with false. cbv iota.
      cbn [sess suspended]. rewrite dispatched_beginCycle. reflexivity.
    + rewrite finallyMain_finished. apply dispatched_finished.
Qed.

Lemma step_dispatched (m m' : Machine) (e : Event) :
  interrupted (sess m) = true ->
  step m e = Some m' -> dispatched (sess m') = dispatched (sess m).
Proof.
  destruct m as [s t]. cbn [sess task]. intros Hint. unfold step. cbn [sess task].
  destruct e.
  8-16: (destruct t as [[a fs]|]; [apply dispatched_resume; exact Hint|discriminate]).
  all: try (destruct (config s) as [c0|]; [|discriminate]).
  - unfold startSession. cbn [sess task]. destruct (currentConversation s).
    + destruct t; [discriminate|]. intros [= <-]. unfold sendToClaudeAndSpeak.
      set (s1 := push sessionStart (set_config (Some c) s)).
      assert (H1 : dispatched s1 = dispatched s) by reflexivity. clearbody s1.
      destruct (isProcessing s1).
      * cbn [unwind sess idle]. rewrite dispatched_emit by reflexivity.
        rewrite <- H1. unfold startRecurringCheck. destruct (config s1) as [c1|]; [|reflexivity].
        destruct (recurringCheck_enabled c1); reflexivity.
      * cbn [sess suspended]. rewrite dispatched_beginCycle. exact H1.
    + intros [= <-]. apply dispatched_emit. reflexivity.
  - intros [= <-]. reflexivity.
  - intros [= <-]. reflexivity.
  - intros [= <-]. cbn [sess]. unfold onPartialTranscript.
    destruct (JsString.blank text); [reflexivity|].
    destruct (isAgentCurrentlySpeaking s || isProcessing s || isRecurringCheckRunning s);
      [|reflexivity].
    unfold dispatched. rewrite (proj2 (proj2 (proj2 (proj2 (proj2
              (handleInterruption_fields s)))))), sentChunks_app. apply app_nil_r.
  - unfold onCommittedTranscript. cbn [sess task].
    destruct (JsString.blank text); [intros [= <-]; reflexivity|].
    assert (H1 : dispatched (recordUserTurn text now s) = dispatched s).
    { destruct (recordUserTurn_fields text now s) as (_ & _ & _ & _ & _ & Hout).
      unfold dispatched. rewrite Hout, sentChunks_app. apply app_nil_r. }
    generalize dependent (recordUserTurn text now s). intros s1 H1.
    destruct (isProcessing s1) eqn:Hp1.
    + intros [= <-]. exact H1.
    + destruct t; [discriminate|]. intros [= <-]. unfold sendToClaudeAndSpeak.
      rewrite Hp1. cbn [sess suspended]. rewrite dispatched_beginCycle. exact H1.
  - intros [= <-]. cbn [sess]. unfold onTTSAudioChunk. rewrite Hint. reflexivity.
  - unfold onTick. cbn [sess task]. destruct (config s) as [c|]; [|discriminate].
    destruct (recurringCheckInterval s); [|discriminate].
    destruct (checkDue c now s); [|intros [= <-]; reflexivity].
    destruct t; [discriminate|].
    destruct (beginCheck_fields c s) as (_ & _ & _ & (msgs & Hout)).
    destruct (beginCheck c s) as [s' a]. cbn [fst] in Hout. intros [= <-].
    cbn [sess suspended]. unfold dispatched. rewrite Hout, sentChunks_app. apply app_nil_r.
Qed.

(** X15. Once the interrupt flag is set, no sentence is dispatched for as
    long as no new main cycle has started.  From a state with the flag set,
    whatever events arrive (text deltas and the end of the stream of the
    interrupted cycle, completions, answers of the lesson creator, a
    recurring check), the calls of [tts.sendTextChunk] stay as they are
    until a streaming request is issued; and a text delta that arrives then
    changes nothing at all: neither the sentence buffer nor the accumulated
    text. *)
Theorem no_sentence_while_interrupted (events : list Event) :
  forall m m',
    interrupted (sess m) = true ->
    run m events = Some m' ->
    streamRequests (out (sess m')) = streamRequests (out (sess m)) ->
    dispatched (sess m') = dispatched (sess m)
    /\ forall chunk c ft fs,
         task m' = Some (AwStream c ft, fs) ->
         step m' (EvStreamText chunk) = Some m'.
Proof.
  induction events as [|e events IH]; intros m m' Hint; simpl.
  - intros [= <-] _. split; [reflexivity|].
    intros chunk c ft fs Ht. destruct m as [s t]. cbn [sess task] in *. subst t.
    unfold step. cbn [sess task resume inCheck resumeMain]. unfold onStreamText.
    rewrite Hint. reflexivity.
  - destruct (step m e) as [m1|] eqn:Hs; [|discriminate]. intros Hr Hstreams.
    destruct (step_advances m m1 e Hs) as (os1 & H1 & _ & Hi1).
    { destruct e; simpl; auto. }
    destruct (run_extends _ _ _ Hr) as (os2 & H2).
    unfold streamRequests in *.
    rewrite H2, H1, <- app_assoc, List.filter_app in Hstreams.
    rewrite <- (app_nil_r (List.filter isStream (out (sess m)))) in Hstreams at 2.
    apply app_inv_head in Hstreams. rewrite List.filter_app in Hstreams.
    apply app_eq_nil in Hstreams as [Hs1 Hs2].
    destruct (Hi1 Hint) as [Hint1|Hne]; [|contradiction].
    destruct (IH m1 m' Hint1 Hr) as [Hd Hlate].
    { rewrite H2, List.filter_app, Hs2, app_nil_r. reflexivity. }
    split; [|exact Hlate].
    rewrite Hd. apply (step_dispatched m m1 e Hint Hs).
Qed.

Lemma no_sentence_while_interrupted_witness :
  run interruptedStream lateDeltas = Some afterLateDeltas
  /\ dispatched (sess afterLateDeltas) = ["Welcome. "].
Proof.
  assert (Hrun : run interruptedStream lateDeltas = Some afterLateDeltas)
    by (vm_compute; reflexivity).
  split; [exact Hrun|].
  assert (Hstreams : streamRequests (out (sess afterLateDeltas))
                     = streamRequests (out (sess interruptedStream)))
    by (vm_compute; reflexivity).
  rewrite (proj1 (no_sentence_while_interrupted lateDeltas interruptedStream afterLateDeltas
                    eq_refl Hrun Hstreams)).
  reflexivity.
Defined.

(** ** Cancellation is one step *)

Lemma finished_interrupted (check : bool) (fs : list Frame) (s : Session) :
  interrupted s = false -> interrupted (sess (finished check fs s)) = false.
Proof.
  intros Hint. unfold finished. destruct (hasPendingUserMessage s).
  - unfold freshCycle. cbn [sess suspended].
    destruct (beginCycle_fields (set_hasPendingUserMessage false (released check s)))
      as (_ & H & _). exact H.
  - cbn [sess idle]. destruct (settle_fields fs (released check s)) as (_ & _ & H & _).
    rewrite H. destruct check; exact Hint.
Qed.

Lemma resume_interrupted (a : Await) (fs : list Frame) (e : Event) (s : Session)
    (m' : Machine) :
  interrupted s = false -> resume a fs e s = Some m' -> interrupted (sess m') = false.
Proof.
  intros Hint Hr.
  destruct (resume_cases _ _ _ _ _ Hr) as (s' & Hg & [(a' & -> & _)|[(_ & _ & ->)| ->]]);
    destruct (grows_fields _ _ Hg) as (_ & Hi & _).
  - cbn [sess suspended]. congruence.
  - unfold continued. cbn [sess suspended].
    destruct (beginCycle_fields (set_isProcessing false s')) as (_ & H & _). exact H.
  - apply finished_interrupted. congruence.
Qed.

(** X16. A step sets the interrupt flag only by the cancellation: the event
    is a transcript (partial or committed) whose text is not blank, and in
    that one step the flag of the recurring check is set as well, the agent
    is marked as not speaking, and the stream is aborted, the synthesizer
    interrupted and the [interrupt] event emitted, in this order and as the
    last calls of the step; the suspended cycle is left where it is. *)
Theorem flag_set_by_cancellation (m m' : Machine) (e : Event) :
  step m e = Some m' ->
  interrupted (sess m) = false ->
  interrupted (sess m') = true ->
  spoken e = true
  /\ task m' = task m
  /\ recurringCheckCancelled (sess m') = true
  /\ isAgentCurrentlySpeaking (sess m') = false
  /\ exists before,
       out (sess m') = out (sess m) ++ before ++ cancellation
       /\ (before = [] \/ exists text, before = [SocketEmit (user_text text)]).
Proof.
  destruct m as [s t]. cbn [sess task]. unfold step. cbn [sess task].
  intros Hs Hint Hset.
  destruct e.
  8-16: (destruct t as [[a fs]|]; [|discriminate];
         rewrite (resume_interrupted _ _ _ _ _ Hint Hs) in Hset; discriminate).
  all: try (destruct (config s) as [c0|]; [|discriminate]).
  - (* start_session *)
    exfalso. unfold startSession in Hs. cbn [sess task] in Hs.
    destruct (currentConversation s).
    + destruct t; [discriminate|]. unfold sendToClaudeAndSpeak in Hs.
      set (s1 := push sessionStart (set_config (Some c) s)) in Hs.
      assert (H1 : interrupted s1 = interrupted s) by reflexivity. clearbody s1.
      destruct (isProcessing s1); injection Hs as <-.
      * cbn [unwind sess idle] in Hset.
        assert (H2 : interrupted (startRecurringCheck s1) = interrupted s1).
        { unfold startRecurringCheck. destruct (config s1) as [c1|]; [|reflexivity].
          destruct (recurringCheck_enabled c1); reflexivity. }
        change (interrupted (startRecurringCheck s1) = true) in Hset. congruence.
      * cbn [sess suspended] in Hset.
        destruct (beginCycle_fields s1) as (_ & H & _). congruence.
    + injection Hs as <-. cbn in Hset. congruence.
  - injection Hs as <-. cbn in Hset. congruence.
  - injection Hs as <-. cbn in Hset. congruence.
  - (* partial transcript *)
    injection Hs as <-. cbn [sess task] in *. unfold onPartialTranscript in *.
    cbn [spoken]. destruct (JsString.blank text); [congruence|].
    destruct (isAgentCurrentlySpeaking s || isProcessing s || isRecurringCheckRunning s);
      [|congruence].
    split; [reflexivity|]. split; [reflexivity|]. split; [reflexivity|].
    split; [reflexivity|]. exists []. split; [reflexivity|auto].
  - (* committed transcript *)
    unfold onCommittedTranscript in Hs. cbn [sess task spoken] in *.
    destruct (JsString.blank text); [injection Hs as <-; cbn in Hset; congruence|].
    destruct (recordUserTurn_fields text now s) as (_ & _ & _ & Hc & _ & Hout).
    assert (Hsp : isAgentCurrentlySpeaking (recordUserTurn text now s) = false)
      by reflexivity.
    generalize dependent (recordUserTurn text now s). intros s1 Hs Hc Hout Hsp.
    destruct (isProcessing s1) eqn:Hp1.
    + injection Hs as <-. cbn [sess task].
      split; [reflexivity|]. split; [reflexivity|]. split; [exact Hc|].
      split; [exact Hsp|]. exists [SocketEmit (user_text text)].
      split; [exact Hout|]. right. exists text. reflexivity.
    + exfalso. destruct t; [discriminate|]. injection Hs as <-.
      unfold sendToClaudeAndSpeak in Hset. rewrite Hp1 in Hset. cbn [sess suspended] in Hset.
      destruct (beginCycle_fields s1) as (_ & H & _). congruence.
  - injection Hs as <-. cbn [sess] in Hset. unfold onTTSAudioChunk in Hset.
    rewrite Hint in Hset. cbn in Hset. congruence.
  - (* tick *)
    exfalso. unfold onTick in Hs. cbn [sess task] in Hs.
    destruct (config s) as [c|]; [|discriminate].
    destruct (recurringCheckInterval s); [|discriminate].
    destruct (checkDue c now s); [|injection Hs as <-; cbn in Hset; congruence].
    destruct t; [discriminate|].
    destruct (beginCheck_fields c s) as (_ & _ & Hb & _).
    destruct (beginCheck c s) as [s' a]. cbn [fst] in Hb. injection Hs as <-.
    cbn [sess suspended] in Hset. congruence.
Qed.

Lemma flag_set_by_cancellation_witness :
  step firstCycle (EvPartialTranscript "wait") = Some cancelledFirst
  /\ task cancelledFirst = task firstCycle
  /\ exists before, out (sess cancelledFirst) = out (sess firstCycle) ++ before ++ cancellation.
Proof.
  assert (Hs : step firstCycle (EvPartialTranscript "wait") = Some cancelledFirst)
    by (vm_compute; reflexivity).
  destruct (flag_set_by_cancellation firstCycle cancelledFirst (EvPartialTranscript "wait")
              Hs eq_refl eq_refl)
    as (_ & Ht & _ & _ & before & Hout & _).
  split; [exact Hs|]. split; [exact Ht|]. exists before. exact Hout.
Defined.

(** ** The queue is one flag *)

Lemma recordUserTurn_frame (text : string) (now : Z) (s : Session) :
  latestFrame (recordUserTurn text now s) = latestFrame s.
Proof.
  unfold recordUserTurn.
  destruct (last (currentConversation (set_lastUserInputAt now s))) as [lastMsg|];
    [destruct (Role_eqb (role lastMsg) user)|]; reflexivity.
Qed.

(** A committed transcript during a cycle: the turn is recorded, the flag
    is set, the suspended cycle stays where it is. *)
Lemma committed_during_cycle (s : Session) (t : option (Await * list Frame))
    (text : string) (now : Z) :
  config s <> None -> isProcessing s = true ->
  JsString.blank text = false ->
  exists s',
    step {| sess := s; task := t |} (EvCommittedTranscript text now)
    = Some {| sess := s'; task := t |}
    /\ config s' <> None
    /\ isProcessing s' = true
    /\ hasPendingUserMessage s' = true
    /\ latestFrame s' = latestFrame s
    /\ currentConversation s' = currentConversation (recordUserTurn text now s)
    /\ out s' = out s ++ [SocketEmit (user_text text); ClaudeAbort; TtsInterrupt;
                          SocketEmit interrupt].
Proof.
  intros Hc Hp Hb.
  exists (set_hasPendingUserMessage true (recordUserTurn text now s)).
  destruct (recordUserTurn_fields text now s) as (Hi & _ & _ & _ & _ & Hout).
  pose proof (recordUserTurn_frame text now s) as Hframe.
  pose proof (recordUserTurn_more text now s) as (_ & Hc1 & _).
  split.
  - unfold step, onCommittedTranscript. cbn [sess task].
    destruct (config s); [|contradiction]. rewrite Hb, Hi, Hp. reflexivity.
  - generalize dependent (recordUserTurn text now s). intros r Hi Hout Hframe Hc1.
    cbn [config isProcessing latestFrame currentConversation out hasPendingUserMessage
         set_hasPendingUserMessage].
    rewrite Hc1, Hi, Hframe, Hout. auto 10.
Qed.

(** X17. The queue is one flag, not a list.  Two transcripts committed
    while a cycle is suspended start no cycle and leave the suspended one
    where it is; both user turns are recorded, with the placeholder
    assistant turn between them (the history ends with the first one when
    the second arrives), and the one flag is set: when the cycle ends, the
    single fresh cycle answers a history that holds both. *)
Theorem queue_is_one_flag (m : Machine) (text1 text2 : string) (now1 now2 : Z) :
  reachable m ->
  task m <> None ->
  JsString.blank text1 = false ->
  JsString.blank text2 = false ->
  exists m2,
    run m [EvCommittedTranscript text1 now1; EvCommittedTranscript text2 now2] = Some m2
    /\ task m2 = task m
    /\ hasPendingUserMessage (sess m2) = true
    /\ streamRequests (out (sess m2)) = streamRequests (out (sess m))
    /\ exists gap,
         currentConversation (sess m2)
         = currentConversation (sess m) ++ gap
             ++ [userTurn (buildUserContent text1 (sess m));
                 assistantTurn (CString interruptedPlaceholder);
                 userTurn (buildUserContent text2 (sess m))]
         /\ (gap = [] \/ gap = [assistantTurn (CString interruptedPlaceholder)]).
Proof.
  intros Hr Ht Hb1 Hb2.
  pose proof (reachable_Inv m Hr) as (_ & Hproc & _). specialize (Hproc Ht).
  pose proof (reachable_Started m Hr) as HS. unfold Started in HS.
  assert (Hcfg : config (sess m) <> None).
  { destruct (config (sess m)); [discriminate|]. destruct HS as (_ & H & _). contradiction. }
  clear Hr HS.
  destruct m as [s t]. cbn [sess task] in *.
  destruct (committed_during_cycle s t text1 now1 Hcfg Hproc Hb1)
    as (s1 & Hs1 & Hcfg1 & Hp1 & _ & Hf1 & Hcv1 & Ho1).
  destruct (committed_during_cycle s1 t text2 now2 Hcfg1 Hp1 Hb2)
    as (s2 & Hs2 & _ & _ & Hpend & _ & Hcv2 & Ho2).
  exists {| sess := s2; task := t |}.
  split.
  { unfold run. rewrite Hs1, Hs2. reflexivity. }
  cbn [sess task].
  split; [reflexivity|]. split; [exact Hpend|]. split.
  - rewrite Ho2, Ho1. unfold streamRequests.
    rewrite !List.filter_app. simpl. rewrite !app_nil_r. reflexivity.
  - assert (Hb : buildUserContent text2 s1 = buildUserContent text2 s).
    { unfold buildUserContent, frame. rewrite Hf1. reflexivity. }
    rewrite Hcv2, recordUserTurn_history, Hb, Hcv1, recordUserTurn_history.
    set (gap := match last (currentConversation s) with
                | Some lastMsg =>
                    if Role_eqb (role lastMsg) user
                    then [assistantTurn (CString interruptedPlaceholder)] else []
                | None => []
                end).
    exists gap. split.
    + assert (Hl : last (currentConversation s ++ gap
                            ++ [userTurn (buildUserContent text1 s)])
                   = Some (userTurn (buildUserContent text1 s)))
        by (rewrite app_assoc; apply last_snoc).
      rewrite Hl. cbn [role userTurn Role_eqb].
      rewrite <- !app_assoc. reflexivity.
    + subst gap. destruct (last (currentConversation s)) as [lastMsg|];
        [destruct (Role_eqb (role lastMsg) user)|]; auto.
Qed.

Lemma queue_is_one_flag_witness :
  reachable firstCycle
  /\ exists m2,
       run firstCycle [EvCommittedTranscript "a chair" 1000;
                       EvCommittedTranscript "no, a table" 2000] = Some m2
       /\ hasPendingUserMessage (sess m2) = true
       /\ streamRequests (out (sess m2)) = streamRequests (out (sess firstCycle)).
Proof.
  assert (Hr : reachable firstCycle)
    by (exists [EvStartSession blenderConfig]; vm_compute; reflexivity).
  assert (Ht : task firstCycle <> None) by (vm_compute; discriminate).
  assert (Hb1 : JsString.blank "a chair" = false) by (vm_compute; reflexivity).
  assert (Hb2 : JsString.blank "no, a table" = false) by (vm_compute; reflexivity).
  split; [exact Hr|].
  destruct (queue_is_one_flag firstCycle "a chair" "no, a table" 1000 2000 Hr Ht Hb1 Hb2)
    as (m2 & Hrun & _ & Hp & Hst & _).
  exists m2. split; [exact Hrun|]. split; [exact Hp|exact Hst].
Defined.

(** ** The check looks at the latest frame, after the idle time *)























(** ** The tutorial loaded is the last one generated *)

Lemma announced_app (os os' : list Output) :
  announced (os ++ os') = announced os ++ announced os'.
Proof. apply flat_map_app. Qed.

Lemma loaded_emits (os : list Output) (s : Session) :
  announced os = [] -> loaded (emits os s) = loaded s.
Proof.
  intros H. unfold loaded. change (out (emits os s)) with (out s ++ os).
  change (currentTutorial (emits os s)) with (currentTutorial s).
  rewrite announced_app, H, app_nil_r. reflexivity.
Qed.

Lemma loaded_emit (o : Output) (s : Session) :
  announced [o] = [] -> loaded (emit o s) = loaded s.
Proof. apply (loaded_emits [o]). Qed.

Lemma loaded_handleToolCall (name : string) (input : ToolInput) (s : Session) :
  loaded (callSession (handleToolCall name input s)) = loaded s.
Proof.
  unfold handleToolCall.
  destruct (String.eqb name "Create_Tutorial").
  { cbn [callSession]. unfold handleCreateTutorial_begin.
    rewrite !loaded_emit; reflexivity. }
  destruct (String.eqb name "Progressed_Step").
  { unfold handleProgressedStep. cbn [callSession].
    rewrite loaded_emit by reflexivity. reflexivity. }
  destruct (String.eqb name "Suggested_HotKey").
  { unfold handleSuggestedHotKey. cbn [callSession]. apply loaded_emit. reflexivity. }
  reflexivity.
Qed.

Lemma loaded_processTools (stop : Session -> bool) (todo : list ToolUse) :
  forall results s,
    loaded (loopSession (processTools stop todo results s)) = loaded s.
Proof.
  induction todo as [|tu rest IH]; intros results s; [reflexivity|].
  cbn [processTools]. destruct (stop s); [reflexivity|].
  pose proof (loaded_handleToolCall (tu_name tu) (tu_input tu)
                (emit (Invoke (tu_name tu) (tu_input tu) (tu_id tu)) s)) as H.
  rewrite loaded_emit in H by reflexivity.
  destruct (handleToolCall _ _ _) as [s' r|s']; cbn [callSession loopSession] in *.
  - rewrite IH. exact H.
  - exact H.
Qed.

(** The answer of the lesson creator is loaded and announced whether or not
    the loop goes on. *)
Lemma loaded_resumeTools (stop : Session -> bool) (answer : Tutorial + string)
    (tu : ToolUse) (todo : list ToolUse) (results : list Block) (s : Session) :
  loaded (loopSession (resumeTools stop answer tu todo results s))
  = answered answer (loaded s).
Proof.
  unfold resumeTools.
  assert (H : loaded (fst (handleCreateTutorial_end answer s)) = answered answer (loaded s)).
  { destruct answer as [t|message]; cbn [handleCreateTutorial_end fst answered].
    - unfold loaded. cbn [snd].
      change (out (emit (SocketEmit (tutorial_ready t))
                     (set_currentStepIndex (Some 0%Z) (set_currentTutorial (Some t) s))))
        with (out s ++ [SocketEmit (tutorial_ready t)]).
      rewrite announced_app. reflexivity.
    - apply loaded_emit. reflexivity. }
  destruct (handleCreateTutorial_end answer s) as [s' r]. cbn [fst] in H.
  rewrite loaded_processTools. exact H.
Qed.

Lemma loaded_commit (msgs : list Msg) (s : Session) :
  loaded (flowSession (commit msgs s)) = loaded s.
Proof. unfold commit. destruct (recurringCheckCancelled s); reflexivity. Qed.

Lemma loaded_checkAfterTools (round : nat) (msgs : list Msg) (isFirst : bool)
    (loop : ToolLoop) :
  loaded (flowSession (checkAfterTools round msgs isFirst loop))
  = loaded (loopSession loop).
Proof.
  destruct loop as [s rs|s rs|s tu rest rs]; cbn [checkAfterTools loopSession flowSession];
    try reflexivity.
  destruct (round =? MAX_TOOL_ROUNDS); [apply loaded_commit|].
  destruct (recurringCheckCancelled s); [reflexivity|].
  cbn [flowSession]. apply loaded_emit. reflexivity.
Qed.

Lemma loaded_checkTools (round : nat) (msgs : list Msg) (isFirst : bool)
    (calls : list ToolUse) (s : Session) :
  loaded (flowSession (checkTools round msgs isFirst calls s)) = loaded s.
Proof.
  unfold checkTools. destruct calls; [apply loaded_commit|].
  rewrite loaded_checkAfterTools. apply loaded_processTools.
Qed.

Lemma loaded_checkRound (round : nat) (msgs : list Msg) (isFirst : bool)
    (response : list Block) (s : Session) :
  loaded (flowSession (checkRound round msgs isFirst response s)) = loaded s.
Proof.
  unfold checkRound. destruct (recurringCheckCancelled s); [reflexivity|].
  destruct (JsString.includes noGuidance (firstText response)); [reflexivity|].
  destruct (firstText response); [apply loaded_checkTools|].
  cbn [flowSession]. apply loaded_emits. destruct isFirst; reflexivity.
Qed.

Lemma loaded_resumeCheck (a : Await) (e : Event) (s : Session) (f : CheckFlow) :
  resumeCheck a e s = Some f -> loaded (flowSession f) = delivered e (loaded s).
Proof.
  destruct a, e; simpl; try discriminate; intros [= <-]; try reflexivity.
  - unfold onCheckResponse. destruct (recurringCheckCancelled s); [reflexivity|].
    apply loaded_checkRound.
  - unfold checkAfterSpeak. destruct (recurringCheckCancelled s); [reflexivity|].
    apply loaded_checkTools.
  - rewrite loaded_checkAfterTools. apply loaded_resumeTools.
  - rewrite loaded_checkAfterTools. apply loaded_resumeTools.
  - apply loaded_checkRound.
Qed.

Lemma loaded_afterTools (loop : ToolLoop) :
  loaded (mainSession (afterTools loop)) = loaded (loopSession loop).
Proof.
  destruct loop as [s rs|s rs|s tu rest rs]; cbn [afterTools loopSession];
    try destruct (interrupted s); reflexivity.
Qed.

Lemma loaded_afterFlush (c : bool) (ft : string) (response : list Block) (s : Session) :
  loaded (mainSession (afterFlush c ft response s)) = loaded s.
Proof.
  unfold afterFlush.
  set (s2 := match ft with
             | "" => emits [TtsFlush; TtsCloseStream] s
             | _ => emit (SocketEmit (if c then agent_text_continue ft else agent_text ft))
                      (emits [TtsFlush; TtsCloseStream] s)
             end).
  assert (H2 : loaded s2 = loaded s).
  { subst s2. destruct ft; [apply loaded_emits; reflexivity|].
    rewrite loaded_emit by (destruct c; reflexivity).
    apply loaded_emits. reflexivity. }
  clearbody s2.
  destruct (toolUses response); [exact H2|].
  rewrite loaded_afterTools, loaded_processTools. exact H2.
Qed.

Lemma loaded_handleTextChunkForTTS (chunk : string) (s : Session) :
  loaded (handleTextChunkForTTS chunk s) = loaded s.
Proof.
  unfold handleTextChunkForTTS. destruct (interrupted s); [reflexivity|].
  destruct (drainSentences _ _) as [sentences left].
  change (loaded (set_sentenceBuffer left (emits (map TtsSendTextChunk sentences) s)))
    with (loaded (emits (map TtsSendTextChunk sentences) s)).
  apply loaded_emits. induction sentences; [reflexivity|assumption].
Qed.

Lemma loaded_resumeMain (a : Await) (e : Event) (s : Session) (f : MainFlow) :
  resumeMain a e s = Some f -> loaded (mainSession f) = delivered e (loaded s).
Proof.
  destruct a, e; simpl; try discriminate.
  - unfold onStreamText. destruct (interrupted s); intros [= <-]; [reflexivity|].
    apply loaded_handleTextChunkForTTS.
  - unfold onStreamDone. destruct (interrupted s); [intros [= <-]; reflexivity|].
    destruct (JsString.blank (sentenceBuffer s)); intros [= <-].
    + apply loaded_afterFlush.
    + cbn [mainSession]. apply loaded_emit. reflexivity.
  - intros [= <-]. reflexivity.
  - intros [= <-]. rewrite loaded_afterFlush. reflexivity.
  - intros [= <-]. reflexivity.
  - intros [= <-]. rewrite loaded_afterTools. apply loaded_resumeTools.
  - intros [= <-]. rewrite loaded_afterTools. apply loaded_resumeTools.
Qed.

Lemma loaded_beginCycle (s : Session) : loaded (beginCycle s) = loaded s.
Proof.
  destruct (beginCycle_fields s) as (_ & _ & _ & _ & _ & Hout).
  unfold loaded. rewrite Hout, announced_app, app_nil_r. reflexivity.
Qed.

Lemma loaded_startRecurringCheck (s : Session) :
  loaded (startRecurringCheck s) = loaded s.
Proof.
  unfold startRecurringCheck. destruct (config s) as [c|]; [|reflexivity].
  destruct (recurringCheck_enabled c); reflexivity.
Qed.

Lemma loaded_settle (fs : list Frame) :
  forall s, loaded (settle fs s) = loaded s.
Proof.
  induction fs as [|k fs IH]; intros s; [reflexivity|].
  destruct k; cbn [settle]; rewrite IH; try reflexivity.
  rewrite loaded_emit by reflexivity. apply loaded_startRecurringCheck.
Qed.

Lemma loaded_finished (check : bool) (fs : list Frame) (s : Session) :
  loaded (sess (finished check fs s)) = loaded s.
Proof.
  unfold finished.
  assert (Hrel : loaded (released check s) = loaded s) by (destruct check; reflexivity).
  destruct (hasPendingUserMessage s).
  - unfold freshCycle. cbn [sess suspended]. rewrite loaded_beginCycle. exact Hrel.
  - cbn [sess idle]. rewrite loaded_settle. exact Hrel.
Qed.

Lemma loaded_resume (a : Await) (fs : list Frame) (e : Event) (s : Session)
    (m' : Machine) :
  resume a fs e s = Some m' -> loaded (sess m') = delivered e (loaded s).
Proof.
  unfold resume. destruct (inCheck a).
  - destruct (resumeCheck a e s) as [f|] eqn:Hf; [|discriminate]. intros [= <-].
    rewrite <- (loaded_resumeCheck _ _ _ _ Hf).
    destruct f as [s' a'|s']; cbn [resolveCheck flowSession]; [reflexivity|].
    rewrite finallyCheck_finished. apply loaded_finished.
  - destruct (resumeMain a e s) as [f|] eqn:Hf; [|discriminate]. intros [= <-].
    rewrite <- (loaded_resumeMain _ _ _ _ Hf).
    destruct f as [s' a'|s'|s']; cbn [resolveMain mainSession]; [reflexivity| |].
    + unfold sendToClaudeAndSpeak.
      change (isProcessing (set_isProcessing false s')) with false. cbv iota.
      cbn [sess suspended]. rewrite loaded_beginCycle. reflexivity.
    + rewrite finallyMain_finished. apply loaded_finished.
Qed.

(** Only an answer of the lesson creator with a tutorial changes the
    tutorial loaded, and it is announced at that step. *)
Lemma step_loaded (m m' : Machine) (e : Event) :
  step m e = Some m' -> loaded (sess m') = delivered e (loaded (sess m)).
Proof.
  destruct m as [s t]. cbn [sess task]. unfold step. cbn [sess task].
  destruct e.
  8-16: (destruct t as [[a fs]|]; [apply loaded_resume|discriminate]).
  all: try (destruct (config s) as [c0|]; [|discriminate]).
  - unfold startSession. cbn [sess task]. destruct (currentConversation s).
    + destruct t; [discriminate|]. intros [= <-]. unfold sendToClaudeAndSpeak.
      set (s1 := push sessionStart (set_config (Some c) s)).
      assert (H1 : loaded s1 = loaded s) by reflexivity. clearbody s1.
      destruct (isProcessing s1).
      * cbn [unwind sess idle].
        change (loaded (settle [KStartSession] s1) = loaded s).
        rewrite loaded_settle. exact H1.
      * cbn [sess suspended]. rewrite loaded_beginCycle. exact H1.
    + intros [= <-]. apply loaded_emit. reflexivity.
  - intros [= <-]. reflexivity.
  - intros [= <-]. reflexivity.
  - intros [= <-]. cbn [sess]. unfold onPartialTranscript.
    destruct (JsString.blank text); [reflexivity|].
    destruct (isAgentCurrentlySpeaking s || isProcessing s || isRecurringCheckRunning s);
      [|reflexivity].
    unfold loaded. rewrite (proj2 (proj2 (proj2 (proj2 (proj2
              (handleInterruption_fields s)))))), announced_app, app_nil_r. reflexivity.
  - unfold onCommittedTranscript. cbn [sess task delivered].
    destruct (JsString.blank text); [intros [= <-]; reflexivity|].
    assert (H1 : loaded (recordUserTurn text now s) = loaded s).
    { destruct (recordUserTurn_fields text now s) as (_ & _ & _ & _ & _ & Hout).
      unfold loaded. rewrite Hout, announced_app, app_nil_r. f_equal.
      unfold recordUserTurn.
      destruct (last (currentConversation (set_lastUserInputAt now s))) as [lastMsg|];
        [destruct (Role_eqb (role lastMsg) user)|]; reflexivity. }
    generalize dependent (recordUserTurn text now s). intros s1 H1.
    destruct (isProcessing s1) eqn:Hp1.
    + intros [= <-]. exact H1.
    + destruct t; [discriminate|]. intros [= <-]. unfold sendToClaudeAndSpeak.
      rewrite Hp1. cbn [sess suspended]. rewrite loaded_beginCycle. exact H1.
  - intros [= <-]. cbn [sess]. unfold onTTSAudioChunk.
    destruct (interrupted s); [reflexivity|].
    change (loaded (set_isAgentCurrentlySpeaking true
                      (emit (SocketEmit (agent_audio base64)) s)))
      with (loaded (emit (SocketEmit (agent_audio base64)) s)).
    apply loaded_emit. reflexivity.
  - unfold onTick. cbn [sess task]. destruct (config s) as [c|]; [|discriminate].
    destruct (recurringCheckInterval s); [|discriminate].
    destruct (checkDue c now s); [|intros [= <-]; reflexivity].
    destruct t; [discriminate|].
    destruct (beginCheck_fields c s) as (_ & _ & _ & (msgs & Hout)).
    assert (Ht : currentTutorial (fst (beginCheck c s)) = currentTutorial s) by reflexivity.
    destruct (beginCheck c s) as [s' a]. cbn [fst] in Hout, Ht. intros [= <-].
    cbn [sess suspended delivered]. unfold loaded.
    rewrite Hout, Ht, announced_app, app_nil_r. reflexivity.
Qed.

(** X19. The tutorial of the session follows the lesson creator, not the
    cycle that asked for it.  Over any events, the tutorial loaded at the
    end is the last one the lesson creator returned (the one loaded before,
    if it returned none), and [tutorial_ready] has been emitted once for each
    tutorial returned, in order.  So an answer that arrives after the cycle
    was interrupted, or the check cancelled, is loaded and announced all the
    same, a failed generation leaves the tutorial in place, and nothing
    unloads a tutorial. *)
Theorem tutorial_follows_lesson_creator (events : list Event) :
  forall m m',
    run m events = Some m' ->
    currentTutorial (sess m')
    = match last (generated events) with
      | Some t => Some t
      | None => currentTutorial (sess m)
      end
    /\ announced (out (sess m')) = announced (out (sess m)) ++ generated events.
Proof.
  induction events as [|e rest IH]; intros m m' Hrun.
  - injection Hrun as <-. cbn [generated flat_map last]. rewrite app_nil_r. auto.
  - cbn [run] in Hrun. destruct (step m e) as [m1|] eqn:Hs; [|discriminate].
    apply step_loaded in Hs. destruct (IH m1 m' Hrun) as (Ht & Ha).
    unfold loaded in Hs. rewrite Ht, Ha.
    change (generated (e :: rest))
      with (match e with EvGenerated t => [t] | _ => [] end ++ generated rest).
    destruct e; cbn [delivered answered snd] in Hs; injection Hs as Ht1 Ha1;
      rewrite Ht1, Ha1; cbn [app]; try (split; reflexivity).
    rewrite <- app_assoc. split; [|reflexivity].
    change ([t] ++ generated rest) with (t :: generated rest).
    destruct (generated rest) as [|t' l] eqn:E; [reflexivity|].
    change (last (t :: t' :: l)) with (last (t' :: l)).
    destruct (last (t' :: l)) eqn:El; [reflexivity|].
    apply last_None in El. discriminate.
Qed.

Lemma tutorial_follows_lesson_creator_witness :
  interrupted (sess interruptedCreation) = true
  /\ step interruptedCreation (EvGenerated chair) = Some afterInterruptedCreation
  /\ currentTutorial (sess afterInterruptedCreation) = Some chair
  /\ announced (out (sess afterInterruptedCreation))
     = announced (out (sess interruptedCreation)) ++ [chair].
Proof.
  assert (Hs : step interruptedCreation (EvGenerated chair) = Some afterInterruptedCreation)
    by (vm_compute; reflexivity).
  assert (Hrun : run interruptedCreation [EvGenerated chair] = Some afterInterruptedCreation)
    by (vm_compute; reflexivity).
  destruct (tutorial_follows_lesson_creator [EvGenerated chair] interruptedCreation
              afterInterruptedCreation Hrun) as (Ht & Ha).
  split; [vm_compute; reflexivity|]. split; [exact Hs|]. split; [exact Ht|exact Ha].
Defined.

(** ** What is spoken is what is shown *)

Lemma shown_app (os os' : list Output) : shown (os ++ os') = shown os ++ shown os'.
Proof. apply flat_map_app. Qed.

Lemma voiced_emits (os : list Output) (s : Session) :
  voiced (emits os s) = (fst (voiced s) ++ sentChunks os, snd (voiced s) ++ shown os).
Proof.
  unfold voiced. change (out (emits os s)) with (out s ++ os).
  rewrite sentChunks_app, shown_app. reflexivity.
Qed.

Lemma voiced_quiet (os : list Output) (s : Session) :
  sentChunks os = [] -> shown os = [] -> voiced (emits os s) = voiced s.
Proof.
  intros H1 H2. rewrite voiced_emits, H1, H2, !app_nil_r. reflexivity.
Qed.

Lemma voiced_emit (o : Output) (s : Session) :
  sentChunks [o] = [] -> shown [o] = [] -> voiced (emit o s) = voiced s.
Proof. apply (voiced_quiet [o]). Qed.

Lemma voiced_handleToolCall (name : string) (input : ToolInput) (s : Session) :
  voiced (callSession (handleToolCall name input s)) = voiced s.
Proof.
  unfold handleToolCall.
  destruct (String.eqb name "Create_Tutorial").
  { cbn [callSession]. unfold handleCreateTutorial_begin.
    rewrite !voiced_emit; reflexivity. }
  destruct (String.eqb name "Progressed_Step").
  { unfold handleProgressedStep. cbn [callSession].
    rewrite voiced_emit by reflexivity. reflexivity. }
  destruct (String.eqb name "Suggested_HotKey").
  { unfold handleSuggestedHotKey. cbn [callSession]. apply voiced_emit; reflexivity. }
  reflexivity.
Qed.

Lemma voiced_processTools (stop : Session -> bool) (todo : list ToolUse) :
  forall results s,
    voiced (loopSession (processTools stop todo results s)) = voiced s.
Proof.
  induction todo as [|tu rest IH]; intros results s; [reflexivity|].
  cbn [processTools]. destruct (stop s); [reflexivity|].
  pose proof (voiced_handleToolCall (tu_name tu) (tu_input tu)
                (emit (Invoke (tu_name tu) (tu_input tu) (tu_id tu)) s)) as H.
  rewrite voiced_emit in H by reflexivity.
  destruct (handleToolCall _ _ _) as [s' r|s']; cbn [callSession loopSession] in *.
  - rewrite IH. exact H.
  - exact H.
Qed.

Lemma voiced_afterTools (loop : ToolLoop) :
  voiced (mainSession (afterTools loop)) = voiced (loopSession loop).
Proof.
  destruct loop as [s rs|s rs|s tu rest rs]; cbn [afterTools loopSession];
    try destruct (interrupted s); reflexivity.
Qed.

(** The rest of the cycle after the stream: the text is shown, nothing is
    spoken. *)
Lemma voiced_afterFlush (c : bool) (ft : string) (response : list Block) (s : Session) :
  voiced (mainSession (afterFlush c ft response s))
  = (fst (voiced s), snd (voiced s) ++ shownText c ft).
Proof.
  unfold afterFlush.
  set (s2 := match ft with
             | "" => emits [TtsFlush; TtsCloseStream] s
             | _ => emit (SocketEmit (if c then agent_text_continue ft else agent_text ft))
                      (emits [TtsFlush; TtsCloseStream] s)
             end).
  assert (H2 : voiced s2 = (fst (voiced s), snd (voiced s) ++ shownText c ft)).
  { subst s2. destruct ft as [|a ft].
    - rewrite voiced_quiet by reflexivity. cbn [shownText]. rewrite app_nil_r.
      destruct (voiced s); reflexivity.
    - change (emit ?o ?x) with (emits [o] x).
      rewrite voiced_emits, voiced_quiet by reflexivity.
      destruct c; cbn [sentChunks shown flat_map shownText app];
        rewrite app_nil_r; reflexivity. }
  clearbody s2.
  destruct (toolUses response); [exact H2|].
  rewrite voiced_afterTools, voiced_processTools. exact H2.
Qed.

Lemma voiced_beginCycle (s : Session) : voiced (beginCycle s) = voiced s.
Proof.
  destruct (beginCycle_fields s) as (_ & _ & _ & _ & _ & Hout).
  unfold voiced. rewrite Hout, sentChunks_app, shown_app, !app_nil_r. reflexivity.
Qed.

Lemma voiced_settle (fs : list Frame) :
  forall s, voiced (settle fs s) = voiced s.
Proof.
  induction fs as [|k fs IH]; intros s; [reflexivity|].
  destruct k; cbn [settle]; rewrite IH; try reflexivity.
  rewrite voiced_emit by reflexivity.
  unfold startRecurringCheck. destruct (config s) as [c|]; [|reflexivity].
  destruct (recurringCheck_enabled c); reflexivity.
Qed.

Lemma voiced_finished (check : bool) (fs : list Frame) (s : Session) :
  voiced (sess (finished check fs s)) = voiced s.
Proof.
  unfold finished.
  assert (Hrel : voiced (released check s) = voiced s) by (destruct check; reflexivity).
  destruct (hasPendingUserMessage s).
  - unfold freshCycle. cbn [sess suspended]. rewrite voiced_beginCycle. exact Hrel.
  - cbn [sess idle]. rewrite voiced_settle. exact Hrel.
Qed.

(** Where the cycle goes after its stream (the next [await], the recursion
    or the end) adds nothing. *)
Lemma voiced_resolveMain (fs : list Frame) (f : MainFlow) :
  voiced (sess (resolveMain fs f)) = voiced (mainSession f).
Proof.
  destruct f as [s' a'|s'|s']; cbn [resolveMain mainSession]; [reflexivity| |].
  - unfold sendToClaudeAndSpeak.
    change (isProcessing (set_isProcessing false s')) with false. cbv iota.
    cbn [sess suspended]. rewrite voiced_beginCycle. reflexivity.
  - rewrite finallyMain_finished. apply voiced_finished.
Qed.

Lemma run_app (l1 l2 : list Event) :
  forall m m1, run m l1 = Some m1 -> run m (l1 ++ l2) = run m1 l2.
Proof.
  induction l1 as [|e l1 IH]; intros m m1 H; cbn [run app] in *.
  - injection H as <-. reflexivity.
  - destruct (step m e) as [m0|]; [|discriminate]. exact (IH m0 m1 H).
Qed.

(** The deltas of a stream amount to their concatenation. *)
Lemma run_deltas (deltas : list string) :
  forall (s : Session) (c : bool) (ft : string) (fs : list Frame),
    interrupted s = false ->
    JsString.sentenceEnd (sentenceBuffer s) = None ->
    run (suspended s (AwStream c ft) fs) (map EvStreamText deltas)
    = Some (suspended (handleTextChunkForTTS (String.concat "" deltas) s)
              (AwStream c (String.append ft (String.concat "" deltas))) fs).
Proof.
  induction deltas as [|d ds IH]; intros s c ft fs Hint Hbuf.
  - cbn [map run String.concat]. rewrite append_empty_r.
    unfold handleTextChunkForTTS. rewrite Hint, append_empty_r.
    assert (Hd : drainSentences (String.length (sentenceBuffer s)) (sentenceBuffer s)
                 = ([], sentenceBuffer s)).
    { destruct (String.length (sentenceBuffer s)); cbn [drainSentences];
        rewrite ?Hbuf; reflexivity. }
    rewrite Hd. destruct s. unfold set_sentenceBuffer, emits, set_out, suspended. cbn.
    rewrite app_nil_r. reflexivity.
  - rewrite concat_cons. cbn [map run].
    assert (Hs : step (suspended s (AwStream c ft) fs) (EvStreamText d)
                 = Some (suspended (handleTextChunkForTTS d s)
                           (AwStream c (String.append ft d)) fs)).
    { cbn [step suspended sess task resume inCheck resumeMain].
      unfold onStreamText. rewrite Hint. reflexivity. }
    rewrite Hs.
    assert (H1 : interrupted (handleTextChunkForTTS d s) = false).
    { unfold handleTextChunkForTTS. rewrite Hint.
      destruct (drainSentences _ _). exact Hint. }
    rewrite (IH _ c (String.append ft d) fs H1 (handleTextChunkForTTS_drained d s Hint)).
    rewrite handleTextChunkForTTS_twice by exact Hint.
    rewrite append_assoc. reflexivity.
Qed.

(** X20. What is spoken is what is shown.  In a cycle that is not
    interrupted, whatever the deltas of the stream, the text the client is
    shown when the stream ends is the concatenation of the deltas (nothing is
    shown for an empty text; [agent_text_continue] is used in a continuation
    after tools), and the synthesizer is handed the same text, cut into its
    sentences, followed by what is left with a space appended; only a rest
    that is blank is not spoken.  Nothing else is shown or spoken up to the
    next [await] of the cycle. *)
Theorem spoken_is_shown (deltas : list string) (m : Machine) (c : bool)
    (fs : list Frame) (response : list Block) :
  task m = Some (AwStream c "", fs) ->
  interrupted (sess m) = false ->
  sentenceBuffer (sess m) = "" ->
  let text := String.concat "" deltas in
  exists m' sentences rest,
    run m (map EvStreamText deltas ++ endOfStream response rest) = Some m'
    /\ text = String.append (String.concat "" sentences) rest
    /\ JsString.sentenceEnd rest = None
    /\ sentChunks (out (sess m'))
       = sentChunks (out (sess m)) ++ sentences
           ++ (if JsString.blank rest then [] else [String.append rest " "])
    /\ shown (out (sess m')) = shown (out (sess m)) ++ shownText c text.
Proof.
  destruct m as [s t]. intros Ht Hint Hbuf text. cbn [sess task] in *. subst t.
  assert (Hnone : JsString.sentenceEnd (sentenceBuffer s) = None)
    by (rewrite Hbuf; reflexivity).
  pose proof (run_deltas deltas s c "" fs Hint Hnone) as Hrun.
  change (String.append "" (String.concat "" deltas)) with text in Hrun.
  fold text in Hrun.
  pose proof (drainSentences_concat (String.length text) text) as Hcat.
  pose proof (drainSentences_complete text) as Hend.
  assert (Hs1 : handleTextChunkForTTS text s
                = set_sentenceBuffer (snd (drainSentences (String.length text) text))
                    (emits (map TtsSendTextChunk
                              (fst (drainSentences (String.length text) text))) s)).
  { unfold handleTextChunkForTTS. rewrite Hint, Hbuf.
    change (String.append "" text) with text.
    destruct (drainSentences (String.length text) text). reflexivity. }
  destruct (drainSentences (String.length text) text) as [sentences rest].
  cbn [fst snd] in *.
  set (s0 := emits (map TtsSendTextChunk sentences) s) in *.
  assert (Hv0 : voiced s0 = (sentChunks (out s) ++ sentences, shown (out s))).
  { subst s0. rewrite voiced_emits. unfold voiced. cbn [fst snd]. f_equal.
    - f_equal. clear. induction sentences as [|x xs IH]; [reflexivity|].
      cbn [map sentChunks]. rewrite IH. reflexivity.
    - rewrite <- (app_nil_r (shown (out s))) at 2. f_equal.
      clear. induction sentences as [|x xs IH]; [reflexivity|exact IH]. }
  assert (Hi0 : interrupted s0 = false) by exact Hint.
  clearbody s0. rewrite Hs1 in Hrun. clear Hs1.
  change {| sess := s; task := Some (AwStream c "", fs) |}
    with (suspended s (AwStream c "") fs).
  set (s1 := set_sentenceBuffer rest s0) in *.
  assert (Hv1 : voiced s1 = voiced s0) by reflexivity.
  assert (Hi1 : interrupted s1 = false) by exact Hi0.
  assert (Hb1 : sentenceBuffer s1 = rest) by reflexivity.
  clearbody s1.
  assert (Hdone : step (suspended s1 (AwStream c text) fs) (EvStreamDone response)
                  = Some (resolveMain fs (onStreamDone c text response s1)))
    by reflexivity.
  unfold endOfStream. unfold onStreamDone in Hdone. rewrite Hi1, Hb1 in Hdone.
  destruct (JsString.blank rest) eqn:Hblank.
  - exists (resolveMain fs (afterFlush c text response s1)), sentences, rest.
    split.
    { rewrite (run_app _ _ _ _ Hrun), Hblank. cbn [run]. rewrite Hdone. reflexivity. }
    split; [symmetry; exact Hcat|]. split; [exact Hend|].
    pose proof (voiced_resolveMain fs (afterFlush c text response s1)) as Hv.
    rewrite voiced_afterFlush, Hv1, Hv0 in Hv. cbn [fst snd] in Hv.
    unfold voiced in Hv. injection Hv as Hv2 Hv3.
    rewrite Hv2, Hv3, Hblank, app_nil_r. cbn [sess]. auto.
  - set (s2 := emit (TtsSendTextChunk (String.append rest " ")) s1) in *.
    assert (Hv2 : voiced (set_sentenceBuffer "" s2)
                  = (sentChunks (out s) ++ sentences ++ [String.append rest " "],
                     shown (out s))).
    { change (voiced (set_sentenceBuffer "" s2)) with (voiced s2). subst s2.
      change (emit ?o ?x) with (emits [o] x). rewrite voiced_emits, Hv1, Hv0. cbn [fst snd sentChunks shown flat_map].
      rewrite app_nil_r, <- app_assoc. reflexivity. }
    clearbody s2.
    exists (resolveMain fs (afterFlush c text response (set_sentenceBuffer "" s2))),
           sentences, rest.
    split.
    { rewrite (run_app _ _ _ _ Hrun), Hblank. cbn [run]. rewrite Hdone.
      cbn [resolveMain]. reflexivity. }
    split; [symmetry; exact Hcat|]. split; [exact Hend|].
    pose proof (voiced_resolveMain fs
                  (afterFlush c text response (set_sentenceBuffer "" s2))) as Hv.
    rewrite voiced_afterFlush, Hv2 in Hv. cbn [fst snd] in Hv.
    unfold voiced in Hv. injection Hv as Hv3 Hv4.
    rewrite Hv3, Hv4, Hblank. cbn [sess]. auto.
Qed.

Lemma spoken_is_shown_witness :
  exists m' sentences rest,
    run firstCycle (map EvStreamText ["Hello there. How "; "are you? Great."]
                      ++ endOfStream [] rest) = Some m'
    /\ "Hello there. How are you? Great." = String.append (String.concat "" sentences) rest
    /\ JsString.sentenceEnd rest = None
    /\ sentChunks (out (sess m'))
       = sentChunks (out (sess firstCycle)) ++ sentences
           ++ (if JsString.blank rest then [] else [String.append rest " "])
    /\ shown (out (sess m'))
       = shown (out (sess firstCycle))
           ++ shownText false "Hello there. How are you? Great.".
Proof.
  exact (spoken_is_shown ["Hello there. How "; "are you? Great."] firstCycle false
           [KStartSession] [] eq_refl eq_refl eq_refl).
Defined.

(** ** What a check appends is an exchange *)

Lemma toolResultIds_results (calls : list ToolUse) (rs : list Block) :
  Forall2 resultOf calls rs -> toolResultIds rs = map tu_id calls.
Proof.
  induction 1 as [|tu b calls rs [r ->] _ IH]; [reflexivity|].
  cbn [toolResultIds map]. rewrite IH. reflexivity.
Qed.

Lemma sameIds_refl (ids : list string) : sameIds ids ids = true.
Proof.
  induction ids as [|x ids IH]; [reflexivity|].
  cbn [sameIds]. rewrite String.eqb_refl, IH. reflexivity.
Qed.

Lemma head_app_exchange (msgs more : list Msg) :
  option_map role (head msgs) = Some user ->
  option_map role (head (msgs ++ more)) = Some user.
Proof. destruct msgs; [discriminate|]. intros H. exact H. Qed.

(** A response after a user turn. *)
Lemma exchange_response (msgs : list Msg) (response : list Block) :
  exchange msgs -> endsWith user msgs ->
  existsb isToolResult response = false ->
  exchange (msgs ++ [assistantTurn (CBlocks response)])
  /\ openCalls (msgs ++ [assistantTurn (CBlocks response)]) (toolUses response).
Proof.
  intros [Hh Ha] He Hr. split; [split|].
  - apply head_app_exchange, Hh.
  - unfold alternates in *. rewrite alternatesAfter_app, Ha. cbn [andb].
    unfold endsWith in He. destruct (last msgs) as [p|]; [|discriminate].
    cbn [option_map] in He. injection He as He.
    cbn [alternatesAfter]. rewrite He.
    unfold carriesToolResults. cbn [content assistantTurn blocksOrEmpty role Role_eqb negb].
    rewrite Hr. reflexivity.
  - exists response. split; [apply last_snoc|reflexivity].
Qed.

(** The results of a round after the response that made the calls. *)
Lemma exchange_results (msgs : list Msg) (calls : list ToolUse) (rs : list Block) :
  exchange msgs -> openCalls msgs calls -> Forall2 resultOf calls rs ->
  exchange (msgs ++ [userTurn (CBlocks rs)])
  /\ endsWith user (msgs ++ [userTurn (CBlocks rs)]).
Proof.
  intros [Hh Ha] (response & Hl & Hc) Hrs. split; [split|].
  - apply head_app_exchange, Hh.
  - unfold alternates in *. rewrite alternatesAfter_app, Ha, Hl. cbn [andb].
    cbn [alternatesAfter role assistantTurn userTurn Role_eqb negb andb].
    destruct (carriesToolResults _); [|reflexivity].
    unfold answers. cbn [role content assistantTurn userTurn Role_eqb blocksOrEmpty andb].
    unfold toolUseIds. rewrite Hc, (toolResultIds_results _ _ Hrs), sameIds_refl.
    reflexivity.
  - unfold endsWith. rewrite last_snoc. reflexivity.
Qed.

(** The loop collects one result per call it has finished, in order. *)
Lemma processTools_results (stop : Session -> bool) (todo : list ToolUse) :
  forall results s,
    match processTools stop todo results s with
    | LoopDone _ results' =>
        exists rs, results' = results ++ rs /\ Forall2 resultOf todo rs
    | LoopSuspended _ tu rest results' =>
        exists done rs, todo = done ++ tu :: rest /\ results' = results ++ rs
                        /\ Forall2 resultOf done rs
    | LoopStopped _ _ => True
    end.
Proof.
  induction todo as [|tu rest IH]; intros results s; cbn [processTools].
  - exists []. rewrite app_nil_r. split; [reflexivity|constructor].
  - destruct (stop s); [exact I|].
    destruct (handleToolCall _ _ _) as [s' r|s'].
    + specialize (IH (results ++ [toolResult tu r]) s').
      destruct (processTools stop rest (results ++ [toolResult tu r]) s')
        as [s2 rs2|s2 rs2|s2 tu2 rest2 rs2].
      * destruct IH as (rs & -> & Hrs). exists (toolResult tu r :: rs).
        rewrite <- app_assoc. split; [reflexivity|].
        constructor; [eexists; reflexivity|exact Hrs].
      * exact I.
      * destruct IH as (done & rs & -> & -> & Hrs).
        exists (tu :: done), (toolResult tu r :: rs). rewrite <- app_assoc.
        split; [reflexivity|]. split; [reflexivity|].
        constructor; [eexists; reflexivity|exact Hrs].
    + exists [], []. rewrite app_nil_r. split; [reflexivity|]. split; [reflexivity|].
      constructor.
Qed.

Lemma wellFormed_commit (s s0 : Session) (msgs : list Msg) :
  currentConversation s0 = currentConversation s ->
  exchange msgs -> wellFormedFlow s (commit msgs s0).
Proof.
  intros Hc He. unfold commit. destruct (recurringCheckCancelled s0); cbn [wellFormedFlow].
  - left. exact Hc.
  - right. exists msgs. split; [|exact He].
    change (currentConversation (set_currentConversation
                                   (currentConversation s0 ++ msgs) s0))
      with (currentConversation s0 ++ msgs).
    rewrite Hc. reflexivity.
Qed.

Lemma wellFormed_checkAfterTools (s s0 : Session) (round : nat) (msgs : list Msg)
    (isFirst : bool) (done todo : list ToolUse) (results : list Block) :
  currentConversation s0 = currentConversation s ->
  exchange msgs -> openCalls msgs (done ++ todo) -> Forall2 resultOf done results ->
  wellFormedFlow s
    (checkAfterTools round msgs isFirst
       (processTools recurringCheckCancelled todo results s0)).
Proof.
  intros Hc He Ho Hd.
  pose proof (processTools_results recurringCheckCancelled todo results s0) as Hres.
  pose proof (processTools_steady recurringCheckCancelled todo results s0) as Hst.
  apply steady_fields in Hst as (Hc' & _).
  destruct (processTools recurringCheckCancelled todo results s0)
    as [s' rs'|s' rs'|s' tu rest rs']; cbn [loopSession checkAfterTools] in *.
  - destruct Hres as (rs & -> & Hrs).
    assert (Hall : Forall2 resultOf (done ++ todo) (results ++ rs))
      by (apply Forall2_app; assumption).
    destruct (exchange_results msgs _ _ He Ho Hall) as (He' & Hu').
    destruct (round =? MAX_TOOL_ROUNDS).
    + apply wellFormed_commit; [congruence|exact He'].
    + destruct (recurringCheckCancelled s'); cbn [wellFormedFlow wellFormedCheck].
      * left. congruence.
      * split; assumption.
  - cbn [wellFormedFlow]. left. congruence.
  - destruct Hres as (done' & rs & -> & -> & Hrs).
    cbn [wellFormedFlow wellFormedCheck]. split; [exact He|].
    exists (done ++ done'). split.
    + rewrite <- app_assoc. exact Ho.
    + apply Forall2_app; assumption.
Qed.

Lemma wellFormed_checkTools (s s0 : Session) (round : nat) (msgs : list Msg)
    (isFirst : bool) (calls : list ToolUse) :
  currentConversation s0 = currentConversation s ->
  exchange msgs -> openCalls msgs calls ->
  wellFormedFlow s (checkTools round msgs isFirst calls s0).
Proof.
  intros Hc He Ho. unfold checkTools. destruct calls as [|tu rest].
  - apply wellFormed_commit; assumption.
  - apply (wellFormed_checkAfterTools s s0 round msgs isFirst [] (tu :: rest) []);
      [exact Hc|exact He|exact Ho|constructor].
Qed.

Lemma wellFormed_checkRound (s : Session) (round : nat) (msgs : list Msg)
    (isFirst : bool) (response : list Block) :
  exchange msgs -> endsWith user msgs ->
  existsb isToolResult response = false ->
  wellFormedFlow s (checkRound round msgs isFirst response s).
Proof.
  intros He Hu Hr. unfold checkRound.
  destruct (recurringCheckCancelled s); [left; reflexivity|].
  destruct (JsString.includes noGuidance (firstText response)); [left; reflexivity|].
  destruct (exchange_response msgs response He Hu Hr) as (He' & Ho').
  destruct (firstText response).
  - apply wellFormed_checkTools; [reflexivity|exact He'|exact Ho'].
  - cbn [wellFormedFlow wellFormedCheck]. split; assumption.
Qed.

Lemma exchange_prompt (uc : Content) :
  carriesToolResults (userTurn uc) = false ->
  exchange [userTurn uc] /\ endsWith user [userTurn uc].
Proof.
  intros H. split; [split|]; try reflexivity.
  unfold alternates. cbn [alternatesAfter]. rewrite H. reflexivity.
Qed.

(** A settled [await] of the check keeps the provisional turns well formed,
    and what it commits is an exchange. *)
Lemma wellFormed_resumeCheck (a : Await) (e : Event) (s : Session) (f : CheckFlow) :
  wellFormedCheck a -> plain e = true ->
  resumeCheck a e s = Some f -> wellFormedFlow s f.
Proof.
  intros Hw Hp.
  destruct a, e; simpl; try discriminate; intros [= <-];
    try (left; reflexivity); cbn [wellFormedCheck plain] in *.
  - unfold onCheckResponse. destruct (recurringCheckCancelled s); [left; reflexivity|].
    apply wellFormed_checkRound; [exact Hw|reflexivity|].
    apply negb_true_iff. exact Hp.
  - unfold checkAfterSpeak. destruct (recurringCheckCancelled s); [left; reflexivity|].
    destruct Hw as (He & Ho). apply wellFormed_checkTools; [reflexivity|exact He|exact Ho].
  - destruct Hw as (He & done & Ho & Hd). unfold resumeTools.
    pose proof (handleCreateTutorial_end_steady (inl t) s) as Hst.
    apply steady_fields in Hst as (Hc & _).
    destruct (handleCreateTutorial_end (inl t) s) as [s' r]. cbn [fst] in Hc.
    apply (wellFormed_checkAfterTools s s' round messagesToCommit isFirstText
             (done ++ [current]) todo); [exact Hc|exact He| |].
    + rewrite <- app_assoc. exact Ho.
    + apply Forall2_app; [exact Hd|]. constructor; [eexists; reflexivity|constructor].
  - destruct Hw as (He & done & Ho & Hd). unfold resumeTools.
    pose proof (handleCreateTutorial_end_steady (inr message) s) as Hst.
    apply steady_fields in Hst as (Hc & _).
    destruct (handleCreateTutorial_end (inr message) s) as [s' r]. cbn [fst] in Hc.
    apply (wellFormed_checkAfterTools s s' round messagesToCommit isFirstText
             (done ++ [current]) todo); [exact Hc|exact He| |].
    + rewrite <- app_assoc. exact Ho.
    + apply Forall2_app; [exact Hd|]. constructor; [eexists; reflexivity|constructor].
  - destruct Hw as (He & Hu). apply wellFormed_checkRound; [exact He|exact Hu|].
    apply negb_true_iff. exact Hp.
Qed.

Lemma wellFormed_main (a : Await) : inCheck a = false -> wellFormedCheck a.
Proof. destruct a; try discriminate; intros _; exact I. Qed.

Lemma WellFormed_finished (check : bool) (fs : list Frame) (s : Session) :
  WellFormed (finished check fs s).
Proof. unfold finished. destruct (hasPendingUserMessage s); exact I. Qed.

Lemma step_WellFormed (m m' : Machine) (e : Event) :
  Inv m -> WellFormed m -> plain e = true -> step m e = Some m' -> WellFormed m'.
Proof.
  destruct m as [s t]. intros (H1 & H2 & _) Hw Hp. cbn [sess task] in *.
  unfold WellFormed in Hw. cbn [task] in Hw.
  unfold step. cbn [sess task].
  destruct e.
  8-16: (destruct t as [[a fs]|]; [|discriminate]; intros Hr;
         destruct (inCheck a) eqn:Hin;
         [ unfold resume in Hr; rewrite Hin in Hr;
           destruct (resumeCheck a _ s) as [f|] eqn:Hf; [|discriminate];
           injection Hr as <-;
           pose proof (wellFormed_resumeCheck _ _ _ _ Hw Hp Hf) as Hflow;
           destruct f as [s' a'|s']; cbn [resolveCheck];
           [exact Hflow|rewrite finallyCheck_finished; apply WellFormed_finished]
         | destruct (resume_cases _ _ _ _ _ Hr)
             as (s' & _ & [(a' & -> & Ha)|[(_ & _ & ->)| ->]]);
           [ apply wellFormed_main; congruence | exact I | apply WellFormed_finished ] ]).
  all: try (destruct (config s) as [c0|]; [|discriminate]).
  - unfold startSession. cbn [sess task]. destruct (currentConversation s).
    + destruct t; [discriminate|]. intros [= <-]. unfold sendToClaudeAndSpeak.
      change (isProcessing (push sessionStart (set_config (Some c) s)))
        with (isProcessing s).
      rewrite (proj1 (H1 eq_refl)). exact I.
    + intros [= <-]. exact Hw.
  - intros [= <-]. exact Hw.
  - intros [= <-]. exact Hw.
  - intros [= <-]. exact Hw.
  - unfold onCommittedTranscript. cbn [sess task].
    destruct (JsString.blank text); [intros [= <-]; exact Hw|].
    destruct (isProcessing (recordUserTurn text now s)) eqn:Hp1.
    + intros [= <-]. exact Hw.
    + destruct t; [discriminate|]. intros [= <-]. unfold sendToClaudeAndSpeak.
      rewrite Hp1. exact I.
  - intros [= <-]. exact Hw.
  - unfold onTick. cbn [sess task]. destruct (config s) as [c|]; [|discriminate].
    destruct (recurringCheckInterval s); [|discriminate].
    destruct (checkDue c now s); [|intros [= <-]; exact Hw].
    destruct t; [discriminate|]. unfold beginCheck. intros [= <-].
    unfold WellFormed. cbn [task suspended wellFormedCheck].
    apply exchange_prompt, buildUserContent_plain.
Qed.

Lemma run_WellFormed (events : list Event) :
  forall m m',
    Inv m -> WellFormed m -> forallb plain events = true ->
    run m events = Some m' -> WellFormed m'.
Proof.
  induction events as [|e events IH]; intros m m' HI Hw Hp; cbn [run].
  - intros [= <-]. exact Hw.
  - cbn [forallb] in Hp. apply andb_prop in Hp as (Hp1 & Hp2).
    destruct (step m e) as [m1|] eqn:Hs; [|discriminate].
    apply IH; [eapply step_Inv; eassumption| |exact Hp2].
    eapply step_WellFormed; eassumption.
Qed.

Lemma provisional_exchange (a : Await) :
  inCheck a = true -> wellFormedCheck a -> exchange (provisional a).
Proof.
  destruct a; try discriminate; intros _; cbn [wellFormedCheck provisional];
    [auto|intros [H _]; exact H..].
Qed.

(** X21. What a recurring check appends to the history is an exchange.
    In a session whose responses hold no tool-result block, at every [await]
    of a check the provisional turns begin with the prompt turn of the check
    and alternate, every turn of tool results answering, one for one and in
    order, the tool-use blocks of the response before it.  When the pending
    [await] settles (no transcript with text arrives at that step, no message
    is queued), the history stays as it is, or the check ends and the history
    is extended by one exchange, which begins with the provisional turns. *)
Theorem check_appends_an_exchange (events : list Event) (m m' : Machine) (e : Event)
    (a : Await) (fs : list Frame) :
  run start events = Some m ->
  forallb plain events = true ->
  plain e = true ->
  spoken e = false ->
  task m = Some (a, fs) ->
  inCheck a = true ->
  hasPendingUserMessage (sess m) = false ->
  step m e = Some m' ->
  exchange (provisional a)
  /\ (currentConversation (sess m') = currentConversation (sess m)
      \/ (task m' = None
          /\ exists turns more,
               currentConversation (sess m') = currentConversation (sess m) ++ turns
               /\ exchange turns
               /\ turns = provisional a ++ more)).
Proof.
  intros Hrun Hall Hp Hsp Ht Hin Hpend Hs.
  assert (HI : Inv start) by (apply reachable_Inv; exists []; reflexivity).
  assert (Hw : WellFormed m).
  { apply (run_WellFormed events start m HI); [exact I|exact Hall|exact Hrun]. }
  destruct m as [s t]. cbn [sess task] in *. subst t.
  unfold WellFormed in Hw. cbn [task] in Hw.
  split; [apply provisional_exchange; assumption|].
  unfold step in Hs. cbn [sess task] in Hs.
  destruct e.
  8-16: (unfold resume in Hs; rewrite Hin in Hs;
         destruct (resumeCheck a _ s) as [f|] eqn:Hf; [|discriminate];
         injection Hs as <-;
         pose proof (wellFormed_resumeCheck _ _ _ _ Hw Hp Hf) as Hflow;
         pose proof (resumeCheck_atomic _ _ _ _ Hf) as (_ & Hat & _);
         pose proof (resumeCheck_grows _ _ _ _ Hf) as Hg;
         apply grows_fields in Hg as (_ & _ & _ & Hpend' & _);
         destruct f as [s' a'|s']; cbn [resolveCheck flowSession wellFormedFlow] in *;
         [ left; cbn [sess suspended]; apply Hat
         | rewrite finallyCheck_finished; unfold finished;
           rewrite Hpend', Hpend; cbn [sess task idle];
           destruct (settle_fields fs (released true s')) as (_ & _ & _ & Hconv & _);
           rewrite Hconv;
           change (currentConversation (released true s')) with (currentConversation s');
           destruct Hflow as [Hsame|(turns & Hturns & Hex)];
           [ left; exact Hsame
           | right; split; [reflexivity|];
             destruct Hat as [Hsame|(_ & more & Hmore)];
             [ exfalso; rewrite Hturns in Hsame;
               rewrite <- (app_nil_r (currentConversation s)) in Hsame at 2;
               apply app_inv_head in Hsame; subst turns;
               destruct Hex as [Hh _]; discriminate
             | exists turns, more; split; [exact Hturns|]; split; [exact Hex|];
               rewrite Hturns in Hmore; apply app_inv_head in Hmore; exact Hmore ] ] ]).
  all: left; cbn [spoken] in Hsp.
  all: try (destruct (config s) as [c0|]; [|discriminate]).
  - unfold startSession in Hs. cbn [sess task] in Hs.
    destruct (currentConversation s) eqn:Hconv; [discriminate|]. injection Hs as <-.
    cbn [sess]. rewrite <- Hconv. reflexivity.
  - injection Hs as <-. reflexivity.
  - injection Hs as <-. reflexivity.
  - injection Hs as <-. cbn [sess]. unfold onPartialTranscript.
    apply negb_false_iff in Hsp. rewrite Hsp. reflexivity.
  - unfold onCommittedTranscript in Hs. apply negb_false_iff in Hsp. rewrite Hsp in Hs.
    injection Hs as <-. reflexivity.
  - injection Hs as <-. cbn [sess]. unfold onTTSAudioChunk.
    destruct (interrupted s); reflexivity.
  - unfold onTick in Hs. cbn [sess task] in Hs.
    destruct (config s) as [c|]; [|discriminate].
    destruct (recurringCheckInterval s); [|discriminate].
    destruct (checkDue c now s); [discriminate|]. injection Hs as <-. reflexivity.
Qed.

Lemma check_appends_an_exchange_witness :
  run start tipCheck = Some tipSpoken
  /\ step tipSpoken EvTtsSent = Some tipCommitted
  /\ task tipCommitted = None
  /\ exists turns,
       currentConversation (sess tipCommitted)
       = currentConversation (sess tipSpoken) ++ turns
       /\ exchange turns.
Proof.
  assert (Hrun : run start tipCheck = Some tipSpoken) by (vm_compute; reflexivity).
  assert (Hs : step tipSpoken EvTtsSent = Some tipCommitted) by (vm_compute; reflexivity).
  assert (Hall : forallb plain tipCheck = true) by (vm_compute; reflexivity).
  assert (Ht : exists a fs, task tipSpoken = Some (a, fs) /\ inCheck a = true).
  { eexists. eexists. split; [vm_compute; reflexivity|reflexivity]. }
  destruct Ht as (a & fs & Ht & Hin).
  assert (Hpend : hasPendingUserMessage (sess tipSpoken) = false)
    by (vm_compute; reflexivity).
  destruct (check_appends_an_exchange tipCheck tipSpoken tipCommitted EvTtsSent a fs
              Hrun Hall eq_refl eq_refl Ht Hin Hpend Hs) as (_ & [Hsame|Hext]).
  - exfalso. vm_compute in Hsame. discriminate.
  - destruct Hext as (Htask & turns & more & Hturns & Hex & _).
    split; [exact Hrun|]. split; [exact Hs|]. split; [exact Htask|].
    exists turns. split; assumption.
Defined.

(** ** A check that is switched off never runs *)

Lemma requests_emits (os : list Output) (s : Session) :
  requestCount os = 0 -> requestCount (out (emits os s)) = requestCount (out s).
Proof.
  intros H. change (out (emits os s)) with (out s ++ os).
  rewrite requestCount_app, H. lia.
Qed.

Lemma requests_afterTools (loop : ToolLoop) :
  requestCount (out (mainSession (afterTools loop)))
  = requestCount (out (loopSession loop)).
Proof.
  destruct loop as [s rs|s rs|s tu rest rs]; cbn [afterTools loopSession];
    try destruct (interrupted s); reflexivity.
Qed.

Lemma requests_afterFlush (c : bool) (ft : string) (response : list Block) (s : Session) :
  requestCount (out (mainSession (afterFlush c ft response s))) = requestCount (out s).
Proof.
  unfold afterFlush.
  set (s2 := match ft with
             | "" => emits [TtsFlush; TtsCloseStream] s
             | _ => emit (SocketEmit (if c then agent_text_continue ft else agent_text ft))
                      (emits [TtsFlush; TtsCloseStream] s)
             end).
  assert (H2 : requestCount (out s2) = requestCount (out s)).
  { subst s2. destruct ft; [apply requests_emits; reflexivity|].
    change (emit ?o ?x) with (emits [o] x).
    rewrite !requests_emits; [reflexivity|reflexivity|destruct c; reflexivity]. }
  clearbody s2.
  destruct (toolUses response); [exact H2|].
  rewrite requests_afterTools, (requestCount_steady _ _ (processTools_steady _ _ _ _)).
  exact H2.
Qed.

(** The main cycle never calls [claude.getResponse]. *)
Lemma requests_resumeMain (a : Await) (e : Event) (s : Session) (f : MainFlow) :
  resumeMain a e s = Some f -> requestCount (out (mainSession f)) = requestCount (out s).
Proof.
  destruct a, e; simpl; try discriminate.
  - unfold onStreamText. destruct (interrupted s); intros [= <-]; [reflexivity|].
    apply requestCount_steady, steady_tame, handleTextChunkForTTS_steady.
  - unfold onStreamDone. destruct (interrupted s); [intros [= <-]; reflexivity|].
    destruct (JsString.blank (sentenceBuffer s)); intros [= <-].
    + apply requests_afterFlush.
    + cbn [mainSession]. apply (requests_emits [_]). reflexivity.
  - intros [= <-]. reflexivity.
  - intros [= <-]. rewrite requests_afterFlush. reflexivity.
  - intros [= <-]. reflexivity.
  - intros [= <-]. rewrite requests_afterTools.
    apply requestCount_steady, resumeTools_steady.
  - intros [= <-]. rewrite requests_afterTools.
    apply requestCount_steady, resumeTools_steady.
Qed.

Lemma requests_beginCycle (s : Session) :
  requestCount (out (beginCycle s)) = requestCount (out s).
Proof.
  destruct (beginCycle_fields s) as (_ & _ & _ & _ & _ & Hout).
  rewrite Hout, requestCount_app. unfold requestCount at 2. simpl. lia.
Qed.

Lemma requests_resolveMain (fs : list Frame) (f : MainFlow) :
  requestCount (out (sess (resolveMain fs f))) = requestCount (out (mainSession f)).
Proof.
  destruct f as [s' a'|s'|s']; cbn [resolveMain mainSession]; [reflexivity| |].
  - unfold sendToClaudeAndSpeak.
    change (isProcessing (set_isProcessing false s')) with false. cbv iota.
    cbn [sess suspended]. rewrite requests_beginCycle. reflexivity.
  - rewrite finallyMain_finished. apply finished_requests.
Qed.

(** With the check switched off, the callers that resume install no timer. *)
Lemma timer_settle (c : Config) (fs : list Frame) :
  recurringCheck_enabled c = false ->
  forall s, config s = Some c ->
    recurringCheckInterval (settle fs s) = recurringCheckInterval s.
Proof.
  intros Hoff. induction fs as [|k fs IH]; intros s Hc; [reflexivity|].
  destruct k; cbn [settle]; try (apply IH; exact Hc).
  - assert (Hs : startRecurringCheck s = s)
      by (unfold startRecurringCheck; rewrite Hc, Hoff; reflexivity).
    rewrite Hs, IH; [reflexivity|exact Hc].
  - rewrite IH; [reflexivity|exact Hc].
Qed.

Lemma timer_finished (c : Config) (check : bool) (fs : list Frame) (s : Session) :
  recurringCheck_enabled c = false -> config s = Some c ->
  recurringCheckInterval (sess (finished check fs s)) = recurringCheckInterval s.
Proof.
  intros Hoff Hc. unfold finished.
  assert (Hrel : config (released check s) = Some c
                 /\ recurringCheckInterval (released check s) = recurringCheckInterval s)
    by (destruct check; split; exact Hc || reflexivity).
  destruct Hrel as (Hc1 & Ht1).
  destruct (hasPendingUserMessage s).
  - rewrite <- Ht1. reflexivity.
  - cbn [sess idle]. rewrite (timer_settle c fs Hoff _ Hc1). exact Ht1.
Qed.

Lemma step_Unchecked (c : Config) (m m' : Machine) (e : Event) :
  recurringCheck_enabled c = false ->
  Unchecked c m -> step m e = Some m' -> Unchecked c m'.
Proof.
  intros Hoff (HS & Ht & Hk & Hn) Hs.
  split; [exact (step_StartedWith c m m' e HS Hs)|].
  destruct HS as (Hc & Hh).
  destruct m as [s t]. cbn [sess task] in *.
  unfold checkSuspended in Hk. cbn [task] in Hk.
  unfold step in Hs. cbn [sess task] in Hs.
  destruct e.
  8-16: (destruct t as [[a fs]|]; [|discriminate];
         pose proof (resume_cases _ _ _ _ _ Hs)
           as (s' & Hg & [(a' & Hm & Ha)|[(_ & _ & Hm)|Hm]]);
         apply grows_fields in Hg as (_ & _ & _ & _ & _ & Hc' & Ht');
         (split;
          [ subst m'; first [ exact (eq_trans Ht' Ht)
                            | rewrite (timer_finished c _ fs s' Hoff (eq_trans Hc' Hc));
                              exact (eq_trans Ht' Ht) ]
          | split;
            [ subst m'; first [ unfold checkSuspended; cbn [task suspended]; congruence
                              | reflexivity
                              | apply finished_requests ]
            | unfold resume in Hs; rewrite Hk in Hs;
              destruct (resumeMain a _ s) as [f|] eqn:Hf; [|discriminate];
              injection Hs as <-;
              rewrite requests_resolveMain, (requests_resumeMain _ _ _ _ Hf);
              exact Hn ] ])).
  all: rewrite ?Hc in Hs.
  - unfold startSession in Hs. cbn [sess task] in Hs.
    destruct (currentConversation s); [discriminate|]. injection Hs as <-.
    split; [exact Ht|]. split; [exact Hk|]. cbn [sess].
    change (emit ?o ?x) with (emits [o] x).
    rewrite requests_emits by reflexivity. exact Hn.
  - injection Hs as <-. auto.
  - injection Hs as <-. auto.
  - injection Hs as <-. cbn [sess]. split; [|split; [exact Hk|]].
    + unfold onPartialTranscript. destruct (JsString.blank text); [exact Ht|].
      destruct (_ || _); exact Ht.
    + unfold onPartialTranscript. destruct (JsString.blank text); [exact Hn|].
      destruct (_ || _); [|exact Hn].
      destruct (handleInterruption_fields s) as (_ & _ & _ & _ & _ & Hout).
      rewrite Hout, requestCount_app. unfold requestCount at 2. simpl. lia.
  - unfold onCommittedTranscript in Hs. cbn [sess task] in Hs.
    destruct (JsString.blank text); [injection Hs as <-; auto|].
    destruct (recordUserTurn_fields text now s) as (_ & _ & _ & _ & _ & Hout).
    assert (Ht1 : recurringCheckInterval (recordUserTurn text now s) = false).
    { destruct (recordUserTurn_more text now s) as (_ & _ & H). congruence. }
    assert (Hn1 : requestCount (out (recordUserTurn text now s)) = 0).
    { rewrite Hout, requestCount_app. unfold requestCount at 2. simpl. lia. }
    generalize dependent (recordUserTurn text now s). intros s1 Hs _ Ht1 Hn1.
    destruct (isProcessing s1) eqn:Hp1.
    + injection Hs as <-. auto.
    + destruct t; [discriminate|]. injection Hs as <-. unfold sendToClaudeAndSpeak.
      rewrite Hp1. cbn [sess suspended]. split; [exact Ht1|]. split; [reflexivity|].
      rewrite requests_beginCycle. exact Hn1.
  - injection Hs as <-. cbn [sess]. unfold onTTSAudioChunk.
    destruct (interrupted s); [auto|]. split; [exact Ht|]. split; [exact Hk|].
    change (out (set_isAgentCurrentlySpeaking true ?x)) with (out x).
    change (emit ?o ?x) with (emits [o] x).
    rewrite requests_emits by reflexivity. exact Hn.
  - unfold onTick in Hs. cbn [sess task] in Hs. rewrite Hc, Ht in Hs. discriminate.
Qed.

(** X22. A recurring check that is switched off never runs.  When the
    configuration of the session does not enable the recurring check, then
    whatever events follow [start_session], the timer is never installed (no
    tick is ever delivered), no check is ever running, and
    [claude.getResponse] is never called: the main cycle only streams. *)
Theorem disabled_check_never_runs (c : Config) (events : list Event) (m : Machine) :
  recurringCheck_enabled c = false ->
  run start (EvStartSession c :: events) = Some m ->
  recurringCheckInterval (sess m) = false
  /\ isRecurringCheckRunning (sess m) = false
  /\ requestCount (out (sess m)) = 0
  /\ existsb isTick events = false.
Proof.
  intros Hoff Hrun.
  assert (Hreach : reachable m) by (eexists; exact Hrun).
  cbn [run] in Hrun.
  assert (H1 : exists m1, step start (EvStartSession c) = Some m1 /\ Unchecked c m1).
  { eexists. split; [reflexivity|].
    unfold Unchecked, StartedWith. repeat split; reflexivity. }
  destruct H1 as (m1 & Hs1 & HU1). rewrite Hs1 in Hrun. clear Hs1.
  assert (H : Unchecked c m /\ existsb isTick events = false).
  { revert m1 HU1 Hrun. induction events as [|e events IH]; intros m1 HU1 Hrun.
    - injection Hrun as <-. auto.
    - cbn [run] in Hrun. destruct (step m1 e) as [m2|] eqn:Hs; [|discriminate].
      destruct (IH m2 (step_Unchecked c m1 m2 e Hoff HU1 Hs) Hrun) as (HU & Hno).
      split; [exact HU|]. cbn [existsb]. rewrite Hno, orb_false_r.
      destruct e; try reflexivity.
      destruct HU1 as ((Hc & _) & Ht & _). destruct m1 as [s1 t1].
      unfold step, onTick in Hs. cbn [sess task] in *. rewrite Hc, Ht in Hs.
      discriminate. }
  destruct H as ((_ & Ht & Hk & Hn) & Hno).
  split; [exact Ht|]. split; [|split; [exact Hn|exact Hno]].
  rewrite (reachable_Excl m Hreach). exact Hk.
Qed.

Lemma disabled_check_never_runs_witness :
  exists m,
    run start (EvStartSession uncheckedConfig :: uncheckedSession) = Some m
    /\ latestFrame (sess m) = Some "frame"
    /\ task m = None
    /\ recurringCheckInterval (sess m) = false
    /\ requestCount (out (sess m)) = 0.
Proof.
  eexists. split; [vm_compute; reflexivity|].
  split; [reflexivity|]. split; [reflexivity|].
  destruct (disabled_check_never_runs uncheckedConfig uncheckedSession _ eq_refl eq_refl)
    as (Ht & _ & Hn & _).
  split; [exact Ht|exact Hn].
Defined.

(** ** Every streaming request carries a prepared history *)

Lemma prepared_mild (os : list Output) :
  forallb mild os = true -> Forall preparedRequest os.
Proof.
  induction os as [|o os IH]; [constructor|]. cbn [forallb]. intros H.
  apply andb_prop in H as (Ho & Hos). constructor; [|exact (IH Hos)].
  destruct o; try exact I. discriminate.
Qed.

Lemma prepared_beginCycle (s : Session) :
  Forall preparedRequest (out s) -> Forall preparedRequest (out (beginCycle s)).
Proof.
  intros H. destruct (beginCycle_fields s) as (_ & _ & _ & _ & Hconv & Hout).
  rewrite Hout, Hconv. apply Forall_app. split; [exact H|].
  constructor; [|constructor]. split.
  - rewrite pruneOldImages_paired. apply sanitizeConversation_paired.
  - apply pruneOldImages_count.
Qed.

Lemma prepared_grows (s s' : Session) :
  grows s s' -> Forall preparedRequest (out s) -> Forall preparedRequest (out s').
Proof.
  intros (_ & _ & os & -> & Hq) H. apply Forall_app. split; [exact H|].
  apply prepared_mild, Hq.
Qed.

Lemma prepared_finished (check : bool) (fs : list Frame) (s : Session) :
  Forall preparedRequest (out s) ->
  Forall preparedRequest (out (sess (finished check fs s))).
Proof.
  intros H. unfold finished.
  assert (Hrel : out (released check s) = out s) by (destruct check; reflexivity).
  destruct (hasPendingUserMessage s).
  - unfold freshCycle. cbn [sess suspended]. apply prepared_beginCycle.
    change (out (set_hasPendingUserMessage false (released check s)))
      with (out (released check s)).
    rewrite Hrel. exact H.
  - cbn [sess idle].
    destruct (settle_fields fs (released check s)) as (_ & _ & _ & _ & os & -> & Hq).
    apply Forall_app. rewrite Hrel. split; [exact H|]. apply prepared_mild, Hq.
Qed.

Lemma step_prepared (m m' : Machine) (e : Event) :
  Inv m -> Forall preparedRequest (out (sess m)) -> step m e = Some m' ->
  Forall preparedRequest (out (sess m')).
Proof.
  destruct m as [s t]. intros (H1 & _) HP. cbn [sess task] in *.
  unfold step. cbn [sess task].
  destruct e.
  8-16: (destruct t as [[a fs]|]; [|discriminate]; intros Hr;
         destruct (resume_cases _ _ _ _ _ Hr)
           as (s' & Hg & [(a' & -> & _)|[(_ & _ & ->)| ->]]);
         pose proof (prepared_grows _ _ Hg HP) as HP';
         [ exact HP'
         | unfold continued; cbn [sess suspended]; apply prepared_beginCycle; exact HP'
         | apply prepared_finished; exact HP' ]).
  all: try (destruct (config s) as [c0|]; [|discriminate]).
  - unfold startSession. cbn [sess task]. destruct (currentConversation s).
    + destruct t; [discriminate|]. intros [= <-]. unfold sendToClaudeAndSpeak.
      change (isProcessing (push sessionStart (set_config (Some c) s)))
        with (isProcessing s).
      rewrite (proj1 (H1 eq_refl)). cbn [sess suspended].
      apply prepared_beginCycle. exact HP.
    + intros [= <-]. cbn [sess]. change (out (emit ?o s)) with (out s ++ [o]).
      apply Forall_app. split; [exact HP|]. constructor; [exact I|constructor].
  - intros [= <-]. exact HP.
  - intros [= <-]. exact HP.
  - intros [= <-]. cbn [sess]. unfold onPartialTranscript.
    destruct (JsString.blank text); [exact HP|].
    destruct (_ || _); [|exact HP].
    destruct (handleInterruption_fields s) as (_ & _ & _ & _ & _ & Hout).
    rewrite Hout. apply Forall_app. split; [exact HP|].
    repeat constructor.
  - unfold onCommittedTranscript. cbn [sess task].
    destruct (JsString.blank text); [intros [= <-]; exact HP|].
    assert (HP1 : Forall preparedRequest (out (recordUserTurn text now s))).
    { destruct (recordUserTurn_fields text now s) as (_ & _ & _ & _ & _ & Hout).
      rewrite Hout. apply Forall_app. split; [exact HP|]. repeat constructor. }
    generalize dependent (recordUserTurn text now s). intros s1 HP1.
    destruct (isProcessing s1) eqn:Hp1.
    + intros [= <-]. exact HP1.
    + destruct t; [discriminate|]. intros [= <-]. unfold sendToClaudeAndSpeak.
      rewrite Hp1. cbn [sess suspended]. apply prepared_beginCycle. exact HP1.
  - intros [= <-]. cbn [sess]. unfold onTTSAudioChunk.
    destruct (interrupted s); [exact HP|].
    change (out (set_isAgentCurrentlySpeaking true ?x)) with (out x).
    change (out (emit ?o s)) with (out s ++ [o]).
    apply Forall_app. split; [exact HP|]. constructor; [exact I|constructor].
  - unfold onTick. cbn [sess task]. destruct (config s) as [c|]; [|discriminate].
    destruct (recurringCheckInterval s); [|discriminate].
    destruct (checkDue c now s); [|intros [= <-]; exact HP].
    destruct t; [discriminate|].
    destruct (beginCheck_fields c s) as (_ & _ & _ & (msgs & Hout)).
    destruct (beginCheck c s) as [s' a]. cbn [fst] in Hout. intros [= <-].
    cbn [sess suspended]. rewrite Hout. apply Forall_app. split; [exact HP|].
    constructor; [exact I|constructor].
Qed.

(** X23. Every streaming request carries a prepared history.  In every
    reachable state, each history handed to [claude.getStreamingResponse] so
    far holds no orphaned tool call (every assistant turn with a tool-use
    block is followed by a turn of tool results) and at most
    [MAX_CONTEXT_IMAGES] turns that bear an image: no main cycle, be it the
    first one, a continuation after tools or one started from a [finally]
    block, issues its request without the two passes. *)
Theorem stream_requests_prepared (m : Machine) :
  reachable m ->
  Forall preparedRequest (out (sess m)).
Proof.
  intros [events Hrun].
  assert (H : forall evs m0 m1,
            Inv m0 -> Forall preparedRequest (out (sess m0)) ->
            run m0 evs = Some m1 -> Forall preparedRequest (out (sess m1))).
  { induction evs as [|e evs IH]; intros m0 m1 HI HP; cbn [run].
    - intros [= <-]. exact HP.
    - destruct (step m0 e) as [m2|] eqn:Hs; [|discriminate].
      apply IH; [eapply step_Inv; eassumption|eapply step_prepared; eassumption]. }
  apply (H events start m); [|constructor|exact Hrun].
  apply reachable_Inv. exists []. reflexivity.
Qed.

Lemma stream_requests_prepared_witness :
  reachable afterTwelveFrames
  /\ imageCount (currentConversation (sess afterTwelveFrames)) = 10
  /\ length (streamRequests (out (sess afterTwelveFrames))) = 13
  /\ Forall preparedRequest (out (sess afterTwelveFrames)).
Proof.
  assert (Hr : reachable afterTwelveFrames)
    by (exists twelveFrames; vm_compute; reflexivity).
  split; [exact Hr|]. split; [vm_compute; reflexivity|].
  split; [vm_compute; reflexivity|].
  exact (stream_requests_prepared afterTwelveFrames Hr).
Defined.

(** ** ElevenLabsSTT: disconnect is final *)

Module ElevenLabsSTTFacts.
Import ElevenLabsSTT.

Lemma step_shutDown (t : State) (a : Action) :
  shutDown t -> isConnect a = false ->
  shutDown (step t a)
  /\ created (step t a) = created t
  /\ exists more, effects (step t a) = effects t ++ more /\ forallb passive more = true.
Proof.
  intros (Hws & Hre & Hti) Ha.
  assert (Hsame : shutDown t /\ created t = created t
                  /\ exists more, effects t = effects t ++ more
                                  /\ forallb passive more = true).
  { split; [split; [exact Hws|split; [exact Hre|exact Hti]]|].
    split; [reflexivity|]. exists []. rewrite app_nil_r. auto. }
  destruct a as [|data| |k e|id]; cbn [step isConnect] in *.
  - discriminate.
  - unfold sendAudio. rewrite Hws. exact Hsame.
  - unfold disconnect. destruct (reconnectTimer t) as [id|]; cbn [ws]; rewrite Hws.
    + split; [split; [reflexivity|split; [reflexivity|]]|].
      * cbn [timers]. rewrite Hti. reflexivity.
      * split; [reflexivity|]. exists [ClearTimeout id]. auto.
    + split; [split; [reflexivity|split; [reflexivity|exact Hti]]|].
      split; [reflexivity|]. exists []. cbn [effects]. rewrite app_nil_r. auto.
  - destruct (k <? created t); [|exact Hsame].
    destruct e as [|m| |]; cbn [listener].
    + split; [split; [exact Hws|split; [exact Hre|exact Hti]]|].
      split; [reflexivity|]. exists []. cbn [effects onOpen]. rewrite app_nil_r. auto.
    + unfold onMessage. destruct m as [msg|]; [|exact Hsame].
      destruct (String.eqb (message_type msg) "partial_transcript").
      { destruct (text msg) as [[|c x]|]; try exact Hsame.
        split; [split; [exact Hws|split; [exact Hre|exact Hti]]|].
        split; [reflexivity|]. eexists. split; [reflexivity|reflexivity]. }
      destruct (String.eqb (message_type msg) "committed_transcript"); [|exact Hsame].
      destruct (text msg) as [[|c x]|]; try exact Hsame.
      split; [split; [exact Hws|split; [exact Hre|exact Hti]]|].
      split; [reflexivity|]. eexists. split; [reflexivity|reflexivity].
    + unfold onClose. rewrite Hre.
      split; [split; [reflexivity|split; [reflexivity|exact Hti]]|].
      split; [reflexivity|]. exists []. cbn [effects]. rewrite app_nil_r. auto.
    + exact Hsame.
  - rewrite Hti. exact Hsame.
Qed.

Lemma run_shutDown (actions : list Action) :
  forall t, shutDown t -> forallb (fun a => negb (isConnect a)) actions = true ->
    shutDown (run t actions)
    /\ created (run t actions) = created t
    /\ exists more, effects (run t actions) = effects t ++ more
                    /\ forallb passive more = true.
Proof.
  induction actions as [|a actions IH]; intros t Ht Hall.
  - split; [exact Ht|]. split; [reflexivity|]. exists []. rewrite app_nil_r. auto.
  - cbn [forallb] in Hall. apply andb_prop in Hall as (Ha & Hall).
    apply negb_true_iff in Ha.
    destruct (step_shutDown t a Ht Ha) as (Ht1 & Hc1 & more1 & Hm1 & Hp1).
    destruct (IH (step t a) Ht1 Hall) as (Ht2 & Hc2 & more2 & Hm2 & Hp2).
    change (run t (a :: actions)) with (run (step t a) actions).
    split; [exact Ht2|]. split; [congruence|]. exists (more1 ++ more2).
    rewrite Hm2, Hm1, <- app_assoc, forallb_app, Hp1, Hp2. auto.
Qed.

Lemma disconnect_shutDown (t : State) :
  (forall id, In id (timers t) -> reconnectTimer t = Some id) ->
  shutDown (disconnect t).
Proof.
  intros Hone. unfold disconnect, shutDown.
  destruct (reconnectTimer t) as [id|] eqn:Hr.
  - assert (Hnone : List.filter (fun j => negb (j =? id)) (timers t) = []).
    { induction (timers t) as [|j l IH]; [reflexivity|]. cbn [List.filter].
      assert (Hj : j = id).
      { specialize (Hone j (or_introl eq_refl)). congruence. }
      subst j. rewrite Nat.eqb_refl. cbn [negb]. apply IH.
      intros k Hk. apply Hone. right. exact Hk. }
    cbn [ws]. destruct (ws t); cbn [ws shouldReconnect timers]; auto.
  - assert (Hnone : timers t = []).
    { destruct (timers t) as [|j l]; [reflexivity|].
      specialize (Hone j (or_introl eq_refl)). discriminate. }
    cbn [ws]. destruct (ws t); cbn [ws shouldReconnect timers]; auto.
Qed.

(** X24. [disconnect] is final, unless a stale timer is pending.  When
    every pending reconnect timer is the one the client remembers in
    [reconnectTimer], [disconnect] leaves the client with no socket, with
    [shouldReconnect] cleared and no timer pending; and as long as [connect]
    is not called again, whatever the sockets deliver and whatever fires, no
    socket is created, no timer is set and no audio is sent: a late [close]
    of the socket does not reconnect.  The listeners stay on the socket, so
    transcripts it still delivers are passed on. *)
Theorem disconnect_is_final (t : State) (actions : list Action) :
  (forall id, In id (timers t) -> reconnectTimer t = Some id) ->
  forallb (fun a => negb (isConnect a)) actions = true ->
  let t1 := disconnect t in
  let t2 := run t1 actions in
  ws t2 = None /\ shouldReconnect t2 = false /\ timers t2 = []
  /\ created t2 = created t
  /\ exists more, effects t2 = effects t1 ++ more /\ forallb passive more = true.
Proof.
  intros Hone Hall t1 t2.
  pose proof (disconnect_shutDown t Hone) as H1. fold t1 in H1.
  destruct (run_shutDown actions t1 H1 Hall) as ((Hws & Hre & Hti) & Hc & Hmore).
  fold t2 in Hws, Hre, Hti, Hc, Hmore.
  split; [exact Hws|]. split; [exact Hre|]. split; [exact Hti|].
  split; [|exact Hmore]. rewrite Hc. subst t1. unfold disconnect.
  destruct (reconnectTimer t); cbn [ws]; destruct (ws t); reflexivity.
Qed.

Lemma disconnect_is_final_witness :
  timers reconnecting = [0]
  /\ created (run (disconnect reconnecting) lateArrivals) = 1
  /\ ws (run (disconnect reconnecting) lateArrivals) = None
  /\ exists more,
       effects (run (disconnect reconnecting) lateArrivals)
       = effects (disconnect reconnecting) ++ more
       /\ forallb passive more = true.
Proof.
  assert (Hone : forall id, In id (timers reconnecting) ->
                            reconnectTimer reconnecting = Some id).
  { intros id Hin. cbn in Hin. destruct Hin as [<-|[]]. reflexivity. }
  destruct (disconnect_is_final reconnecting lateArrivals Hone eq_refl)
    as (Hws & _ & _ & Hc & Hmore).
  split; [reflexivity|]. split; [exact Hc|]. split; [exact Hws|exact Hmore].
Defined.

Lemma step_recovering (t : State) (a : Action) :
  recovering t -> recovering (step t a).
Proof.
  unfold recovering. destruct t as [w c sr rt ti cr sc ef]. cbn [shouldReconnect ws timers].
  intros H.
  destruct a as [|data| |k e|id]; cbn [step created timers].
  - unfold connect. cbn [ws]. destruct w; cbn [ws shouldReconnect timers];
      [exact H|discriminate].
  - unfold sendAudio. cbn [ws connected]. destruct w; [|exact H].
    destruct c; exact H.
  - unfold disconnect. cbn [reconnectTimer ws]. destruct rt; cbn [ws]; destruct w;
      cbn [shouldReconnect]; discriminate.
  - destruct (k <? cr); [|exact H].
    destruct e as [|m| |]; cbn [listener]; try exact H.
    + unfold onMessage. destruct m as [msg|]; [|exact H].
      destruct (String.eqb (message_type msg) "partial_transcript").
      { destruct (text msg) as [[|ch x]|]; exact H. }
      destruct (String.eqb (message_type msg) "committed_transcript"); [|exact H].
      destruct (text msg) as [[|ch x]|]; exact H.
    + unfold onClose. cbn [shouldReconnect]. destruct sr; cbn [shouldReconnect timers].
      * intros _ _ Hnil. apply app_eq_nil in Hnil as [_ Hnil]. discriminate.
      * discriminate.
  - destruct (existsb (Nat.eqb id) ti); [|exact H].
    unfold onTimeout, connect. cbn [ws]. destruct w; cbn [ws]; discriminate.
Qed.

Lemma reachable_recovering (t : State) : reachable t -> recovering t.
Proof.
  intros [actions ->].
  assert (H : forall l t0, recovering t0 -> recovering (run t0 l)).
  { induction l as [|a l IH]; intros t0 H0; [exact H0|].
    change (run t0 (a :: l)) with (run (step t0 a) l).
    apply IH, step_recovering, H0. }
  apply H. unfold recovering. discriminate.
Qed.

(** X25. The client never gets stuck without a socket.  In every state
    the client can reach in which it is to stay connected
    ([shouldReconnect]) and holds no socket, a reconnect timer is pending;
    when it fires, [connect] opens one new socket, and firing again opens no
    second one. *)
Theorem reconnect_is_pending (t : State) :
  reachable t ->
  shouldReconnect t = true ->
  ws t = None ->
  exists id,
    In id (timers t)
    /\ ws (step t (Timeout id)) = Some (created t)
    /\ effects (step t (Timeout id)) = effects t ++ [NewSocket (created t)]
    /\ ws (step (step t (Timeout id)) (Timeout id)) = Some (created t).
Proof.
  intros Hr Hre Hws.
  pose proof (reachable_recovering t Hr Hre Hws) as Hti.
  destruct (timers t) as [|id l] eqn:Ht; [contradiction|].
  exists id. split; [left; reflexivity|].
  assert (Hs : step t (Timeout id)
               = {| ws := Some (created t); connected := connected t;
                    shouldReconnect := true; reconnectTimer := reconnectTimer t;
                    timers := List.filter (fun j => negb (j =? id)) (timers t);
                    created := S (created t); scheduled := scheduled t;
                    effects := effects t ++ [NewSocket (created t)] |}).
  { cbn [step]. rewrite Ht. cbn [existsb]. rewrite Nat.eqb_refl. cbn [orb].
    unfold onTimeout, connect. cbn [ws]. rewrite Hws, Ht. reflexivity. }
  rewrite Hs. split; [reflexivity|]. split; [reflexivity|].
  cbn [step timers]. destruct (existsb _ _); [|reflexivity].
  unfold onTimeout, connect. reflexivity.
Qed.

Lemma reconnect_is_pending_witness :
  reachable reconnecting
  /\ exists id,
       In id (timers reconnecting)
       /\ ws (step reconnecting (Timeout id)) = Some 1.
Proof.
  assert (Hr : reachable reconnecting).
  { exists [Connect; Event 0 WsOpen; SendAudio "pcm"; Event 0 WsClosed].
    vm_compute. reflexivity. }
  split; [exact Hr|].
  destruct (reconnect_is_pending reconnecting Hr eq_refl eq_refl) as (id & Hin & Hws & _).
  exists id. split; [exact Hin|exact Hws].
Defined.

End ElevenLabsSTTFacts.
